(** * Image-rendition reconciliation and grouping engine

    A shallow embedding of the data-reconciliation core of
    [src/ImageComparison.jsx]: the normalization helpers, candidate
    extraction, POV grouping and rendition assembly, the original-image
    index, the comparison-group builder, the aggregate metrics engine and
    the alignment validator, followed by the properties proved about them.

    Conventions of the embedding.
    - JavaScript strings are Rocq [string]s (ASCII): [trim] removes the
      ASCII white space characters and [toLowerCase] folds [A-Z].
    - A raw text field is a [jsval]: [undefined], [null] or a string.
    - Numbers are exact: rendition numbers and action counters are
      integers ([Z]), of either sign, and the means of the metrics engine
      are rationals ([Q]).  A raw number that is not finite ([NaN], an
      infinity, a text that is no number) is kept as a separate case.
    - A JavaScript object or [Map] used as an insertion-ordered dictionary
      is an association list; an array is a list.
    - [Array.prototype.sort] is stable; it is embedded as a stable
      insertion sort driven by the comparator of the call site.
    - [String.prototype.localeCompare] depends on the host; it is a
      parameter of the pipeline, and the properties that need it assume a
      strict total order.
    - Fields that only feed the display (the vehicle information, the row
      label and the trend arrows) are left out. *)

From Stdlib Require Import List String Ascii Bool ZArith NArith QArith Lia Lqa.
From Stdlib Require Import Qabs Sorted Permutation.
Import ListNotations.

Local Open Scope string_scope.
Local Open Scope Z_scope.

(** ** JavaScript values and string primitives *)

Inductive jsval : Type :=
| JUndefined
| JNull
| JStr (s : string).

(** [v || ""] on a text field, then [String(...)]. *)
Definition orEmpty (v : jsval) : string :=
  match v with
  | JStr s => s
  | _ => ""
  end.

(** Truthiness of a text field: a non-empty string. *)
Definition nonEmpty (s : string) : bool :=
  match s with
  | EmptyString => false
  | String _ _ => true
  end.

Definition truthy (v : jsval) : bool := nonEmpty (orEmpty v).

(** Truthiness of a nullable string ([null] or a string). *)
Definition truthyOpt (o : option string) : bool :=
  match o with
  | Some s => nonEmpty s
  | None => false
  end.

(** [o || d] on a nullable string. *)
Definition orElse (o : option string) (d : string) : string :=
  match o with
  | Some s => if nonEmpty s then s else d
  | None => d
  end.

Definition is_space (c : ascii) : bool :=
  let n := nat_of_ascii c in
  (Nat.eqb n 32 || (Nat.leb 9 n && Nat.leb n 13))%bool.

Fixpoint trimStart (s : string) : string :=
  match s with
  | EmptyString => EmptyString
  | String c s' => if is_space c then trimStart s' else s
  end.

Fixpoint trimEnd (s : string) : string :=
  match s with
  | EmptyString => EmptyString
  | String c s' =>
      let t := trimEnd s' in
      if (is_space c && negb (nonEmpty t))%bool then EmptyString
      else String c t
  end.

Definition trim (s : string) : string := trimEnd (trimStart s).

Definition lower_ascii (c : ascii) : ascii :=
  let n := nat_of_ascii c in
  if (Nat.leb 65 n && Nat.leb n 90)%bool then ascii_of_nat (n + 32) else c.

Fixpoint toLowerCase (s : string) : string :=
  match s with
  | EmptyString => EmptyString
  | String c s' => String (lower_ascii c) (toLowerCase s')
  end.

Definition startsWith (s p : string) : bool := String.prefix p s.

Fixpoint includes (s sub : string) : bool :=
  (String.prefix sub s ||
   match s with
   | EmptyString => false
   | String _ s' => includes s' sub
   end)%bool.

(** ** Helpers (lines 75-140 of the source) *)

(** A value of [actionsCounterMap]: one that [Number] reads as an
    integer, of either sign, or one it turns into [NaN].  The counters are
    whole numbers of actions; a value with a fractional part is outside
    the embedding, like the rounding of the doubles that carry it. *)
Inductive actval : Type :=
| ANum (n : Z)
| ANotNumeric.

(** [Number(b) || 0] *)
Definition numberOrZero (b : actval) : Z :=
  match b with
  | ANum n => n
  | ANotNumeric => 0
  end.

Definition ActionMap := list (string * actval).

Definition sumActionMap (m : option ActionMap) : Z :=
  match m with
  | None => 0
  | Some kv => fold_left (fun a b => a + numberOrZero b) (map snd kv) 0
  end.

Definition safeUrl (u : jsval) : option string :=
  match u with
  | JStr s => if nonEmpty (trim s) then Some (trim s) else None
  | _ => None
  end.

(** [safeUrl] applied to an already nullable string. *)
Definition safeUrlOpt (u : option string) : option string :=
  match u with
  | Some s => safeUrl (JStr s)
  | None => None
  end.

Definition safeText (v : option string) : string :=
  match v with
  | None => "N/A"
  | Some s => if nonEmpty (trim s) then trim s else "N/A"
  end.

Definition jsOpt (v : jsval) : option string :=
  match v with
  | JStr s => Some s
  | _ => None
  end.

Definition norm (s : jsval) : string := toLowerCase (trim (orEmpty s)).

Definition normCam (cam : jsval) : option string :=
  let c := norm cam in
  if startsWith c "front" then Some "front"
  else if startsWith c "rear" then Some "rear"
  else if startsWith c "center" then Some "center"
  else if nonEmpty c then Some c else None.

Definition normSide (side : jsval) : option string :=
  let s := norm side in
  if startsWith s "left" then Some "left"
  else if startsWith s "right" then Some "right"
  else if startsWith s "center" then Some "center"
  else if nonEmpty s then Some s else None.

Definition isSlimOverview (imageType : jsval) : bool :=
  String.eqb (norm imageType) "slimoverview".

Definition isZoomer (imageType : jsval) : bool :=
  includes (norm imageType) "zoomer".

Definition isAllowedType (imageType : jsval) : bool :=
  (isSlimOverview imageType || isZoomer imageType)%bool.

(** ** Data model *)

Record POV : Type := mkPOV {
  simulatedCamera : jsval;
  simulatedCameraSide : jsval;
  serialNumber : option Z;
  originalCameraId : jsval
}.

(** A raw numeric field: absent, a finite number, or a value whose
    [Number(...)] is not finite. *)
Inductive jsnum : Type :=
| NumAbsent
| NumFinite (z : Z)
| NumNotFinite.

Record RawImageEntry : Type := mkRaw {
  imageType : jsval;
  pov : option POV;
  rendition : jsnum;
  activeImage : jsval;
  originalImage : jsval;
  originalImageUrl : jsval;
  originalImageWithBackground : jsval;
  originalImageWithoutBackground : jsval;
  status : jsval;
  isActive : bool;
  actionsCounterMap : option ActionMap
}.

Record UvpaintData : Type := mkData {
  images : list RawImageEntry;
  uvpaintHistoryImages : list RawImageEntry
}.

Record Inspection : Type := mkInspection {
  inspectionId : string;
  uvpaintData : option UvpaintData
}.

Record Candidate : Type := mkCandidate {
  c_imageType : string;
  c_bucketType : string;
  c_status : string;
  c_activeImage : option string;
  c_originalImage : option string;
  c_image : option string;
  c_source : string;
  c_actions : Z;
  c_isActive : bool;
  c_pov : POV
}.

Definition pickOriginalUrl (obj : RawImageEntry) : option string :=
  let candidates :=
    [ originalImage obj;
      originalImageUrl obj;
      originalImageWithBackground obj;
      originalImageWithoutBackground obj ] in
  match find (fun u => nonEmpty (trim (orEmpty u))) candidates with
  | Some u => Some (trim (orEmpty u))
  | None => None
  end.

Definition isArtemis (imageType : jsval) : bool :=
  match imageType with
  | JStr s => String.eqb s "Artemis"
  | _ => false
  end.

Definition isPublishedUvpaint (img : RawImageEntry) : bool :=
  (isActive img
   && truthy (activeImage img)
   && (match pov img with Some _ => true | None => false end)
   && negb (isArtemis (imageType img))
   && isAllowedType (imageType img))%bool.

Definition scoreCandidate (c : Candidate) : Z :=
  let hasActive := truthyOpt (c_activeImage c) in
  let isActive := c_isActive c in
  let src := if nonEmpty (c_source c) then c_source c else "N/A" in
  let srcPriority :=
    if String.eqb src "images" then 30
    else if String.eqb src "uvpaintHistoryImages" then 10 else 0 in
  (if hasActive then 100 else 0) + (if isActive then 40 else 0) + srcPriority.

(** ** Insertion-ordered dictionaries and the stable sort *)

Section Dictionary.
Context {K V : Type}.
Variable keq : K -> K -> bool.

Fixpoint lookup (k : K) (d : list (K * V)) : option V :=
  match d with
  | [] => None
  | (k', v) :: d' => if keq k k' then Some v else lookup k d'
  end.

(** Assignment [d[k] = v]: an existing key keeps its place, a new key
    goes last. *)
Fixpoint assign (k : K) (v : V) (d : list (K * V)) : list (K * V) :=
  match d with
  | [] => [(k, v)]
  | (k', v') :: d' =>
      if keq k k' then (k, v) :: d' else (k', v') :: assign k v d'
  end.
End Dictionary.

Section StableSort.
Context {A : Type}.
(** [after a b] holds when the comparator of the call site is positive
    on [(a, b)]: [a] has to come after [b]. *)
Variable after : A -> A -> bool.

Fixpoint insert (x : A) (l : list A) : list A :=
  match l with
  | [] => [x]
  | y :: l' => if after x y then y :: insert x l' else x :: l
  end.

Definition stableSort (l : list A) : list A := fold_right insert [] l.
End StableSort.

(** [Set.prototype.add] on an insertion-ordered set of strings. *)
Definition setAdd (x : string) (s : list string) : list string :=
  if existsb (String.eqb x) s then s else (s ++ [x])%list.

(** ** Candidate extraction and POV grouping *)

Record Row : Type := mkRow {
  r_bucketType : string;
  r_pov : POV;
  r_renditions : list (Z * list Candidate);
  r_sourcesSet : list string
}.

Definition RowsByKey := list (string * Row).

Definition createPOVKey (bucketType : string) (p : POV) : string :=
  let cam := orElse (normCam (simulatedCamera p)) "na" in
  let side := orElse (normSide (simulatedCameraSide p)) "na" in
  bucketType ++ "_" ++ cam ++ "_" ++ side.

Definition bucketTypeOf (imageType : jsval) : option string :=
  if isSlimOverview imageType then Some "SlimOverview"
  else if isZoomer imageType then Some "Zoomer"
  else None.

Definition ensureRow (key bucketType : string) (p : POV)
    (rowsByKey : RowsByKey) : RowsByKey :=
  match lookup String.eqb key rowsByKey with
  | Some _ => rowsByKey
  | None => assign String.eqb key (mkRow bucketType p [] []) rowsByKey
  end.

(** [Number.isFinite(Number(rendition)) ? Number(rendition) : null] *)
Definition finiteNumber (r : jsnum) : option Z :=
  match r with
  | NumFinite z => Some z
  | _ => None
  end.

(** [rendition ?? d] *)
Definition renditionOr (r : jsnum) (d : Z) : jsnum :=
  match r with
  | NumAbsent => NumFinite d
  | _ => r
  end.

Record PutArgs : Type := mkPut {
  p_imageType : jsval;
  p_pov : option POV;
  p_rendition : jsnum;
  p_activeImage : jsval;
  p_status : jsval;
  p_source : string;
  p_actions : Z;
  p_originalImage : option string;
  p_isActive : bool
}.

Definition mkCandidateOf (a : PutArgs) (bucketType : string) (p : POV)
  : Candidate :=
  {| c_imageType := if truthy (p_imageType a) then orEmpty (p_imageType a)
                    else "N/A";
     c_bucketType := bucketType;
     c_status := if truthy (p_status a) then orEmpty (p_status a) else "N/A";
     c_activeImage := safeUrl (p_activeImage a);
     c_originalImage := safeUrlOpt (p_originalImage a);
     c_image := safeUrl (p_activeImage a);
     c_source := if nonEmpty (p_source a) then p_source a else "N/A";
     c_actions := p_actions a;
     c_isActive := p_isActive a;
     c_pov := p |}.

(** [row.renditions[rNum] || []] *)
Definition renditionsAt (rNum : Z) (row : Row) : list Candidate :=
  match lookup Z.eqb rNum (r_renditions row) with
  | Some arr => arr
  | None => []
  end.

Definition pushCandidate (rNum : Z) (c : Candidate) (row : Row) : Row :=
  {| r_bucketType := r_bucketType row;
     r_pov := r_pov row;
     r_renditions :=
       assign Z.eqb rNum (renditionsAt rNum row ++ [c])%list (r_renditions row);
     r_sourcesSet := setAdd (c_source c) (r_sourcesSet row) |}.

Definition putCandidate (a : PutArgs) (rowsByKey : RowsByKey) : RowsByKey :=
  match p_pov a with
  | None => rowsByKey
  | Some p =>
      if negb (isAllowedType (p_imageType a)) then rowsByKey
      else
        match bucketTypeOf (p_imageType a) with
        | None => rowsByKey
        | Some bucketType =>
            let key := createPOVKey bucketType p in
            let rows1 := ensureRow key bucketType p rowsByKey in
            match lookup String.eqb key rows1, finiteNumber (p_rendition a) with
            | Some row, Some rNum =>
                assign String.eqb key
                  (pushCandidate rNum (mkCandidateOf a bucketType p) row) rows1
            | _, _ => rows1
            end
        end
  end.

(** The body shared by the two [forEach] loops over
    [uvpaintData.images] and [uvpaintData.uvpaintHistoryImages]; they
    differ in the source tag and in the default rendition (3 and 1). *)
Definition collectImage (source : string) (defaultRendition : Z)
    (rowsByKey : RowsByKey) (img : RawImageEntry) : RowsByKey :=
  if isArtemis (imageType img) then rowsByKey
  else
    match pov img with
    | None => rowsByKey
    | Some _ =>
        if negb (isAllowedType (imageType img)) then rowsByKey
        else
          putCandidate
            {| p_imageType := imageType img;
               p_pov := pov img;
               p_rendition := renditionOr (rendition img) defaultRendition;
               p_activeImage := activeImage img;
               p_status := status img;
               p_source := source;
               p_actions := sumActionMap (actionsCounterMap img);
               p_originalImage := pickOriginalUrl img;
               p_isActive := isActive img |}
            rowsByKey
    end.

Definition collectRows (d : UvpaintData) : RowsByKey :=
  fold_left (collectImage "uvpaintHistoryImages" 1) (uvpaintHistoryImages d)
    (fold_left (collectImage "images" 3) (images d) []).

(** ** Original-image index *)

Record OriginalEntry : Type := mkOriginal {
  o_url : string;
  o_source : string;
  o_priority : Z;
  o_obj : RawImageEntry
}.

Definition OriginalsByCamSide := list (string * OriginalEntry).

Definition ORIGINAL_PRIORITY (sourceName : string) : Z :=
  if String.eqb sourceName "images" then 30
  else if String.eqb sourceName "uvpaintHistoryImages" then 10
  else 0.

(** The names every plain object inherits from [Object.prototype].  For
    such a name [obj[name]] is the inherited value, which is truthy, when
    [obj] has no own property of that name. *)
Definition objectPrototypeKey (name : string) : bool :=
  existsb (String.eqb name)
    [ "__proto__"; "constructor"; "hasOwnProperty"; "isPrototypeOf";
      "propertyIsEnumerable"; "toLocaleString"; "toString"; "valueOf";
      "__defineGetter__"; "__defineSetter__"; "__lookupGetter__";
      "__lookupSetter__" ].

(** [safeUrl(img.originalImage) || safeUrl(pickOriginalUrl(img))] *)
Definition resolveOriginalUrl (img : RawImageEntry) : option string :=
  match safeUrl (originalImage img) with
  | Some u => Some u
  | None => safeUrlOpt (pickOriginalUrl img)
  end.

(** [originalsByCamSide] is a plain object.  Under a key that names an
    inherited property ([`${cam}_${side}`] spells ["__proto__"] for the
    camera ["_"] and the side ["proto__"]), [existing] is the inherited
    value: it is truthy and has no [priority], [pr > undefined] is false
    and nothing is stored, so that no own entry ever exists under such a
    key. *)
Definition considerOriginal (sourceName : string)
    (originalsByCamSide : OriginalsByCamSide) (img : RawImageEntry)
  : OriginalsByCamSide :=
  match pov img with
  | None => originalsByCamSide
  | Some p =>
      if negb (isSlimOverview (imageType img)) then originalsByCamSide
      else
        match normCam (simulatedCamera p), normSide (simulatedCameraSide p) with
        | Some cam, Some side =>
            let key := cam ++ "_" ++ side in
            match resolveOriginalUrl img with
            | None => originalsByCamSide
            | Some url =>
                let pr := ORIGINAL_PRIORITY sourceName in
                let replace :=
                  if objectPrototypeKey key then false
                  else
                    match lookup String.eqb key originalsByCamSide with
                    | None => true
                    | Some existing => o_priority existing <? pr
                    end in
                if replace then
                  assign String.eqb key (mkOriginal url sourceName pr img)
                    originalsByCamSide
                else originalsByCamSide
            end
        | _, _ => originalsByCamSide
        end
  end.

Definition buildOriginals (d : UvpaintData) : OriginalsByCamSide :=
  fold_left (considerOriginal "uvpaintHistoryImages") (uvpaintHistoryImages d)
    (fold_left (considerOriginal "images") (images d) []).

(** ** Comparison-group builder *)

Record CardInfo : Type := mkCard {
  ci_imageType : string;
  ci_status : string;
  ci_originalImage : string;
  ci_activeImage : string
}.

Record RenditionDatum : Type := mkDatum {
  rd_imageType : string;
  rd_isActive : bool;
  rd_activeImage : option string
}.

(** An entry of [metadata.renditions]: a rendition number or ["OG"]. *)
Inductive RenditionLabel : Type :=
| RNum (z : Z)
| ROG.

Record SortKey : Type := mkSortKey {
  typeOrder : Z;
  sk_cam : string;
  sk_side : string
}.

Record Metadata : Type := mkMetadata {
  m_inspectionId : string;
  m_pov : option POV;
  m_bucketType : string;
  m_renditions : list (option RenditionLabel);
  m_statuses : list string;
  m_sources : list string;
  m_actions : list (option Z);
  m_totalVersions : nat;
  m_povSources : list string;
  m_cardInfo : list (option CardInfo);
  m_renditionData : list (option RenditionDatum);
  m_groupKey : string;
  m_camSideKey : string;
  m_published : bool
}.

Record Group : Type := mkGroup {
  g_id : string;
  g_name : string;
  g_sortKey : SortKey;
  g_images : list (option string);
  g_metadata : Metadata
}.

Definition IMAGE_TYPE_ORDER (bucketType : string) : option Z :=
  if String.eqb bucketType "SlimOverview" then Some 0
  else if String.eqb bucketType "Zoomer" then Some 1
  else None.

Definition isRowPublished (md : Metadata) : bool :=
  existsb
    (fun d =>
       match d with
       | Some d => (rd_isActive d && truthyOpt (rd_activeImage d))%bool
       | None => false
       end)
    (firstn 2 (m_renditionData md)).

Definition setPublished (g : Group) : Group :=
  let md := g_metadata g in
  {| g_id := g_id g;
     g_name := g_name g;
     g_sortKey := g_sortKey g;
     g_images := g_images g;
     g_metadata :=
       {| m_inspectionId := m_inspectionId md;
          m_pov := m_pov md;
          m_bucketType := m_bucketType md;
          m_renditions := m_renditions md;
          m_statuses := m_statuses md;
          m_sources := m_sources md;
          m_actions := m_actions md;
          m_totalVersions := m_totalVersions md;
          m_povSources := m_povSources md;
          m_cardInfo := m_cardInfo md;
          m_renditionData := m_renditionData md;
          m_groupKey := m_groupKey md;
          m_camSideKey := m_camSideKey md;
          m_published := isRowPublished md |} |}.

(** The rendition numbers of a row, sorted by [(a, b) => b - a]. *)
Definition renditionNumsOf (row : Row) : list Z :=
  stableSort (fun a b => 0 <? b - a) (map fst (r_renditions row)).

Definition pickBestAt (row : Row) (rNum : Z) : option Candidate :=
  let arr := renditionsAt rNum row in
  match arr with
  | [] => None
  | _ =>
      hd_error
        (stableSort (fun a b => 0 <? scoreCandidate b - scoreCandidate a) arr)
  end.

Definition cardInfoOfCandidate (c : Candidate) : CardInfo :=
  {| ci_imageType := safeText (Some (c_imageType c));
     ci_status := safeText (Some (c_status c));
     ci_originalImage := safeText (c_originalImage c);
     ci_activeImage := safeText (c_activeImage c) |}.

Definition cardInfoOfRaw (o : RawImageEntry) : CardInfo :=
  {| ci_imageType := safeText (jsOpt (imageType o));
     ci_status := safeText (jsOpt (status o));
     ci_originalImage := safeText (jsOpt (originalImage o));
     ci_activeImage := safeText (jsOpt (activeImage o)) |}.

Definition datumOf (c : Candidate) : RenditionDatum :=
  {| rd_imageType := c_imageType c;
     rd_isActive := c_isActive c;
     rd_activeImage := c_activeImage c |}.

Definition bind {A B : Type} (o : option A) (f : A -> option B) : option B :=
  match o with
  | Some a => f a
  | None => None
  end.

(** The body of [Object.entries(rowsByKey).forEach]: the group of a row,
    or nothing when the row has no rendition number.  Under a key that
    names an inherited property, [originalsByCamSide[camSideKey]] is the
    inherited value, whose [url], [source] and [obj] are [undefined]: the
    Original slot is filled as it is without an entry, which is what the
    lookup gives, since no entry is ever stored under such a key. *)
Definition buildGroup (inspectionId : string)
    (originalsByCamSide : OriginalsByCamSide) (entry : string * Row)
  : option Group :=
  let (key, row) := entry in
  match renditionNumsOf row with
  | [] => None
  | latestR :: rest =>
      let renditionNums := latestR :: rest in
      let prevR := hd_error rest in
      let latest := pickBestAt row latestR in
      let prev := bind prevR (pickBestAt row) in
      let cam := normCam (simulatedCamera (r_pov row)) in
      let side := normSide (simulatedCameraSide (r_pov row)) in
      let camSideKey :=
        match cam, side with
        | Some c, Some s =>
            if (nonEmpty c && nonEmpty s)%bool then Some (c ++ "_" ++ s)
            else None
        | _, _ => None
        end in
      let originalEntry := bind camSideKey
                             (fun k => lookup String.eqb k originalsByCamSide) in
      let originalUrl :=
        bind originalEntry
          (fun e => if nonEmpty (o_url e) then Some (o_url e) else None) in
      let originalFrom := orElse (option_map o_source originalEntry) "N/A" in
      let originalObj := option_map o_obj originalEntry in
      let cameraLabel :=
        trim (orElse (jsOpt (simulatedCamera (r_pov row))) "N/A" ++ " " ++
              orElse (jsOpt (simulatedCameraSide (r_pov row))) "") in
      let bucketType := r_bucketType row in
      let emptyOr (r : option Z) := match r with Some _ => "N/A" | None => "Empty" end in
      Some (setPublished
        {| g_id := inspectionId ++ "_" ++ key;
           g_name := cameraLabel ++ " (" ++ bucketType ++ ")";
           g_sortKey :=
             {| typeOrder := match IMAGE_TYPE_ORDER bucketType with
                             | Some n => n
                             | None => 999
                             end;
                sk_cam := toLowerCase (orElse cam "");
                sk_side := toLowerCase (orElse side "") |};
           g_images := [ safeUrlOpt (bind prev c_image);
                         safeUrlOpt (bind latest c_image);
                         safeUrlOpt originalUrl ];
           g_metadata :=
             {| m_inspectionId := inspectionId;
                m_pov := Some (r_pov row);
                m_bucketType := bucketType;
                m_renditions :=
                  [ option_map RNum prevR;
                    Some (RNum latestR);
                    match originalUrl with Some _ => Some ROG | None => None end ];
                m_statuses :=
                  [ orElse (option_map c_status prev) (emptyOr prevR);
                    orElse (option_map c_status latest) "N/A";
                    match originalUrl with Some _ => "Original" | None => "Empty" end ];
                m_sources :=
                  [ orElse (option_map c_source prev) (emptyOr prevR);
                    orElse (option_map c_source latest) "N/A";
                    match originalUrl with
                    | Some _ => "SlimOverview_original:" ++ originalFrom
                    | None => "Empty"
                    end ];
                m_actions := [ option_map c_actions prev;
                               option_map c_actions latest;
                               None ];
                m_totalVersions := List.length renditionNums;
                m_povSources := r_sourcesSet row;
                m_cardInfo := [ option_map cardInfoOfCandidate prev;
                                option_map cardInfoOfCandidate latest;
                                option_map cardInfoOfRaw originalObj ];
                m_renditionData := [ option_map datumOf prev;
                                     option_map datumOf latest;
                                     None ];
                m_groupKey := key;
                m_camSideKey := match camSideKey with
                                | Some k => k
                                | None => "N/A"
                                end;
                m_published := false |} |})
  end.

(** Collects the groups in the order of [Object.entries(rowsByKey)]. *)
Fixpoint buildGroups (inspectionId : string)
    (originalsByCamSide : OriginalsByCamSide) (rows : RowsByKey) : list Group :=
  match rows with
  | [] => []
  | entry :: rows' =>
      match buildGroup inspectionId originalsByCamSide entry with
      | Some g => g :: buildGroups inspectionId originalsByCamSide rows'
      | None => buildGroups inspectionId originalsByCamSide rows'
      end
  end.

Section Processing.
(** [String.prototype.localeCompare]: negative, zero or positive. *)
Variable localeCompare : string -> string -> Z.

(** The comparator of the final [groups.sort]. *)
Definition compareGroups (a b : Group) : Z :=
  let ap := if m_published (g_metadata a) then 1 else 0 in
  let bp := if m_published (g_metadata b) then 1 else 0 in
  if negb (ap =? bp) then bp - ap
  else if negb (typeOrder (g_sortKey a) =? typeOrder (g_sortKey b))
  then typeOrder (g_sortKey a) - typeOrder (g_sortKey b)
  else if negb (String.eqb (sk_cam (g_sortKey a)) (sk_cam (g_sortKey b)))
  then localeCompare (sk_cam (g_sortKey a)) (sk_cam (g_sortKey b))
  else localeCompare (sk_side (g_sortKey a)) (sk_side (g_sortKey b)).

Definition processInspectionData (inspection : Inspection) : list Group :=
  match uvpaintData inspection with
  | None => []
  | Some d =>
      let rowsByKey := collectRows d in
      let originalsByCamSide := buildOriginals d in
      let groups :=
        buildGroups (inspectionId inspection) originalsByCamSide rowsByKey in
      stableSort (fun a b => 0 <? compareGroups a b) groups
  end.
End Processing.

(** ** Aggregate metrics engine *)

Record ProcessedInspection : Type := mkProcessed {
  pi_inspectionId : string;
  pi_comparisons : list Group;
  pi_rawInspection : Inspection
}.

Inductive Trend : Type :=
| Stable
| Increasing
| Decreasing.

(** [q > 0] on an exact number. *)
Definition Qpositive (q : Q) : bool := negb (Qle_bool q 0).

Definition getTrendIndicator (difference : Q) : Trend :=
  if Qpositive ((1 # 2) - Qabs difference) then Stable
  else if Qpositive difference then Increasing
  else Decreasing.

(** [count > 0 ? total / count : 0] *)
Definition meanOrZero (total count : Z) : Q :=
  if 0 <? count then inject_Z total / inject_Z count else 0%Q.

(** The percent-change expression, spelled out at lines 318-323 for
    Table A and again at lines 388-393 for Table D. *)
Definition percentChange (avgPreviousActions avgLatestActions : Q) : Q :=
  let actionsDifference := (avgLatestActions - avgPreviousActions)%Q in
  if Qpositive avgPreviousActions
  then ((actionsDifference / avgPreviousActions) * 100)%Q
  else if Qpositive avgLatestActions then 100%Q else 0%Q.

Record TableARow : Type := mkTableA {
  a_inspectionIndex : nat;
  a_inspectionId : string;
  a_publishedCount : Z;
  a_imagesWithActions : Z;
  a_avgActionsPerImage : Q;
  a_avgPreviousActions : Q;
  a_avgLatestActions : Q;
  a_actionsDifference : Q;
  a_actionsPercentChange : Q;
  a_trend : Trend
}.

(** A row of the [aggD] map. *)
Record AggRow : Type := mkAgg {
  d_imageType : string;
  d_simulatedCamera : string;
  d_simulatedCameraSide : string;
  d_originalCameraId : string;
  d_images : Z;
  d_totalActions : Z;
  d_previousTotalActions : Z;
  d_previousCount : Z;
  d_latestTotalActions : Z;
  d_latestCount : Z
}.

Record TableDRow : Type := mkTableD {
  d_row : AggRow;
  d_avgActionsPerImage : Q;
  d_avgPreviousActions : Q;
  d_avgLatestActions : Q;
  d_actionsDifference : Q;
  d_actionsPercentChange : Q;
  d_trend : Trend
}.

(** [[a, b, c, d].join("|")] *)
Definition joinKey (a b c d : string) : string :=
  a ++ "|" ++ b ++ "|" ++ c ++ "|" ++ d.

Definition orNA (v : jsval) : string :=
  if truthy v then orEmpty v else "N/A".

Definition strOrNA (s : string) : string :=
  if nonEmpty s then s else "N/A".

Definition addToTableD (imageType simulatedCamera simulatedCameraSide : jsval)
    (originalCameraId : string) (actions : Z)
    (aggD : list (string * AggRow)) : list (string * AggRow) :=
  let key := joinKey (orNA imageType) (orNA simulatedCamera)
               (orNA simulatedCameraSide) (strOrNA originalCameraId) in
  let fresh :=
    {| d_imageType := orNA imageType;
       d_simulatedCamera := orNA simulatedCamera;
       d_simulatedCameraSide := orNA simulatedCameraSide;
       d_originalCameraId := strOrNA originalCameraId;
       d_images := 0;
       d_totalActions := 0;
       d_previousTotalActions := 0;
       d_previousCount := 0;
       d_latestTotalActions := 0;
       d_latestCount := 0 |} in
  let aggD1 :=
    match lookup String.eqb key aggD with
    | Some _ => aggD
    | None => assign String.eqb key fresh aggD
    end in
  match lookup String.eqb key aggD1 with
  | None => aggD1
  | Some row =>
      assign String.eqb key
        {| d_imageType := d_imageType row;
           d_simulatedCamera := d_simulatedCamera row;
           d_simulatedCameraSide := d_simulatedCameraSide row;
           d_originalCameraId := d_originalCameraId row;
           d_images := d_images row + 1;
           d_totalActions := d_totalActions row + actions;
           d_previousTotalActions := d_previousTotalActions row;
           d_previousCount := d_previousCount row;
           d_latestTotalActions := d_latestTotalActions row;
           d_latestCount := d_latestCount row |}
        aggD1
  end.

(** The four running sums kept for the Previous and Latest slots. *)
Record SlotSums : Type := mkSums {
  previousTotalActions : Z;
  previousCount : Z;
  latestTotalActions : Z;
  latestCount : Z
}.

(** The two guarded updates on [actions[0]] and [actions[1]] of one
    comparison. *)
Definition addSlots (actions : list (option Z)) (s : SlotSums) : SlotSums :=
  let s1 :=
    match nth_error actions 0 with
    | Some (Some n) =>
        mkSums (previousTotalActions s + n) (previousCount s + 1)
          (latestTotalActions s) (latestCount s)
    | _ => s
    end in
  match nth_error actions 1 with
  | Some (Some n) =>
      mkSums (previousTotalActions s1) (previousCount s1)
        (latestTotalActions s1 + n) (latestCount s1 + 1)
  | _ => s1
  end.

Record CompRow : Type := mkComp {
  cr_imageType : string;
  cr_simulatedCamera : string;
  cr_simulatedCameraSide : string;
  cr_originalCameraId : string;
  cr_sums : SlotSums
}.

(** The body of the first loop over the comparisons of all inspections. *)
Definition addComparison (aggDComparisons : list (string * CompRow))
    (comp : Group) : list (string * CompRow) :=
  match m_pov (g_metadata comp) with
  | None => aggDComparisons
  | Some p =>
      let bucketType := strOrNA (m_bucketType (g_metadata comp)) in
      let key := joinKey bucketType (orNA (simulatedCamera p))
                   (orNA (simulatedCameraSide p)) (orNA (originalCameraId p)) in
      let agg1 :=
        match lookup String.eqb key aggDComparisons with
        | Some _ => aggDComparisons
        | None =>
            assign String.eqb key
              {| cr_imageType := bucketType;
                 cr_simulatedCamera := orNA (simulatedCamera p);
                 cr_simulatedCameraSide := orNA (simulatedCameraSide p);
                 cr_originalCameraId := orNA (originalCameraId p);
                 cr_sums := mkSums 0 0 0 0 |}
              aggDComparisons
        end in
      match lookup String.eqb key agg1 with
      | None => agg1
      | Some row =>
          assign String.eqb key
            {| cr_imageType := cr_imageType row;
               cr_simulatedCamera := cr_simulatedCamera row;
               cr_simulatedCameraSide := cr_simulatedCameraSide row;
               cr_originalCameraId := cr_originalCameraId row;
               cr_sums := addSlots (m_actions (g_metadata comp)) (cr_sums row) |}
            agg1
      end
  end.

Definition rawImages (insp : ProcessedInspection) : list RawImageEntry :=
  match uvpaintData (pi_rawInspection insp) with
  | Some d => images d
  | None => []
  end.

Definition publishedUvpaintOf (insp : ProcessedInspection)
  : list RawImageEntry :=
  filter isPublishedUvpaint (rawImages insp).

Definition tableARow (idx : nat) (insp : ProcessedInspection) : TableARow :=
  let publishedUvpaint := publishedUvpaintOf insp in
  let publishedCount := Z.of_nat (List.length publishedUvpaint) in
  let totalActions :=
    fold_left (fun t img => t + sumActionMap (actionsCounterMap img))
      publishedUvpaint 0 in
  let imagesWithActions :=
    fold_left
      (fun k img =>
         if (0 <? sumActionMap (actionsCounterMap img)) then k + 1 else k)
      publishedUvpaint 0 in
  let avgActionsPerImage := meanOrZero totalActions publishedCount in
  let s := fold_left (fun s comp => addSlots (m_actions (g_metadata comp)) s)
             (pi_comparisons insp) (mkSums 0 0 0 0) in
  let avgPreviousActions :=
    meanOrZero (previousTotalActions s) (previousCount s) in
  let avgLatestActions := meanOrZero (latestTotalActions s) (latestCount s) in
  let actionsDifference := (avgLatestActions - avgPreviousActions)%Q in
  {| a_inspectionIndex := idx + 1;
     a_inspectionId := pi_inspectionId insp;
     a_publishedCount := publishedCount;
     a_imagesWithActions := imagesWithActions;
     a_avgActionsPerImage := avgActionsPerImage;
     a_avgPreviousActions := avgPreviousActions;
     a_avgLatestActions := avgLatestActions;
     a_actionsDifference := actionsDifference;
     a_actionsPercentChange := percentChange avgPreviousActions avgLatestActions;
     a_trend := getTrendIndicator actionsDifference |}.

Definition povField (f : POV -> jsval) (img : RawImageEntry) : jsval :=
  match pov img with
  | Some p => f p
  | None => JUndefined
  end.

(** The [publishedUvpaint.forEach] that feeds [addToTableD]. *)
Definition addPublished (aggD : list (string * AggRow))
    (insp : ProcessedInspection) : list (string * AggRow) :=
  fold_left
    (fun aggD img =>
       addToTableD (imageType img)
         (povField simulatedCamera img)
         (povField simulatedCameraSide img)
         (orNA (povField originalCameraId img))
         (sumActionMap (actionsCounterMap img))
         aggD)
    (publishedUvpaintOf insp) aggD.

(** The body of [aggDComparisons.forEach]: merge the comparison sums into
    the row of the same key, or add a row without published images. *)
Definition mergeComparison (aggD : list (string * AggRow))
    (entry : string * CompRow) : list (string * AggRow) :=
  let (key, compRow) := entry in
  let s := cr_sums compRow in
  match lookup String.eqb key aggD with
  | Some row =>
      assign String.eqb key
        {| d_imageType := d_imageType row;
           d_simulatedCamera := d_simulatedCamera row;
           d_simulatedCameraSide := d_simulatedCameraSide row;
           d_originalCameraId := d_originalCameraId row;
           d_images := d_images row;
           d_totalActions := d_totalActions row;
           d_previousTotalActions := previousTotalActions s;
           d_previousCount := previousCount s;
           d_latestTotalActions := latestTotalActions s;
           d_latestCount := latestCount s |}
        aggD
  | None =>
      assign String.eqb key
        {| d_imageType := cr_imageType compRow;
           d_simulatedCamera := cr_simulatedCamera compRow;
           d_simulatedCameraSide := cr_simulatedCameraSide compRow;
           d_originalCameraId := cr_originalCameraId compRow;
           d_images := 0;
           d_totalActions := 0;
           d_previousTotalActions := previousTotalActions s;
           d_previousCount := previousCount s;
           d_latestTotalActions := latestTotalActions s;
           d_latestCount := latestCount s |}
        aggD
  end.

Definition tableDRow (r : AggRow) : TableDRow :=
  let avgActionsPerImage := meanOrZero (d_totalActions r) (d_images r) in
  let avgPreviousActions :=
    meanOrZero (d_previousTotalActions r) (d_previousCount r) in
  let avgLatestActions :=
    meanOrZero (d_latestTotalActions r) (d_latestCount r) in
  let actionsDifference := (avgLatestActions - avgPreviousActions)%Q in
  {| d_row := r;
     d_avgActionsPerImage := avgActionsPerImage;
     d_avgPreviousActions := avgPreviousActions;
     d_avgLatestActions := avgLatestActions;
     d_actionsDifference := actionsDifference;
     d_actionsPercentChange := percentChange avgPreviousActions avgLatestActions;
     d_trend := getTrendIndicator actionsDifference |}.

Fixpoint tableAFrom (idx : nat) (processedInspections : list ProcessedInspection)
  : list TableARow :=
  match processedInspections with
  | [] => []
  | insp :: rest => tableARow idx insp :: tableAFrom (S idx) rest
  end.

Definition aggDComparisonsOf (processedInspections : list ProcessedInspection)
  : list (string * CompRow) :=
  fold_left (fun agg insp => fold_left addComparison (pi_comparisons insp) agg)
    processedInspections [].

Definition aggDOf (processedInspections : list ProcessedInspection)
  : list (string * AggRow) :=
  fold_left mergeComparison (aggDComparisonsOf processedInspections)
    (fold_left addPublished processedInspections []).

Definition computeAggregatedMetrics
    (processedInspections : list ProcessedInspection)
  : list TableARow * list TableDRow :=
  let tableA := tableAFrom 0 processedInspections in
  let tableD := map tableDRow (map snd (aggDOf processedInspections)) in
  (tableA,
   stableSort
     (fun a b => Qpositive (d_avgActionsPerImage b - d_avgActionsPerImage a))
     tableD).

(** ** Alignment validator *)

Record Mismatch : Type := mkMismatch {
  mm_inspectionId : string;
  mm_inspectionIndex : nat;
  mm_metricsCount : Z;
  mm_cardPublishedCount : Z;
  mm_cardGeneratedCount : Z;
  mm_difference : Z
}.

Record BreakdownRow : Type := mkBreakdown {
  b_inspectionId : string;
  b_inspectionIndex : nat;
  b_metricsPublished : Z;
  b_cardPublished : Z;
  b_cardGenerated : Z;
  b_comparisons : nat
}.

Record Validation : Type := mkValidation {
  totalPublishedInMetrics : Z;
  totalPublishedInCards : Z;
  totalGeneratedInCards : Z;
  mismatches : list Mismatch;
  byInspection : list BreakdownRow
}.

(** One pass of the inner [for] loop: the slot [data] updates the pair
    [(cardPublishedCount, cardGeneratedCount)]. *)
Definition countSlot (counts : Z * Z) (data : option RenditionDatum) : Z * Z :=
  let (cardPublishedCount, cardGeneratedCount) := counts in
  match data with
  | None => counts
  | Some d =>
      if negb (truthyOpt (rd_activeImage d)) then counts
      else if (rd_isActive d && truthyOpt (rd_activeImage d))%bool
      then (cardPublishedCount + 1, cardGeneratedCount)
      else (cardPublishedCount, cardGeneratedCount + 1)
  end.

Definition countCards (comparisons : list Group) : Z * Z :=
  fold_left
    (fun counts comp =>
       fold_left countSlot (firstn 2 (m_renditionData (g_metadata comp))) counts)
    comparisons (0, 0).

Definition validateInspection (validation : Validation) (idx : nat)
    (insp : ProcessedInspection) : Validation :=
  let metricsCount := Z.of_nat (List.length (publishedUvpaintOf insp)) in
  let (cardPublishedCount, cardGeneratedCount) :=
    countCards (pi_comparisons insp) in
  let diff := Z.abs (metricsCount - cardPublishedCount) in
  {| totalPublishedInMetrics := totalPublishedInMetrics validation + metricsCount;
     totalPublishedInCards := totalPublishedInCards validation + cardPublishedCount;
     totalGeneratedInCards := totalGeneratedInCards validation + cardGeneratedCount;
     mismatches :=
       if 0 <? diff then
         (mismatches validation ++
          [ {| mm_inspectionId := pi_inspectionId insp;
               mm_inspectionIndex := idx + 1;
               mm_metricsCount := metricsCount;
               mm_cardPublishedCount := cardPublishedCount;
               mm_cardGeneratedCount := cardGeneratedCount;
               mm_difference := diff |} ])%list
       else mismatches validation;
     byInspection :=
       (byInspection validation ++
        [ {| b_inspectionId := pi_inspectionId insp;
             b_inspectionIndex := idx + 1;
             b_metricsPublished := metricsCount;
             b_cardPublished := cardPublishedCount;
             b_cardGenerated := cardGeneratedCount;
             b_comparisons := List.length (pi_comparisons insp) |} ])%list |}.

Fixpoint validateFrom (idx : nat) (processedInspections : list ProcessedInspection)
    (validation : Validation) : Validation :=
  match processedInspections with
  | [] => validation
  | insp :: rest => validateFrom (S idx) rest (validateInspection validation idx insp)
  end.

Definition validateMetricsAlignment
    (processedInspections : list ProcessedInspection) : Validation :=
  validateFrom 0 processedInspections (mkValidation 0 0 0 [] []).

(** The upload handler's step for one fetched inspection: the processed
    record keeps the requested id, the comparisons and the raw data. *)
Definition processOne (localeCompare : string -> string -> Z)
    (requestedId : string) (inspection : Inspection) : ProcessedInspection :=
  {| pi_inspectionId := requestedId;
     pi_comparisons := processInspectionData localeCompare inspection;
     pi_rawInspection := inspection |}.

(** ** Specification vocabulary *)

(** The two raw collections in the order the pipeline walks them, each
    entry tagged with its source name and default rendition number. *)
Definition TaggedEntry : Type := (string * Z * RawImageEntry)%type.

Definition entriesOf (d : UvpaintData) : list TaggedEntry :=
  (map (fun img => ("images", 3, img)) (images d) ++
   map (fun img => ("uvpaintHistoryImages", 1, img)) (uvpaintHistoryImages d))%list.

Definition collectTagged (rowsByKey : RowsByKey) (t : TaggedEntry) : RowsByKey :=
  let '(source, defaultRendition, img) := t in
  collectImage source defaultRendition rowsByKey img.

(** The candidate a tagged entry contributes, with its group key and its
    rendition number, when it passes every filter of the extraction. *)
Definition extracted (t : TaggedEntry) : option (string * Z * Candidate) :=
  let '(source, defaultRendition, img) := t in
  if isArtemis (imageType img) then None
  else
    match pov img, bucketTypeOf (imageType img),
          finiteNumber (renditionOr (rendition img) defaultRendition) with
    | Some p, Some bucketType, Some rNum =>
        Some (createPOVKey bucketType p, rNum,
              mkCandidateOf
                {| p_imageType := imageType img;
                   p_pov := pov img;
                   p_rendition := renditionOr (rendition img) defaultRendition;
                   p_activeImage := activeImage img;
                   p_status := status img;
                   p_source := source;
                   p_actions := sumActionMap (actionsCounterMap img);
                   p_originalImage := pickOriginalUrl img;
                   p_isActive := isActive img |}
                bucketType p)
    | _, _, _ => None
    end.

(** The candidates stored under a group key and a rendition number. *)
Definition renditionsAtKey (k : string) (r : Z) (rowsByKey : RowsByKey)
  : list Candidate :=
  match lookup String.eqb k rowsByKey with
  | Some row => renditionsAt r row
  | None => []
  end.

(** The candidate of a tagged entry, when it belongs to the group [k]
    and to the rendition [r]. *)
Definition candidateFor (k : string) (r : Z) (t : TaggedEntry)
  : list Candidate :=
  match extracted t with
  | Some (k', r', c) => if (String.eqb k' k && Z.eqb r' r)%bool then [c] else []
  | None => []
  end.

(** The candidates of the group [k] and of the rendition [r], in the
    order of the input. *)
Definition bucketOf (k : string) (r : Z) (l : list TaggedEntry)
  : list Candidate :=
  flat_map (candidateFor k r) l.

(** Well-formed rows: distinct group keys, distinct rendition numbers in
    a row, no empty candidate list, and one of the two bucket types. *)
Definition rowWf (row : Row) : Prop :=
  NoDup (map fst (r_renditions row)) /\
  (forall r arr, In (r, arr) (r_renditions row) -> arr <> []) /\
  (r_bucketType row = "SlimOverview" \/ r_bucketType row = "Zoomer").

Definition rowsWf (rowsByKey : RowsByKey) : Prop :=
  NoDup (map fst rowsByKey) /\
  forall k row, In (k, row) rowsByKey -> rowWf row.

(** A candidate that is published: active, with an active image. *)
Definition candidatePublished (c : Candidate) : bool :=
  (c_isActive c && truthyOpt (c_activeImage c))%bool.

(** A row, once created, keeps its key, its bucket type and its POV, and
    never loses a candidate. *)
Definition rowExtends (row row' : Row) : Prop :=
  r_pov row' = r_pov row /\
  r_bucketType row' = r_bucketType row /\
  forall r x, In x (renditionsAt r row) -> In x (renditionsAt r row').

(** The collision score as the specification words it: the 40 points go
    to a candidate that is publish-flagged, that is active and with an
    active image.  Compared with [scoreCandidate] below. *)
Definition claimedScore (c : Candidate) : Z :=
  (if truthyOpt (c_activeImage c) then 100 else 0) +
  (if candidatePublished c then 40 else 0) +
  (if String.eqb (c_source c) "images" then 30
   else if String.eqb (c_source c) "uvpaintHistoryImages" then 10 else 0).

(** The order of the final list: published groups first, then the rank
    of the bucket type, then the normalized camera, then the normalized
    side, the last two under the collation. *)
Definition groupLe (localeCompare : string -> string -> Z) (a b : Group)
  : Prop :=
  (m_published (g_metadata a) = true /\ m_published (g_metadata b) = false) \/
  (m_published (g_metadata a) = m_published (g_metadata b) /\
   (typeOrder (g_sortKey a) < typeOrder (g_sortKey b) \/
    (typeOrder (g_sortKey a) = typeOrder (g_sortKey b) /\
     (localeCompare (sk_cam (g_sortKey a)) (sk_cam (g_sortKey b)) < 0 \/
      (sk_cam (g_sortKey a) = sk_cam (g_sortKey b) /\
       localeCompare (sk_side (g_sortKey a)) (sk_side (g_sortKey b)) <= 0))))).

(** What an entry offers to the original-image index: its key and its
    resolved original URL, when it is a [SlimOverview] entry with a POV
    whose camera and side normalize, a key that names no inherited
    property and a resolvable original URL. *)
Definition originalOffer (img : RawImageEntry) : option (string * string) :=
  match pov img with
  | None => None
  | Some p =>
      if isSlimOverview (imageType img) then
        match normCam (simulatedCamera p), normSide (simulatedCameraSide p),
              resolveOriginalUrl img with
        | Some cam, Some side, Some url =>
            if objectPrototypeKey (cam ++ "_" ++ side) then None
            else Some (cam ++ "_" ++ side, url)
        | _, _, _ => None
        end
      else None
  end.

(** The first entry of a collection that offers an original under the
    key [k], with the URL it offers. *)
Fixpoint firstOffer (k : string) (l : list RawImageEntry)
  : option (string * RawImageEntry) :=
  match l with
  | [] => None
  | img :: l' =>
      match originalOffer img with
      | Some (k', url) =>
          if String.eqb k' k then Some (url, img) else firstOffer k l'
      | None => firstOffer k l'
      end
  end.

(** The entry [img] with the serial number of its POV replaced: the two
    entries are identical except for that field. *)
Definition withSerial (s : option Z) (img : RawImageEntry) : RawImageEntry :=
  {| imageType := imageType img;
     pov :=
       match pov img with
       | Some p =>
           Some {| simulatedCamera := simulatedCamera p;
                   simulatedCameraSide := simulatedCameraSide p;
                   serialNumber := s;
                   originalCameraId := originalCameraId p |}
       | None => None
       end;
     rendition := rendition img;
     activeImage := activeImage img;
     originalImage := originalImage img;
     originalImageUrl := originalImageUrl img;
     originalImageWithBackground := originalImageWithBackground img;
     originalImageWithoutBackground := originalImageWithoutBackground img;
     status := status img;
     isActive := isActive img;
     actionsCounterMap := actionsCounterMap img |}.

(** No card of a comparison carries a negative action count. *)
Definition actionsNonneg (comp : Group) : Prop :=
  forall i n, nth_error (m_actions (g_metadata comp)) i = Some (Some n) -> 0 <= n.

(** No card of the loaded inspections carries a negative action count. *)
Definition cardsNonneg (processedInspections : list ProcessedInspection)
  : Prop :=
  forall insp comp,
    In insp processedInspections -> In comp (pi_comparisons insp) ->
    actionsNonneg comp.


(** Running sums of action counts are not negative. *)
Definition sumsNonneg (s : SlotSums) : Prop :=
  0 <= previousTotalActions s /\ 0 <= latestTotalActions s.

Definition aggNonneg (r : AggRow) : Prop :=
  0 <= d_previousTotalActions r /\ 0 <= d_latestTotalActions r.

(** Every value of a dictionary satisfies [P]. *)
Definition allValues {K V : Type} (P : V -> Prop) (d : list (K * V)) : Prop :=
  forall k v, In (k, v) d -> P v.

(** Every entry of a dictionary satisfies [P]. *)
Definition allEntries {K V : Type} (P : K -> V -> Prop) (d : list (K * V))
  : Prop :=
  forall k v, In (k, v) d -> P k v.

(** The key of a Table D row, rebuilt from its four fields. *)
Definition rowKey (r : AggRow) : string :=
  joinKey (d_imageType r) (d_simulatedCamera r) (d_simulatedCameraSide r)
    (d_originalCameraId r).

Definition compRowKey (r : CompRow) : string :=
  joinKey (cr_imageType r) (cr_simulatedCamera r) (cr_simulatedCameraSide r)
    (cr_originalCameraId r).

(** The key under which [addToTableD] files a published image. *)
Definition imageKey (img : RawImageEntry) : string :=
  joinKey (orNA (imageType img)) (orNA (povField simulatedCamera img))
    (orNA (povField simulatedCameraSide img))
    (strOrNA (orNA (povField originalCameraId img))).

(** One call of [addToTableD] for a published image. *)
Definition addImage (aggD : list (string * AggRow)) (img : RawImageEntry)
  : list (string * AggRow) :=
  addToTableD (imageType img) (povField simulatedCamera img)
    (povField simulatedCameraSide img)
    (orNA (povField originalCameraId img))
    (sumActionMap (actionsCounterMap img)) aggD.

(** The published images of all loaded inspections, in order. *)
Definition allPublished (processedInspections : list ProcessedInspection)
  : list RawImageEntry :=
  flat_map publishedUvpaintOf processedInspections.

(** Image count and action total filed under a key. *)
Definition statsAt (k : string) (aggD : list (string * AggRow)) : Z * Z :=
  match lookup String.eqb k aggD with
  | Some r => (d_images r, d_totalActions r)
  | None => (0, 0)
  end.

(** Image count and action total of the images of a list with key [k]. *)
Fixpoint statsOf (k : string) (l : list RawImageEntry) : Z * Z :=
  match l with
  | [] => (0, 0)
  | img :: l' =>
      let (n, t) := statsOf k l' in
      if String.eqb (imageKey img) k
      then (n + 1, t + sumActionMap (actionsCounterMap img))
      else (n, t)
  end.

(** A Previous or Latest slot that counts as a published card. *)
Definition slotPublished (data : option RenditionDatum) : bool :=
  match data with
  | Some d => (rd_isActive d && truthyOpt (rd_activeImage d))%bool
  | None => false
  end.

(** The Previous and Latest slots of a list of comparison groups. *)
Definition cardSlots (comparisons : list Group) : list (option RenditionDatum) :=
  flat_map (fun comp => firstn 2 (m_renditionData (g_metadata comp))) comparisons.

(** The mismatch entry the validator records for an inspection. *)
Definition mismatchOf (idx : nat) (insp : ProcessedInspection) : Mismatch :=
  let metricsCount := Z.of_nat (List.length (publishedUvpaintOf insp)) in
  {| mm_inspectionId := pi_inspectionId insp;
     mm_inspectionIndex := idx + 1;
     mm_metricsCount := metricsCount;
     mm_cardPublishedCount := fst (countCards (pi_comparisons insp));
     mm_cardGeneratedCount := snd (countCards (pi_comparisons insp));
     mm_difference :=
       Z.abs (metricsCount - fst (countCards (pi_comparisons insp))) |}.

(** ** Grid views and slot labels (lines 484-681 and 2298-2303) *)

(** The text a template literal prints for a nullable string. *)
Definition templ (o : option string) : string :=
  match o with
  | Some s => s
  | None => "null"
  end.

(** [a || null] on a nullable string. *)
Definition orNull (o : option string) : option string :=
  match o with
  | Some s => if nonEmpty s then Some s else None
  | None => None
  end.

Definition getSlotPublishLabel (metadata : Metadata) (idx : nat) : string :=
  if Nat.eqb idx 2 then "Original"
  else
    match nth_error (m_renditionData metadata) idx with
    | Some (Some d) =>
        if (rd_isActive d && truthyOpt (rd_activeImage d))%bool
        then "Published" else "Generated"
    | _ => "Generated"
    end.

(** A cell of a grid.  [gc_isPublished] is the truthiness of
    [renditionData?.isActive && renditionData?.activeImage]; [gc_actions]
    is [None] for ["N/A"]. *)
Record GridCell : Type := mkCell {
  gc_label : string;
  gc_imageUrl : option string;
  gc_actions : option Z;
  gc_isPublished : bool;
  gc_rendition : option RenditionLabel;
  gc_comparison : Group;
  gc_pov : option POV
}.

(** The cell built from slot [slot] (1 for Latest, 0 for Previous) of a
    comparison. *)
Definition cellOf (label : string) (slot : nat) (comp : Group) : GridCell :=
  {| gc_label := label;
     gc_imageUrl :=
       match nth_error (g_images comp) slot with
       | Some u => orNull u
       | None => None
       end;
     gc_actions :=
       match nth_error (m_actions (g_metadata comp)) slot with
       | Some a => a
       | None => None
       end;
     gc_isPublished := slotPublished
                         match nth_error (m_renditionData (g_metadata comp)) slot with
                         | Some d => d
                         | None => None
                         end;
     gc_rendition :=
       match nth_error (m_renditions (g_metadata comp)) slot with
       | Some r => r
       | None => None
       end;
     gc_comparison := comp;
     gc_pov := m_pov (g_metadata comp) |}.

(** [grid[position] = cell] on an array. *)
Fixpoint setAt {A : Type} (position : nat) (x : A) (grid : list A) : list A :=
  match grid, position with
  | [], _ => []
  | _ :: rest, O => x :: rest
  | y :: rest, S n => y :: setAt n x rest
  end.

Definition centerViewMap (key : string) : option (string * nat) :=
  if String.eqb key "center_right" then Some ("Center Right", 0%nat)
  else if String.eqb key "center_front" then Some ("Center Front", 2%nat)
  else if String.eqb key "center_left" then Some ("Center Left", 4%nat)
  else if String.eqb key "center_rear" then Some ("Center Rear", 6%nat)
  else if String.eqb key "center_back" then Some ("Center Rear", 6%nat)
  else None.

Definition slimViewMap (key : string) : option (string * nat) :=
  if String.eqb key "front_left" then Some ("Front Left", 1%nat)
  else if String.eqb key "front_right" then Some ("Front Right", 3%nat)
  else if String.eqb key "rear_left" then Some ("Rear Left", 5%nat)
  else if String.eqb key "rear_right" then Some ("Rear Right", 7%nat)
  else None.

Definition Grids : Type := (list (option GridCell) * list (option GridCell))%type.

(** The key [`${cam}_${side}`] of a comparison with a POV. *)
Definition viewKey (p : POV) : string :=
  templ (normCam (simulatedCamera p)) ++ "_" ++
  templ (normSide (simulatedCameraSide p)).

(** The body of the two [forEach] loops that fill the grids, for the view
    map of the loop.  The grids are the indexed elements of the two
    arrays: a key that names an inherited property of the map object
    yields a view without position, and the assignment at that position
    leaves every index as it is. *)
Definition placeInGrid (viewMap : string -> option (string * nat))
    (grids : Grids) (comp : Group) : Grids :=
  match m_pov (g_metadata comp) with
  | None => grids
  | Some p =>
      match viewMap (viewKey p) with
      | Some (label, position) =>
          (setAt position (Some (cellOf label 1 comp)) (fst grids),
           setAt position (Some (cellOf label 0 comp)) (snd grids))
      | None => grids
      end
  end.

Definition isCenterCamera (p : POV) : bool :=
  match normCam (simulatedCamera p) with
  | Some cam => String.eqb cam "center"
  | None => false
  end.

(** The first [forEach]: center-camera comparisons and the other ones,
    each in the order of the input; a comparison without POV goes to
    neither list. *)
Definition splitByCamera (slimComparisons : list Group)
  : list Group * list Group :=
  fold_left
    (fun acc comp =>
       match m_pov (g_metadata comp) with
       | None => acc
       | Some p =>
           if isCenterCamera p then ((fst acc ++ [comp])%list, snd acc)
           else (fst acc, (snd acc ++ [comp])%list)
       end)
    slimComparisons ([], []).

Definition getSlimOverviewGridData (comparisons : list Group) : Grids :=
  let slimComparisons :=
    filter (fun comp => String.eqb (m_bucketType (g_metadata comp)) "SlimOverview")
      comparisons in
  let (centerCameraComparisons, regularSlimComparisons) :=
    splitByCamera slimComparisons in
  fold_left (placeInGrid slimViewMap) regularSlimComparisons
    (fold_left (placeInGrid centerViewMap) centerCameraComparisons
       (repeat None 8, repeat None 8)).

(** The body of the [forEach] of the Zoomer grid, with its index. *)
Fixpoint placeZoomers (idx : nat) (comps : list Group) (grids : Grids) : Grids :=
  match comps with
  | [] => grids
  | comp :: rest =>
      let label := if nonEmpty (g_name comp) then g_name comp else "Unknown" in
      placeZoomers (S idx) rest
        (setAt idx (Some (cellOf label 1 comp)) (fst grids),
         setAt idx (Some (cellOf label 0 comp)) (snd grids))
  end.

Definition getZoomerGridData (comparisons : list Group) : Grids :=
  let zoomerComparisons :=
    filter (fun comp => String.eqb (m_bucketType (g_metadata comp)) "Zoomer")
      comparisons in
  placeZoomers 0 (firstn 4 zoomerComparisons) (repeat None 4, repeat None 4).

(** ** Navigation (lines 2673-2697) *)

Record NavState : Type := mkNav {
  inspections : list ProcessedInspection;
  currentInspectionIndex : Z;
  currentComparisonIndex : Z;
  zoom : Z
}.

(** [array[i]] for a number [i]: nothing outside the bounds. *)
Definition at_ {A : Type} (l : list A) (i : Z) : option A :=
  if i <? 0 then None else nth_error l (Z.to_nat i).

Definition adjustZoom (delta : Z) (s : NavState) : NavState :=
  mkNav (inspections s) (currentInspectionIndex s) (currentComparisonIndex s)
    (Z.max 50 (Z.min 200 (zoom s + delta))).

Definition goToPreviousComparison (s : NavState) : NavState :=
  mkNav (inspections s) (currentInspectionIndex s)
    (Z.max 0 (currentComparisonIndex s - 1)) (zoom s).

Definition goToNextComparison (s : NavState) : NavState :=
  match at_ (inspections s) (currentInspectionIndex s) with
  | None => s
  | Some currentInspection =>
      mkNav (inspections s) (currentInspectionIndex s)
        (Z.min (Z.of_nat (List.length (pi_comparisons currentInspection)) - 1)
           (currentComparisonIndex s + 1))
        (zoom s)
  end.

Definition goToPrevInspection (s : NavState) : NavState :=
  let prev := currentInspectionIndex s in
  let next := Z.max 0 (prev - 1) in
  mkNav (inspections s) next
    (if negb (next =? prev) then 0 else currentComparisonIndex s) (zoom s).

Definition goToNextInspection (s : NavState) : NavState :=
  let prev := currentInspectionIndex s in
  let next := Z.min (Z.of_nat (List.length (inspections s)) - 1) (prev + 1) in
  mkNav (inspections s) next
    (if negb (next =? prev) then 0 else currentComparisonIndex s) (zoom s).

(** ** Votes (lines 2171-2191) and vote metrics (lines 1059-1244) *)

Record VoteDoc : Type := mkVoteDoc {
  v_comparisonId : jsval;
  v_voteType : jsval
}.

Record VoteData : Type := mkVoteData {
  approvals : Z;
  rejections : Z;
  total : Z;
  percentage : Q
}.

Definition Votes := list (string * VoteData).

Definition isVoteType (v : jsval) (name : string) : bool :=
  match v with
  | JStr s => String.eqb s name
  | _ => false
  end.

(** The body of [snapshot.forEach], as it acts on the own entries of
    [aggVotes].  For a comparison id that is the name of an inherited
    property, [!aggVotes[compId]] is false and the counters are written to
    the inherited value: no own entry is created or changed. *)
Definition addVote (aggVotes : Votes) (data : VoteDoc) : Votes :=
  if negb (truthy (v_comparisonId data)) then aggVotes
  else if objectPrototypeKey (orEmpty (v_comparisonId data)) then aggVotes
  else
    let compId := orEmpty (v_comparisonId data) in
    let agg1 :=
      match lookup String.eqb compId aggVotes with
      | Some _ => aggVotes
      | None => assign String.eqb compId (mkVoteData 0 0 0 0) aggVotes
      end in
    match lookup String.eqb compId agg1 with
    | None => agg1
    | Some v =>
        assign String.eqb compId
          {| approvals := if isVoteType (v_voteType data) "approve"
                          then approvals v + 1 else approvals v;
             rejections := if isVoteType (v_voteType data) "reject"
                           then rejections v + 1 else rejections v;
             total := total v + 1;
             percentage := percentage v |}
          agg1
    end.

(** [v.percentage = v.total > 0 ? (v.approvals / v.total) * 100 : 0] *)
Definition setPercentage (v : VoteData) : VoteData :=
  {| approvals := approvals v;
     rejections := rejections v;
     total := total v;
     percentage :=
       if 0 <? total v
       then (inject_Z (approvals v) / inject_Z (total v) * 100)%Q
       else 0%Q |}.

Definition aggregateVotes (snapshot : list VoteDoc) : Votes :=
  map (fun entry => (fst entry, setPercentage (snd entry)))
    (fold_left addVote snapshot []).

(** [metadata.actions[1]] as a number: 0 when it is ["N/A"]. *)
Definition latestActionsNum (comp : Group) : Z :=
  match nth_error (m_actions (g_metadata comp)) 1 with
  | Some (Some n) => n
  | _ => 0
  end.

Record VoteGroup : Type := mkVoteGroup {
  vg_imageType : string;
  vg_simulatedCamera : string;
  vg_simulatedCameraSide : string;
  vg_originalCameraId : string;
  vg_totalApprovals : Z;
  vg_totalRejections : Z;
  vg_totalVotes : Z;
  vg_totalActions : Z;
  vg_comparisonCount : Z
}.

Record VoteTypeRow : Type := mkVoteTypeRow {
  vt_group : VoteGroup;
  vt_approvalPercentage : Q;
  vt_avgActions : Q
}.

(** The body of [allComparisons.forEach] in [voteMetricsByType]. *)
Definition addVotedComparison (votes : Votes)
    (grouped : list (string * VoteGroup)) (comp : Group)
  : list (string * VoteGroup) :=
  match lookup String.eqb (g_id comp) votes with
  | None => grouped
  | Some voteData =>
      if total voteData =? 0 then grouped
      else
        match m_pov (g_metadata comp) with
        | None => grouped
        | Some p =>
            let bucketType := strOrNA (m_bucketType (g_metadata comp)) in
            let key := joinKey bucketType (orNA (simulatedCamera p))
                         (orNA (simulatedCameraSide p))
                         (orNA (originalCameraId p)) in
            let grouped1 :=
              match lookup String.eqb key grouped with
              | Some _ => grouped
              | None =>
                  assign String.eqb key
                    {| vg_imageType := bucketType;
                       vg_simulatedCamera := orNA (simulatedCamera p);
                       vg_simulatedCameraSide := orNA (simulatedCameraSide p);
                       vg_originalCameraId := orNA (originalCameraId p);
                       vg_totalApprovals := 0;
                       vg_totalRejections := 0;
                       vg_totalVotes := 0;
                       vg_totalActions := 0;
                       vg_comparisonCount := 0 |}
                    grouped
              end in
            match lookup String.eqb key grouped1 with
            | None => grouped1
            | Some group =>
                assign String.eqb key
                  {| vg_imageType := vg_imageType group;
                     vg_simulatedCamera := vg_simulatedCamera group;
                     vg_simulatedCameraSide := vg_simulatedCameraSide group;
                     vg_originalCameraId := vg_originalCameraId group;
                     vg_totalApprovals :=
                       vg_totalApprovals group + approvals voteData;
                     vg_totalRejections :=
                       vg_totalRejections group + rejections voteData;
                     vg_totalVotes := vg_totalVotes group + total voteData;
                     vg_totalActions :=
                       vg_totalActions group + latestActionsNum comp;
                     vg_comparisonCount := vg_comparisonCount group + 1 |}
                  grouped1
            end
        end
  end.

Definition voteTypeRow (group : VoteGroup) : VoteTypeRow :=
  {| vt_group := group;
     vt_approvalPercentage :=
       if 0 <? vg_totalVotes group
       then (inject_Z (vg_totalApprovals group) /
             inject_Z (vg_totalVotes group) * 100)%Q
       else 0%Q;
     vt_avgActions :=
       meanOrZero (vg_totalActions group) (vg_comparisonCount group) |}.

Definition voteMetricsByType (allComparisons : list Group)
    (votes : option Votes) : list VoteTypeRow :=
  match votes with
  | None => []
  | Some votes =>
      let grouped := fold_left (addVotedComparison votes) allComparisons [] in
      stableSort
        (fun a b =>
           Qpositive (vt_approvalPercentage b - vt_approvalPercentage a))
        (filter (fun g => 0 <? vg_totalVotes (vt_group g))
           (map voteTypeRow (map snd grouped)))
  end.

Record VoteMetric : Type := mkVoteMetric {
  vm_comparisonId : string;
  vm_name : string;
  vm_inspectionId : string;
  vm_approvals : Z;
  vm_rejections : Z;
  vm_total : Z;
  vm_percentage : Q;
  vm_actions : Z
}.

Definition voteMetricOf (votes : option Votes) (comp : Group) : VoteMetric :=
  let voteData :=
    match bind votes (lookup String.eqb (g_id comp)) with
    | Some v => v
    | None => mkVoteData 0 0 0 0
    end in
  {| vm_comparisonId := g_id comp;
     vm_name := g_name comp;
     vm_inspectionId := m_inspectionId (g_metadata comp);
     vm_approvals := approvals voteData;
     vm_rejections := rejections voteData;
     vm_total := total voteData;
     vm_percentage := percentage voteData;
     vm_actions := latestActionsNum comp |}.

Definition voteMetrics (allComparisons : list Group) (votes : option Votes)
  : list VoteMetric :=
  stableSort (fun a b => Qpositive (vm_percentage b - vm_percentage a))
    (filter (fun m => 0 <? vm_total m)
       (map (voteMetricOf votes) allComparisons)).

Record OverallStats : Type := mkOverall {
  os_totalComparisons : Z;
  os_totalVotes : Z;
  os_overallApprovalRate : Q;
  os_totalApprovals : Z;
  os_totalRejections : Z;
  os_totalActions : Z;
  os_averageActionsPerImage : Q
}.

Definition sumOf {A : Type} (f : A -> Z) (l : list A) : Z :=
  fold_left (fun sum m => sum + f m) l 0.

Definition overallStats (voteMetrics : list VoteMetric) : OverallStats :=
  match voteMetrics with
  | [] => mkOverall 0 0 0 0 0 0 0
  | _ =>
      let totalComparisons := Z.of_nat (List.length voteMetrics) in
      let totalVotes := sumOf vm_total voteMetrics in
      let totalApprovals := sumOf vm_approvals voteMetrics in
      let totalRejections := sumOf vm_rejections voteMetrics in
      let totalActions := sumOf vm_actions voteMetrics in
      {| os_totalComparisons := totalComparisons;
         os_totalVotes := totalVotes;
         os_overallApprovalRate :=
           if 0 <? totalVotes
           then (inject_Z totalApprovals / inject_Z totalVotes * 100)%Q
           else 0%Q;
         os_totalApprovals := totalApprovals;
         os_totalRejections := totalRejections;
         os_totalActions := totalActions;
         os_averageActionsPerImage := meanOrZero totalActions totalComparisons |}
  end.

Record InspectionScore : Type := mkScore {
  is_inspectionId : string;
  is_averageScore : Q;
  is_totalVotes : Z;
  is_imagesWithVotes : Z;
  is_totalImages : Z;
  is_coverage : Q
}.

(** The percentages of the comparisons that have votes. *)
Definition scoresOf (votes : Votes) (comps : list Group) : list Q :=
  flat_map
    (fun comp =>
       match lookup String.eqb (g_id comp) votes with
       | Some voteData => if total voteData =? 0 then [] else [percentage voteData]
       | None => []
       end)
    comps.

Definition inspectionScoreOf (allComparisons : list Group) (votes : Votes)
    (insp : ProcessedInspection) : InspectionScore :=
  let inspectionComparisons :=
    filter
      (fun comp =>
         String.eqb (m_inspectionId (g_metadata comp)) (pi_inspectionId insp))
      allComparisons in
  let scores := scoresOf votes inspectionComparisons in
  let imagesWithVotes := Z.of_nat (List.length scores) in
  let totalImages := Z.of_nat (List.length inspectionComparisons) in
  {| is_inspectionId := pi_inspectionId insp;
     is_averageScore :=
       if 0 <? imagesWithVotes
       then (fold_left Qplus scores 0 / inject_Z imagesWithVotes)%Q
       else 0%Q;
     is_totalVotes :=
       sumOf
         (fun comp =>
            match lookup String.eqb (g_id comp) votes with
            | Some voteData => total voteData
            | None => 0
            end)
         inspectionComparisons;
     is_imagesWithVotes := imagesWithVotes;
     is_totalImages := totalImages;
     is_coverage :=
       if 0 <? totalImages
       then (inject_Z imagesWithVotes / inject_Z totalImages * 100)%Q
       else 0%Q |}.

Definition inspectionScores (inspections : list ProcessedInspection)
    (allComparisons : list Group) (votes : option Votes)
  : list InspectionScore :=
  match votes with
  | None => []
  | Some votes =>
      stableSort
        (fun a b => Qpositive (is_averageScore b - is_averageScore a))
        (filter (fun insp => 0 <? is_totalVotes insp)
           (map (inspectionScoreOf allComparisons votes) inspections))
  end.

(** [inspections.flatMap((i) => i.comparisons || [])] *)
Definition allComparisonsOf (inspections : list ProcessedInspection)
  : list Group :=
  flat_map pi_comparisons inspections.

(** ** Inspection ids of an uploaded file (lines 2580-2589) *)

(** [s.split(sep)] for a separator of one character. *)
Fixpoint splitOn (sep : ascii) (s : string) : list string :=
  match s with
  | EmptyString => [EmptyString]
  | String c s' =>
      if Ascii.eqb c sep then EmptyString :: splitOn sep s'
      else
        match splitOn sep s' with
        | [] => [String c EmptyString]
        | piece :: pieces => String c piece :: pieces
        end
  end.

Definition newline : ascii := ascii_of_nat 10.
Definition comma : ascii := ascii_of_nat 44.

(** The ids of the upload, or nothing when the handler throws
    ["No inspection IDs found in CSV"]. *)
Definition parseInspectionIds (text : string) : option (list string) :=
  let lines := filter (fun line => nonEmpty (trim line)) (splitOn newline text) in
  let startIndex :=
    match lines with
    | line0 :: _ =>
        if includes (toLowerCase line0) "inspection" then 1%nat else 0%nat
    | [] => 0%nat
    end in
  let inspectionIds :=
    filter nonEmpty
      (map (fun line => trim (hd EmptyString (splitOn comma line)))
         (skipn startIndex lines)) in
  match inspectionIds with
  | [] => None
  | _ => Some inspectionIds
  end.

(** [ids.join("\n")] *)
Fixpoint joinLines (ids : list string) : string :=
  match ids with
  | [] => EmptyString
  | [id] => id
  | id :: rest => id ++ String newline (joinLines rest)
  end.

(** The character [c] occurs in [s]. *)
Fixpoint hasChar (c : ascii) (s : string) : bool :=
  match s with
  | EmptyString => false
  | String x s' => (Ascii.eqb x c || hasChar c s')%bool
  end.

(** An entry the pipeline can use: it has a POV and an allowed type. *)
Definition relevantEntry (img : RawImageEntry) : bool :=
  match pov img with
  | Some _ => isAllowedType (imageType img)
  | None => false
  end.

(** The inspection without the entries the pipeline cannot use. *)
Definition dropIrrelevant (insp : Inspection) : Inspection :=
  {| inspectionId := inspectionId insp;
     uvpaintData :=
       match uvpaintData insp with
       | Some d =>
           Some {| images := filter relevantEntry (images d);
                   uvpaintHistoryImages :=
                     filter relevantEntry (uvpaintHistoryImages d) |}
       | None => None
       end |}.

(** A nullable string as a raw value. *)
Definition jsOfOpt (o : option string) : jsval :=
  match o with
  | Some s => JStr s
  | None => JNull
  end.

(** The group key and rendition label of each published Previous or
    Latest slot of a group. *)
Definition publishedSlotsOf (g : Group) : list (string * option RenditionLabel) :=
  map (fun x => (m_groupKey (g_metadata g), fst x))
    (filter (fun x => slotPublished (snd x))
       (combine (firstn 2 (m_renditions (g_metadata g)))
                (firstn 2 (m_renditionData (g_metadata g))))).

(** The group key and rendition label an entry of the input is filed
    under. *)
Definition slotOfEntry (t : TaggedEntry) : option (string * option RenditionLabel) :=
  match extracted t with
  | Some (k, r, _) => Some (k, Some (RNum r))
  | None => None
  end.

(** An entry of the input is shown in a published slot: a published
    Previous or Latest slot of a comparison group carries its group key
    and its rendition number. *)
Definition shownInPublishedSlot (comparisons : list Group) (t : TaggedEntry)
  : Prop :=
  exists g x,
    In g comparisons /\ In x (publishedSlotsOf g) /\ slotOfEntry t = Some x.

(** [a.reduce((s, x) => s + x, 0)] *)
Definition sumZ (l : list Z) : Z := fold_right Z.add 0 l.

(** The breakdown row the validator records for an inspection. *)
Definition breakdownOf (idx : nat) (insp : ProcessedInspection) : BreakdownRow :=
  {| b_inspectionId := pi_inspectionId insp;
     b_inspectionIndex := idx + 1;
     b_metricsPublished := Z.of_nat (List.length (publishedUvpaintOf insp));
     b_cardPublished := fst (countCards (pi_comparisons insp));
     b_cardGenerated := snd (countCards (pi_comparisons insp));
     b_comparisons := List.length (pi_comparisons insp) |}.

(** The card slots with an image. *)
Definition slotFilled (data : option RenditionDatum) : bool :=
  match data with
  | Some d => truthyOpt (rd_activeImage d)
  | None => false
  end.

Fixpoint breakdownFrom (idx : nat) (processedInspections : list ProcessedInspection)
  : list BreakdownRow :=
  match processedInspections with
  | [] => []
  | insp :: rest => breakdownOf idx insp :: breakdownFrom (S idx) rest
  end.

(** The processed inspections the upload handler builds from fetched
    inspections that carry no history. *)
Definition processedWithoutHistory (localeCompare : string -> string -> Z)
    (processedInspections : list ProcessedInspection) : Prop :=
  forall insp, In insp processedInspections ->
    pi_comparisons insp =
      processInspectionData localeCompare (pi_rawInspection insp) /\
    forall d, uvpaintData (pi_rawInspection insp) = Some d ->
              uvpaintHistoryImages d = [].

(** [actions > 0] on a published image. *)
Definition hasActions (img : RawImageEntry) : bool :=
  (0 <? sumActionMap (actionsCounterMap img)).

(** The number of actions of an image, as the tables add it up. *)
Definition actionsOf (img : RawImageEntry) : Z :=
  sumActionMap (actionsCounterMap img).

(** The vote documents of a snapshot that are filed under a comparison
    id: those that carry this id, unless it is the name of an inherited
    property. *)
Definition votesFor (k : string) (snapshot : list VoteDoc) : list VoteDoc :=
  filter
    (fun d => (truthy (v_comparisonId d) &&
               negb (objectPrototypeKey (orEmpty (v_comparisonId d))) &&
               String.eqb (orEmpty (v_comparisonId d)) k)%bool)
    snapshot.

(** Comparisons whose id is not the name of an inherited property, so
    that [votes[comp.id]] is an own entry of [votes] or [undefined]. *)
Definition plainIds (comparisons : list Group) : Prop :=
  forall comp, In comp comparisons -> objectPrototypeKey (g_id comp) = false.

(** The number of documents with a given vote type. *)
Definition countVotes (name : string) (docs : list VoteDoc) : Z :=
  Z.of_nat (List.length (filter (fun d => isVoteType (v_voteType d) name) docs)).

(** The three counters of an aggregate entry, 0 when there is none. *)
Definition votesAt (k : string) (aggVotes : Votes) : Z * Z * Z :=
  match lookup String.eqb k aggVotes with
  | Some v => (approvals v, rejections v, total v)
  | None => (0, 0, 0)
  end.

(** An aggregate vote entry with sound counters. *)
Definition voteDataWf (v : VoteData) : Prop :=
  0 <= approvals v /\ 0 <= rejections v /\
  approvals v + rejections v <= total v /\ 1 <= total v /\
  (percentage v == inject_Z (approvals v) / inject_Z (total v) * 100)%Q /\
  (0 <= percentage v <= 100)%Q.

Definition votesWf (votes : Votes) : Prop :=
  forall k v, lookup String.eqb k votes = Some v -> voteDataWf v.

(** The key of a vote group, rebuilt from its four fields. *)
Definition voteGroupKey (g : VoteGroup) : string :=
  joinKey (vg_imageType g) (vg_simulatedCamera g) (vg_simulatedCameraSide g)
    (vg_originalCameraId g).

(** The POV and the vote entry of a comparison that [voteMetricsByType]
    files under a group: it has votes and a POV. *)
Definition voted (votes : Votes) (comp : Group) : option (POV * VoteData) :=
  match lookup String.eqb (g_id comp) votes with
  | None => None
  | Some v =>
      if total v =? 0 then None
      else match m_pov (g_metadata comp) with
           | None => None
           | Some p => Some (p, v)
           end
  end.

Definition compKey (comp : Group) (p : POV) : string :=
  joinKey (strOrNA (m_bucketType (g_metadata comp))) (orNA (simulatedCamera p))
    (orNA (simulatedCameraSide p)) (orNA (originalCameraId p)).

Definition freshVoteGroup (comp : Group) (p : POV) : VoteGroup :=
  {| vg_imageType := strOrNA (m_bucketType (g_metadata comp));
     vg_simulatedCamera := orNA (simulatedCamera p);
     vg_simulatedCameraSide := orNA (simulatedCameraSide p);
     vg_originalCameraId := orNA (originalCameraId p);
     vg_totalApprovals := 0;
     vg_totalRejections := 0;
     vg_totalVotes := 0;
     vg_totalActions := 0;
     vg_comparisonCount := 0 |}.

Definition addVotesTo (group : VoteGroup) (voteData : VoteData) (comp : Group)
  : VoteGroup :=
  {| vg_imageType := vg_imageType group;
     vg_simulatedCamera := vg_simulatedCamera group;
     vg_simulatedCameraSide := vg_simulatedCameraSide group;
     vg_originalCameraId := vg_originalCameraId group;
     vg_totalApprovals := vg_totalApprovals group + approvals voteData;
     vg_totalRejections := vg_totalRejections group + rejections voteData;
     vg_totalVotes := vg_totalVotes group + total voteData;
     vg_totalActions := vg_totalActions group + latestActionsNum comp;
     vg_comparisonCount := vg_comparisonCount group + 1 |}.

(** A vote group with sound counters. *)
Definition voteGroupWf (g : VoteGroup) : Prop :=
  0 <= vg_comparisonCount g /\ vg_comparisonCount g <= vg_totalVotes g /\
  0 <= vg_totalApprovals g /\ 0 <= vg_totalRejections g /\
  vg_totalApprovals g + vg_totalRejections g <= vg_totalVotes g.

(** The votes a comparison adds to its group. *)
Definition votesOfComparison (votes : Votes) (comp : Group) : Z :=
  match voted votes comp with
  | Some (_, v) => total v
  | None => 0
  end.

(** The label and grid position of a comparison in the SlimOverview
    grid: the center map for the center camera, the other map otherwise;
    nothing for another bucket type or without POV. *)
Definition slimViewOf (comp : Group) : option (string * nat) :=
  if String.eqb (m_bucketType (g_metadata comp)) "SlimOverview" then
    match m_pov (g_metadata comp) with
    | None => None
    | Some p =>
        if isCenterCamera p then centerViewMap (viewKey p)
        else slimViewMap (viewKey p)
    end
  else None.

(** The entry of a view map for the POV of a comparison. *)
Definition viewIn (viewMap : string -> option (string * nat)) (comp : Group)
  : option (string * nat) :=
  match m_pov (g_metadata comp) with
  | Some p => viewMap (viewKey p)
  | None => None
  end.

(** The comparison, with its label, when [f] sends it to position [i]. *)
Definition hit (f : Group -> option (string * nat)) (i : nat) (comp : Group)
  : option (string * Group) :=
  match f comp with
  | Some (label, pos) => if Nat.eqb pos i then Some (label, comp) else None
  | None => None
  end.

(** The last comparison of a list that [f] sends to position [i]. *)
Fixpoint lastBy (f : Group -> option (string * nat)) (i : nat)
    (comps : list Group) : option (string * Group) :=
  match comps with
  | [] => None
  | comp :: rest =>
      match lastBy f i rest with
      | Some x => Some x
      | None => hit f i comp
      end
  end.

Definition lastView (i : nat) (comps : list Group) : option (string * Group) :=
  lastBy slimViewOf i comps.

Definition cellAt (slot : nat) (x : option (string * Group))
  : option GridCell :=
  option_map (fun x => cellOf (fst x) slot (snd x)) x.

Definition centerComp (comp : Group) : bool :=
  match m_pov (g_metadata comp) with
  | Some p => isCenterCamera p
  | None => false
  end.

Definition regularComp (comp : Group) : bool :=
  match m_pov (g_metadata comp) with
  | Some p => negb (isCenterCamera p)
  | None => false
  end.

(** [comp.name || "Unknown"] *)
Definition zoomerLabel (comp : Group) : string :=
  if nonEmpty (g_name comp) then g_name comp else "Unknown".

(** The Zoomer comparisons of a list, in order. *)
Definition zoomersOf (comparisons : list Group) : list Group :=
  filter (fun comp => String.eqb (m_bucketType (g_metadata comp)) "Zoomer")
    comparisons.

(** An inspection id as the upload handler passes it on: not empty,
    trimmed, without comma and without line break. *)
Definition cleanId (id : string) : Prop :=
  nonEmpty id = true /\ trim id = id /\
  hasChar comma id = false /\ hasChar newline id = false.

(** ** Keyboard navigation (lines 2711-2731) *)

Inductive Key : Type :=
| ArrowLeft
| ArrowRight
| ArrowUp
| ArrowDown
| OtherKey.

(** The key handler of the comparison view, for a key pressed outside a
    form field. *)
Definition onKeyDown (s : NavState) (key : Key) : NavState :=
  match key with
  | ArrowLeft => goToPreviousComparison s
  | ArrowRight => goToNextComparison s
  | ArrowUp => goToPrevInspection s
  | ArrowDown => goToNextInspection s
  | OtherKey => s
  end.

(** [inspections[currentInspectionIndex]] and, when it has comparisons,
    [currentInspection.comparisons[currentComparisonIndex]] exist. *)
Definition navInRange (s : NavState) : Prop :=
  exists insp,
    at_ (inspections s) (currentInspectionIndex s) = Some insp /\
    (pi_comparisons insp <> [] ->
     exists comp,
       at_ (pi_comparisons insp) (currentComparisonIndex s) = Some comp).

(** The number of slots of a card that carry the label ["Published"]. *)
Definition publishedLabels (md : Metadata) : nat :=
  List.length
    (filter (fun idx => String.eqb (getSlotPublishLabel md idx) "Published")
       [0%nat; 1%nat]).

(** A card with a Previous slot: its POV has at least two renditions. *)
Definition hasPrevious (comp : Group) : bool :=
  (2 <=? m_totalVersions (g_metadata comp))%nat.

(** [metadata.actions[0]] as a number: 0 when the slot is empty. *)
Definition previousActionsNum (comp : Group) : Z :=
  match nth_error (m_actions (g_metadata comp)) 0 with
  | Some (Some n) => n
  | _ => 0
  end.

(** The Table D row of a comparison key before its first comparison. *)
Definition freshCompRow (comp : Group) (p : POV) : CompRow :=
  {| cr_imageType := strOrNA (m_bucketType (g_metadata comp));
     cr_simulatedCamera := orNA (simulatedCamera p);
     cr_simulatedCameraSide := orNA (simulatedCameraSide p);
     cr_originalCameraId := orNA (originalCameraId p);
     cr_sums := mkSums 0 0 0 0 |}.

Definition withSlots (row : CompRow) (comp : Group) : CompRow :=
  {| cr_imageType := cr_imageType row;
     cr_simulatedCamera := cr_simulatedCamera row;
     cr_simulatedCameraSide := cr_simulatedCameraSide row;
     cr_originalCameraId := cr_originalCameraId row;
     cr_sums := addSlots (m_actions (g_metadata comp)) (cr_sums row) |}.

(** A comparison with a POV whose slot [slot] has an action total. *)
Definition countedSlot (slot : nat) (comp : Group) : bool :=
  match m_pov (g_metadata comp), nth_error (m_actions (g_metadata comp)) slot with
  | Some _, Some (Some _) => true
  | _, _ => false
  end.

(** The processed inspections whose cards are those of the pipeline. *)
Definition processedByPipeline (localeCompare : string -> string -> Z)
    (processedInspections : list ProcessedInspection) : Prop :=
  forall insp, In insp processedInspections ->
    pi_comparisons insp =
      processInspectionData localeCompare (pi_rawInspection insp).

(** ** Sample inputs *)

(** A collation for the samples: the order of the character codes. *)
Definition codePointCompare (a b : string) : Z :=
  match String.compare a b with
  | Lt => -1
  | Eq => 0
  | Gt => 1
  end.

Definition samplePov (cam side : string) (serial : option Z) : POV :=
  {| simulatedCamera := JStr cam;
     simulatedCameraSide := JStr side;
     serialNumber := serial;
     originalCameraId := JUndefined |}.

Definition sampleEntry (type : string) (p : option POV) (r : jsnum)
    (active : jsval) (isActive : bool) (original : jsval)
    (counts : option ActionMap) : RawImageEntry :=
  {| imageType := JStr type;
     pov := p;
     rendition := r;
     activeImage := active;
     originalImage := original;
     originalImageUrl := JUndefined;
     originalImageWithBackground := JUndefined;
     originalImageWithoutBackground := JUndefined;
     status := JUndefined;
     isActive := isActive;
     actionsCounterMap := counts |}.

Definition frontLeft : option POV := Some (samplePov "Front" "Left" None).

(** Two candidates colliding on rendition 1: an inactive one from the
    current pipeline and an active one, without image, from the history. *)
Definition sampleCollision : Inspection :=
  {| inspectionId := "insp-1";
     uvpaintData :=
       Some {| images :=
                 [ sampleEntry "SlimOverview" frontLeft (NumFinite 1)
                     JUndefined false JUndefined None ];
               uvpaintHistoryImages :=
                 [ sampleEntry "SlimOverview" frontLeft NumAbsent
                     JUndefined true JUndefined None ] |} |}.

(** An entry of rendition 1, with serial number 1. *)
Definition samplePairEntry : RawImageEntry :=
  sampleEntry "SlimOverview" (Some (samplePov "Front" "Left" (Some 1)))
    (NumFinite 1) (JStr "r1.png") true JUndefined None.

(** Renditions 1, 3 and 5 of one viewpoint; the two entries of rendition 1
    differ in the serial number only. *)
Definition sampleThreeRenditions : Inspection :=
  {| inspectionId := "insp-2";
     uvpaintData :=
       Some {| images :=
                 [ sampleEntry "SlimOverview" frontLeft (NumFinite 3)
                     (JStr "r3.png") true JUndefined None;
                   sampleEntry "SlimOverview" frontLeft (NumFinite 5)
                     (JStr "r5.png") true JUndefined None;
                   samplePairEntry;
                   withSerial (Some 2) samplePairEntry ];
               uvpaintHistoryImages := [] |} |}.

(** One rendition of a [Zoomer] viewpoint, and a [SlimOverview] entry of
    the same viewpoint carrying the original capture. *)
Definition sampleZoomer : Inspection :=
  {| inspectionId := "insp-3";
     uvpaintData :=
       Some {| images :=
                 [ sampleEntry "ZoomerFront" frontLeft NumAbsent
                     (JStr "z.png") false JUndefined None ];
               uvpaintHistoryImages :=
                 [ sampleEntry "SlimOverview" frontLeft NumNotFinite
                     JUndefined false (JStr " og.png ") None ] |} |}.

(** Three viewpoints: an unpublished [SlimOverview] one, a published
    [Zoomer] one and a published [SlimOverview] one. *)
Definition sampleMixed : Inspection :=
  {| inspectionId := "insp-4";
     uvpaintData :=
       Some {| images :=
                 [ sampleEntry "SlimOverview"
                     (Some (samplePov "Rear" "Left" None)) (NumFinite 3)
                     (JStr "s.png") false JUndefined None;
                   sampleEntry "ZoomerRear"
                     (Some (samplePov "Rear" "Right" None)) (NumFinite 3)
                     (JStr "z.png") true JUndefined None;
                   sampleEntry "slimoverview"
                     (Some (samplePov "FRONT" " right " None)) (NumFinite 3)
                     (JStr "t.png") true JUndefined None ];
               uvpaintHistoryImages := [] |} |}.

(** The end-to-end scenario: rendition 3 of the current pipeline, published
    with 2 actions, and rendition 1 of the history with 1 action. *)
Definition sampleEndToEnd : Inspection :=
  {| inspectionId := "insp-5";
     uvpaintData :=
       Some {| images :=
                 [ sampleEntry "SlimOverview" frontLeft (NumFinite 3)
                     (JStr "u1") true JUndefined (Some [("a", ANum 2)]) ];
               uvpaintHistoryImages :=
                 [ sampleEntry "SlimOverview" frontLeft (NumFinite 1)
                     (JStr "u0") false JUndefined (Some [("a", ANum 1)]) ] |} |}.

Definition sampleRearLeft : RawImageEntry :=
  sampleEntry "SlimOverview" (Some (samplePov "Rear" "Left" None))
    (NumFinite 3) (JStr "u2") true JUndefined (Some [("a", ANum 5)]).

(** Two viewpoints: the front one has a published image with 1 action and
    a newer history rendition with 100 actions, the rear one a published
    image with 5 actions. *)
Definition sampleHeatmap : Inspection :=
  {| inspectionId := "insp-6";
     uvpaintData :=
       Some {| images :=
                 [ sampleEntry "SlimOverview" frontLeft (NumFinite 3)
                     (JStr "u1") true JUndefined (Some [("a", ANum 1)]);
                   sampleRearLeft ];
               uvpaintHistoryImages :=
                 [ sampleEntry "SlimOverview" frontLeft (NumFinite 5)
                     (JStr "h") false JUndefined (Some [("a", ANum 100)]) ] |} |}.


(** Two published entries of one viewpoint and one rendition, which differ
    in the serial number: one card slot for two published images. *)
Definition sampleTwoSerials : Inspection :=
  {| inspectionId := "insp-8";
     uvpaintData :=
       Some {| images := [ samplePairEntry; withSerial (Some 2) samplePairEntry ];
               uvpaintHistoryImages := [] |} |}.



(** The data of a sample, empty when it has none. *)
Definition sampleData (insp : Inspection) : UvpaintData :=
  match uvpaintData insp with
  | Some d => d
  | None => {| images := []; uvpaintHistoryImages := [] |}
  end.


(** A published image whose rendition is no number, and a published
    entry of the history. *)
Definition sampleHistoryMasks : Inspection :=
  {| inspectionId := "insp-13";
     uvpaintData :=
       Some {| images :=
                 [ sampleEntry "SlimOverview" frontLeft NumNotFinite
                     (JStr "u1") true JUndefined None ];
               uvpaintHistoryImages :=
                 [ sampleEntry "SlimOverview" frontLeft (NumFinite 1)
                     (JStr "h") true JUndefined None ] |} |}.

(** One published image whose action counters add up to -2. *)
Definition sampleNegative : Inspection :=
  {| inspectionId := "insp-9";
     uvpaintData :=
       Some {| images :=
                 [ sampleEntry "SlimOverview" frontLeft (NumFinite 3)
                     (JStr "u1") true JUndefined (Some [("a", ANum (-2))]) ];
               uvpaintHistoryImages := [] |} |}.

Definition sampleEndToEndProcessed : ProcessedInspection :=
  processOne codePointCompare "insp-5" sampleEndToEnd.

(** A vote document for a comparison id. *)
Definition sampleVote (compId voteType : string) : VoteDoc :=
  {| v_comparisonId := JStr compId; v_voteType := JStr voteType |}.

(** Three votes on the group of the end-to-end scenario, two of them
    approvals, and a vote without comparison id. *)
Definition sampleSnapshot : list VoteDoc :=
  [ sampleVote "insp-5_SlimOverview_front_left" "approve";
    sampleVote "insp-5_SlimOverview_front_left" "reject";
    {| v_comparisonId := JUndefined; v_voteType := JStr "approve" |};
    sampleVote "insp-5_SlimOverview_front_left" "approve" ].

(** An upload with a header line, a padded id followed by a second
    column, an empty line and a last id. *)
Definition sampleCsv : string :=
  "Inspection ID,Vehicle" ++ String newline
    (" abc-1 ,Golf" ++ String newline
       (String newline ("abc-2" ++ String newline EmptyString))).

(** * Properties *)

(** ** Dictionaries *)

Section DictionaryFacts.
Context {K V : Type}.
Variable keq : K -> K -> bool.
Hypothesis keq_spec : forall a b, reflect (a = b) (keq a b).

Lemma lookup_assign_eq (k : K) (v : V) d :
  lookup keq k (assign keq k v d) = Some v.
Proof.
  induction d as [|[k' v'] d IH]; simpl.
  - destruct (keq_spec k k); congruence.
  - destruct (keq_spec k k') as [->|Hne]; simpl.
    + destruct (keq_spec k' k'); congruence.
    + destruct (keq_spec k k'); [congruence|exact IH].
Qed.

Lemma lookup_assign_neq (k k' : K) (v : V) d :
  k <> k' -> lookup keq k' (assign keq k v d) = lookup keq k' d.
Proof.
  intros Hne. induction d as [|[k0 v0] d IH]; simpl.
  - destruct (keq_spec k' k); congruence.
  - destruct (keq_spec k k0) as [->|Hne0]; simpl.
    + destruct (keq_spec k' k0); congruence.
    + destruct (keq_spec k' k0); [reflexivity|exact IH].
Qed.

Lemma lookup_None (k : K) (d : list (K * V)) :
  lookup keq k d = None <-> ~ In k (map fst d).
Proof.
  induction d as [|[k' v'] d IH]; simpl.
  - tauto.
  - destruct (keq_spec k k') as [->|Hne].
    + split; [discriminate|intros H; exfalso; apply H; now left].
    + rewrite IH. split; intros H; [intros [E|E]; [congruence|tauto]|tauto].
Qed.

Lemma lookup_In (k : K) (v : V) d :
  lookup keq k d = Some v -> In (k, v) d.
Proof.
  induction d as [|[k' v'] d IH]; simpl; [discriminate|].
  destruct (keq_spec k k') as [->|Hne].
  - intros [= ->]. now left.
  - intros H. right. now apply IH.
Qed.

Lemma In_lookup (k : K) (v : V) d :
  NoDup (map fst d) -> In (k, v) d -> lookup keq k d = Some v.
Proof.
  induction d as [|[k' v'] d IH]; simpl; [tauto|].
  intros Hnd [E|Hin].
  - injection E as -> ->. destruct (keq_spec k k); congruence.
  - inversion Hnd as [|? ? Hnotin Hnd']; subst.
    destruct (keq_spec k k') as [->|Hne].
    + exfalso. apply Hnotin. now apply (in_map fst) in Hin.
    + now apply IH.
Qed.

Lemma assign_keys_present (k : K) (v : V) d :
  In k (map fst d) -> map fst (assign keq k v d) = map fst d.
Proof.
  induction d as [|[k' v'] d IH]; simpl; [tauto|].
  intros Hin. destruct (keq_spec k k') as [->|Hne]; simpl.
  - reflexivity.
  - f_equal. apply IH. destruct Hin; congruence.
Qed.

Lemma assign_keys_fresh (k : K) (v : V) d :
  ~ In k (map fst d) -> map fst (assign keq k v d) = (map fst d ++ [k])%list.
Proof.
  induction d as [|[k' v'] d IH]; simpl; [reflexivity|].
  intros Hin. destruct (keq_spec k k') as [->|Hne]; simpl.
  - exfalso. apply Hin. now left.
  - f_equal. apply IH. tauto.
Qed.

Lemma assign_keys_cases (k : K) (v : V) d :
  map fst (assign keq k v d) = map fst d \/
  (~ In k (map fst d) /\ map fst (assign keq k v d) = (map fst d ++ [k])%list).
Proof.
  destruct (lookup keq k d) eqn:E.
  - left. apply assign_keys_present.
    apply lookup_In in E. now apply (in_map fst) in E.
  - right. apply lookup_None in E. split; [exact E|].
    now apply assign_keys_fresh.
Qed.

Lemma NoDup_assign (k : K) (v : V) d :
  NoDup (map fst d) -> NoDup (map fst (assign keq k v d)).
Proof.
  intros Hnd. destruct (assign_keys_cases k v d) as [->|[Hnotin ->]].
  - exact Hnd.
  - apply NoDup_app; [exact Hnd|constructor; [simpl; tauto|constructor]|].
    intros x Hx [<-|[]]. contradiction.
Qed.

Lemma In_assign (k k' : K) (v v' : V) d :
  In (k', v') (assign keq k v d) -> (k' = k /\ v' = v) \/ In (k', v') d.
Proof.
  induction d as [|[k0 v0] d IH]; simpl.
  - intros [E|[]]. left. injection E as <- <-. tauto.
  - destruct (keq_spec k k0) as [->|Hne]; simpl.
    + intros [E|H]; [left; injection E as <- <-; tauto|tauto].
    + intros [E|H]; [tauto|]. destruct (IH H); tauto.
Qed.
End DictionaryFacts.

Arguments lookup_assign_eq {K V keq} keq_spec k v d.
Arguments lookup_assign_neq {K V keq} keq_spec {k k'} v d _.
Arguments lookup_None {K V keq} keq_spec k d.
Arguments lookup_In {K V keq} keq_spec {k v d} _.
Arguments In_lookup {K V keq} keq_spec {k v d} _ _.
Arguments assign_keys_cases {K V keq} keq_spec k v d.
Arguments NoDup_assign {K V keq} keq_spec k v {d} _.
Arguments In_assign {K V keq} keq_spec {k k' v v' d} _.

(** ** The stable sort *)

Section StableSortFacts.
Context {A : Type}.
Variable after : A -> A -> bool.

Lemma insert_perm (x : A) l : Permutation (insert after x l) (x :: l).
Proof.
  induction l as [|y l IH]; simpl; [reflexivity|].
  destruct (after x y); [|reflexivity].
  rewrite IH. apply perm_swap.
Qed.

Lemma stableSort_perm l : Permutation (stableSort after l) l.
Proof.
  induction l as [|x l IH]; simpl; [reflexivity|].
  rewrite insert_perm. now constructor.
Qed.

Lemma stableSort_In l x : In x (stableSort after l) <-> In x l.
Proof.
  split; apply Permutation_in;
    [apply stableSort_perm|symmetry; apply stableSort_perm].
Qed.

Lemma stableSort_nil l : stableSort after l = [] -> l = [].
Proof.
  intros H. apply Permutation_nil. rewrite <- H.
  apply stableSort_perm.
Qed.

Section Ordered.
Variable le : A -> A -> Prop.
Hypothesis le_trans : forall a b c, le a b -> le b c -> le a c.
Hypothesis after_false : forall a b, after a b = false -> le a b.
Hypothesis after_true : forall a b, after a b = true -> le b a.

Lemma insert_sorted x l :
  StronglySorted le l -> StronglySorted le (insert after x l).
Proof.
  induction 1 as [|y l Hs IH Hall]; simpl.
  - constructor; constructor.
  - destruct (after x y) eqn:E.
    + constructor; [exact IH|].
      apply Forall_forall. intros z Hz.
      apply (Permutation_in _ (insert_perm x l)) in Hz.
      destruct Hz as [<-|Hz]; [now apply after_true|].
      rewrite Forall_forall in Hall. now apply Hall.
    + constructor; [now constructor|].
      constructor; [now apply after_false|].
      rewrite Forall_forall in *. intros z Hz.
      apply le_trans with y; [now apply after_false|now apply Hall].
Qed.

Lemma stableSort_sorted l : StronglySorted le (stableSort after l).
Proof.
  induction l as [|x l IH]; simpl; [constructor|now apply insert_sorted].
Qed.
End Ordered.

Section ByScore.
Variable score : A -> Z.
Hypothesis after_score : forall a b, after a b = (score a <? score b).

(** The head of the sorted array is the first element of the input
    with the greatest score. *)
Lemma stableSort_head l :
  l <> [] ->
  exists c pre post,
    hd_error (stableSort after l) = Some c /\
    l = (pre ++ c :: post)%list /\
    (forall x, In x pre -> score x < score c) /\
    (forall x, In x post -> score x <= score c).
Proof.
  induction l as [|x l IH]; [congruence|]. intros _.
  destruct l as [|y l'].
  - exists x, [], []. simpl. repeat split; intros ? [].
  - destruct IH as (c & pre & post & Hhd & Hl & Hpre & Hpost); [discriminate|].
    change (stableSort after (x :: y :: l'))
      with (insert after x (stableSort after (y :: l'))).
    destruct (stableSort after (y :: l')) as [|h t] eqn:Es;
      [discriminate|].
    simpl in Hhd. injection Hhd as ->. simpl.
    rewrite after_score. destruct (score x <? score c) eqn:E.
    + apply Z.ltb_lt in E.
      exists c, (x :: pre), post. simpl. rewrite Hl.
      repeat split; [|exact Hpost].
      intros z [<-|Hz]; [exact E|now apply Hpre].
    + apply Z.ltb_ge in E.
      exists x, [], (y :: l'). simpl. repeat split; [intros ? []|].
      intros z Hz.
      assert (Hz' : In z (pre ++ c :: post)) by (rewrite <- Hl; exact Hz).
      apply in_app_or in Hz'. destruct Hz' as [Hz'|[<-|Hz']].
      * specialize (Hpre z Hz'). lia.
      * exact E.
      * specialize (Hpost z Hz'). lia.
Qed.
End ByScore.
End StableSortFacts.

(** ** Normalization helpers *)

Lemma sum_counts_shift (l : list actval) (a : Z) :
  fold_left (fun a b => a + numberOrZero b) l a =
  a + fold_left (fun a b => a + numberOrZero b) l 0.
Proof.
  revert a. induction l as [|b l IH]; intros a; simpl.
  - lia.
  - rewrite IH. rewrite (IH (numberOrZero b)). lia.
Qed.

Lemma sumActionMap_cons (k : string) (b : actval) (kv : ActionMap) :
  sumActionMap (Some ((k, b) :: kv)) =
  numberOrZero b + sumActionMap (Some kv).
Proof. unfold sumActionMap. simpl. now rewrite sum_counts_shift. Qed.

Lemma normCam_cases (v : jsval) :
  normCam v = Some "front" \/ normCam v = Some "rear" \/
  normCam v = Some "center" \/
  (normCam v = None /\ norm v = "") \/
  (normCam v = Some (norm v) /\ norm v <> "").
Proof.
  unfold normCam.
  destruct (startsWith (norm v) "front"); [tauto|].
  destruct (startsWith (norm v) "rear"); [tauto|].
  destruct (startsWith (norm v) "center"); [tauto|].
  destruct (norm v) eqn:E; simpl; [tauto|].
  right. right. right. right. split; [reflexivity|discriminate].
Qed.

Lemma normSide_cases (v : jsval) :
  normSide v = Some "left" \/ normSide v = Some "right" \/
  normSide v = Some "center" \/
  (normSide v = None /\ norm v = "") \/
  (normSide v = Some (norm v) /\ norm v <> "").
Proof.
  unfold normSide.
  destruct (startsWith (norm v) "left"); [tauto|].
  destruct (startsWith (norm v) "right"); [tauto|].
  destruct (startsWith (norm v) "center"); [tauto|].
  destruct (norm v) eqn:E; simpl; [tauto|].
  right. right. right. right. split; [reflexivity|discriminate].
Qed.

Lemma normCam_nonEmpty (v : jsval) (c : string) :
  normCam v = Some c -> nonEmpty c = true.
Proof.
  destruct (normCam_cases v) as [H|[H|[H|[[H _]|[H Hne]]]]];
    rewrite H; intros [= <-]; try reflexivity.
  destruct (norm v); [congruence|reflexivity].
Qed.

Lemma normSide_nonEmpty (v : jsval) (s : string) :
  normSide v = Some s -> nonEmpty s = true.
Proof.
  destruct (normSide_cases v) as [H|[H|[H|[[H _]|[H Hne]]]]];
    rewrite H; intros [= <-]; try reflexivity.
  destruct (norm v); [congruence|reflexivity].
Qed.

Lemma bucketTypeOf_cases (v : jsval) :
  bucketTypeOf v = Some "SlimOverview" \/ bucketTypeOf v = Some "Zoomer" \/
  bucketTypeOf v = None.
Proof.
  unfold bucketTypeOf.
  destruct (isSlimOverview v); [tauto|]. destruct (isZoomer v); tauto.
Qed.

(** Two names that differ in their first character are not both a prefix
    of one string. *)
Lemma startsWith_clash (a b : ascii) (p q s : string) :
  a <> b -> startsWith s (String a p) = true ->
  startsWith s (String b q) = false.
Proof.
  intros Hab. unfold startsWith. destruct s as [|c s]; simpl; [discriminate|].
  destruct (ascii_dec a c) as [->|_]; [|discriminate].
  destruct (ascii_dec b c) as [->|_]; [congruence|reflexivity].
Qed.

Lemma startsWith_refl (s : string) : startsWith s s = true.
Proof.
  unfold startsWith. induction s as [|a s IH]; simpl; [reflexivity|].
  destruct (ascii_dec a a); [exact IH|congruence].
Qed.

(** The normalization of a name with three canonical values, as
    [normCam] and [normSide] share it. *)
Lemma canonical_cases (n c1 c2 c3 : string) (a1 a2 a3 : ascii)
    (t1 t2 t3 : string) :
  c1 = String a1 t1 -> c2 = String a2 t2 -> c3 = String a3 t3 ->
  a1 <> a2 -> a1 <> a3 -> a2 <> a3 ->
  let r := if startsWith n c1 then Some c1
           else if startsWith n c2 then Some c2
           else if startsWith n c3 then Some c3
           else if nonEmpty n then Some n else None in
  (r = Some c1 <-> startsWith n c1 = true) /\
  (r = Some c2 <-> startsWith n c2 = true) /\
  (r = Some c3 <-> startsWith n c3 = true) /\
  (r = None <-> n = "") /\
  (startsWith n c1 = false -> startsWith n c2 = false ->
   startsWith n c3 = false -> n <> "" -> r = Some n).
Proof.
  intros -> -> -> H12 H13 H23. cbv zeta.
  assert (Hself : forall c, startsWith n c = false -> Some n <> Some c).
  { intros c Hc [= <-]. rewrite startsWith_refl in Hc. discriminate. }
  destruct (startsWith n (String a1 t1)) eqn:E1.
  { pose proof (startsWith_clash a1 a2 t1 t2 n H12 E1) as E2.
    pose proof (startsWith_clash a1 a3 t1 t3 n H13 E1) as E3.
    rewrite E2, E3.
    assert (Hne : n <> "") by (intros ->; discriminate E1).
    repeat split; try congruence; try tauto. }
  destruct (startsWith n (String a2 t2)) eqn:E2.
  { pose proof (startsWith_clash a2 a3 t2 t3 n H23 E2) as E3. rewrite E3.
    assert (Hne : n <> "") by (intros ->; discriminate E2).
    repeat split; try congruence; try tauto. }
  destruct (startsWith n (String a3 t3)) eqn:E3.
  { assert (Hne : n <> "") by (intros ->; discriminate E3).
    repeat split; try congruence; try tauto. }
  pose proof (Hself _ E1) as N1. pose proof (Hself _ E2) as N2.
  pose proof (Hself _ E3) as N3. clear Hself E1 E2 E3.
  destruct n as [|a0 n0]; cbn [nonEmpty].
  - repeat split; try congruence; try tauto.
  - repeat split; try congruence; try tauto; intros H; try discriminate H;
      exfalso; tauto.
Qed.

(** C9 (as amended).  The normalization helpers are total functions of
    [null], [undefined] and every string.  [normCam] and [normSide] return
    one of their three canonical names, [null] exactly when the trimmed,
    lower-cased input is empty, and otherwise that trimmed, lower-cased
    input itself (the open-vocabulary fallback): a canonical name exactly
    when the trimmed, lower-cased input starts with it.  [bucketTypeOf]
    returns ["SlimOverview"], ["Zoomer"] or [null]; [sumActionMap] returns
    a number: 0 for an absent map, and the sum of the entries where an
    entry that is no number counts for 0. *)
Theorem normalization_total :
  (forall v,
     normCam v = Some "front" \/ normCam v = Some "rear" \/
     normCam v = Some "center" \/
     (normCam v = None /\ norm v = "") \/
     (normCam v = Some (norm v) /\ norm v <> "")) /\
  (forall v,
     normSide v = Some "left" \/ normSide v = Some "right" \/
     normSide v = Some "center" \/
     (normSide v = None /\ norm v = "") \/
     (normSide v = Some (norm v) /\ norm v <> "")) /\
  (forall v,
     bucketTypeOf v = Some "SlimOverview" \/ bucketTypeOf v = Some "Zoomer" \/
     bucketTypeOf v = None) /\
  (forall f, In f [normCam; normSide; bucketTypeOf] ->
     f JNull = None /\ f JUndefined = None /\ f (JStr "") = None) /\
  sumActionMap None = 0 /\
  sumActionMap (Some []) = 0 /\
  (forall k n kv,
     sumActionMap (Some ((k, ANum n) :: kv)) = n + sumActionMap (Some kv)) /\
  (forall k kv,
     sumActionMap (Some ((k, ANotNumeric) :: kv)) = sumActionMap (Some kv)) /\
  (forall v,
     norm v = toLowerCase (trim (orEmpty v)) /\
     (normCam v = None <-> norm v = "") /\
     (normCam v = Some "front" <-> startsWith (norm v) "front" = true) /\
     (normCam v = Some "rear" <-> startsWith (norm v) "rear" = true) /\
     (normCam v = Some "center" <-> startsWith (norm v) "center" = true) /\
     (startsWith (norm v) "front" = false ->
      startsWith (norm v) "rear" = false ->
      startsWith (norm v) "center" = false ->
      norm v <> "" -> normCam v = Some (norm v))) /\
  (forall v,
     (normSide v = None <-> norm v = "") /\
     (normSide v = Some "left" <-> startsWith (norm v) "left" = true) /\
     (normSide v = Some "right" <-> startsWith (norm v) "right" = true) /\
     (normSide v = Some "center" <-> startsWith (norm v) "center" = true) /\
     (startsWith (norm v) "left" = false ->
      startsWith (norm v) "right" = false ->
      startsWith (norm v) "center" = false ->
      norm v <> "" -> normSide v = Some (norm v))) /\
  (forall v,
     (bucketTypeOf v = Some "SlimOverview" <-> norm v = "slimoverview") /\
     (bucketTypeOf v = Some "Zoomer" <->
      norm v <> "slimoverview" /\ includes (norm v) "zoomer" = true)).
Proof.
  split; [exact normCam_cases|].
  split; [exact normSide_cases|].
  split; [exact bucketTypeOf_cases|].
  split.
  { intros f [<-|[<-|[<-|[]]]]; repeat split; reflexivity. }
  split; [reflexivity|]. split; [reflexivity|].
  split; [intros; rewrite sumActionMap_cons; simpl; lia|].
  split; [intros; rewrite sumActionMap_cons; simpl; lia|].
  split; [|split].
  - intros v. split; [reflexivity|].
    destruct (canonical_cases (norm v) "front" "rear" "center"
                "f" "r" "c" "ront" "ear" "enter")
      as (H1 & H2 & H3 & H4 & H5);
      try reflexivity; try discriminate.
    split; [exact H4|]. split; [exact H1|]. split; [exact H2|].
    split; [exact H3|exact H5].
  - intros v.
    destruct (canonical_cases (norm v) "left" "right" "center"
                "l" "r" "c" "eft" "ight" "enter")
      as (H1 & H2 & H3 & H4 & H5);
      try reflexivity; try discriminate.
    split; [exact H4|]. split; [exact H1|]. split; [exact H2|].
    split; [exact H3|exact H5].
  - intros v. unfold bucketTypeOf, isSlimOverview, isZoomer.
    destruct (String.eqb_spec (norm v) "slimoverview") as [E|E].
    + split; [tauto|]. split; [discriminate|tauto].
    + destruct (includes (norm v) "zoomer") eqn:Ez;
        (split; [split; [discriminate|tauto]|]); split;
        try tauto; try discriminate.
      intros [_ H]. discriminate.
Qed.

Lemma normalization_total_witness :
  normCam JNull = None /\ normCam JUndefined = None /\
  normCam (JStr "") = None /\
  sumActionMap (Some [("a", ANum 2); ("b", ANotNumeric); ("c", ANum 3)]) = 5.
Proof.
  destruct normalization_total as (_ & _ & _ & Hnull & _).
  destruct (Hnull normCam (or_introl eq_refl)) as (H1 & H2 & H3).
  split; [exact H1|]. split; [exact H2|]. split; [exact H3|reflexivity].
Defined.

(** C9, the claim as stated does not hold: a camera name outside the
    three canonical ones passes through, so the result is not confined to
    the closed set. *)
Lemma normalization_closed_set_counterexample :
  normCam (JStr " Top ") = Some "top" /\
  ~ In (normCam (JStr " Top "))
      [Some "front"; Some "rear"; Some "center"; None] /\
  normSide (JStr "Upper") = Some "upper" /\
  ~ In (normSide (JStr "Upper"))
      [Some "left"; Some "right"; Some "center"; None].
Proof.
  repeat split; try reflexivity;
    vm_compute; intros H; repeat (destruct H as [H|H]; [discriminate|]);
    exact H.
Qed.

(** ** Candidate extraction *)

Lemma collectRows_entries (d : UvpaintData) :
  collectRows d = fold_left collectTagged (entriesOf d) [].
Proof.
  unfold collectRows, entriesOf. rewrite fold_left_app.
  assert (H : forall src dflt l acc,
             fold_left collectTagged
               (map (fun img : RawImageEntry => (src, dflt, img)) l) acc =
             fold_left (collectImage src dflt) l acc).
  { intros src dflt l. induction l as [|x l IH]; intros acc; simpl;
      [reflexivity|apply IH]. }
  now rewrite !H.
Qed.

Lemma bucketTypeOf_allowed (v : jsval) :
  isAllowedType v = true <-> bucketTypeOf v <> None.
Proof.
  unfold isAllowedType, bucketTypeOf.
  destruct (isSlimOverview v), (isZoomer v); simpl; split;
    congruence || discriminate.
Qed.

Lemma renditionsAt_push (r r' : Z) (c : Candidate) (row : Row) :
  renditionsAt r' (pushCandidate r c row) =
  if Z.eqb r r' then (renditionsAt r row ++ [c])%list else renditionsAt r' row.
Proof.
  unfold renditionsAt at 1. simpl.
  destruct (Z.eqb_spec r r') as [->|Hne].
  - now rewrite (lookup_assign_eq Z.eqb_spec).
  - now rewrite (lookup_assign_neq Z.eqb_spec _ _ Hne).
Qed.

Lemma renditionsAt_push_incl (r r' : Z) (c x : Candidate) (row : Row) :
  In x (renditionsAt r' row) -> In x (renditionsAt r' (pushCandidate r c row)).
Proof.
  rewrite renditionsAt_push. destruct (Z.eqb_spec r r') as [->|_]; [|tauto].
  intros H. apply in_or_app. now left.
Qed.

Lemma pushCandidate_wf (r : Z) (c : Candidate) (row : Row) :
  rowWf row -> rowWf (pushCandidate r c row).
Proof.
  intros (Hnd & Hne & Hb). split; [|split]; simpl.
  - now apply (NoDup_assign Z.eqb_spec).
  - intros r' arr Hin.
    apply (In_assign Z.eqb_spec) in Hin. destruct Hin as [[_ ->]|Hin].
    + destruct (renditionsAt r row); discriminate.
    + now apply (Hne r').
  - exact Hb.
Qed.

Lemma ensureRow_lookup (key bucketType : string) (p : POV) rows :
  exists row,
    lookup String.eqb key (ensureRow key bucketType p rows) = Some row /\
    (lookup String.eqb key rows = Some row \/
     (lookup String.eqb key rows = None /\ row = mkRow bucketType p [] [])).
Proof.
  unfold ensureRow. destruct (lookup String.eqb key rows) as [row|] eqn:E.
  - exists row. rewrite E. tauto.
  - eexists. rewrite (lookup_assign_eq String.eqb_spec). tauto.
Qed.

Lemma ensureRow_other (key k bucketType : string) (p : POV) rows :
  key <> k ->
  lookup String.eqb k (ensureRow key bucketType p rows) =
  lookup String.eqb k rows.
Proof.
  intros Hne. unfold ensureRow.
  destruct (lookup String.eqb key rows); [reflexivity|].
  now apply (lookup_assign_neq String.eqb_spec).
Qed.

Lemma rowsWf_assign (key : string) (row : Row) rows :
  rowsWf rows -> rowWf row -> rowsWf (assign String.eqb key row rows).
Proof.
  intros [Hnd Hall] Hrow. split.
  - now apply (NoDup_assign String.eqb_spec).
  - intros k r Hin. apply (In_assign String.eqb_spec) in Hin.
    destruct Hin as [[_ ->]|Hin]; [exact Hrow|now apply (Hall k)].
Qed.

Lemma rowsWf_lookup (key : string) (row : Row) rows :
  rowsWf rows -> lookup String.eqb key rows = Some row -> rowWf row.
Proof.
  intros [_ Hall] H. apply (Hall key).
  now apply (lookup_In String.eqb_spec).
Qed.

Lemma ensureRow_wf (key bucketType : string) (p : POV) rows :
  bucketType = "SlimOverview" \/ bucketType = "Zoomer" ->
  rowsWf rows -> rowsWf (ensureRow key bucketType p rows).
Proof.
  intros Hb Hwf. unfold ensureRow.
  destruct (lookup String.eqb key rows); [exact Hwf|].
  apply rowsWf_assign; [exact Hwf|].
  split; [|split]; simpl; [constructor|intros ? ? []|exact Hb].
Qed.

Lemma putCandidate_wf (a : PutArgs) rows :
  rowsWf rows -> rowsWf (putCandidate a rows).
Proof.
  intros Hwf. unfold putCandidate.
  destruct (p_pov a) as [p|]; [|exact Hwf].
  destruct (negb (isAllowedType (p_imageType a))); [exact Hwf|].
  destruct (bucketTypeOf (p_imageType a)) as [bt|] eqn:Eb; [|exact Hwf].
  assert (Hb : bt = "SlimOverview" \/ bt = "Zoomer").
  { destruct (bucketTypeOf_cases (p_imageType a)) as [H|[H|H]];
      rewrite H in Eb; [left|right|discriminate]; congruence. }
  pose proof (ensureRow_wf (createPOVKey bt p) bt p rows Hb Hwf) as Hwf1.
  destruct (lookup String.eqb (createPOVKey bt p)
              (ensureRow (createPOVKey bt p) bt p rows)) as [row|] eqn:E;
    [|exact Hwf1].
  destruct (finiteNumber (p_rendition a)) as [r|]; [|exact Hwf1].
  apply rowsWf_assign; [exact Hwf1|].
  apply pushCandidate_wf. eapply rowsWf_lookup; eassumption.
Qed.

Lemma collectTagged_wf (t : TaggedEntry) rows :
  rowsWf rows -> rowsWf (collectTagged rows t).
Proof.
  destruct t as [[src dflt] img]. intros Hwf. unfold collectTagged, collectImage.
  destruct (isArtemis (imageType img)); [exact Hwf|].
  destruct (pov img); [|exact Hwf].
  destruct (negb (isAllowedType (imageType img))); [exact Hwf|].
  now apply putCandidate_wf.
Qed.

Lemma collectRows_wf (d : UvpaintData) : rowsWf (collectRows d).
Proof.
  rewrite collectRows_entries.
  assert (H : forall l acc, rowsWf acc -> rowsWf (fold_left collectTagged l acc)).
  { induction l as [|t l IH]; intros acc Hacc; simpl; [exact Hacc|].
    apply IH. now apply collectTagged_wf. }
  apply H. split; simpl; [constructor|intros ? ? []].
Qed.

Lemma rowExtends_refl (row : Row) : rowExtends row row.
Proof. repeat split; auto. Qed.

Lemma rowExtends_trans (r1 r2 r3 : Row) :
  rowExtends r1 r2 -> rowExtends r2 r3 -> rowExtends r1 r3.
Proof.
  intros (A1 & B1 & C1) (A2 & B2 & C2). repeat split; try congruence.
  intros r x H. apply C2. now apply C1.
Qed.

Lemma rowExtends_push (r : Z) (c : Candidate) (row : Row) :
  rowExtends row (pushCandidate r c row).
Proof.
  repeat split. intros r' x. apply renditionsAt_push_incl.
Qed.

Lemma putCandidate_preserves (a : PutArgs) rows (k : string) (row : Row) :
  lookup String.eqb k rows = Some row ->
  exists row',
    lookup String.eqb k (putCandidate a rows) = Some row' /\ rowExtends row row'.
Proof.
  intros Hk. unfold putCandidate.
  destruct (p_pov a) as [p|]; [|exists row; split; [exact Hk|apply rowExtends_refl]].
  destruct (negb (isAllowedType (p_imageType a)));
    [exists row; split; [exact Hk|apply rowExtends_refl]|].
  destruct (bucketTypeOf (p_imageType a)) as [bt|];
    [|exists row; split; [exact Hk|apply rowExtends_refl]].
  set (key := createPOVKey bt p).
  destruct (String.eqb_spec key k) as [Heq|Hne].
  - assert (E1 : ensureRow key bt p rows = rows).
    { unfold ensureRow. rewrite Heq, Hk. reflexivity. }
    rewrite E1, Heq, Hk.
    destruct (finiteNumber (p_rendition a)) as [r|].
    + eexists. rewrite (lookup_assign_eq String.eqb_spec).
      split; [reflexivity|apply rowExtends_push].
    + exists row. split; [exact Hk|apply rowExtends_refl].
  - assert (E1 : lookup String.eqb k (ensureRow key bt p rows) = Some row).
    { rewrite ensureRow_other by exact Hne. exact Hk. }
    exists row. split; [|apply rowExtends_refl].
    destruct (lookup String.eqb key (ensureRow key bt p rows)); [|exact E1].
    destruct (finiteNumber (p_rendition a)); [|exact E1].
    now rewrite (lookup_assign_neq String.eqb_spec _ _ Hne).
Qed.

Lemma collectTagged_preserves (t : TaggedEntry) rows (k : string) (row : Row) :
  lookup String.eqb k rows = Some row ->
  exists row',
    lookup String.eqb k (collectTagged rows t) = Some row' /\
    rowExtends row row'.
Proof.
  destruct t as [[src dflt] img]. intros Hk. unfold collectTagged, collectImage.
  destruct (isArtemis (imageType img));
    [exists row; split; [exact Hk|apply rowExtends_refl]|].
  destruct (pov img); [|exists row; split; [exact Hk|apply rowExtends_refl]].
  destruct (negb (isAllowedType (imageType img)));
    [exists row; split; [exact Hk|apply rowExtends_refl]|].
  now apply putCandidate_preserves.
Qed.

Lemma collect_preserves (l : list TaggedEntry) rows (k : string) (row : Row) :
  lookup String.eqb k rows = Some row ->
  exists row',
    lookup String.eqb k (fold_left collectTagged l rows) = Some row' /\
    rowExtends row row'.
Proof.
  revert rows row. induction l as [|t l IH]; intros rows row Hk; simpl.
  - exists row. split; [exact Hk|apply rowExtends_refl].
  - destruct (collectTagged_preserves t rows k row Hk) as (row1 & H1 & E1).
    destruct (IH _ _ H1) as (row2 & H2 & E2).
    exists row2. split; [exact H2|]. now apply rowExtends_trans with row1.
Qed.

Lemma collectTagged_adds (t : TaggedEntry) rows k r c :
  extracted t = Some (k, r, c) ->
  exists row,
    lookup String.eqb k (collectTagged rows t) = Some row /\
    In c (renditionsAt r row).
Proof.
  destruct t as [[src dflt] img]. unfold extracted, collectTagged, collectImage.
  destruct (isArtemis (imageType img)); [discriminate|].
  destruct (pov img) as [p|] eqn:Ep; [|discriminate].
  destruct (bucketTypeOf (imageType img)) as [bt|] eqn:Eb; [|discriminate].
  destruct (finiteNumber (renditionOr (rendition img) dflt)) as [rn|] eqn:Er;
    [|discriminate].
  intros [= <- <- <-].
  assert (Ha : isAllowedType (imageType img) = true).
  { apply bucketTypeOf_allowed. congruence. }
  rewrite Ha. simpl. unfold putCandidate. simpl. rewrite Ha, Eb, Er. simpl.
  destruct (ensureRow_lookup (createPOVKey bt p) bt p rows) as (row & Hrow & _).
  rewrite Hrow. eexists. rewrite (lookup_assign_eq String.eqb_spec).
  split; [reflexivity|].
  rewrite renditionsAt_push, Z.eqb_refl. apply in_or_app. right. now left.
Qed.

Lemma collect_adds (l : list TaggedEntry) rows t k r c :
  In t l -> extracted t = Some (k, r, c) ->
  exists row,
    lookup String.eqb k (fold_left collectTagged l rows) = Some row /\
    In c (renditionsAt r row).
Proof.
  revert rows. induction l as [|x l IH]; intros rows Hin Hex; [destruct Hin|].
  simpl. destruct Hin as [->|Hin].
  - destruct (collectTagged_adds t rows k r c Hex) as (row1 & H1 & Hc).
    destruct (collect_preserves l _ _ _ H1) as (row2 & H2 & (_ & _ & Hincl)).
    exists row2. split; [exact H2|]. now apply Hincl.
  - now apply IH.
Qed.

(** Every entry that passes the filters of the extraction has its
    candidate in the rendition bucket of its group. *)
Lemma collectRows_extracted (d : UvpaintData) t k r c :
  In t (entriesOf d) -> extracted t = Some (k, r, c) ->
  exists row,
    lookup String.eqb k (collectRows d) = Some row /\
    In c (renditionsAt r row).
Proof. rewrite collectRows_entries. apply collect_adds. Qed.

(** ** Rendition numbers and slot selection *)

Lemma renditionNumsOf_In (row : Row) (r : Z) :
  In r (renditionNumsOf row) <-> In r (map fst (r_renditions row)).
Proof. apply stableSort_In. Qed.

Lemma renditionNumsOf_sorted (row : Row) :
  StronglySorted Z.ge (renditionNumsOf row).
Proof.
  apply stableSort_sorted.
  - intros a b c. lia.
  - intros a b H. apply Z.ltb_ge in H. lia.
  - intros a b H. apply Z.ltb_lt in H. lia.
Qed.

Lemma renditionNumsOf_NoDup (row : Row) :
  rowWf row -> NoDup (renditionNumsOf row).
Proof.
  intros [Hnd _]. eapply Permutation_NoDup; [|exact Hnd].
  symmetry. apply stableSort_perm.
Qed.

(** What the first two entries of the sorted rendition numbers are. *)
Lemma renditionNumsOf_top (row : Row) (latestR : Z) (rest : list Z) :
  rowWf row ->
  renditionNumsOf row = latestR :: rest ->
  let nums := map fst (r_renditions row) in
  In latestR nums /\
  (forall r, In r nums -> r <= latestR) /\
  match hd_error rest with
  | Some p =>
      In p nums /\ p < latestR /\
      forall r, In r nums -> r <> latestR -> r <= p
  | None => forall r, In r nums -> r = latestR
  end.
Proof.
  intros Hwf E nums.
  pose proof (renditionNumsOf_sorted row) as Hs.
  pose proof (renditionNumsOf_NoDup row Hwf) as Hnd.
  assert (Hin : forall r, In r nums <-> In r (latestR :: rest)).
  { intros r. rewrite <- E. symmetry. apply renditionNumsOf_In. }
  rewrite E in Hs, Hnd.
  inversion Hs as [|? ? Hs' Hall]; subst.
  inversion Hnd as [|? ? Hnotin Hnd']; subst.
  rewrite Forall_forall in Hall.
  split; [apply Hin; now left|].
  split.
  { intros r Hr. apply Hin in Hr. destruct Hr as [<-|Hr]; [lia|].
    specialize (Hall r Hr). lia. }
  destruct rest as [|p rest']; simpl.
  - intros r Hr. apply Hin in Hr. destruct Hr as [<-|[]]. reflexivity.
  - inversion Hs' as [|? ? _ Hall']; subst. rewrite Forall_forall in Hall'.
    split; [apply Hin; right; now left|].
    split.
    { assert (p <> latestR) by (intros ->; apply Hnotin; now left).
      specialize (Hall p (or_introl eq_refl)). lia. }
    intros r Hr Hne. apply Hin in Hr.
    destruct Hr as [<-|[<-|Hr]]; [congruence|lia|].
    specialize (Hall' r Hr). lia.
Qed.

Lemma renditionsAt_key (row : Row) (r : Z) (c : Candidate) :
  In c (renditionsAt r row) -> In r (map fst (r_renditions row)).
Proof.
  unfold renditionsAt.
  destruct (lookup Z.eqb r (r_renditions row)) as [arr|] eqn:E; [|intros []].
  intros _. apply (lookup_In Z.eqb_spec) in E.
  now apply (in_map fst) in E.
Qed.

Lemma renditionsAt_nonempty (row : Row) (r : Z) :
  rowWf row -> In r (map fst (r_renditions row)) -> renditionsAt r row <> [].
Proof.
  intros (Hnd & Hne & _) Hin. apply in_map_iff in Hin.
  destruct Hin as ([r' arr] & <- & Hin). simpl.
  unfold renditionsAt. rewrite (In_lookup Z.eqb_spec Hnd Hin).
  now apply (Hne r').
Qed.

Lemma pickBestAt_first_best (row : Row) (rNum : Z) :
  renditionsAt rNum row <> [] ->
  exists c pre post,
    pickBestAt row rNum = Some c /\
    renditionsAt rNum row = (pre ++ c :: post)%list /\
    (forall x, In x pre -> scoreCandidate x < scoreCandidate c) /\
    (forall x, In x post -> scoreCandidate x <= scoreCandidate c).
Proof.
  intros Hne. unfold pickBestAt.
  destruct (stableSort_head
              (fun a b => 0 <? scoreCandidate b - scoreCandidate a)
              scoreCandidate) with (l := renditionsAt rNum row)
    as (c & pre & post & Hhd & Hl & Hpre & Hpost).
  - intros a b. destruct (Z.ltb_spec 0 (scoreCandidate b - scoreCandidate a));
      destruct (Z.ltb_spec (scoreCandidate a) (scoreCandidate b)); lia.
  - exact Hne.
  - exists c, pre, post. repeat split; try assumption.
    destruct (renditionsAt rNum row); [congruence|exact Hhd].
Qed.

Lemma pickBestAt_In (row : Row) (rNum : Z) (c : Candidate) :
  pickBestAt row rNum = Some c -> In c (renditionsAt rNum row).
Proof.
  unfold pickBestAt. destruct (renditionsAt rNum row) as [|x l] eqn:E;
    [discriminate|].
  intros H.
  apply (stableSort_In (fun a b => 0 <? scoreCandidate b - scoreCandidate a)).
  destruct (stableSort _ (x :: l)); [discriminate|].
  injection H as ->. now left.
Qed.

(** ** Groups of an inspection *)

Lemma buildGroups_In (id : string) (originals : OriginalsByCamSide)
    (rows : RowsByKey) (g : Group) :
  In g (buildGroups id originals rows) <->
  exists entry, In entry rows /\ buildGroup id originals entry = Some g.
Proof.
  induction rows as [|e rows IH]; simpl.
  - split; [tauto|intros (? & [] & _)].
  - destruct (buildGroup id originals e) as [g0|] eqn:E; simpl; rewrite IH.
    + split.
      * intros [<-|(e' & Hin & H)]; [exists e; tauto|exists e'; tauto].
      * intros (e' & [<-|Hin] & H); [left; congruence|right; eauto].
    + split.
      * intros (e' & Hin & H). exists e'. tauto.
      * intros (e' & [<-|Hin] & H); [congruence|eauto].
Qed.

Lemma processInspectionData_In (lc : string -> string -> Z)
    (insp : Inspection) (g : Group) :
  In g (processInspectionData lc insp) <->
  exists d entry,
    uvpaintData insp = Some d /\
    In entry (collectRows d) /\
    buildGroup (inspectionId insp) (buildOriginals d) entry = Some g.
Proof.
  unfold processInspectionData. destruct (uvpaintData insp) as [d|].
  - rewrite stableSort_In, buildGroups_In. split.
    + intros (e & Hin & H). exists d, e. tauto.
    + intros (d' & e & [= <-] & Hin & H). eauto.
  - simpl. split; [tauto|intros (? & ? & [=] & _)].
Qed.

Lemma buildGroup_key (id : string) (originals : OriginalsByCamSide)
    (key : string) (row : Row) (g : Group) :
  buildGroup id originals (key, row) = Some g ->
  m_groupKey (g_metadata g) = key.
Proof.
  unfold buildGroup. destruct (renditionNumsOf row); [discriminate|].
  intros [= <-]. reflexivity.
Qed.

Lemma group_of_row (lc : string -> string -> Z) (insp : Inspection)
    (d : UvpaintData) (key : string) (row : Row) (g : Group) :
  uvpaintData insp = Some d ->
  lookup String.eqb key (collectRows d) = Some row ->
  (In g (processInspectionData lc insp) /\ m_groupKey (g_metadata g) = key
   <-> buildGroup (inspectionId insp) (buildOriginals d) (key, row) = Some g).
Proof.
  intros Hd Hrow. rewrite processInspectionData_In. split.
  - intros [(d' & [k' row'] & Hd' & Hin & Hb) Hk].
    assert (d' = d) by congruence. subst d'.
    rewrite (buildGroup_key _ _ _ _ _ Hb) in Hk. subst k'.
    destruct (collectRows_wf d) as [Hnd _].
    rewrite (In_lookup String.eqb_spec Hnd Hin) in Hrow.
    injection Hrow as <-. exact Hb.
  - intros Hb. split; [|exact (buildGroup_key _ _ _ _ _ Hb)].
    exists d, (key, row). repeat split; try assumption.
    now apply (lookup_In String.eqb_spec).
Qed.

Lemma renditionsAtKey_ensureRow (k key bucketType : string) (p : POV)
    (r : Z) rows :
  renditionsAtKey k r (ensureRow key bucketType p rows) =
  renditionsAtKey k r rows.
Proof.
  unfold renditionsAtKey.
  destruct (String.eqb_spec key k) as [<-|Hne].
  - destruct (ensureRow_lookup key bucketType p rows)
      as (row & -> & [H|[H ->]]); rewrite H; reflexivity.
  - now rewrite ensureRow_other.
Qed.

Lemma collectTagged_bucket (k : string) (r : Z) (t : TaggedEntry) rows :
  renditionsAtKey k r (collectTagged rows t) =
  (renditionsAtKey k r rows ++ candidateFor k r t)%list.
Proof.
  destruct t as [[src dflt] img].
  unfold candidateFor, extracted, collectTagged, collectImage.
  destruct (isArtemis (imageType img)); [now rewrite app_nil_r|].
  destruct (pov img) as [p|] eqn:Ep; [|now rewrite app_nil_r].
  destruct (isAllowedType (imageType img)) eqn:Ea; cbn [negb].
  2:{ destruct (bucketTypeOf (imageType img)) eqn:Eb.
      - exfalso. assert (H : isAllowedType (imageType img) = true)
          by (apply bucketTypeOf_allowed; congruence). congruence.
      - now rewrite app_nil_r. }
  unfold putCandidate.
  cbn [p_pov p_imageType p_rendition]. rewrite Ea. cbn [negb].
  destruct (bucketTypeOf (imageType img)) as [bt|] eqn:Eb;
    [|now rewrite app_nil_r].
  destruct (ensureRow_lookup (createPOVKey bt p) bt p rows) as (row & Hrow & _).
  rewrite Hrow.
  destruct (finiteNumber (renditionOr (rendition img) dflt)) as [rn|].
  2:{ rewrite renditionsAtKey_ensureRow. now rewrite app_nil_r. }
  rewrite <- (renditionsAtKey_ensureRow k (createPOVKey bt p) bt p r rows).
  unfold renditionsAtKey.
  destruct (String.eqb_spec (createPOVKey bt p) k) as [<-|Hne]; cbn [andb].
  - rewrite (lookup_assign_eq String.eqb_spec), Hrow, renditionsAt_push.
    destruct (Z.eqb_spec rn r) as [->|Hr]; [reflexivity|].
    now rewrite app_nil_r.
  - rewrite (lookup_assign_neq String.eqb_spec _ _ Hne). now rewrite app_nil_r.
Qed.

Lemma collect_bucket (k : string) (r : Z) (l : list TaggedEntry) rows :
  renditionsAtKey k r (fold_left collectTagged l rows) =
  (renditionsAtKey k r rows ++ bucketOf k r l)%list.
Proof.
  revert rows. induction l as [|t l IH]; intros rows; cbn [fold_left].
  - unfold bucketOf. simpl. now rewrite app_nil_r.
  - rewrite IH, collectTagged_bucket, <- app_assoc. reflexivity.
Qed.

(** The rendition bucket of a group holds the candidates of the input
    entries of that group and rendition, in the order of the input: the
    current-pipeline collection first, then the history. *)
Lemma collectRows_bucket (d : UvpaintData) (k : string) (r : Z) (row : Row) :
  lookup String.eqb k (collectRows d) = Some row ->
  renditionsAt r row = bucketOf k r (entriesOf d).
Proof.
  intros H. pose proof (collect_bucket k r (entriesOf d) []) as Hb.
  rewrite <- collectRows_entries in Hb. unfold renditionsAtKey in Hb.
  rewrite H in Hb. exact Hb.
Qed.

Lemma scoreCandidate_formula (c : Candidate) :
  scoreCandidate c =
  (if truthyOpt (c_activeImage c) then 100 else 0) +
  (if c_isActive c then 40 else 0) +
  (if String.eqb (c_source c) "images" then 30
   else if String.eqb (c_source c) "uvpaintHistoryImages" then 10 else 0).
Proof.
  unfold scoreCandidate. destruct (c_source c); reflexivity.
Qed.

(** C1 (as amended).  Where candidates collide on a rendition number of a
    POV group, the bucket holds them in the order of the input and
    [pickBestAt] selects exactly one of them: the first among those of
    greatest score, where the score is 100 for a non-empty active-image
    URL, plus 40 for a candidate whose [isActive] is set (with or without
    an active image), plus 30 for the source ["images"], 10 for the source
    ["uvpaintHistoryImages"] and 0 for any other source. *)
Theorem collision_selects_first_best (d : UvpaintData) (k : string)
    (row : Row) (rNum : Z) :
  lookup String.eqb k (collectRows d) = Some row ->
  renditionsAt rNum row <> [] ->
  renditionsAt rNum row = bucketOf k rNum (entriesOf d) /\
  (exists c pre post,
     pickBestAt row rNum = Some c /\
     renditionsAt rNum row = (pre ++ c :: post)%list /\
     (forall x, In x pre -> scoreCandidate x < scoreCandidate c) /\
     (forall x, In x post -> scoreCandidate x <= scoreCandidate c)) /\
  (forall x,
     scoreCandidate x =
     (if truthyOpt (c_activeImage x) then 100 else 0) +
     (if c_isActive x then 40 else 0) +
     (if String.eqb (c_source x) "images" then 30
      else if String.eqb (c_source x) "uvpaintHistoryImages" then 10 else 0)).
Proof.
  intros Hrow Hne. split; [now apply collectRows_bucket|].
  split; [now apply pickBestAt_first_best|].
  exact scoreCandidate_formula.
Qed.

(** C1, the claim as stated does not hold: with the 40 points reserved
    for publish-flagged candidates the current-pipeline candidate would
    win this collision, while the code selects the active candidate of
    the history, which has no active image. *)
Lemma collision_claimed_score_counterexample :
  exists row a b,
    option_map collectRows (uvpaintData sampleCollision) =
      Some [("SlimOverview_front_left", row)] /\
    renditionsAt 1 row = [b; a] /\
    pickBestAt row 1 = Some a /\
    c_source a = "uvpaintHistoryImages" /\
    c_source b = "images" /\
    claimedScore a < claimedScore b /\
    map (fun g => m_sources (g_metadata g))
      (processInspectionData codePointCompare sampleCollision) =
      [["Empty"; "uvpaintHistoryImages"; "Empty"]].
Proof.
  do 3 eexists. vm_compute. repeat split; reflexivity.
Qed.

Lemma collision_selects_first_best_witness :
  exists row c,
    option_map collectRows (uvpaintData sampleTwoSerials) =
      Some [("SlimOverview_front_left", row)] /\
    List.length (renditionsAt 1 row) = 2%nat /\
    pickBestAt row 1 = Some c /\
    In c (renditionsAt 1 row) /\
    serialNumber (c_pov c) = Some 1.
Proof.
  eexists. simpl uvpaintData. cbn [option_map].
  edestruct (collision_selects_first_best
               {| images := [samplePairEntry; withSerial (Some 2) samplePairEntry];
                  uvpaintHistoryImages := [] |}
               "SlimOverview_front_left") with (rNum := 1)
    as (_ & (c & pre & post & Hp & Hl & _) & _);
    [vm_compute; reflexivity|vm_compute; discriminate|].
  exists c. split; [vm_compute; reflexivity|].
  split; [reflexivity|]. split; [exact Hp|].
  split; [rewrite Hl; apply in_elt|].
  vm_compute in Hp. injection Hp as <-. reflexivity.
Defined.

Ltac open_group :=
  cbn [setPublished g_id g_name g_sortKey g_images g_metadata
       m_inspectionId m_pov m_bucketType m_renditions m_statuses m_sources
       m_actions m_totalVersions m_povSources m_cardInfo m_renditionData
       m_groupKey m_camSideKey m_published nth_error hd_error].

(** C10.  A POV group whose candidates carry exactly one distinct
    rendition number is still emitted: its Latest slot holds the candidate
    selected at that number, and its Previous slot is empty, with
    [images[0] = null], [renditions[0] = null] and ["Empty"] as
    [statuses[0]] and [sources[0]]. *)
Theorem single_rendition_group (lc : string -> string -> Z)
    (insp : Inspection) (d : UvpaintData) (key : string) (row : Row) (r : Z) :
  uvpaintData insp = Some d ->
  lookup String.eqb key (collectRows d) = Some row ->
  (forall r', In r' (map fst (r_renditions row)) <-> r' = r) ->
  exists g c,
    In g (processInspectionData lc insp) /\
    m_groupKey (g_metadata g) = key /\
    pickBestAt row r = Some c /\
    In c (renditionsAt r row) /\
    nth_error (m_renditions (g_metadata g)) 1 = Some (Some (RNum r)) /\
    nth_error (m_renditionData (g_metadata g)) 1 = Some (Some (datumOf c)) /\
    nth_error (g_images g) 1 = Some (safeUrlOpt (c_image c)) /\
    nth_error (g_images g) 0 = Some None /\
    nth_error (m_renditions (g_metadata g)) 0 = Some None /\
    nth_error (m_renditionData (g_metadata g)) 0 = Some None /\
    nth_error (m_statuses (g_metadata g)) 0 = Some "Empty" /\
    nth_error (m_sources (g_metadata g)) 0 = Some "Empty".
Proof.
  intros Hd Hrow Hone.
  pose proof (rowsWf_lookup key row (collectRows d) (collectRows_wf d) Hrow)
    as Hwf.
  destruct (renditionNumsOf row) as [|latestR rest] eqn:E.
  { exfalso. assert (Hr : In r (renditionNumsOf row)).
    { apply renditionNumsOf_In. now apply Hone. }
    rewrite E in Hr. destruct Hr. }
  assert (El : latestR = r).
  { apply Hone. apply renditionNumsOf_In. rewrite E. now left. }
  subst latestR.
  assert (Er : rest = []).
  { destruct rest as [|p rest']; [reflexivity|]. exfalso.
    pose proof (renditionNumsOf_NoDup row Hwf) as Hnd. rewrite E in Hnd.
    inversion Hnd as [|? ? Hnotin _]; subst. apply Hnotin.
    assert (p = r); [|subst; now left].
    apply Hone. apply renditionNumsOf_In. rewrite E. right. now left. }
  subst rest.
  assert (Hne : renditionsAt r row <> []).
  { apply renditionsAt_nonempty; [exact Hwf|]. now apply Hone. }
  destruct (pickBestAt_first_best row r Hne) as (c & pre & post & Hp & _).
  destruct (buildGroup (inspectionId insp) (buildOriginals d) (key, row))
    as [g|] eqn:Hb; [|unfold buildGroup in Hb; rewrite E in Hb; discriminate].
  pose proof (proj2 (group_of_row lc insp d key row g Hd Hrow) Hb) as [Hin Hk].
  exists g, c. split; [exact Hin|]. split; [exact Hk|].
  split; [exact Hp|]. split; [now apply pickBestAt_In|].
  unfold buildGroup in Hb. rewrite E in Hb. injection Hb as <-.
  open_group. rewrite Hp. repeat split; reflexivity.
Qed.

Lemma single_rendition_group_witness :
  exists g,
    In g (processInspectionData codePointCompare sampleZoomer) /\
    m_groupKey (g_metadata g) = "Zoomer_front_left" /\
    nth_error (m_renditions (g_metadata g)) 1 = Some (Some (RNum 3)) /\
    nth_error (g_images g) 0 = Some None /\
    nth_error (m_statuses (g_metadata g)) 0 = Some "Empty".
Proof.
  edestruct (single_rendition_group codePointCompare sampleZoomer)
    with (key := "Zoomer_front_left") (r := 3)
    as (g & c & Hin & Hk & _ & _ & Hr & _ & _ & Hi & _ & _ & Hs & _);
    [reflexivity|vm_compute; reflexivity| |].
  - intros r'. cbv [map fst r_renditions In]. intuition congruence.
  - exists g. repeat split; assumption.
Defined.

(** ** Publication flag and order of the groups *)

Lemma buildGroup_published (id : string) (originals : OriginalsByCamSide)
    (key : string) (row : Row) (g : Group) (latestR : Z) (rest : list Z) :
  renditionNumsOf row = latestR :: rest ->
  buildGroup id originals (key, row) = Some g ->
  m_renditionData (g_metadata g) =
    [ option_map datumOf (bind (hd_error rest) (pickBestAt row));
      option_map datumOf (pickBestAt row latestR);
      None ] /\
  (m_published (g_metadata g) = true <->
   exists c,
     (bind (hd_error rest) (pickBestAt row) = Some c \/
      pickBestAt row latestR = Some c) /\
     c_isActive c = true /\ truthyOpt (c_activeImage c) = true).
Proof.
  intros E Hb. unfold buildGroup in Hb. rewrite E in Hb. injection Hb as <-.
  open_group. split; [reflexivity|].
  unfold isRowPublished. open_group. cbn [firstn existsb].
  destruct (bind (hd_error rest) (pickBestAt row)) as [p|];
    destruct (pickBestAt row latestR) as [l|]; cbn [option_map datumOf
      rd_isActive rd_activeImage]; rewrite ?orb_false_r, ?orb_true_iff,
      ?andb_true_iff; split.
  all: try (intros (c & Hc & Hpub); destruct Hc as [Hc|Hc];
            try discriminate; injection Hc as <-; tauto).
  all: intros H; repeat (destruct H as [H|H]); try discriminate.
  all: try (exists p; tauto).
  all: exists l; tauto.
Qed.

Section GroupOrder.
Variable localeCompare : string -> string -> Z.
Hypothesis localeCompare_zero : forall a b, localeCompare a b = 0 <-> a = b.
Hypothesis localeCompare_anti :
  forall a b, localeCompare a b < 0 <-> 0 < localeCompare b a.
Hypothesis localeCompare_trans :
  forall a b c,
    localeCompare a b < 0 -> localeCompare b c < 0 -> localeCompare a c < 0.

Lemma localeCompare_le_trans a b c :
  localeCompare a b <= 0 -> localeCompare b c <= 0 -> localeCompare a c <= 0.
Proof.
  intros H1 H2.
  destruct (Z.eq_dec (localeCompare a b) 0) as [E1|N1].
  - apply localeCompare_zero in E1. now subst.
  - destruct (Z.eq_dec (localeCompare b c) 0) as [E2|N2].
    + apply localeCompare_zero in E2. now subst.
    + apply Z.lt_le_incl. apply localeCompare_trans with b; lia.
Qed.

Lemma groupLe_trans a b c :
  groupLe localeCompare a b -> groupLe localeCompare b c ->
  groupLe localeCompare a c.
Proof.
  unfold groupLe. intros H1 H2.
  destruct H1 as [[P1 Q1]|[P1 H1]]; destruct H2 as [[P2 Q2]|[P2 H2]].
  - congruence.
  - left. split; congruence.
  - left. split; congruence.
  - right. split; [congruence|].
    destruct H1 as [H1|[T1 H1]]; destruct H2 as [H2|[T2 H2]];
      [left; lia|left; lia|left; lia|].
    right. split; [lia|].
    destruct H1 as [H1|[C1 H1]]; destruct H2 as [H2|[C2 H2]].
    + left. eapply localeCompare_trans; eassumption.
    + left. now rewrite <- C2.
    + left. now rewrite C1.
    + right. split; [congruence|].
      eapply localeCompare_le_trans; eassumption.
Qed.

Lemma compareGroups_nonpos a b :
  (0 <? compareGroups localeCompare a b) = false ->
  groupLe localeCompare a b.
Proof.
  intros H. apply Z.ltb_ge in H. revert H. unfold compareGroups, groupLe.
  destruct (m_published (g_metadata a)), (m_published (g_metadata b));
    change (1 =? 1) with true; change (0 =? 0) with true;
    change (1 =? 0) with false; change (0 =? 1) with false;
    cbn [negb]; try (intros; lia); try (intros _; left; tauto).
  all: destruct (Z.eqb_spec (typeOrder (g_sortKey a))
                   (typeOrder (g_sortKey b))) as [Et|Nt]; cbn [negb];
    [|intros; right; split; [reflexivity|left; lia]].
  all: destruct (String.eqb_spec (sk_cam (g_sortKey a))
                   (sk_cam (g_sortKey b))) as [Ec|Nc]; cbn [negb]; intros H;
    right; (split; [reflexivity|]); right; (split; [exact Et|]).
  all: try (right; split; [exact Ec|exact H]).
  all: left; assert (localeCompare (sk_cam (g_sortKey a))
                       (sk_cam (g_sortKey b)) <> 0)
         by (rewrite localeCompare_zero; exact Nc); lia.
Qed.

Lemma compareGroups_pos a b :
  (0 <? compareGroups localeCompare a b) = true ->
  groupLe localeCompare b a.
Proof.
  intros H. apply Z.ltb_lt in H. revert H. unfold compareGroups, groupLe.
  destruct (m_published (g_metadata a)), (m_published (g_metadata b));
    change (1 =? 1) with true; change (0 =? 0) with true;
    change (1 =? 0) with false; change (0 =? 1) with false;
    cbn [negb]; try (intros; lia); try (intros _; left; tauto).
  all: destruct (Z.eqb_spec (typeOrder (g_sortKey a))
                   (typeOrder (g_sortKey b))) as [Et|Nt]; cbn [negb];
    [|intros; right; split; [reflexivity|left; lia]].
  all: destruct (String.eqb_spec (sk_cam (g_sortKey a))
                   (sk_cam (g_sortKey b))) as [Ec|Nc]; cbn [negb]; intros H;
    apply localeCompare_anti in H;
    right; (split; [reflexivity|]); right; (split; [now symmetry|]).
  all: try (right; split; [now symmetry|lia]).
  all: left; exact H.
Qed.

Lemma processInspectionData_sorted (insp : Inspection) :
  StronglySorted (groupLe localeCompare)
    (processInspectionData localeCompare insp).
Proof.
  unfold processInspectionData. destruct (uvpaintData insp); [|constructor].
  apply stableSort_sorted.
  - exact groupLe_trans.
  - exact compareGroups_nonpos.
  - exact compareGroups_pos.
Qed.
End GroupOrder.

Lemma StronglySorted_before {A : Type} (R : A -> A -> Prop)
    (pre post : list A) (g : A) :
  StronglySorted R (pre ++ g :: post) -> forall x, In x pre -> R x g.
Proof.
  induction pre as [|y pre IH]; simpl; intros Hs x Hin; [destruct Hin|].
  inversion Hs as [|? ? Hs' Hall]; subst. destruct Hin as [<-|Hin].
  - rewrite Forall_forall in Hall. apply Hall. apply in_elt.
  - now apply IH.
Qed.

Lemma buildGroup_sortKey (id : string) (originals : OriginalsByCamSide)
    (key : string) (row : Row) (g : Group) :
  buildGroup id originals (key, row) = Some g ->
  m_bucketType (g_metadata g) = r_bucketType row /\
  m_pov (g_metadata g) = Some (r_pov row) /\
  typeOrder (g_sortKey g) =
    match IMAGE_TYPE_ORDER (r_bucketType row) with
    | Some n => n
    | None => 999
    end /\
  sk_cam (g_sortKey g) =
    toLowerCase (orElse (normCam (simulatedCamera (r_pov row))) "") /\
  sk_side (g_sortKey g) =
    toLowerCase (orElse (normSide (simulatedCameraSide (r_pov row))) "").
Proof.
  unfold buildGroup. destruct (renditionNumsOf row); [discriminate|].
  intros [= <-]. open_group. repeat split; reflexivity.
Qed.

(** The collation of the samples is a strict total order. *)
Lemma ascii_compare_trans (a b c : ascii) (r : comparison) :
  Ascii.compare a b = r \/ Ascii.compare a b = Eq ->
  Ascii.compare b c = r \/ Ascii.compare b c = Eq ->
  Ascii.compare a c = r \/ Ascii.compare a c = Eq.
Proof.
  unfold Ascii.compare.
  destruct (N.compare_spec (N_of_ascii a) (N_of_ascii b));
    destruct (N.compare_spec (N_of_ascii b) (N_of_ascii c));
    destruct (N.compare_spec (N_of_ascii a) (N_of_ascii c));
    intros [<-|?] [?|?]; try discriminate; try tauto; lia.
Qed.

Lemma string_compare_lt_trans (a b c : string) :
  String.compare a b = Lt -> String.compare b c = Lt -> String.compare a c = Lt.
Proof.
  revert b c. induction a as [|x a IH]; intros [|y b] [|z c]; simpl;
    try discriminate; try reflexivity.
  unfold Ascii.compare.
  destruct (N.compare_spec (N_of_ascii x) (N_of_ascii y));
    destruct (N.compare_spec (N_of_ascii y) (N_of_ascii z));
    destruct (N.compare_spec (N_of_ascii x) (N_of_ascii z));
    try discriminate; try reflexivity; try lia.
  apply IH.
Qed.

Lemma codePointCompare_zero (a b : string) : codePointCompare a b = 0 <-> a = b.
Proof.
  unfold codePointCompare. split.
  - intros H. apply String.compare_eq_iff.
    destruct (String.compare a b); [reflexivity|discriminate|discriminate].
  - intros <-. pose proof (String.compare_antisym a a) as H.
    destruct (String.compare a a); [reflexivity|discriminate|discriminate].
Qed.

Lemma codePointCompare_anti (a b : string) :
  codePointCompare a b < 0 <-> 0 < codePointCompare b a.
Proof.
  unfold codePointCompare. rewrite (String.compare_antisym a b).
  destruct (String.compare b a); simpl; lia.
Qed.

Lemma codePointCompare_trans (a b c : string) :
  codePointCompare a b < 0 -> codePointCompare b c < 0 ->
  codePointCompare a c < 0.
Proof.
  unfold codePointCompare. intros H1 H2.
  rewrite (string_compare_lt_trans a b c).
  - lia.
  - destruct (String.compare a b); [lia|reflexivity|lia].
  - destruct (String.compare b c); [lia|reflexivity|lia].
Qed.

(** C3.  The [published] flag of an emitted group is set exactly when the
    candidate of its Previous or of its Latest slot is active and has a
    non-empty active-image URL.  The final list is ordered: the published
    groups come before the unpublished ones, then the groups follow the
    rank of their bucket type ([SlimOverview] 0, [Zoomer] 1), then their
    normalized camera, then their normalized side, in ascending order of
    the collation, which is taken to be a strict total order on strings. *)
Theorem published_flag_and_order (localeCompare : string -> string -> Z)
    (insp : Inspection) :
  (forall a b, localeCompare a b = 0 <-> a = b) ->
  (forall a b, localeCompare a b < 0 <-> 0 < localeCompare b a) ->
  (forall a b c, localeCompare a b < 0 -> localeCompare b c < 0 ->
                 localeCompare a c < 0) ->
  let groups := processInspectionData localeCompare insp in
  (forall g, In g groups ->
     exists d row latestR rest,
       uvpaintData insp = Some d /\
       lookup String.eqb (m_groupKey (g_metadata g)) (collectRows d) = Some row /\
       renditionNumsOf row = latestR :: rest /\
       let prev := bind (hd_error rest) (pickBestAt row) in
       let latest := pickBestAt row latestR in
       m_renditionData (g_metadata g) =
         [option_map datumOf prev; option_map datumOf latest; None] /\
       (m_published (g_metadata g) = true <->
        exists c, (prev = Some c \/ latest = Some c) /\
                  c_isActive c = true /\ truthyOpt (c_activeImage c) = true) /\
       ((m_bucketType (g_metadata g) = "SlimOverview" /\
         typeOrder (g_sortKey g) = 0) \/
        (m_bucketType (g_metadata g) = "Zoomer" /\
         typeOrder (g_sortKey g) = 1)) /\
       sk_cam (g_sortKey g) =
         toLowerCase (orElse (normCam (simulatedCamera (r_pov row))) "") /\
       sk_side (g_sortKey g) =
         toLowerCase (orElse (normSide (simulatedCameraSide (r_pov row))) "")) /\
  StronglySorted (groupLe localeCompare) groups /\
  (forall pre g post,
     groups = (pre ++ g :: post)%list ->
     m_published (g_metadata g) = true ->
     forall x, In x pre -> m_published (g_metadata x) = true).
Proof.
  intros Hzero Hanti Htrans groups.
  pose proof (processInspectionData_sorted localeCompare Hzero Hanti Htrans insp)
    as Hsorted.
  split; [|split; [exact Hsorted|]].
  - intros g Hin. apply processInspectionData_In in Hin.
    destruct Hin as (d & [key row] & Hd & Hin & Hb).
    pose proof (buildGroup_key _ _ _ _ _ Hb) as Hk.
    destruct (collectRows_wf d) as [Hnd Hall].
    destruct (Hall key row Hin) as (_ & _ & Hbt).
    destruct (renditionNumsOf row) as [|latestR rest] eqn:E;
      [unfold buildGroup in Hb; rewrite E in Hb; discriminate|].
    destruct (buildGroup_published _ _ _ _ _ _ _ E Hb) as [Hrd Hpub].
    destruct (buildGroup_sortKey _ _ _ _ _ Hb) as (Hb1 & _ & Hto & Hcam & Hside).
    exists d, row, latestR, rest.
    split; [exact Hd|]. split.
    { rewrite Hk. now apply (In_lookup String.eqb_spec). }
    split; [exact E|]. cbv zeta.
    split; [exact Hrd|]. split; [exact Hpub|].
    split; [|split; assumption].
    rewrite Hb1, Hto. destruct Hbt as [-> | ->]; [left|right]; split; reflexivity.
  - intros pre g post Hg Hpub x Hx. fold groups in Hsorted. rewrite Hg in Hsorted.
    pose proof (StronglySorted_before _ _ _ _ Hsorted x Hx) as Hle.
    destruct Hle as [[H _]|[H _]]; congruence.
Qed.

Lemma published_flag_and_order_witness :
  StronglySorted (groupLe codePointCompare)
    (processInspectionData codePointCompare sampleMixed) /\
  map (fun g => (m_groupKey (g_metadata g), m_published (g_metadata g)))
    (processInspectionData codePointCompare sampleMixed) =
  [ ("SlimOverview_front_right", true);
    ("Zoomer_rear_right", true);
    ("SlimOverview_rear_left", false) ].
Proof.
  destruct (published_flag_and_order codePointCompare sampleMixed
              codePointCompare_zero codePointCompare_anti
              codePointCompare_trans) as (_ & Hs & _).
  split; [exact Hs|reflexivity].
Defined.

(** ** Original-image index *)

Lemma trimEnd_idem (s : string) : trimEnd (trimEnd s) = trimEnd s.
Proof.
  induction s as [|c s IH]; simpl; [reflexivity|].
  destruct (is_space c && negb (nonEmpty (trimEnd s)))%bool eqn:E;
    [reflexivity|].
  simpl. rewrite IH, E. reflexivity.
Qed.

Lemma trimStart_idem (s : string) : trimStart (trimStart s) = trimStart s.
Proof.
  induction s as [|c s IH]; simpl; [reflexivity|].
  destruct (is_space c) eqn:E; [exact IH|]. simpl. now rewrite E.
Qed.

Lemma trimStart_trimEnd (s : string) :
  trimStart s = s -> trimStart (trimEnd s) = trimEnd s.
Proof.
  destruct s as [|c s]; simpl; [reflexivity|].
  destruct (is_space c) eqn:E.
  - intros H. exfalso.
    assert (Hlen : (String.length (trimStart s) <= String.length s)%nat).
    { clear. induction s as [|c s IH]; simpl; [lia|].
      destruct (is_space c); simpl; lia. }
    rewrite H in Hlen. simpl in Hlen. lia.
  - intros _. simpl. now rewrite E.
Qed.

Lemma trim_idem (s : string) : trim (trim s) = trim s.
Proof.
  unfold trim.
  rewrite (trimStart_trimEnd (trimStart s) (trimStart_idem s)).
  apply trimEnd_idem.
Qed.

Lemma safeUrl_fixed (v : jsval) (u : string) :
  safeUrl v = Some u -> nonEmpty u = true /\ safeUrl (JStr u) = Some u.
Proof.
  destruct v as [| |s]; simpl; try discriminate.
  destruct (nonEmpty (trim s)) eqn:E; [|discriminate].
  intros [= <-]. rewrite trim_idem, E. tauto.
Qed.

Lemma resolveOriginalUrl_fixed (img : RawImageEntry) (u : string) :
  resolveOriginalUrl img = Some u ->
  nonEmpty u = true /\ safeUrlOpt (Some u) = Some u.
Proof.
  unfold resolveOriginalUrl.
  destruct (safeUrl (originalImage img)) as [u0|] eqn:E.
  - intros [= <-]. now apply safeUrl_fixed with (v := originalImage img).
  - destruct (pickOriginalUrl img) as [s|]; simpl; [|discriminate].
    destruct (nonEmpty (trim s)) eqn:Es; [|discriminate].
    intros [= <-]. simpl. rewrite trim_idem, Es. tauto.
Qed.

Lemma considerOriginal_offer (sourceName : string)
    (originals : OriginalsByCamSide) (img : RawImageEntry) :
  considerOriginal sourceName originals img =
  match originalOffer img with
  | None => originals
  | Some (key, url) =>
      if match lookup String.eqb key originals with
         | None => true
         | Some existing => o_priority existing <? ORIGINAL_PRIORITY sourceName
         end
      then assign String.eqb key
             (mkOriginal url sourceName (ORIGINAL_PRIORITY sourceName) img)
             originals
      else originals
  end.
Proof.
  unfold considerOriginal, originalOffer.
  destruct (pov img) as [p|]; [|reflexivity].
  destruct (isSlimOverview (imageType img)); simpl; [|reflexivity].
  destruct (normCam (simulatedCamera p)); [|reflexivity].
  destruct (normSide (simulatedCameraSide p)); [|reflexivity].
  destruct (resolveOriginalUrl img); [|reflexivity].
  destruct (objectPrototypeKey _); reflexivity.
Qed.

Lemma considerOriginal_fold (sourceName : string) (l : list RawImageEntry)
    (originals : OriginalsByCamSide) (k : string) :
  (forall k' e, lookup String.eqb k' originals = Some e ->
                ORIGINAL_PRIORITY sourceName <= o_priority e) ->
  lookup String.eqb k (fold_left (considerOriginal sourceName) l originals) =
  match lookup String.eqb k originals with
  | Some e => Some e
  | None =>
      match firstOffer k l with
      | Some (url, img) =>
          Some (mkOriginal url sourceName (ORIGINAL_PRIORITY sourceName) img)
      | None => None
      end
  end.
Proof.
  revert originals. induction l as [|img l IH]; intros originals Hpr; simpl.
  - destruct (lookup String.eqb k originals); reflexivity.
  - rewrite considerOriginal_offer.
    destruct (originalOffer img) as [[k0 url]|]; [|now apply IH].
    destruct (lookup String.eqb k0 originals) as [e0|] eqn:E0.
    + assert (Hf : (o_priority e0 <? ORIGINAL_PRIORITY sourceName) = false).
      { apply Z.ltb_ge. now apply (Hpr k0). }
      rewrite Hf, IH by exact Hpr.
      destruct (String.eqb_spec k0 k) as [->|Hne]; [now rewrite E0|reflexivity].
    + rewrite IH.
      * destruct (String.eqb_spec k0 k) as [->|Hne].
        -- now rewrite (lookup_assign_eq String.eqb_spec), E0.
        -- now rewrite (lookup_assign_neq String.eqb_spec _ _ Hne).
      * intros k' e. destruct (String.eqb_spec k0 k') as [->|Hne].
        -- rewrite (lookup_assign_eq String.eqb_spec). intros [= <-]. simpl. lia.
        -- rewrite (lookup_assign_neq String.eqb_spec _ _ Hne). apply Hpr.
Qed.

Lemma buildOriginals_lookup (d : UvpaintData) (k : string) :
  lookup String.eqb k (buildOriginals d) =
  match firstOffer k (images d) with
  | Some (url, img) => Some (mkOriginal url "images" 30 img)
  | None =>
      match firstOffer k (uvpaintHistoryImages d) with
      | Some (url, img) => Some (mkOriginal url "uvpaintHistoryImages" 10 img)
      | None => None
      end
  end.
Proof.
  unfold buildOriginals.
  rewrite considerOriginal_fold.
  - rewrite considerOriginal_fold by (intros ? ? [=]). simpl.
    destruct (firstOffer k (images d)) as [[url img]|]; reflexivity.
  - intros k' e. rewrite considerOriginal_fold by (intros ? ? [=]). simpl.
    destruct (firstOffer k' (images d)) as [[url img]|].
    + intros [= <-]. simpl. unfold ORIGINAL_PRIORITY. simpl. lia.
    + discriminate.
Qed.

Lemma firstOffer_Some (k : string) (l : list RawImageEntry)
    (url : string) (img : RawImageEntry) :
  firstOffer k l = Some (url, img) ->
  exists pre post,
    l = (pre ++ img :: post)%list /\
    originalOffer img = Some (k, url) /\
    forall x u, In x pre -> originalOffer x <> Some (k, u).
Proof.
  induction l as [|x l IH]; simpl; [discriminate|].
  destruct (originalOffer x) as [[k' u']|] eqn:E.
  - destruct (String.eqb_spec k' k) as [->|Hne].
    + intros [= <- <-]. exists [], l. repeat split; [exact E|intros ? ? []].
    + intros H. destruct (IH H) as (pre & post & -> & Ho & Hpre).
      exists (x :: pre), post. repeat split; [exact Ho|].
      intros y u [<-|Hy]; [congruence|now apply Hpre].
  - intros H. destruct (IH H) as (pre & post & -> & Ho & Hpre).
    exists (x :: pre), post. repeat split; [exact Ho|].
    intros y u [<-|Hy]; [congruence|now apply Hpre].
Qed.

Lemma firstOffer_None (k : string) (l : list RawImageEntry) :
  firstOffer k l = None ->
  forall x u, In x l -> originalOffer x <> Some (k, u).
Proof.
  induction l as [|x l IH]; simpl; [intros _ ? ? []|].
  destruct (originalOffer x) as [[k' u']|] eqn:E.
  - destruct (String.eqb_spec k' k) as [->|Hne]; [discriminate|].
    intros H y u [<-|Hy]; [congruence|now apply IH].
  - intros H y u [<-|Hy]; [congruence|now apply IH].
Qed.

Lemma originalOffer_spec (img : RawImageEntry) (k url : string) :
  originalOffer img = Some (k, url) <->
  exists p cam side,
    pov img = Some p /\
    isSlimOverview (imageType img) = true /\
    normCam (simulatedCamera p) = Some cam /\
    normSide (simulatedCameraSide p) = Some side /\
    k = cam ++ "_" ++ side /\
    objectPrototypeKey k = false /\
    resolveOriginalUrl img = Some url.
Proof.
  unfold originalOffer. split.
  - destruct (pov img) as [p|]; [|discriminate].
    destruct (isSlimOverview (imageType img)); [|discriminate].
    destruct (normCam (simulatedCamera p)) as [cam|] eqn:Ec; [|discriminate].
    destruct (normSide (simulatedCameraSide p)) as [side|] eqn:Es;
      [|discriminate].
    destruct (resolveOriginalUrl img) as [u|]; [|discriminate].
    destruct (objectPrototypeKey (cam ++ "_" ++ side)) eqn:Ek; [discriminate|].
    intros [= <- <-]. exists p, cam, side. repeat split; assumption.
  - intros (p & cam & side & -> & -> & -> & -> & -> & Hk & ->).
    now rewrite Hk.
Qed.


Lemma buildOriginals_entry (d : UvpaintData) (k : string) (e : OriginalEntry) :
  lookup String.eqb k (buildOriginals d) = Some e ->
  originalOffer (o_obj e) = Some (k, o_url e) /\
  ((o_source e = "images" /\ o_priority e = 30 /\
    exists pre post,
      images d = (pre ++ o_obj e :: post)%list /\
      forall x u, In x pre -> originalOffer x <> Some (k, u)) \/
   (o_source e = "uvpaintHistoryImages" /\ o_priority e = 10 /\
    (forall x u, In x (images d) -> originalOffer x <> Some (k, u)) /\
    exists pre post,
      uvpaintHistoryImages d = (pre ++ o_obj e :: post)%list /\
      forall x u, In x pre -> originalOffer x <> Some (k, u))).
Proof.
  rewrite buildOriginals_lookup.
  destruct (firstOffer k (images d)) as [[url img]|] eqn:E1.
  - intros [= <-]. simpl.
    destruct (firstOffer_Some k _ url img E1) as (pre & post & Hl & Ho & Hpre).
    split; [exact Ho|]. left. repeat split. eauto.
  - destruct (firstOffer k (uvpaintHistoryImages d)) as [[url img]|] eqn:E2;
      [|discriminate].
    intros [= <-]. simpl.
    destruct (firstOffer_Some k _ url img E2) as (pre & post & Hl & Ho & Hpre).
    split; [exact Ho|]. right. repeat split.
    + now apply firstOffer_None.
    + eauto.
Qed.




(** ** Rendition slots *)

(** The entry of the original-image index for the viewpoint of a row. *)
Lemma group_original (d : UvpaintData) (row : Row) (k : string) :
  match normCam (simulatedCamera (r_pov row)),
        normSide (simulatedCameraSide (r_pov row)) with
  | Some c, Some s =>
      if (nonEmpty c && nonEmpty s)%bool then Some (c ++ "_" ++ s) else None
  | _, _ => None
  end = Some k ->
  forall e, lookup String.eqb k (buildOriginals d) = Some e ->
    nonEmpty (o_url e) = true /\ safeUrlOpt (Some (o_url e)) = Some (o_url e) /\
    nonEmpty (o_source e) = true.
Proof.
  intros _ e El. destruct (buildOriginals_entry d k e El) as [Ho Hs].
  apply originalOffer_spec in Ho.
  destruct Ho as (p' & cam' & side' & _ & _ & _ & _ & _ & _ & Hu).
  destruct (resolveOriginalUrl_fixed _ _ Hu) as [Hn Hf].
  split; [exact Hn|]. split; [exact Hf|].
  destruct Hs as [(-> & _)|(-> & _)]; reflexivity.
Qed.

(** C2.  In every POV group the rendition numbers present are those of
    its input candidates; the greatest of them is the Latest one and the
    second greatest, when there is one, the Previous one.  A group
    without any rendition number is not emitted, and a group with one is
    emitted exactly once.  Its Latest slot holds the candidate selected
    among the input candidates of the greatest number, and its Previous
    slot the candidate selected among those of the second greatest
    number, or nothing: the image, the rendition label, the status, the
    source, the action count, the card information and the rendition
    datum of the two slots are those of these two candidates.  The third
    slot is the Original slot: it has no rendition number, no rendition
    datum and no action count, and its image, label, status, source and
    card information are those of the entry of the original-image index
    for the viewpoint.  No candidate of another rendition number fills a
    slot. *)
Theorem rendition_slot_policy (lc : string -> string -> Z)
    (insp : Inspection) (d : UvpaintData) (key : string) (row : Row) :
  uvpaintData insp = Some d ->
  lookup String.eqb key (collectRows d) = Some row ->
  let nums := map fst (r_renditions row) in
  (forall r, In r nums <-> bucketOf key r (entriesOf d) <> []) /\
  (nums = [] ->
   forall g, In g (processInspectionData lc insp) ->
             m_groupKey (g_metadata g) <> key) /\
  (nums <> [] ->
   exists g latestR prevR latest prev,
     In g (processInspectionData lc insp) /\
     m_groupKey (g_metadata g) = key /\
     (forall g', In g' (processInspectionData lc insp) ->
                 m_groupKey (g_metadata g') = key -> g' = g) /\
     In latestR nums /\
     (forall r, In r nums -> r <= latestR) /\
     match prevR with
     | Some p =>
         In p nums /\ p < latestR /\
         forall r, In r nums -> r <> latestR -> r <= p
     | None => forall r, In r nums -> r = latestR
     end /\
     pickBestAt row latestR = Some latest /\
     In latest (bucketOf key latestR (entriesOf d)) /\
     match prevR with
     | Some p =>
         exists c,
           prev = Some c /\ pickBestAt row p = Some c /\
           In c (bucketOf key p (entriesOf d))
     | None => prev = None
     end /\
     let originalEntry :=
       match normCam (simulatedCamera (r_pov row)),
             normSide (simulatedCameraSide (r_pov row)) with
       | Some cam, Some side =>
           lookup String.eqb (cam ++ "_" ++ side) (buildOriginals d)
       | _, _ => None
       end in
     let emptyOr := match prevR with Some _ => "N/A" | None => "Empty" end in
     g_images g =
       [ safeUrlOpt (bind prev c_image);
         safeUrlOpt (c_image latest);
         option_map o_url originalEntry ] /\
     m_renditions (g_metadata g) =
       [ option_map RNum prevR;
         Some (RNum latestR);
         option_map (fun _ => ROG) originalEntry ] /\
     m_statuses (g_metadata g) =
       [ orElse (option_map c_status prev) emptyOr;
         orElse (Some (c_status latest)) "N/A";
         match originalEntry with Some _ => "Original" | None => "Empty" end ] /\
     m_sources (g_metadata g) =
       [ orElse (option_map c_source prev) emptyOr;
         orElse (Some (c_source latest)) "N/A";
         match originalEntry with
         | Some e => "SlimOverview_original:" ++ o_source e
         | None => "Empty"
         end ] /\
     m_actions (g_metadata g) =
       [ option_map c_actions prev; Some (c_actions latest); None ] /\
     m_cardInfo (g_metadata g) =
       [ option_map cardInfoOfCandidate prev;
         Some (cardInfoOfCandidate latest);
         option_map (fun e => cardInfoOfRaw (o_obj e)) originalEntry ] /\
     m_renditionData (g_metadata g) =
       [ option_map datumOf prev; Some (datumOf latest); None ]).
Proof.
  intros Hd Hrow nums.
  pose proof (rowsWf_lookup key row (collectRows d) (collectRows_wf d) Hrow)
    as Hwf.
  split; [|split].
  - intros r. rewrite <- (collectRows_bucket d key r row Hrow). split.
    + now apply renditionsAt_nonempty.
    + intros Hne. destruct (renditionsAt r row) as [|c l] eqn:E;
        [congruence|].
      apply (renditionsAt_key row r c). rewrite E. now left.
  - intros Hnil g Hin Hk.
    pose proof (proj1 (group_of_row lc insp d key row g Hd Hrow)
                  (conj Hin Hk)) as Hb.
    unfold buildGroup in Hb.
    destruct (renditionNumsOf row) as [|latestR rest] eqn:E; [discriminate|].
    assert (Hl : In latestR nums).
    { apply renditionNumsOf_In. rewrite E. now left. }
    rewrite Hnil in Hl. destruct Hl.
  - intros Hne.
    destruct (renditionNumsOf row) as [|latestR rest] eqn:E.
    { exfalso. apply Hne. unfold renditionNumsOf in E.
      now apply stableSort_nil in E. }
    destruct (buildGroup (inspectionId insp) (buildOriginals d) (key, row))
      as [g|] eqn:Hb; [|unfold buildGroup in Hb; rewrite E in Hb; discriminate].
    pose proof (proj2 (group_of_row lc insp d key row g Hd Hrow) Hb)
      as [Hin Hk].
    destruct (renditionNumsOf_top row latestR rest Hwf E) as (Ht1 & Ht2 & Ht3).
    destruct (pickBestAt_first_best row latestR
                (renditionsAt_nonempty row latestR Hwf Ht1))
      as (latest & _ & _ & Hl & _).
    assert (Hprev : exists prev,
               bind (hd_error rest) (pickBestAt row) = prev /\
               match hd_error rest with
               | Some p =>
                   exists c,
                     prev = Some c /\ pickBestAt row p = Some c /\
                     In c (bucketOf key p (entriesOf d))
               | None => prev = None
               end).
    { destruct (hd_error rest) as [p|]; cbn [bind].
      - destruct Ht3 as (Hp & _).
        destruct (pickBestAt_first_best row p
                    (renditionsAt_nonempty row p Hwf Hp))
          as (c & _ & _ & Hc & _).
        exists (Some c). split; [exact Hc|]. exists c.
        split; [reflexivity|]. split; [exact Hc|].
        rewrite <- (collectRows_bucket d key p row Hrow).
        now apply pickBestAt_In.
      - exists None. split; reflexivity. }
    destruct Hprev as (prev & Eprev & Hprev).
    exists g, latestR, (hd_error rest), latest, prev.
    split; [exact Hin|]. split; [exact Hk|].
    split.
    { intros g' Hin' Hk'.
      pose proof (proj1 (group_of_row lc insp d key row g' Hd Hrow)
                    (conj Hin' Hk')) as Hb'.
      congruence. }
    split; [exact Ht1|]. split; [exact Ht2|]. split; [exact Ht3|].
    split; [exact Hl|].
    split.
    { rewrite <- (collectRows_bucket d key latestR row Hrow).
      now apply pickBestAt_In. }
    split; [exact Hprev|].
    unfold buildGroup in Hb. rewrite E in Hb. injection Hb as <-.
    cbv zeta. open_group. rewrite Hl, Eprev. cbn [option_map bind].
    pose proof (group_original d row) as Ho.
    destruct (normCam (simulatedCamera (r_pov row))) as [cam|] eqn:Ec;
      [|repeat split; reflexivity].
    destruct (normSide (simulatedCameraSide (r_pov row))) as [side|] eqn:Es;
      [|repeat split; reflexivity].
    rewrite (normCam_nonEmpty _ _ Ec), (normSide_nonEmpty _ _ Es) in *.
    cbn [andb bind] in *. specialize (Ho _ eq_refl).
    change ("_" ++ side) with (String "_" side) in *.
    destruct (lookup String.eqb (cam ++ String "_" side) (buildOriginals d))
      as [e|] eqn:El; [|repeat split; reflexivity].
    destruct (Ho e eq_refl) as (Hn & Hf & Hs).
    cbn [bind option_map]. rewrite Hn. cbn [orElse]. rewrite Hs, Hf.
    repeat split; reflexivity.
Qed.

Lemma rendition_slot_policy_witness :
  exists g,
    In g (processInspectionData codePointCompare sampleThreeRenditions) /\
    m_renditions (g_metadata g) = [Some (RNum 3); Some (RNum 5); None] /\
    g_images g = [Some "r3.png"; Some "r5.png"; None].
Proof.
  edestruct (rendition_slot_policy codePointCompare sampleThreeRenditions)
    with (key := "SlimOverview_front_left") as (_ & _ & H);
    [reflexivity|vm_compute; reflexivity|].
  cbv [map fst r_renditions] in H.
  destruct H as (g & latestR & prevR & latest & prev & Hin & _ & _ & Hl & Hmax
                 & Hprev & Hpl & _ & Hpp & Himg & Hr & _); [discriminate|].
  exists g. split; [exact Hin|].
  assert (El : latestR = 5).
  { pose proof (Hmax 5 ltac:(simpl; tauto)) as H5.
    simpl in Hl. destruct Hl as [<-|[<-|[<-|[]]]]; lia. }
  subst latestR.
  assert (Ep : prevR = Some 3).
  { destruct prevR as [p|].
    - destruct Hprev as (Hp & Hlt & Hsnd).
      pose proof (Hsnd 3 ltac:(simpl; tauto) ltac:(lia)) as H3.
      simpl in Hp. destruct Hp as [<-|[<-|[<-|[]]]]; (reflexivity || lia).
    - pose proof (Hprev 3 ltac:(simpl; tauto)). lia. }
  subst prevR. destruct Hpp as (c & -> & Hc & _).
  vm_compute in Hpl. injection Hpl as <-.
  vm_compute in Hc. injection Hc as <-.
  split; [rewrite Hr|rewrite Himg]; reflexivity.
Defined.

(** ** Serial numbers *)

Lemma extracted_withSerial (src1 src2 : string) (dflt1 dflt2 : Z)
    (img : RawImageEntry) (s : option Z) (k : string) (r : Z) (c : Candidate) :
  extracted (src1, dflt1, img) = Some (k, r, c) ->
  finiteNumber (renditionOr (rendition img) dflt2) = Some r ->
  exists c',
    extracted (src2, dflt2, withSerial s img) = Some (k, r, c') /\
    (src1 = src2 -> scoreCandidate c' = scoreCandidate c) /\
    c_image c' = c_image c /\
    c_isActive c' = c_isActive c.
Proof.
  unfold extracted. cbn [imageType pov rendition withSerial].
  destruct (isArtemis (imageType img)); [discriminate|].
  destruct (pov img) as [p|]; [|discriminate].
  destruct (bucketTypeOf (imageType img)) as [bt|]; [|discriminate].
  destruct (finiteNumber (renditionOr (rendition img) dflt1)) as [rn|];
    [|discriminate].
  intros [= <- <- <-] ->. eexists. split; [reflexivity|].
  repeat split; try reflexivity. intros ->. reflexivity.
Qed.

(** C7 (as amended).  Two raw entries that are identical except for the
    serial number of their POV, that pass the filters of the extraction
    and that have the same rendition number, are put into the same POV
    group and into the same rendition bucket, with equal scores when they
    come from the same collection.  From that bucket the assembly selects
    exactly one candidate, the first of those with the greatest score, and
    the emitted group shows it in its Latest or Previous slot when the
    rendition number is the greatest or the second greatest of the
    group. *)
Theorem serial_number_collapses (localeCompare : string -> string -> Z)
    (insp : Inspection) (d : UvpaintData)
    (src1 src2 : string) (dflt1 dflt2 : Z) (img : RawImageEntry)
    (s : option Z) (k : string) (r : Z) (c1 : Candidate) :
  uvpaintData insp = Some d ->
  In (src1, dflt1, img) (entriesOf d) ->
  In (src2, dflt2, withSerial s img) (entriesOf d) ->
  extracted (src1, dflt1, img) = Some (k, r, c1) ->
  finiteNumber (renditionOr (rendition img) dflt2) = Some r ->
  exists row c2 best g,
    extracted (src2, dflt2, withSerial s img) = Some (k, r, c2) /\
    lookup String.eqb k (collectRows d) = Some row /\
    In c1 (renditionsAt r row) /\
    In c2 (renditionsAt r row) /\
    (src1 = src2 -> scoreCandidate c1 = scoreCandidate c2) /\
    pickBestAt row r = Some best /\
    (exists pre post,
       renditionsAt r row = (pre ++ best :: post)%list /\
       (forall x, In x pre -> scoreCandidate x < scoreCandidate best) /\
       (forall x, In x post -> scoreCandidate x <= scoreCandidate best)) /\
    In g (processInspectionData localeCompare insp) /\
    m_groupKey (g_metadata g) = k /\
    forall latestR rest,
      renditionNumsOf row = latestR :: rest ->
      (latestR = r ->
       nth_error (m_renditionData (g_metadata g)) 1 = Some (Some (datumOf best))) /\
      (hd_error rest = Some r ->
       nth_error (m_renditionData (g_metadata g)) 0 = Some (Some (datumOf best))).
Proof.
  intros Hd Hin1 Hin2 Hex1 Hr2.
  destruct (extracted_withSerial src1 src2 dflt1 dflt2 img s k r c1 Hex1 Hr2)
    as (c2 & Hex2 & Hsc & _ & _).
  destruct (collectRows_extracted d _ k r c1 Hin1 Hex1) as (row & Hrow & Hc1).
  destruct (collectRows_extracted d _ k r c2 Hin2 Hex2) as (row' & Hrow' & Hc2).
  assert (row' = row) by congruence. subst row'.
  assert (Hne : renditionsAt r row <> []).
  { intros E. rewrite E in Hc1. destruct Hc1. }
  destruct (pickBestAt_first_best row r Hne)
    as (best & pre & post & Hp & Hl & Hpre & Hpost).
  destruct (renditionNumsOf row) as [|latestR rest] eqn:E.
  { exfalso. pose proof (renditionsAt_key row r c1 Hc1) as Hr.
    apply renditionNumsOf_In in Hr. rewrite E in Hr. destruct Hr. }
  destruct (buildGroup (inspectionId insp) (buildOriginals d) (k, row))
    as [g|] eqn:Hb; [|unfold buildGroup in Hb; rewrite E in Hb; discriminate].
  pose proof (proj2 (group_of_row localeCompare insp d k row g Hd Hrow) Hb)
    as [Hin Hk].
  destruct (buildGroup_published _ _ _ _ _ _ _ E Hb) as [Hrd _].
  exists row, c2, best, g.
  split; [exact Hex2|]. split; [exact Hrow|].
  split; [exact Hc1|]. split; [exact Hc2|].
  split; [intros Hs; symmetry; now apply Hsc|].
  split; [exact Hp|]. split; [exists pre, post; tauto|].
  split; [exact Hin|]. split; [exact Hk|].
  intros latestR' rest' E'. rewrite E in E'. injection E' as <- <-.
  rewrite Hrd. split.
  - intros ->. cbn [nth_error]. now rewrite Hp.
  - intros ->. cbn [nth_error bind]. now rewrite Hp.
Qed.

Lemma serial_number_collapses_witness :
  exists row c1 c2,
    lookup String.eqb "SlimOverview_front_left"
      (match uvpaintData sampleThreeRenditions with
       | Some d => collectRows d
       | None => []
       end) = Some row /\
    In c1 (renditionsAt 1 row) /\
    In c2 (renditionsAt 1 row) /\
    serialNumber (c_pov c1) = Some 1 /\
    serialNumber (c_pov c2) = Some 2.
Proof.
  edestruct (serial_number_collapses codePointCompare sampleThreeRenditions)
    with (src1 := "images") (src2 := "images") (dflt1 := 3) (dflt2 := 3)
         (img := samplePairEntry) (s := Some 2)
    as (row & c2 & best & g & Hex2 & Hrow & Hc1 & Hc2 & _);
    [reflexivity|simpl; tauto|simpl; tauto|reflexivity|reflexivity|].
  eexists row, _, c2.
  split; [exact Hrow|]. split; [exact Hc1|]. split; [exact Hc2|].
  split; [reflexivity|].
  vm_compute in Hex2. injection Hex2 as <-. reflexivity.
Defined.

(** C7, the claim as stated does not hold: the two entries of rendition 1
    collide, but renditions 3 and 5 of the same viewpoint take the two
    slots, so neither entry of the pair is shown. *)
Lemma serial_pair_not_surfaced_counterexample :
  exists d,
    uvpaintData sampleThreeRenditions = Some d /\
    In samplePairEntry (images d) /\
    In (withSerial (Some 2) samplePairEntry) (images d) /\
    activeImage samplePairEntry = JStr "r1.png" /\
    option_map fst (extracted ("images", 3, samplePairEntry)) =
      Some ("SlimOverview_front_left", 1) /\
    option_map fst (extracted ("images", 3, withSerial (Some 2) samplePairEntry)) =
      Some ("SlimOverview_front_left", 1) /\
    map (fun g => (m_groupKey (g_metadata g), g_images g,
                   m_renditions (g_metadata g)))
      (processInspectionData codePointCompare sampleThreeRenditions) =
    [ ("SlimOverview_front_left",
       [Some "r3.png"; Some "r5.png"; None],
       [Some (RNum 3); Some (RNum 5); None]) ].
Proof.
  eexists. split; [reflexivity|]. simpl images.
  split; [simpl; tauto|]. split; [simpl; tauto|].
  repeat split; reflexivity.
Qed.

(** ** Aggregate metrics *)

Lemma Qpositive_true (q : Q) : Qpositive q = true <-> (0 < q)%Q.
Proof.
  unfold Qpositive. rewrite negb_true_iff.
  destruct (Qle_bool q 0) eqn:E.
  - apply Qle_bool_iff in E. split; [discriminate|].
    intros H. exfalso. apply (Qlt_irrefl 0). now apply Qlt_le_trans with q.
  - split; [intros _|reflexivity].
    apply Qnot_le_lt. intros H. apply Qle_bool_iff in H. congruence.
Qed.

Lemma Qpositive_false (q : Q) : Qpositive q = false <-> (q <= 0)%Q.
Proof.
  unfold Qpositive. rewrite negb_false_iff. apply Qle_bool_iff.
Qed.

Lemma meanOrZero_nonneg (total count : Z) :
  0 <= total -> (0 <= meanOrZero total count)%Q.
Proof.
  intros Ht. unfold meanOrZero. destruct (Z.ltb_spec 0 count) as [Hc|Hc].
  - unfold Qdiv. apply Qmult_le_0_compat.
    + change 0%Q with (inject_Z 0). now rewrite <- Zle_Qle.
    + apply Qinv_le_0_compat. change 0%Q with (inject_Z 0).
      rewrite <- Zle_Qle. lia.
  - apply Qle_refl.
Qed.

(** The percent change as the code computes it, by the sign of the two
    means. *)
Lemma percentChange_cases (prev latest : Q) :
  (0 < prev -> percentChange prev latest == (latest - prev) / prev * 100)%Q /\
  (prev <= 0 -> 0 < latest -> percentChange prev latest == 100)%Q /\
  (prev <= 0 -> latest <= 0 -> percentChange prev latest == 0)%Q.
Proof.
  unfold percentChange. split; [|split].
  - intros H. apply Qpositive_true in H. rewrite H. reflexivity.
  - intros H0 H1. apply Qpositive_false in H0. apply Qpositive_true in H1.
    rewrite H0, H1. reflexivity.
  - intros H0 H1. apply Qpositive_false in H0. apply Qpositive_false in H1.
    rewrite H0, H1. reflexivity.
Qed.

(** The percent-change policy on two means that are not negative. *)
Lemma percentChange_policy (prev latest : Q) :
  (0 <= prev)%Q -> (0 <= latest)%Q ->
  (prev == 0 -> latest == 0 -> percentChange prev latest == 0)%Q /\
  (prev == 0 -> ~ latest == 0 -> percentChange prev latest == 100)%Q /\
  (0 < prev -> percentChange prev latest == (latest - prev) / prev * 100)%Q.
Proof.
  intros Hp Hl.
  destruct (percentChange_cases prev latest) as (C1 & C2 & C3).
  split; [|split; [|exact C1]].
  - intros E0 E1. apply C3; [rewrite E0|rewrite E1]; apply Qle_refl.
  - intros E0 N1. apply C2; [rewrite E0; apply Qle_refl|].
    apply Qle_lteq in Hl. destruct Hl as [Hl|Hl]; [exact Hl|].
    exfalso. apply N1. now symmetry.
Qed.

Lemma addSlots_nonneg (actions : list (option Z)) (s : SlotSums) :
  (forall i n, nth_error actions i = Some (Some n) -> 0 <= n) ->
  sumsNonneg s -> sumsNonneg (addSlots actions s).
Proof.
  unfold sumsNonneg, addSlots. intros Ha [H1 H2].
  pose proof (Ha 0%nat) as A0. pose proof (Ha 1%nat) as A1.
  destruct (nth_error actions 0) as [[n0|]|];
    destruct (nth_error actions 1) as [[n1|]|]; simpl;
    try specialize (A0 _ eq_refl); try specialize (A1 _ eq_refl); lia.
Qed.

Lemma addSlots_fold_nonneg (comps : list Group) (s : SlotSums) :
  (forall comp, In comp comps -> actionsNonneg comp) ->
  sumsNonneg s ->
  sumsNonneg
    (fold_left (fun s comp => addSlots (m_actions (g_metadata comp)) s) comps s).
Proof.
  revert s. induction comps as [|c comps IH]; intros s Hc Hs; simpl;
    [exact Hs|].
  apply IH; [intros comp Hin; apply Hc; now right|].
  apply addSlots_nonneg; [|exact Hs]. apply Hc. now left.
Qed.

Lemma tableAFrom_In (idx : nat) (pis : list ProcessedInspection)
    (row : TableARow) :
  In row (tableAFrom idx pis) ->
  exists i insp, In insp pis /\ row = tableARow i insp.
Proof.
  revert idx. induction pis as [|insp pis IH]; intros idx; simpl; [tauto|].
  intros [<-|Hin].
  - exists idx, insp. tauto.
  - destruct (IH _ Hin) as (i & insp' & Hi & ->). exists i, insp'. tauto.
Qed.

Lemma allValues_assign {V : Type} (P : V -> Prop) (k : string) (v : V)
    (d : list (string * V)) :
  allValues P d -> P v -> allValues P (assign String.eqb k v d).
Proof.
  intros Hd Hv k' v' Hin. apply (In_assign String.eqb_spec) in Hin.
  destruct Hin as [[_ ->]|Hin]; [exact Hv|now apply (Hd k')].
Qed.

Lemma allValues_lookup {V : Type} (P : V -> Prop) (k : string) (v : V)
    (d : list (string * V)) :
  allValues P d -> lookup String.eqb k d = Some v -> P v.
Proof.
  intros Hd Hl. apply (Hd k). now apply (lookup_In String.eqb_spec).
Qed.

Lemma addToTableD_nonneg (t c sd : jsval) (o : string) (n : Z)
    (aggD : list (string * AggRow)) :
  allValues aggNonneg aggD ->
  allValues aggNonneg (addToTableD t c sd o n aggD).
Proof.
  intros H. unfold addToTableD.
  set (key := joinKey (orNA t) (orNA c) (orNA sd) (strOrNA o)).
  set (aggD1 := match lookup String.eqb key aggD with
                | Some _ => aggD
                | None => _
                end).
  assert (H1 : allValues aggNonneg aggD1).
  { unfold aggD1. destruct (lookup String.eqb key aggD); [exact H|].
    apply allValues_assign; [exact H|]. split; simpl; lia. }
  destruct (lookup String.eqb key aggD1) as [row|] eqn:E; [|exact H1].
  apply allValues_assign; [exact H1|].
  apply (allValues_lookup _ _ _ _ H1) in E. exact E.
Qed.

Lemma addPublished_nonneg (aggD : list (string * AggRow))
    (insp : ProcessedInspection) :
  allValues aggNonneg aggD -> allValues aggNonneg (addPublished aggD insp).
Proof.
  unfold addPublished. generalize (publishedUvpaintOf insp). intros l.
  revert aggD. induction l as [|img l IH]; intros aggD H; simpl; [exact H|].
  apply IH. now apply addToTableD_nonneg.
Qed.

Lemma addComparison_nonneg (agg : list (string * CompRow)) (comp : Group) :
  actionsNonneg comp ->
  allValues (fun r => sumsNonneg (cr_sums r)) agg ->
  allValues (fun r => sumsNonneg (cr_sums r)) (addComparison agg comp).
Proof.
  intros Hc H. unfold addComparison.
  destruct (m_pov (g_metadata comp)) as [p|]; [|exact H].
  set (key := joinKey _ _ _ _).
  set (agg1 := match lookup String.eqb key agg with
               | Some _ => agg
               | None => _
               end).
  assert (H1 : allValues (fun r => sumsNonneg (cr_sums r)) agg1).
  { unfold agg1. destruct (lookup String.eqb key agg); [exact H|].
    apply allValues_assign; [exact H|]. split; simpl; lia. }
  destruct (lookup String.eqb key agg1) as [row|] eqn:E; [|exact H1].
  apply allValues_assign; [exact H1|]. simpl.
  apply addSlots_nonneg; [exact Hc|].
  exact (allValues_lookup _ _ _ _ H1 E).
Qed.

Lemma aggDComparisonsOf_nonneg (pis : list ProcessedInspection) :
  cardsNonneg pis ->
  allValues (fun r => sumsNonneg (cr_sums r)) (aggDComparisonsOf pis).
Proof.
  unfold aggDComparisonsOf, cardsNonneg.
  assert (H : forall l agg,
             (forall comp, In comp l -> actionsNonneg comp) ->
             allValues (fun r => sumsNonneg (cr_sums r)) agg ->
             allValues (fun r => sumsNonneg (cr_sums r))
               (fold_left addComparison l agg)).
  { induction l as [|c l IH]; intros agg Hc Ha; simpl; [exact Ha|].
    apply IH; [intros comp Hin; apply Hc; now right|].
    apply addComparison_nonneg; [apply Hc; now left|exact Ha]. }
  assert (H' : forall l agg,
             (forall insp comp,
                In insp l -> In comp (pi_comparisons insp) ->
                actionsNonneg comp) ->
             allValues (fun r => sumsNonneg (cr_sums r)) agg ->
             allValues (fun r => sumsNonneg (cr_sums r))
               (fold_left
                  (fun agg insp => fold_left addComparison (pi_comparisons insp) agg)
                  l agg)).
  { induction l as [|i l IH]; intros agg Hc Ha; simpl; [exact Ha|].
    apply IH; [intros insp comp Hi; apply Hc; now right|].
    apply H; [intros comp; apply Hc; now left|exact Ha]. }
  intros Hc. apply H'; [exact Hc|]. intros ? ? [].
Qed.

Lemma mergeComparison_nonneg (aggD : list (string * AggRow))
    (entry : string * CompRow) :
  sumsNonneg (cr_sums (snd entry)) ->
  allValues aggNonneg aggD -> allValues aggNonneg (mergeComparison aggD entry).
Proof.
  destruct entry as [key compRow]. simpl. intros [Hs1 Hs2] H.
  unfold mergeComparison.
  destruct (lookup String.eqb key aggD);
    (apply allValues_assign; [exact H|split; simpl; assumption]).
Qed.

Lemma aggDOf_nonneg (pis : list ProcessedInspection) :
  cardsNonneg pis -> allValues aggNonneg (aggDOf pis).
Proof.
  intros Hc. unfold aggDOf.
  assert (H : forall l aggD,
             allValues (fun r => sumsNonneg (cr_sums r)) l ->
             allValues aggNonneg aggD ->
             allValues aggNonneg (fold_left mergeComparison l aggD)).
  { induction l as [|[k c] l IH]; intros aggD Hl Ha; cbn [fold_left];
      [exact Ha|].
    apply IH.
    - intros k' v' Hin. apply (Hl k'). now right.
    - apply (mergeComparison_nonneg aggD (k, c)); [|exact Ha].
      apply (Hl k). now left. }
  apply H; [now apply aggDComparisonsOf_nonneg|].
  assert (H' : forall l aggD,
             allValues aggNonneg aggD ->
             allValues aggNonneg (fold_left addPublished l aggD)).
  { induction l as [|i l IH]; intros aggD Ha; simpl; [exact Ha|].
    apply IH. now apply addPublished_nonneg. }
  apply H'. intros ? ? [].
Qed.

(** The rows of the two tables, traced back to what they are computed
    from. *)
Lemma tableA_row_origin (pis : list ProcessedInspection) (row : TableARow) :
  In row (fst (computeAggregatedMetrics pis)) ->
  exists i insp, In insp pis /\ row = tableARow i insp.
Proof.
  unfold computeAggregatedMetrics. cbn [fst]. apply tableAFrom_In.
Qed.

Lemma tableD_row_origin (pis : list ProcessedInspection) (row : TableDRow) :
  In row (snd (computeAggregatedMetrics pis)) ->
  exists k r, In (k, r) (aggDOf pis) /\ row = tableDRow r.
Proof.
  unfold computeAggregatedMetrics. cbn [snd]. intros Hin.
  apply stableSort_In in Hin. apply in_map_iff in Hin.
  destruct Hin as (r & <- & Hin). apply in_map_iff in Hin.
  destruct Hin as ([k r'] & <- & Hin). exists k, r'. tauto.
Qed.

(** C8 (as amended).  In Table A and in Table D the percent change of
    every row is [(latest - previous) / previous * 100] when the previous
    mean is greater than 0; otherwise it is 100 when the latest mean is
    greater than 0 and 0 when it is not.  When no card carries a negative
    action count, the two means are not negative and this is the policy
    of the specification: 0 when the previous mean and the latest mean
    are both 0, 100 when the previous mean is 0 and the latest mean is
    not.  A previous mean of 10 and a latest mean of 5 give -50. *)
Theorem percent_change_policy :
  (forall processedInspections row,
     In row (fst (computeAggregatedMetrics processedInspections)) ->
     let prev := a_avgPreviousActions row in
     let latest := a_avgLatestActions row in
     let change := a_actionsPercentChange row in
     (0 < prev -> change == (latest - prev) / prev * 100)%Q /\
     (prev <= 0 -> 0 < latest -> change == 100)%Q /\
     (prev <= 0 -> latest <= 0 -> change == 0)%Q) /\
  (forall processedInspections row,
     In row (snd (computeAggregatedMetrics processedInspections)) ->
     let prev := d_avgPreviousActions row in
     let latest := d_avgLatestActions row in
     let change := d_actionsPercentChange row in
     (0 < prev -> change == (latest - prev) / prev * 100)%Q /\
     (prev <= 0 -> 0 < latest -> change == 100)%Q /\
     (prev <= 0 -> latest <= 0 -> change == 0)%Q) /\
  (forall processedInspections,
     cardsNonneg processedInspections ->
     (forall row,
        In row (fst (computeAggregatedMetrics processedInspections)) ->
        let prev := a_avgPreviousActions row in
        let latest := a_avgLatestActions row in
        let change := a_actionsPercentChange row in
        (0 <= prev)%Q /\ (0 <= latest)%Q /\
        (prev == 0 -> latest == 0 -> change == 0)%Q /\
        (prev == 0 -> ~ latest == 0 -> change == 100)%Q /\
        (0 < prev -> change == (latest - prev) / prev * 100)%Q) /\
     (forall row,
        In row (snd (computeAggregatedMetrics processedInspections)) ->
        let prev := d_avgPreviousActions row in
        let latest := d_avgLatestActions row in
        let change := d_actionsPercentChange row in
        (0 <= prev)%Q /\ (0 <= latest)%Q /\
        (prev == 0 -> latest == 0 -> change == 0)%Q /\
        (prev == 0 -> ~ latest == 0 -> change == 100)%Q /\
        (0 < prev -> change == (latest - prev) / prev * 100)%Q)) /\
  (percentChange 0 0 == 0)%Q /\
  (percentChange 0 5 == 100)%Q /\
  (percentChange 10 5 == -50)%Q.
Proof.
  split; [|split; [|split; [|repeat split; reflexivity]]].
  - intros pis row Hin. apply tableA_row_origin in Hin.
    destruct Hin as (i & insp & _ & ->). cbv zeta. unfold tableARow.
    cbn [a_avgPreviousActions a_avgLatestActions a_actionsPercentChange].
    apply percentChange_cases.
  - intros pis row Hin. apply tableD_row_origin in Hin.
    destruct Hin as (k & r & _ & ->). cbv zeta. unfold tableDRow.
    cbn [d_avgPreviousActions d_avgLatestActions d_actionsPercentChange].
    apply percentChange_cases.
  - intros pis Hc. split.
    + intros row Hin. apply tableA_row_origin in Hin.
      destruct Hin as (i & insp & Hi & ->). cbv zeta. unfold tableARow.
      cbn [a_avgPreviousActions a_avgLatestActions a_actionsPercentChange].
      destruct (addSlots_fold_nonneg (pi_comparisons insp) (mkSums 0 0 0 0))
        as [H1 H2]; [intros comp; now apply Hc|split; simpl; lia|].
      split; [now apply meanOrZero_nonneg|].
      split; [now apply meanOrZero_nonneg|].
      apply percentChange_policy; now apply meanOrZero_nonneg.
    + intros row Hin. apply tableD_row_origin in Hin.
      destruct Hin as (k & r & Hin & ->). cbv zeta. unfold tableDRow.
      cbn [d_avgPreviousActions d_avgLatestActions d_actionsPercentChange].
      destruct (aggDOf_nonneg pis Hc k r Hin) as [H1 H2].
      split; [now apply meanOrZero_nonneg|].
      split; [now apply meanOrZero_nonneg|].
      apply percentChange_policy; now apply meanOrZero_nonneg.
Qed.

(** ** Table D *)

Lemma allEntries_assign {V : Type} (P : string -> V -> Prop) (k : string)
    (v : V) (d : list (string * V)) :
  allEntries P d -> P k v -> allEntries P (assign String.eqb k v d).
Proof.
  intros Hd Hv k' v' Hin. apply (In_assign String.eqb_spec) in Hin.
  destruct Hin as [[-> ->]|Hin]; [exact Hv|now apply Hd].
Qed.

Lemma addPublished_images (pis : list ProcessedInspection)
    (aggD : list (string * AggRow)) :
  fold_left addPublished pis aggD = fold_left addImage (allPublished pis) aggD.
Proof.
  revert aggD. induction pis as [|insp pis IH]; intros aggD; simpl;
    [reflexivity|].
  unfold allPublished in *. rewrite fold_left_app, IH. reflexivity.
Qed.

Lemma addImage_unfold (aggD : list (string * AggRow)) (img : RawImageEntry) :
  exists row,
    addImage aggD img =
    assign String.eqb (imageKey img)
      {| d_imageType := d_imageType row;
         d_simulatedCamera := d_simulatedCamera row;
         d_simulatedCameraSide := d_simulatedCameraSide row;
         d_originalCameraId := d_originalCameraId row;
         d_images := d_images row + 1;
         d_totalActions :=
           d_totalActions row + sumActionMap (actionsCounterMap img);
         d_previousTotalActions := d_previousTotalActions row;
         d_previousCount := d_previousCount row;
         d_latestTotalActions := d_latestTotalActions row;
         d_latestCount := d_latestCount row |}
      (match lookup String.eqb (imageKey img) aggD with
       | Some _ => aggD
       | None => assign String.eqb (imageKey img) row aggD
       end) /\
    match lookup String.eqb (imageKey img) aggD with
    | Some r => row = r
    | None => rowKey row = imageKey img /\ d_images row = 0 /\
              d_totalActions row = 0
    end.
Proof.
  unfold addImage, addToTableD. fold (imageKey img).
  destruct (lookup String.eqb (imageKey img) aggD) as [r|] eqn:E.
  - rewrite E. exists r. split; reflexivity.
  - rewrite (lookup_assign_eq String.eqb_spec). eexists.
    split; [reflexivity|]. repeat split; reflexivity.
Qed.

Lemma addImage_stats (k : string) (aggD : list (string * AggRow))
    (img : RawImageEntry) :
  statsAt k (addImage aggD img) =
  if String.eqb (imageKey img) k
  then (fst (statsAt k aggD) + 1,
        snd (statsAt k aggD) + sumActionMap (actionsCounterMap img))
  else statsAt k aggD.
Proof.
  destruct (addImage_unfold aggD img) as (row & -> & Hrow).
  unfold statsAt.
  destruct (String.eqb_spec (imageKey img) k) as [<-|Hne].
  - rewrite (lookup_assign_eq String.eqb_spec). simpl.
    destruct (lookup String.eqb (imageKey img) aggD) as [r|].
    + subst row. reflexivity.
    + destruct Hrow as (_ & -> & ->). reflexivity.
  - rewrite (lookup_assign_neq String.eqb_spec _ _ Hne).
    destruct (lookup String.eqb (imageKey img) aggD) as [r|]; [reflexivity|].
    now rewrite (lookup_assign_neq String.eqb_spec _ _ Hne).
Qed.

Lemma addImage_fold_stats (k : string) (l : list RawImageEntry)
    (aggD : list (string * AggRow)) :
  statsAt k (fold_left addImage l aggD) =
  (fst (statsAt k aggD) + fst (statsOf k l),
   snd (statsAt k aggD) + snd (statsOf k l)).
Proof.
  revert aggD. induction l as [|img l IH]; intros aggD; simpl.
  - destruct (statsAt k aggD). simpl. f_equal; lia.
  - rewrite IH, addImage_stats.
    destruct (statsOf k l) as [n t].
    destruct (String.eqb (imageKey img) k); simpl; f_equal; lia.
Qed.

Lemma mergeComparison_stats (k : string) (aggD : list (string * AggRow))
    (entry : string * CompRow) :
  statsAt k (mergeComparison aggD entry) = statsAt k aggD.
Proof.
  destruct entry as [key compRow]. unfold mergeComparison, statsAt.
  destruct (String.eqb_spec key k) as [<-|Hne].
  - destruct (lookup String.eqb key aggD) as [row|] eqn:E;
      rewrite (lookup_assign_eq String.eqb_spec); reflexivity.
  - destruct (lookup String.eqb key aggD) as [row|] eqn:E;
      now rewrite (lookup_assign_neq String.eqb_spec _ _ Hne).
Qed.

Lemma aggDOf_stats (k : string) (pis : list ProcessedInspection) :
  statsAt k (aggDOf pis) = statsOf k (allPublished pis).
Proof.
  unfold aggDOf.
  assert (H : forall l aggD,
             statsAt k (fold_left mergeComparison l aggD) = statsAt k aggD).
  { induction l as [|e l IH]; intros aggD; cbn [fold_left]; [reflexivity|].
    now rewrite IH, mergeComparison_stats. }
  rewrite H, addPublished_images, addImage_fold_stats.
  unfold statsAt at 1 2. simpl. destruct (statsOf k (allPublished pis)).
  reflexivity.
Qed.

Lemma allEntries_lookup {V : Type} (P : string -> V -> Prop) (k : string)
    (v : V) (d : list (string * V)) :
  allEntries P d -> lookup String.eqb k d = Some v -> P k v.
Proof.
  intros Hd Hl. apply Hd. now apply (lookup_In String.eqb_spec).
Qed.

Lemma addImage_keyed (aggD : list (string * AggRow)) (img : RawImageEntry) :
  allEntries (fun k r => k = rowKey r) aggD ->
  allEntries (fun k r => k = rowKey r) (addImage aggD img).
Proof.
  intros H. destruct (addImage_unfold aggD img) as (row & -> & Hrow).
  destruct (lookup String.eqb (imageKey img) aggD) as [r|] eqn:E.
  - subst row. apply allEntries_assign; [exact H|].
    exact (allEntries_lookup _ _ _ _ H E).
  - destruct Hrow as (Hk & _ & _).
    apply allEntries_assign; [|now symmetry].
    apply allEntries_assign; [exact H|now symmetry].
Qed.

Lemma addImage_NoDup (aggD : list (string * AggRow)) (img : RawImageEntry) :
  NoDup (map fst aggD) -> NoDup (map fst (addImage aggD img)).
Proof.
  intros H. destruct (addImage_unfold aggD img) as (row & -> & _).
  apply (NoDup_assign String.eqb_spec).
  destruct (lookup String.eqb (imageKey img) aggD); [exact H|].
  now apply (NoDup_assign String.eqb_spec).
Qed.

Lemma addComparison_keyed (agg : list (string * CompRow)) (comp : Group) :
  allEntries (fun k r => k = compRowKey r) agg ->
  allEntries (fun k r => k = compRowKey r) (addComparison agg comp).
Proof.
  intros H. unfold addComparison.
  destruct (m_pov (g_metadata comp)) as [p|]; [|exact H].
  set (key := joinKey _ _ _ _).
  set (agg1 := match lookup String.eqb key agg with
               | Some _ => agg
               | None => _
               end).
  assert (H1 : allEntries (fun k r => k = compRowKey r) agg1).
  { unfold agg1. destruct (lookup String.eqb key agg); [exact H|].
    apply allEntries_assign; [exact H|reflexivity]. }
  destruct (lookup String.eqb key agg1) as [row|] eqn:E; [|exact H1].
  apply allEntries_assign; [exact H1|].
  exact (allEntries_lookup _ _ _ _ H1 E).
Qed.

Lemma aggDComparisonsOf_keyed (pis : list ProcessedInspection) :
  allEntries (fun k r => k = compRowKey r) (aggDComparisonsOf pis).
Proof.
  unfold aggDComparisonsOf.
  assert (H : forall l agg,
             allEntries (fun k r => k = compRowKey r) agg ->
             allEntries (fun k r => k = compRowKey r)
               (fold_left addComparison l agg)).
  { induction l as [|c l IH]; intros agg Ha; cbn [fold_left]; [exact Ha|].
    apply IH. now apply addComparison_keyed. }
  assert (H' : forall l agg,
             allEntries (fun k r => k = compRowKey r) agg ->
             allEntries (fun k r => k = compRowKey r)
               (fold_left
                  (fun agg insp => fold_left addComparison (pi_comparisons insp) agg)
                  l agg)).
  { induction l as [|i l IH]; intros agg Ha; cbn [fold_left]; [exact Ha|].
    apply IH. now apply H. }
  apply H'. intros ? ? [].
Qed.

Lemma mergeComparison_keyed (aggD : list (string * AggRow))
    (entry : string * CompRow) :
  fst entry = compRowKey (snd entry) ->
  allEntries (fun k r => k = rowKey r) aggD ->
  allEntries (fun k r => k = rowKey r) (mergeComparison aggD entry).
Proof.
  destruct entry as [key compRow]. simpl. intros Hk H.
  unfold mergeComparison.
  destruct (lookup String.eqb key aggD) as [row|] eqn:E;
    (apply allEntries_assign; [exact H|]).
  - exact (allEntries_lookup _ _ _ _ H E).
  - exact Hk.
Qed.

Lemma aggDOf_keyed (pis : list ProcessedInspection) :
  allEntries (fun k r => k = rowKey r) (aggDOf pis) /\
  NoDup (map fst (aggDOf pis)).
Proof.
  unfold aggDOf.
  assert (H : forall l aggD,
             allEntries (fun k r => k = compRowKey r) l ->
             allEntries (fun k r => k = rowKey r) aggD /\
             NoDup (map fst aggD) ->
             allEntries (fun k r => k = rowKey r)
               (fold_left mergeComparison l aggD) /\
             NoDup (map fst (fold_left mergeComparison l aggD))).
  { induction l as [|[k c] l IH]; intros aggD Hl Ha; cbn [fold_left];
      [exact Ha|].
    apply IH; [intros k' v' Hin; apply Hl; now right|].
    destruct Ha as [Ha Hnd]. split.
    - apply (mergeComparison_keyed aggD (k, c)); [|exact Ha].
      apply Hl. now left.
    - unfold mergeComparison.
      destruct (lookup String.eqb k aggD);
        now apply (NoDup_assign String.eqb_spec). }
  apply H; [apply aggDComparisonsOf_keyed|].
  rewrite addPublished_images.
  assert (H' : forall l aggD,
             allEntries (fun k r => k = rowKey r) aggD /\
             NoDup (map fst aggD) ->
             allEntries (fun k r => k = rowKey r) (fold_left addImage l aggD) /\
             NoDup (map fst (fold_left addImage l aggD))).
  { induction l as [|i l IH]; intros aggD Ha; cbn [fold_left]; [exact Ha|].
    apply IH. destruct Ha as [Ha Hnd].
    split; [now apply addImage_keyed|now apply addImage_NoDup]. }
  apply H'. split; [intros ? ? []|constructor].
Qed.

(** C6 (as amended).  Table D has one row for each key made of the
    fields [imageType], [simulatedCamera], [simulatedCameraSide] and
    [originalCameraId] of the row; a row counts the published images of
    its key, and sums their actions, over all loaded inspections; and the
    rows are returned in descending order of [avgActionsPerImage], the
    mean number of actions of these published images. *)
Theorem tableD_keys_and_order
    (processedInspections : list ProcessedInspection) :
  let tableD := snd (computeAggregatedMetrics processedInspections) in
  StronglySorted
    (fun a b => (d_avgActionsPerImage b <= d_avgActionsPerImage a)%Q) tableD /\
  NoDup (map (fun r => rowKey (d_row r)) tableD) /\
  (forall r, In r tableD ->
     (d_images (d_row r), d_totalActions (d_row r)) =
       statsOf (rowKey (d_row r)) (allPublished processedInspections) /\
     d_avgActionsPerImage r =
       meanOrZero (d_totalActions (d_row r)) (d_images (d_row r))) /\
  (forall img, In img (allPublished processedInspections) ->
     exists r, In r tableD /\ rowKey (d_row r) = imageKey img).
Proof.
  cbv zeta. unfold computeAggregatedMetrics. cbn [snd].
  set (after := fun a b : TableDRow =>
                  Qpositive (d_avgActionsPerImage b - d_avgActionsPerImage a)).
  destruct (aggDOf_keyed processedInspections) as [Hkeyed Hnd].
  assert (Hkeys : map (fun r => rowKey (d_row r))
                    (map tableDRow (map snd (aggDOf processedInspections))) =
                  map fst (aggDOf processedInspections)).
  { rewrite !map_map. apply map_ext_in. intros [k r] Hin. simpl.
    symmetry. now apply Hkeyed. }
  assert (Hrows : forall r,
             In r (stableSort after
                     (map tableDRow (map snd (aggDOf processedInspections)))) ->
             exists k row, In (k, row) (aggDOf processedInspections) /\
                           r = tableDRow row).
  { intros r Hin. apply stableSort_In in Hin. apply in_map_iff in Hin.
    destruct Hin as (row & <- & Hin). apply in_map_iff in Hin.
    destruct Hin as ([k row'] & <- & Hin). exists k, row'. tauto. }
  split; [|split; [|split]].
  - apply stableSort_sorted.
    + intros a b c H1 H2. now apply Qle_trans with (d_avgActionsPerImage b).
    + intros a b H. apply Qpositive_false in H. lra.
    + intros a b H. apply Qpositive_true in H. lra.
  - eapply Permutation_NoDup.
    + apply Permutation_map. symmetry. apply stableSort_perm.
    + rewrite Hkeys. exact Hnd.
  - intros r Hin. destruct (Hrows r Hin) as (k & row & Hrow & ->).
    split; [|reflexivity]. cbn [d_row tableDRow].
    rewrite <- (Hkeyed k row Hrow), <- aggDOf_stats. unfold statsAt.
    now rewrite (In_lookup String.eqb_spec Hnd Hrow).
  - intros img Hin.
    assert (Hpos : 0 < fst (statsOf (imageKey img)
                              (allPublished processedInspections))).
    { revert Hin. generalize (allPublished processedInspections). intros l.
      induction l as [|x l IH]; [intros []|]. simpl.
      assert (Hge : forall l', 0 <= fst (statsOf (imageKey img) l')).
      { induction l' as [|y l' IH']; simpl; [lia|].
        destruct (statsOf (imageKey img) l') as [n t].
        destruct (String.eqb (imageKey y) (imageKey img)); simpl in *; lia. }
      specialize (Hge l).
      destruct (statsOf (imageKey img) l) as [n t]. intros [->|Hin].
      - rewrite String.eqb_refl. simpl in *. lia.
      - specialize (IH Hin).
        destruct (String.eqb (imageKey x) (imageKey img)); simpl in *; lia. }
    rewrite <- aggDOf_stats in Hpos. unfold statsAt in Hpos.
    destruct (lookup String.eqb (imageKey img) (aggDOf processedInspections))
      as [row|] eqn:E; [|simpl in Hpos; lia].
    exists (tableDRow row). split; [|cbn [d_row tableDRow]].
    + apply stableSort_In. apply in_map. apply in_map_iff.
      exists (imageKey img, row). split; [reflexivity|].
      now apply (lookup_In String.eqb_spec).
    + symmetry. exact (allEntries_lookup _ _ _ _ Hkeyed E).
Qed.

Lemma tableD_keys_and_order_witness :
  exists r,
    In r (snd (computeAggregatedMetrics
                 [processOne codePointCompare "insp-6" sampleHeatmap])) /\
    rowKey (d_row r) = "SlimOverview|Rear|Left|N/A" /\
    (d_images (d_row r), d_totalActions (d_row r)) = (1, 5).
Proof.
  destruct (tableD_keys_and_order
              [processOne codePointCompare "insp-6" sampleHeatmap])
    as (_ & _ & Hstats & Hall).
  destruct (Hall sampleRearLeft) as (r & Hin & Hk).
  { right. left. reflexivity. }
  exists r. split; [exact Hin|]. split; [exact Hk|].
  destruct (Hstats r Hin) as [Hs _]. rewrite Hs, Hk. reflexivity.
Defined.

(** C6, the claim as stated does not hold: the rows are ordered by the
    mean number of actions of the published images, and here this order
    is the reverse of the order of the mean latest actions. *)
Lemma tableD_latest_order_counterexample :
  exists a b,
    snd (computeAggregatedMetrics
           [processOne codePointCompare "insp-6" sampleHeatmap]) = [a; b] /\
    (d_simulatedCamera (d_row a), d_simulatedCamera (d_row b)) =
      ("Rear", "Front") /\
    (d_avgLatestActions a == 5 /\ d_avgLatestActions b == 100)%Q /\
    (d_avgLatestActions a < d_avgLatestActions b)%Q /\
    (d_avgActionsPerImage b < d_avgActionsPerImage a)%Q.
Proof.
  do 2 eexists. split; [vm_compute; reflexivity|].
  repeat split; vm_compute; reflexivity.
Qed.

(** The cards of the end-to-end scenario carry 1 and 2 actions. *)
Lemma sampleEndToEnd_cardsNonneg : cardsNonneg [sampleEndToEndProcessed].
Proof.
  intros insp comp [<-|[]] Hin.
  assert (Hg : exists g, pi_comparisons sampleEndToEndProcessed = [g] /\
                         m_actions (g_metadata g) = [Some 1; Some 2; None])
    by (eexists; split; vm_compute; reflexivity).
  destruct Hg as (g & Hg & Ha). rewrite Hg in Hin.
  destruct Hin as [<-|[]]. unfold actionsNonneg. rewrite Ha.
  intros [|[|[|i]]] n; cbn [nth_error]; try discriminate;
    try (intros [= <-]; lia).
  destruct i; discriminate.
Qed.

Lemma percent_change_policy_witness :
  (a_avgPreviousActions (tableARow 0 sampleEndToEndProcessed) == 1)%Q /\
  (a_avgLatestActions (tableARow 0 sampleEndToEndProcessed) == 2)%Q /\
  (a_actionsPercentChange (tableARow 0 sampleEndToEndProcessed) == 100)%Q /\
  (0 <= a_avgLatestActions (tableARow 0 sampleEndToEndProcessed))%Q.
Proof.
  destruct percent_change_policy as (HA & _ & HN & _).
  destruct (HA [sampleEndToEndProcessed] (tableARow 0 sampleEndToEndProcessed)
              (or_introl eq_refl)) as (H1 & _ & _).
  destruct (HN [sampleEndToEndProcessed] sampleEndToEnd_cardsNonneg)
    as [HNA _].
  destruct (HNA (tableARow 0 sampleEndToEndProcessed) (or_introl eq_refl))
    as (_ & H2 & _).
  split; [reflexivity|]. split; [reflexivity|].
  split; [rewrite H1; reflexivity|exact H2].
Defined.

(** C8, the claim as stated does not hold: a card with a negative action
    count gives a previous mean of 0 and a latest mean of -2, which is
    not 0, and the percent change of the row is 0, not 100. *)
Lemma percent_change_negative_counterexample :
  exists row,
    fst (computeAggregatedMetrics
           [processOne codePointCompare "insp-9" sampleNegative]) = [row] /\
    (a_avgPreviousActions row == 0)%Q /\
    (a_avgLatestActions row == -2)%Q /\
    ~ (a_avgLatestActions row == 0)%Q /\
    (a_actionsPercentChange row == 0)%Q /\
    ~ (a_actionsPercentChange row == 100)%Q.
Proof.
  eexists. split; [vm_compute; reflexivity|].
  split; [vm_compute; reflexivity|]. split; [vm_compute; reflexivity|].
  split; [vm_compute; discriminate|]. split; [vm_compute; reflexivity|].
  vm_compute; discriminate.
Qed.

(** ** Alignment validator *)

Lemma countSlot_fold (l : list (option RenditionDatum)) (p g : Z) :
  fst (fold_left countSlot l (p, g)) =
  p + Z.of_nat (List.length (filter slotPublished l)).
Proof.
  revert p g. induction l as [|d l IH]; intros p g; simpl; [lia|].
  destruct d as [d|]; cbn [countSlot slotPublished]; [|apply IH].
  destruct (truthyOpt (rd_activeImage d)), (rd_isActive d);
    cbn [negb andb]; rewrite IH; cbn [List.length]; lia.
Qed.

Lemma countCards_published (comparisons : list Group) :
  fst (countCards comparisons) =
  Z.of_nat (List.length (filter slotPublished (cardSlots comparisons))).
Proof.
  unfold countCards, cardSlots.
  assert (H : forall l p g,
             fst (fold_left
                    (fun counts comp =>
                       fold_left countSlot
                         (firstn 2 (m_renditionData (g_metadata comp))) counts)
                    l (p, g)) =
             p + Z.of_nat
                   (List.length
                      (filter slotPublished
                         (flat_map
                            (fun comp =>
                               firstn 2 (m_renditionData (g_metadata comp)))
                            l)))).
  { induction l as [|c l IH]; intros p g; cbn [fold_left flat_map]; [simpl; lia|].
    destruct (fold_left countSlot
                (firstn 2 (m_renditionData (g_metadata c))) (p, g))
      as [p' g'] eqn:E.
    rewrite IH, filter_app, length_app, Nat2Z.inj_add.
    pose proof (countSlot_fold
                  (firstn 2 (m_renditionData (g_metadata c))) p g) as Hc.
    rewrite E in Hc. cbn [fst] in Hc. lia. }
  rewrite (H comparisons 0 0). lia.
Qed.

Lemma validateInspection_mismatches (v : Validation) (idx : nat)
    (insp : ProcessedInspection) :
  mismatches (validateInspection v idx insp) =
  if Z.eqb (Z.of_nat (List.length (publishedUvpaintOf insp)))
       (fst (countCards (pi_comparisons insp)))
  then mismatches v
  else (mismatches v ++ [mismatchOf idx insp])%list.
Proof.
  unfold validateInspection, mismatchOf.
  destruct (countCards (pi_comparisons insp)) as [p g]. cbn [fst snd mismatches].
  destruct (Z.eqb_spec (Z.of_nat (List.length (publishedUvpaintOf insp))) p)
    as [E|N];
    destruct (Z.ltb_spec 0
                (Z.abs (Z.of_nat (List.length (publishedUvpaintOf insp)) - p)));
    try reflexivity; lia.
Qed.

Lemma validateFrom_mismatches (pis : list ProcessedInspection) (idx : nat)
    (v : Validation) (m : Mismatch) :
  In m (mismatches (validateFrom idx pis v)) <->
  In m (mismatches v) \/
  exists i insp,
    nth_error pis i = Some insp /\
    Z.of_nat (List.length (publishedUvpaintOf insp)) <>
      fst (countCards (pi_comparisons insp)) /\
    m = mismatchOf (idx + i) insp.
Proof.
  revert idx v. induction pis as [|insp pis IH]; intros idx v; simpl.
  - split; [tauto|]. intros [H|(i & x & H & _)]; [exact H|].
    destruct i; discriminate.
  - rewrite IH, validateInspection_mismatches.
    destruct (Z.eqb_spec (Z.of_nat (List.length (publishedUvpaintOf insp)))
                (fst (countCards (pi_comparisons insp)))) as [E|N].
    + split.
      * intros [H|(i & x & Hn & Hd & ->)]; [tauto|].
        right. exists (S i), x. rewrite Nat.add_succ_r. tauto.
      * intros [H|(i & x & Hn & Hd & ->)]; [tauto|].
        destruct i as [|i]; simpl in Hn.
        -- injection Hn as <-. contradiction.
        -- right. exists i, x. rewrite Nat.add_succ_r. tauto.
    + rewrite in_app_iff. split.
      * intros [[H|[<-|[]]]|(i & x & Hn & Hd & ->)]; [tauto| |].
        -- right. exists 0%nat, insp. rewrite Nat.add_0_r. tauto.
        -- right. exists (S i), x. rewrite Nat.add_succ_r. tauto.
      * intros [H|(i & x & Hn & Hd & ->)]; [tauto|].
        destruct i as [|i]; simpl in Hn.
        -- injection Hn as <-. left. right. left.
           now rewrite Nat.add_0_r.
        -- right. exists i, x. rewrite Nat.add_succ_r. tauto.
Qed.

(** * Further properties of the pipeline *)

Lemma append_cancel (s a b : string) : s ++ a = s ++ b -> a = b.
Proof.
  induction s as [|c s IH]; simpl; [tauto|]. intros [= H]. now apply IH.
Qed.

Lemma NoDup_map_injective {A B : Type} (f : A -> B) (l : list A) :
  (forall a b, f a = f b -> a = b) -> NoDup l -> NoDup (map f l).
Proof.
  intros Hinj. induction 1 as [|x l Hnotin Hnd IH]; simpl; constructor;
    [|exact IH].
  intros Hin. apply in_map_iff in Hin. destruct Hin as (y & Hy & Hin).
  apply Hinj in Hy. now subst.
Qed.

Lemma buildGroups_keys (id : string) (originals : OriginalsByCamSide)
    (rows : RowsByKey) :
  NoDup (map fst rows) ->
  NoDup (map (fun g => m_groupKey (g_metadata g))
           (buildGroups id originals rows)).
Proof.
  induction rows as [|[k row] rows IH]; cbn [buildGroups map fst];
    [constructor|].
  intros Hnd. inversion Hnd as [|? ? Hnotin Hnd']; subst.
  destruct (buildGroup id originals (k, row)) as [g|] eqn:E; [|now apply IH].
  cbn [map]. constructor; [|now apply IH].
  rewrite (buildGroup_key _ _ _ _ _ E). intros Hin.
  apply in_map_iff in Hin. destruct Hin as (g' & Hk & Hin).
  apply buildGroups_In in Hin. destruct Hin as ([k' row'] & Hin & Hb).
  rewrite (buildGroup_key _ _ _ _ _ Hb) in Hk. subst k'.
  apply Hnotin. now apply (in_map fst) in Hin.
Qed.

Lemma buildGroup_id (id : string) (originals : OriginalsByCamSide)
    (key : string) (row : Row) (g : Group) :
  buildGroup id originals (key, row) = Some g ->
  g_id g = id ++ "_" ++ key /\ m_inspectionId (g_metadata g) = id.
Proof.
  unfold buildGroup. destruct (renditionNumsOf row); [discriminate|].
  intros [= <-]. split; reflexivity.
Qed.

(** X1.  The groups of an inspection have pairwise distinct group keys
    and pairwise distinct ids, and every id is the inspection id, an
    underscore and the group key. *)
Theorem group_ids_unique (localeCompare : string -> string -> Z)
    (insp : Inspection) :
  let groups := processInspectionData localeCompare insp in
  NoDup (map (fun g => m_groupKey (g_metadata g)) groups) /\
  NoDup (map g_id groups) /\
  forall g, In g groups ->
    g_id g = inspectionId insp ++ "_" ++ m_groupKey (g_metadata g) /\
    m_inspectionId (g_metadata g) = inspectionId insp.
Proof.
  cbv zeta.
  assert (Hids : forall g, In g (processInspectionData localeCompare insp) ->
            g_id g = inspectionId insp ++ "_" ++ m_groupKey (g_metadata g) /\
            m_inspectionId (g_metadata g) = inspectionId insp).
  { intros g Hin. apply processInspectionData_In in Hin.
    destruct Hin as (d & [k row] & _ & _ & Hb).
    rewrite (buildGroup_key _ _ _ _ _ Hb). now apply buildGroup_id in Hb. }
  assert (Hkeys : NoDup (map (fun g => m_groupKey (g_metadata g))
                           (processInspectionData localeCompare insp))).
  { unfold processInspectionData. destruct (uvpaintData insp) as [d|];
      [|constructor].
    eapply Permutation_NoDup.
    - apply Permutation_map. symmetry. apply stableSort_perm.
    - apply buildGroups_keys. apply collectRows_wf. }
  split; [exact Hkeys|]. split; [|exact Hids].
  rewrite (map_ext_in g_id
             (fun g => inspectionId insp ++ "_" ++ m_groupKey (g_metadata g)))
    by (intros g Hg; now apply Hids).
  rewrite <- (map_map (fun g => m_groupKey (g_metadata g))
                (fun k => inspectionId insp ++ "_" ++ k)).
  apply NoDup_map_injective; [|exact Hkeys].
  intros a b H. apply append_cancel in H. now apply append_cancel in H.
Qed.

Lemma relevantEntry_collect (src : string) (dflt : Z) (rows : RowsByKey)
    (img : RawImageEntry) :
  relevantEntry img = false -> collectImage src dflt rows img = rows.
Proof.
  unfold relevantEntry, collectImage.
  destruct (isArtemis (imageType img)); [reflexivity|].
  destruct (pov img); [|reflexivity]. now intros ->.
Qed.

Lemma relevantEntry_original (src : string) (originals : OriginalsByCamSide)
    (img : RawImageEntry) :
  relevantEntry img = false -> considerOriginal src originals img = originals.
Proof.
  unfold relevantEntry, considerOriginal, isAllowedType.
  destruct (pov img); [|reflexivity].
  destruct (isSlimOverview (imageType img)); [discriminate|reflexivity].
Qed.

Lemma fold_left_filter {A B : Type} (f : A -> B -> A) (keep : B -> bool)
    (l : list B) (a : A) :
  (forall a x, keep x = false -> f a x = a) ->
  fold_left f (filter keep l) a = fold_left f l a.
Proof.
  intros H. revert a. induction l as [|x l IH]; intros a; simpl; [reflexivity|].
  destruct (keep x) eqn:E; simpl; [apply IH|].
  rewrite (H a x E). apply IH.
Qed.

(** X2.  Entries without POV and entries whose image type is not allowed
    (among them the types [Artemis] and [UV360]) have no effect at all:
    the groups of an inspection are those of the inspection without these
    entries. *)
Theorem irrelevant_entries_ignored (localeCompare : string -> string -> Z)
    (insp : Inspection) :
  processInspectionData localeCompare (dropIrrelevant insp) =
  processInspectionData localeCompare insp /\
  (forall img,
     relevantEntry img = false <->
     pov img = None \/ bucketTypeOf (imageType img) = None) /\
  (forall img, isArtemis (imageType img) = true -> relevantEntry img = false) /\
  bucketTypeOf (JStr "UV360") = None.
Proof.
  split; [|split; [|split; [|reflexivity]]].
  2:{ intros img. unfold relevantEntry, isAllowedType, bucketTypeOf.
      destruct (pov img); [|split; [now left|reflexivity]].
      destruct (isSlimOverview (imageType img)), (isZoomer (imageType img));
        simpl; split; try discriminate; try tauto;
        intros [H|H]; discriminate. }
  2:{ intros img. unfold relevantEntry, isArtemis.
      destruct (imageType img) as [| |s]; try discriminate.
      destruct (String.eqb_spec s "Artemis") as [->|]; [|discriminate].
      intros _. destruct (pov img); reflexivity. }
  unfold processInspectionData, dropIrrelevant. simpl.
  destruct (uvpaintData insp) as [d|]; [|reflexivity].
  assert (Hrows : collectRows
                    {| images := filter relevantEntry (images d);
                       uvpaintHistoryImages :=
                         filter relevantEntry (uvpaintHistoryImages d) |} =
                  collectRows d).
  { unfold collectRows. cbn [images uvpaintHistoryImages].
    rewrite !fold_left_filter; [reflexivity| |];
      intros; now apply relevantEntry_collect. }
  assert (Horig : buildOriginals
                    {| images := filter relevantEntry (images d);
                       uvpaintHistoryImages :=
                         filter relevantEntry (uvpaintHistoryImages d) |} =
                  buildOriginals d).
  { unfold buildOriginals. cbn [images uvpaintHistoryImages].
    rewrite !fold_left_filter; [reflexivity| |];
      intros; now apply relevantEntry_original. }
  now rewrite Hrows, Horig.
Qed.

Lemma bucketOf_In (k : string) (r : Z) (l : list TaggedEntry) (c : Candidate) :
  In c (bucketOf k r l) <->
  exists t, In t l /\ extracted t = Some (k, r, c).
Proof.
  unfold bucketOf. rewrite in_flat_map. split.
  - intros (t & Hin & Hc). exists t. split; [exact Hin|].
    unfold candidateFor in Hc.
    destruct (extracted t) as [[[k' r'] c']|]; [|destruct Hc].
    destruct (String.eqb_spec k' k) as [->|]; [|destruct Hc].
    destruct (Z.eqb_spec r' r) as [->|]; [|destruct Hc].
    destruct Hc as [->|[]]. reflexivity.
  - intros (t & Hin & Hex). exists t. split; [exact Hin|].
    unfold candidateFor. rewrite Hex, String.eqb_refl, Z.eqb_refl. now left.
Qed.

(** Every candidate of a row was extracted from an entry of the input. *)
Lemma candidate_origin (d : UvpaintData) (k : string) (row : Row) (r : Z)
    (c : Candidate) :
  lookup String.eqb k (collectRows d) = Some row ->
  In c (renditionsAt r row) ->
  exists t, In t (entriesOf d) /\ extracted t = Some (k, r, c).
Proof.
  intros Hrow Hin. rewrite (collectRows_bucket d k r row Hrow) in Hin.
  now apply bucketOf_In.
Qed.

Lemma entriesOf_In (d : UvpaintData) (src : string) (dflt : Z)
    (img : RawImageEntry) :
  In (src, dflt, img) (entriesOf d) <->
  (src = "images" /\ dflt = 3 /\ In img (images d)) \/
  (src = "uvpaintHistoryImages" /\ dflt = 1 /\ In img (uvpaintHistoryImages d)).
Proof.
  unfold entriesOf. rewrite in_app_iff, !in_map_iff. split.
  - intros [(x & [= <- <- <-] & H)|(x & [= <- <- <-] & H)]; tauto.
  - intros [(-> & -> & H)|(-> & -> & H)]; [left|right]; exists img; tauto.
Qed.

Lemma extracted_fields (src : string) (dflt : Z) (img : RawImageEntry)
    (k : string) (r : Z) (c : Candidate) :
  extracted (src, dflt, img) = Some (k, r, c) ->
  isArtemis (imageType img) = false /\
  pov img = Some (c_pov c) /\
  bucketTypeOf (imageType img) = Some (c_bucketType c) /\
  k = createPOVKey (c_bucketType c) (c_pov c) /\
  finiteNumber (renditionOr (rendition img) dflt) = Some r /\
  c_activeImage c = safeUrl (activeImage img) /\
  c_image c = safeUrl (activeImage img) /\
  c_isActive c = isActive img /\
  c_actions c = sumActionMap (actionsCounterMap img) /\
  c_originalImage c = safeUrlOpt (pickOriginalUrl img) /\
  c_source c = (if nonEmpty src then src else "N/A").
Proof.
  unfold extracted.
  destruct (isArtemis (imageType img)); [discriminate|].
  destruct (pov img) as [p|]; [|discriminate].
  destruct (bucketTypeOf (imageType img)) as [bt|]; [|discriminate].
  destruct (finiteNumber (renditionOr (rendition img) dflt)) as [rn|];
    [|discriminate].
  intros [= <- <- <-]. repeat split; reflexivity.
Qed.

Lemma safeUrl_trimmed (v : jsval) (u : string) :
  safeUrl v = Some u -> nonEmpty u = true /\ trim u = u.
Proof.
  destruct v as [| |s]; simpl; try discriminate.
  destruct (nonEmpty (trim s)) eqn:E; [|discriminate].
  intros [= <-]. split; [exact E|apply trim_idem].
Qed.

Lemma safeUrlOpt_safeUrl (v : jsval) : safeUrlOpt (safeUrl v) = safeUrl v.
Proof.
  destruct (safeUrl v) as [u|] eqn:E; [|reflexivity].
  cbn [safeUrlOpt]. now destruct (safeUrl_fixed v u E) as [_ ->].
Qed.

Lemma safeUrlOpt_trimmed (o : option string) (u : string) :
  safeUrlOpt o = Some u -> nonEmpty u = true /\ trim u = u.
Proof.
  destruct o as [s|]; [|discriminate]. apply safeUrl_trimmed.
Qed.

(** The candidate picked for a slot of a group, with the entry it was
    extracted from. *)
Lemma picked_origin (d : UvpaintData) (k : string) (row : Row) (r : Z)
    (c : Candidate) :
  lookup String.eqb k (collectRows d) = Some row ->
  pickBestAt row r = Some c ->
  exists src dflt img,
    In (src, dflt, img) (entriesOf d) /\
    extracted (src, dflt, img) = Some (k, r, c).
Proof.
  intros Hrow Hp. apply pickBestAt_In in Hp.
  destruct (candidate_origin d k row r c Hrow Hp) as ([[src dflt] img] & H).
  exists src, dflt, img. exact H.
Qed.

Lemma picked_image (d : UvpaintData) (k : string) (row : Row) (r : Z)
    (c : Candidate) :
  lookup String.eqb k (collectRows d) = Some row ->
  pickBestAt row r = Some c ->
  safeUrlOpt (c_image c) = c_activeImage c.
Proof.
  intros Hrow Hp.
  destruct (picked_origin d k row r c Hrow Hp) as (src & dflt & img & _ & Hex).
  apply extracted_fields in Hex.
  destruct Hex as (_ & _ & _ & _ & _ & Ha & Hi & _).
  rewrite Hi, Ha. apply safeUrlOpt_safeUrl.
Qed.

(** X3.  In every group the URL shown in the Previous and in the Latest
    slot is the active image recorded for that slot in [renditionData];
    every URL of the three slots is non-empty and trimmed; and a published
    group shows an image in a slot whose candidate is published. *)
Theorem slot_images_consistent (localeCompare : string -> string -> Z)
    (insp : Inspection) (g : Group) :
  In g (processInspectionData localeCompare insp) ->
  (forall i, (i < 2)%nat ->
     nth_error (g_images g) i =
     Some match nth_error (m_renditionData (g_metadata g)) i with
          | Some (Some d) => rd_activeImage d
          | _ => None
          end) /\
  (forall i u, nth_error (g_images g) i = Some (Some u) ->
     nonEmpty u = true /\ trim u = u) /\
  (m_published (g_metadata g) = true ->
   exists i u d,
     (i < 2)%nat /\
     nth_error (g_images g) i = Some (Some u) /\
     nth_error (m_renditionData (g_metadata g)) i = Some (Some d) /\
     rd_isActive d = true /\ rd_activeImage d = Some u).
Proof.
  intros Hin. apply processInspectionData_In in Hin.
  destruct Hin as (d & [key row] & Hd & Hin & Hb).
  destruct (collectRows_wf d) as [Hnd _].
  pose proof (In_lookup String.eqb_spec Hnd Hin) as Hrow.
  destruct (renditionNumsOf row) as [|latestR rest] eqn:E;
    [unfold buildGroup in Hb; rewrite E in Hb; discriminate|].
  destruct (buildGroup_published _ _ _ _ _ _ _ E Hb) as [Hrd Hpub].
  assert (Himg : exists original,
             g_images g =
             [ safeUrlOpt (bind (bind (hd_error rest) (pickBestAt row)) c_image);
               safeUrlOpt (bind (pickBestAt row latestR) c_image);
               safeUrlOpt original ]).
  { unfold buildGroup in Hb. rewrite E in Hb. injection Hb as <-.
    open_group. eexists. reflexivity. }
  destruct Himg as (original & Himg).
  assert (Hprev : safeUrlOpt (bind (bind (hd_error rest) (pickBestAt row)) c_image)
                  = match bind (hd_error rest) (pickBestAt row) with
                    | Some c => c_activeImage c
                    | None => None
                    end).
  { destruct (hd_error rest) as [p|]; [|reflexivity]. cbn [bind].
    destruct (pickBestAt row p) as [c|] eqn:Ep; [|reflexivity].
    cbn [bind]. exact (picked_image d key row p c Hrow Ep). }
  assert (Hlat : safeUrlOpt (bind (pickBestAt row latestR) c_image)
                 = match pickBestAt row latestR with
                   | Some c => c_activeImage c
                   | None => None
                   end).
  { destruct (pickBestAt row latestR) as [c|] eqn:Ep; [|reflexivity].
    cbn [bind]. exact (picked_image d key row latestR c Hrow Ep). }
  assert (H1 : forall i, (i < 2)%nat ->
             nth_error (g_images g) i =
             Some match nth_error (m_renditionData (g_metadata g)) i with
                  | Some (Some d) => rd_activeImage d
                  | _ => None
                  end).
  { intros i Hi. rewrite Himg, Hrd.
    destruct i as [|[|i]]; [| |lia]; cbn [nth_error].
    - rewrite Hprev.
      destruct (bind (hd_error rest) (pickBestAt row)); reflexivity.
    - rewrite Hlat. destruct (pickBestAt row latestR); reflexivity. }
  split; [exact H1|]. split.
  - intros i u Hu. rewrite Himg in Hu.
    destruct i as [|[|[|i]]]; cbn [nth_error] in Hu;
      try (injection Hu as Hu; now apply safeUrlOpt_trimmed in Hu).
    destruct i; discriminate.
  - intros Hp. apply Hpub in Hp. destruct Hp as (c & Hc & Ha & Ht).
    destruct (c_activeImage c) as [u|] eqn:Eu; [|discriminate].
    destruct Hc as [Hc|Hc].
    + exists 0%nat, u, (datumOf c). split; [lia|].
      rewrite (H1 0%nat) by lia. rewrite Hrd. cbn [nth_error]. rewrite Hc.
      cbn [option_map datumOf rd_activeImage rd_isActive]. rewrite Eu.
      repeat split; assumption.
    + exists 1%nat, u, (datumOf c). split; [lia|].
      rewrite (H1 1%nat) by lia. rewrite Hrd. cbn [nth_error]. rewrite Hc.
      cbn [option_map datumOf rd_activeImage rd_isActive]. rewrite Eu.
      repeat split; assumption.
Qed.

Lemma slot_images_consistent_witness :
  exists g,
    In g (processInspectionData codePointCompare sampleEndToEnd) /\
    nth_error (g_images g) 1 = Some (Some "u1") /\
    m_published (g_metadata g) = true.
Proof.
  assert (Hg : exists g, processInspectionData codePointCompare sampleEndToEnd
                         = [g]) by (eexists; reflexivity).
  destruct Hg as (g & Hg).
  assert (Hin : In g (processInspectionData codePointCompare sampleEndToEnd))
    by (rewrite Hg; now left).
  destruct (slot_images_consistent codePointCompare sampleEndToEnd g Hin)
    as (H1 & _ & _).
  exists g. split; [exact Hin|]. rewrite (H1 1%nat) by lia.
  vm_compute in Hg. injection Hg as <-. split; reflexivity.
Defined.

Lemma pickBestAt_Some (row : Row) (r : Z) :
  rowWf row -> In r (map fst (r_renditions row)) ->
  exists c, pickBestAt row r = Some c.
Proof.
  intros Hwf Hin.
  destruct (pickBestAt_first_best row r (renditionsAt_nonempty row r Hwf Hin))
    as (c & _ & _ & Hp & _).
  now exists c.
Qed.

(** X4.  Every group has exactly three entries in each of its slot
    arrays, the third rendition datum and the third action count being
    empty.  Its Latest slot always holds a candidate, with a rendition
    number and an action count.  Its Previous slot holds a candidate
    exactly when the group has two rendition numbers or more, and then the
    Previous rendition number is smaller than the Latest one. *)
Theorem group_slot_shape (localeCompare : string -> string -> Z)
    (insp : Inspection) (g : Group) :
  In g (processInspectionData localeCompare insp) ->
  let md := g_metadata g in
  (List.length (g_images g) = 3 /\ List.length (m_renditions md) = 3 /\
   List.length (m_statuses md) = 3 /\ List.length (m_sources md) = 3 /\
   List.length (m_actions md) = 3 /\ List.length (m_cardInfo md) = 3 /\
   List.length (m_renditionData md) = 3)%nat /\
  nth_error (m_renditionData md) 2 = Some None /\
  nth_error (m_actions md) 2 = Some None /\
  (exists latestR datum n card,
     nth_error (m_renditions md) 1 = Some (Some (RNum latestR)) /\
     nth_error (m_renditionData md) 1 = Some (Some datum) /\
     nth_error (m_actions md) 1 = Some (Some n) /\
     nth_error (m_cardInfo md) 1 = Some (Some card) /\
     (1 <= m_totalVersions md)%nat /\
     match nth_error (m_renditions md) 0 with
     | Some (Some (RNum prevR)) =>
         prevR < latestR /\ (2 <= m_totalVersions md)%nat /\
         exists datum0 n0,
           nth_error (m_renditionData md) 0 = Some (Some datum0) /\
           nth_error (m_actions md) 0 = Some (Some n0)
     | Some None =>
         m_totalVersions md = 1%nat /\
         nth_error (m_renditionData md) 0 = Some None /\
         nth_error (m_actions md) 0 = Some None /\
         nth_error (g_images g) 0 = Some None
     | _ => False
     end).
Proof.
  intros Hin md. subst md. apply processInspectionData_In in Hin.
  destruct Hin as (d & [key row] & Hd & Hin & Hb).
  destruct (collectRows_wf d) as [Hnd Hall].
  pose proof (Hall key row Hin) as Hwf.
  destruct (renditionNumsOf row) as [|latestR rest] eqn:E;
    [unfold buildGroup in Hb; rewrite E in Hb; discriminate|].
  destruct (renditionNumsOf_top row latestR rest Hwf E) as (Ht1 & _ & Ht3).
  destruct (pickBestAt_Some row latestR Hwf Ht1) as (cl & Hcl).
  unfold buildGroup in Hb. rewrite E in Hb. injection Hb as <-.
  open_group. cbn [List.length].
  split; [repeat split; reflexivity|].
  split; [reflexivity|]. split; [reflexivity|].
  rewrite Hcl. cbn [option_map].
  exists latestR, (datumOf cl), (c_actions cl), (cardInfoOfCandidate cl).
  split; [reflexivity|]. split; [reflexivity|]. split; [reflexivity|].
  split; [reflexivity|]. split; [lia|].
  destruct rest as [|p rest']; cbn [hd_error option_map bind].
  - repeat split; reflexivity.
  - cbn [hd_error] in Ht3. destruct Ht3 as (Hp & Hlt & _).
    destruct (pickBestAt_Some row p Hwf Hp) as (cp & Hcp).
    rewrite Hcp. cbn [option_map List.length].
    split; [exact Hlt|]. split; [lia|].
    exists (datumOf cp), (c_actions cp). split; reflexivity.
Qed.

Lemma group_slot_shape_witness :
  exists g,
    In g (processInspectionData codePointCompare sampleEndToEnd) /\
    List.length (g_images g) = 3%nat /\
    nth_error (m_renditionData (g_metadata g)) 2 = Some None.
Proof.
  assert (Hg : exists g, processInspectionData codePointCompare sampleEndToEnd
                         = [g]) by (eexists; reflexivity).
  destruct Hg as (g & Hg).
  assert (Hin : In g (processInspectionData codePointCompare sampleEndToEnd))
    by (rewrite Hg; now left).
  destruct (group_slot_shape codePointCompare sampleEndToEnd g Hin)
    as ((H1 & _) & H2 & _).
  exists g. repeat split; assumption.
Defined.

(** ** Sanitizers and normalization *)

Lemma safeUrl_orEmpty (v : jsval) :
  safeUrl v =
  if nonEmpty (trim (orEmpty v)) then Some (trim (orEmpty v)) else None.
Proof. destruct v; reflexivity. Qed.

Lemma safeUrlOpt_pick (img : RawImageEntry) :
  safeUrlOpt (pickOriginalUrl img) = pickOriginalUrl img.
Proof.
  unfold pickOriginalUrl.
  destruct (find _ _) as [u|] eqn:E; [|reflexivity].
  apply find_some in E. destruct E as [_ E].
  cbn [safeUrlOpt safeUrl]. now rewrite trim_idem, E.
Qed.

(** X5.  [pickOriginalUrl] returns the first of the four original-image
    fields, in their fixed order, that [safeUrl] accepts, and nothing when
    [safeUrl] accepts none.  The URL the original-image index resolves for
    an entry is this same URL, and so is the [originalImage] of the
    candidate extracted from that entry. *)
Theorem original_url_resolution :
  (forall img,
     pickOriginalUrl img =
     match safeUrl (originalImage img) with
     | Some u => Some u
     | None =>
         match safeUrl (originalImageUrl img) with
         | Some u => Some u
         | None =>
             match safeUrl (originalImageWithBackground img) with
             | Some u => Some u
             | None => safeUrl (originalImageWithoutBackground img)
             end
         end
     end) /\
  (forall img, resolveOriginalUrl img = pickOriginalUrl img) /\
  (forall src dflt img k r c,
     extracted (src, dflt, img) = Some (k, r, c) ->
     c_originalImage c = resolveOriginalUrl img).
Proof.
  assert (H1 : forall img,
             pickOriginalUrl img =
             match safeUrl (originalImage img) with
             | Some u => Some u
             | None =>
                 match safeUrl (originalImageUrl img) with
                 | Some u => Some u
                 | None =>
                     match safeUrl (originalImageWithBackground img) with
                     | Some u => Some u
                     | None => safeUrl (originalImageWithoutBackground img)
                     end
                 end
             end).
  { intros img. unfold pickOriginalUrl. rewrite !safeUrl_orEmpty.
    cbn [find].
    destruct (nonEmpty (trim (orEmpty (originalImage img)))); [reflexivity|].
    destruct (nonEmpty (trim (orEmpty (originalImageUrl img)))); [reflexivity|].
    destruct (nonEmpty (trim (orEmpty (originalImageWithBackground img))));
      [reflexivity|].
    destruct (nonEmpty (trim (orEmpty (originalImageWithoutBackground img))));
      reflexivity. }
  assert (H2 : forall img, resolveOriginalUrl img = pickOriginalUrl img).
  { intros img. unfold resolveOriginalUrl. rewrite safeUrlOpt_pick.
    rewrite (H1 img). destruct (safeUrl (originalImage img)); reflexivity. }
  split; [exact H1|]. split; [exact H2|].
  intros src dflt img k r c Hex. apply extracted_fields in Hex.
  destruct Hex as (_ & _ & _ & _ & _ & _ & _ & _ & _ & Ho & _).
  now rewrite Ho, safeUrlOpt_pick, H2.
Qed.

Lemma original_url_resolution_witness :
  exists k r c,
    extracted ("images", 3,
               sampleEntry "SlimOverview" frontLeft NumAbsent JUndefined
                 false (JStr " og.png ") None) = Some (k, r, c) /\
    c_originalImage c = Some "og.png".
Proof.
  assert (E : exists k r c,
             extracted ("images", 3,
                        sampleEntry "SlimOverview" frontLeft NumAbsent
                          JUndefined false (JStr " og.png ") None)
             = Some (k, r, c)) by (do 3 eexists; reflexivity).
  destruct E as (k & r & c & E). exists k, r, c. split; [exact E|].
  destruct original_url_resolution as (_ & _ & H3).
  rewrite (H3 _ _ _ _ _ _ E). reflexivity.
Defined.

Lemma safeText_cases (o : option string) :
  safeText o = "N/A" \/
  exists s, o = Some s /\ nonEmpty (trim s) = true /\ safeText o = trim s.
Proof.
  destruct o as [s|]; [|now left]. simpl.
  destruct (nonEmpty (trim s)) eqn:E; [|now left].
  right. exists s. tauto.
Qed.

(** X6.  [safeUrl] returns either nothing, exactly when the value is not
    a string or is blank, or a non-empty string without white space at its
    ends, which [safeUrl] returns unchanged.  [safeText] never returns an
    empty or untrimmed text and returns its own results unchanged. *)
Theorem sanitizers_idempotent :
  (forall v u, safeUrl v = Some u ->
     nonEmpty u = true /\ trim u = u /\ u = trim (orEmpty v) /\
     safeUrl (JStr u) = Some u) /\
  (forall v, safeUrl v = None <-> trim (orEmpty v) = "") /\
  (forall o, nonEmpty (safeText o) = true /\
             trim (safeText o) = safeText o /\
             safeText (Some (safeText o)) = safeText o) /\
  safeText None = "N/A" /\
  (forall s, trim s = "" -> safeText (Some s) = "N/A").
Proof.
  split; [|split; [|split; [|split]]].
  - intros v u H. destruct (safeUrl_trimmed v u H) as [Hn Ht].
    destruct (safeUrl_fixed v u H) as [_ Hf].
    rewrite safeUrl_orEmpty in H.
    destruct (nonEmpty (trim (orEmpty v))); [|discriminate].
    injection H as <-. tauto.
  - intros v. rewrite safeUrl_orEmpty.
    destruct (trim (orEmpty v)); simpl; split; congruence || discriminate.
  - intros o.
    assert (H : nonEmpty (safeText o) = true /\ trim (safeText o) = safeText o).
    { destruct (safeText_cases o) as [->|(s & -> & Hn & ->)];
        [split; reflexivity|].
      split; [exact Hn|apply trim_idem]. }
    destruct H as [Hn Ht]. split; [exact Hn|]. split; [exact Ht|].
    cbn [safeText]. now rewrite Ht, Hn.
  - reflexivity.
  - intros s H. simpl. now rewrite H.
Qed.

Lemma sanitizers_idempotent_witness :
  safeUrl (JStr "  a.png ") = Some "a.png" /\
  safeUrl (JStr "a.png") = Some "a.png" /\
  safeUrl (JStr "   ") = None.
Proof.
  destruct sanitizers_idempotent as (H1 & H2 & _).
  destruct (H1 (JStr "  a.png ") "a.png" eq_refl) as (_ & _ & _ & Hf).
  split; [reflexivity|]. split; [exact Hf|].
  apply H2. reflexivity.
Defined.

Lemma lower_ascii_idem (c : ascii) : lower_ascii (lower_ascii c) = lower_ascii c.
Proof. destruct c as [[] [] [] [] [] [] [] []]; reflexivity. Qed.

Lemma is_space_lower (c : ascii) : is_space (lower_ascii c) = is_space c.
Proof. destruct c as [[] [] [] [] [] [] [] []]; reflexivity. Qed.

Lemma toLowerCase_idem (s : string) : toLowerCase (toLowerCase s) = toLowerCase s.
Proof.
  induction s as [|c s IH]; simpl; [reflexivity|].
  now rewrite lower_ascii_idem, IH.
Qed.

Lemma nonEmpty_lower (s : string) : nonEmpty (toLowerCase s) = nonEmpty s.
Proof. destruct s; reflexivity. Qed.

Lemma trimStart_lower (s : string) :
  trimStart (toLowerCase s) = toLowerCase (trimStart s).
Proof.
  induction s as [|c s IH]; simpl; [reflexivity|].
  rewrite is_space_lower. destruct (is_space c); [exact IH|reflexivity].
Qed.

Lemma trimEnd_lower (s : string) :
  trimEnd (toLowerCase s) = toLowerCase (trimEnd s).
Proof.
  induction s as [|c s IH]; simpl; [reflexivity|].
  rewrite is_space_lower, IH, nonEmpty_lower.
  destruct (is_space c && negb (nonEmpty (trimEnd s)))%bool; reflexivity.
Qed.

Lemma trim_lower (s : string) : trim (toLowerCase s) = toLowerCase (trim s).
Proof. unfold trim. now rewrite trimStart_lower, trimEnd_lower. Qed.

Lemma norm_idem (v : jsval) : norm (JStr (norm v)) = norm v.
Proof.
  unfold norm. cbn [orEmpty].
  now rewrite trim_lower, trim_idem, toLowerCase_idem.
Qed.

Lemma normCam_norm (v : jsval) : normCam (JStr (norm v)) = normCam v.
Proof. unfold normCam. now rewrite norm_idem. Qed.

Lemma normSide_norm (v : jsval) : normSide (JStr (norm v)) = normSide v.
Proof. unfold normSide. now rewrite norm_idem. Qed.

Lemma normCam_idem (v : jsval) (c : string) :
  normCam v = Some c -> normCam (JStr c) = Some c.
Proof.
  destruct (normCam_cases v) as [H|[H|[H|[[H _]|[H _]]]]]; rewrite H;
    intros [= <-]; try reflexivity.
  now rewrite normCam_norm.
Qed.

Lemma normSide_idem (v : jsval) (c : string) :
  normSide v = Some c -> normSide (JStr c) = Some c.
Proof.
  destruct (normSide_cases v) as [H|[H|[H|[[H _]|[H _]]]]]; rewrite H;
    intros [= <-]; try reflexivity.
  now rewrite normSide_norm.
Qed.

Lemma norm_lower (s : string) : norm (JStr (toLowerCase s)) = norm (JStr s).
Proof.
  unfold norm. cbn [orEmpty]. now rewrite trim_lower, toLowerCase_idem.
Qed.

Lemma norm_trim (s : string) : norm (JStr (trim s)) = norm (JStr s).
Proof. unfold norm. cbn [orEmpty]. now rewrite trim_idem. Qed.

(** X7.  Normalization is idempotent and sees neither the case of the
    letters nor the white space around a name: normalizing a normalized
    camera, side or text gives it back, and [normCam], [normSide] and
    [bucketTypeOf] give the same result on a name, on its lower-case form
    and on its trimmed form.  The group key of a POV depends only on the
    bucket type and on the normalized camera and side, not on the serial
    number or on the camera id. *)
Theorem normalization_idempotent :
  (forall v, norm (JStr (norm v)) = norm v) /\
  (forall v, normCam (jsOfOpt (normCam v)) = normCam v) /\
  (forall v, normSide (jsOfOpt (normSide v)) = normSide v) /\
  (forall s,
     normCam (JStr (toLowerCase s)) = normCam (JStr s) /\
     normCam (JStr (trim s)) = normCam (JStr s) /\
     normSide (JStr (toLowerCase s)) = normSide (JStr s) /\
     normSide (JStr (trim s)) = normSide (JStr s) /\
     bucketTypeOf (JStr (toLowerCase s)) = bucketTypeOf (JStr s) /\
     bucketTypeOf (JStr (trim s)) = bucketTypeOf (JStr s)) /\
  (forall bucketType p serial cameraId,
     createPOVKey bucketType
       {| simulatedCamera := jsOfOpt (normCam (simulatedCamera p));
          simulatedCameraSide := jsOfOpt (normSide (simulatedCameraSide p));
          serialNumber := serial;
          originalCameraId := cameraId |} =
     createPOVKey bucketType p).
Proof.
  assert (Hc : forall v, normCam (jsOfOpt (normCam v)) = normCam v).
  { intros v. destruct (normCam v) as [c|] eqn:E; [|reflexivity].
    now apply (normCam_idem v). }
  assert (Hs : forall v, normSide (jsOfOpt (normSide v)) = normSide v).
  { intros v. destruct (normSide v) as [c|] eqn:E; [|reflexivity].
    now apply (normSide_idem v). }
  split; [exact norm_idem|]. split; [exact Hc|]. split; [exact Hs|].
  split.
  - intros s.
    unfold normCam, normSide, bucketTypeOf, isSlimOverview, isZoomer.
    rewrite norm_lower, norm_trim. repeat split; reflexivity.
  - intros bt p serial cameraId. unfold createPOVKey.
    cbn [simulatedCamera simulatedCameraSide]. now rewrite Hc, Hs.
Qed.

Lemma safeUrl_truthy (v : jsval) (u : string) :
  safeUrl v = Some u -> truthy v = true.
Proof.
  destruct v as [| |s]; simpl; try discriminate.
  destruct s; [discriminate|reflexivity].
Qed.

Lemma extracted_published (src : string) (dflt : Z) (img : RawImageEntry)
    (k : string) (r : Z) (c : Candidate) :
  extracted (src, dflt, img) = Some (k, r, c) ->
  candidatePublished c = true -> isPublishedUvpaint img = true.
Proof.
  intros Hex Hp. apply extracted_fields in Hex.
  destruct Hex as (Hart & Hpov & Hbt & _ & _ & Ha & _ & Hi & _).
  unfold candidatePublished in Hp. apply andb_true_iff in Hp.
  destruct Hp as [Hact Himg]. rewrite Hi in Hact. rewrite Ha in Himg.
  destruct (safeUrl (activeImage img)) as [u|] eqn:Eu; [|discriminate].
  unfold isPublishedUvpaint.
  rewrite Hact, (safeUrl_truthy _ _ Eu), Hpov, Hart.
  assert (Hal : isAllowedType (imageType img) = true)
    by (apply bucketTypeOf_allowed; congruence).
  now rewrite Hal.
Qed.

(** The candidates of the Previous and Latest slots of a group, with
    their rendition numbers. *)
Lemma group_slots (lc : string -> string -> Z) (insp : Inspection) (g : Group) :
  In g (processInspectionData lc insp) ->
  exists d row latestR rest,
    uvpaintData insp = Some d /\
    lookup String.eqb (m_groupKey (g_metadata g)) (collectRows d) = Some row /\
    renditionNumsOf row = latestR :: rest /\
    m_renditionData (g_metadata g) =
      [ option_map datumOf (bind (hd_error rest) (pickBestAt row));
        option_map datumOf (pickBestAt row latestR); None ] /\
    m_renditions (g_metadata g) =
      [ option_map RNum (hd_error rest); Some (RNum latestR);
        match nth_error (m_renditions (g_metadata g)) 2 with
        | Some og => og
        | None => None
        end ] /\
    firstn 2 (m_sources (g_metadata g)) =
      [ orElse (option_map c_source (bind (hd_error rest) (pickBestAt row)))
          (match hd_error rest with Some _ => "N/A" | None => "Empty" end);
        orElse (option_map c_source (pickBestAt row latestR)) "N/A" ] /\
    firstn 2 (m_actions (g_metadata g)) =
      [ option_map c_actions (bind (hd_error rest) (pickBestAt row));
        option_map c_actions (pickBestAt row latestR) ].
Proof.
  intros Hin. apply processInspectionData_In in Hin.
  destruct Hin as (d & [key row] & Hd & Hin & Hb).
  destruct (collectRows_wf d) as [Hnd _].
  pose proof (In_lookup String.eqb_spec Hnd Hin) as Hrow.
  rewrite (buildGroup_key _ _ _ _ _ Hb).
  destruct (renditionNumsOf row) as [|latestR rest] eqn:E;
    [unfold buildGroup in Hb; rewrite E in Hb; discriminate|].
  exists d, row, latestR, rest.
  split; [exact Hd|]. split; [exact Hrow|]. split; [exact E|].
  unfold buildGroup in Hb. rewrite E in Hb. injection Hb as <-.
  open_group. cbn [firstn]. repeat split; reflexivity.
Qed.

(** X8.  Every published Previous or Latest slot of a group goes back to
    an entry of the input that satisfies [isPublishedUvpaint]: to an entry
    of [images] when the source of the slot is ["images"], to an entry of
    the history otherwise; its active image is the trimmed active image of
    that entry. *)
Theorem published_slot_origin (localeCompare : string -> string -> Z)
    (insp : Inspection) (g : Group) (i : nat) (datum : RenditionDatum) :
  In g (processInspectionData localeCompare insp) ->
  (i < 2)%nat ->
  nth_error (m_renditionData (g_metadata g)) i = Some (Some datum) ->
  slotPublished (Some datum) = true ->
  exists d src img,
    uvpaintData insp = Some d /\
    nth_error (m_sources (g_metadata g)) i = Some src /\
    ((src = "images" /\ In img (images d)) \/
     (src = "uvpaintHistoryImages" /\ In img (uvpaintHistoryImages d))) /\
    isPublishedUvpaint img = true /\
    rd_activeImage datum = safeUrl (activeImage img).
Proof.
  intros Hin Hi Hd Hp.
  destruct (group_slots localeCompare insp g Hin)
    as (d & row & latestR & rest & Hdata & Hrow & E & Hrd & _ & Hsrc & _).
  rewrite Hrd in Hd.
  assert (Hc : exists r c,
             pickBestAt row r = Some c /\ datum = datumOf c /\
             nth_error (firstn 2 (m_sources (g_metadata g))) i =
               Some (orElse (Some (c_source c)) "N/A")).
  { rewrite Hsrc. destruct i as [|[|i]]; [| |lia]; cbn [nth_error] in *.
    - destruct (hd_error rest) as [p|]; [|discriminate]. cbn [bind] in *.
      destruct (pickBestAt row p) as [c|] eqn:Ep; [|discriminate].
      injection Hd as <-. exists p, c.
      repeat split; try reflexivity; exact Ep.
    - destruct (pickBestAt row latestR) as [c|] eqn:Ep; [|discriminate].
      injection Hd as <-. exists latestR, c.
      repeat split; try reflexivity; exact Ep. }
  destruct Hc as (r & c & Hpick & -> & Hs).
  destruct (picked_origin d _ row r c Hrow Hpick)
    as (src & dflt & img & Hent & Hex).
  pose proof (extracted_published _ _ _ _ _ _ Hex Hp) as Hpub.
  pose proof (extracted_fields _ _ _ _ _ _ Hex)
    as (_ & _ & _ & _ & _ & Ha & _ & _ & _ & _ & Hcs).
  assert (Hsrc' : nth_error (m_sources (g_metadata g)) i = Some src /\
                  ((src = "images" /\ In img (images d)) \/
                   (src = "uvpaintHistoryImages" /\
                    In img (uvpaintHistoryImages d)))).
  { assert (Hn : nth_error (m_sources (g_metadata g)) i =
                 nth_error (firstn 2 (m_sources (g_metadata g))) i).
    { rewrite nth_error_firstn.
      destruct (Nat.ltb_spec i 2) as [_|Hge]; [reflexivity|lia]. }
    rewrite Hn, Hs, Hcs.
    apply entriesOf_In in Hent.
    destruct Hent as [(-> & _ & H)|(-> & _ & H)];
      (split; [reflexivity|tauto]). }
  destruct Hsrc' as [Hs1 Hs2].
  exists d, src, img. repeat split; try assumption.
Qed.

Lemma published_slot_origin_witness :
  exists g datum,
    In g (processInspectionData codePointCompare sampleEndToEnd) /\
    nth_error (m_renditionData (g_metadata g)) 1 = Some (Some datum) /\
    exists d img,
      uvpaintData sampleEndToEnd = Some d /\
      nth_error (m_sources (g_metadata g)) 1 = Some "images" /\
      In img (images d) /\
      isPublishedUvpaint img = true /\
      rd_activeImage datum = safeUrl (activeImage img).
Proof.
  assert (Hg : exists g datum,
             processInspectionData codePointCompare sampleEndToEnd = [g] /\
             nth_error (m_renditionData (g_metadata g)) 1 = Some (Some datum) /\
             slotPublished (Some datum) = true /\
             nth_error (m_sources (g_metadata g)) 1 = Some "images").
  { do 2 eexists. split; [vm_compute; reflexivity|].
    split; [vm_compute; reflexivity|]. split; vm_compute; reflexivity. }
  destruct Hg as (g & datum & Hg & Hd & Hp & Hs).
  assert (Hin : In g (processInspectionData codePointCompare sampleEndToEnd))
    by (rewrite Hg; now left).
  destruct (published_slot_origin codePointCompare sampleEndToEnd g 1 datum
              Hin ltac:(lia) Hd Hp)
    as (d & src & img & H1 & H2 & H3 & H4 & H5).
  exists g, datum. split; [exact Hin|]. split; [exact Hd|].
  exists d, img. split; [exact H1|]. split; [exact Hs|].
  split; [|split; assumption].
  destruct H3 as [[_ H3]|[H3 _]]; [exact H3|].
  rewrite Hs in H2. injection H2 as <-. discriminate H3.
Defined.

(** ** Cards against metrics *)

Lemma processInspectionData_keys (lc : string -> string -> Z)
    (insp : Inspection) :
  NoDup (map (fun g => m_groupKey (g_metadata g))
           (processInspectionData lc insp)).
Proof.
  unfold processInspectionData. destruct (uvpaintData insp) as [d|];
    [|constructor].
  eapply Permutation_NoDup.
  - apply Permutation_map. symmetry. apply stableSort_perm.
  - apply buildGroups_keys. apply collectRows_wf.
Qed.

Lemma NoDup_flat_map_keyed {A B K : Type} (f : A -> list B) (key : A -> K)
    (keyOf : B -> K) (l : list A) :
  NoDup (map key l) ->
  (forall a, In a l -> NoDup (f a)) ->
  (forall a b, In a l -> In b (f a) -> keyOf b = key a) ->
  NoDup (flat_map f l).
Proof.
  induction l as [|a l IH]; cbn [flat_map map]; [constructor|].
  intros Hnd Hf Hk. inversion Hnd as [|? ? Hnotin Hnd']; subst.
  apply NoDup_app.
  - apply Hf. now left.
  - apply IH; [exact Hnd'| |].
    + intros a' Ha'. apply Hf. now right.
    + intros a' b Ha'. apply Hk. now right.
  - intros b Hb Hb'. apply in_flat_map in Hb'. destruct Hb' as (a' & Ha' & Hb').
    apply Hnotin. apply in_map_iff. exists a'. split; [|exact Ha'].
    rewrite <- (Hk a b (or_introl eq_refl) Hb).
    symmetry. apply Hk; [now right|exact Hb'].
Qed.

Lemma length_filter_flat_map {A B C : Type} (p : B -> bool) (h : A -> list B)
    (f : A -> list C) (l : list A) :
  (forall a, In a l ->
     List.length (filter p (h a)) = List.length (f a)) ->
  List.length (filter p (flat_map h l)) = List.length (flat_map f l).
Proof.
  induction l as [|a l IH]; intros H; cbn [flat_map]; [reflexivity|].
  rewrite filter_app, !length_app, IH.
  - rewrite (H a) by now left. reflexivity.
  - intros a' Ha'. apply H. now right.
Qed.

Lemma length_filter_tagged (src : string) (dflt : Z) (l : list RawImageEntry) :
  List.length (filter (fun t : TaggedEntry => isPublishedUvpaint (snd t))
                 (map (fun img => (src, dflt, img)) l)) =
  List.length (filter isPublishedUvpaint l).
Proof.
  induction l as [|img l IH]; [reflexivity|]. cbn [map filter snd].
  destruct (isPublishedUvpaint img); cbn [List.length]; now rewrite IH.
Qed.

(** The published slots of one group: as many as the validator counts,
    pairwise distinct, and each filed under the key and rendition number of
    a publishable entry of the input. *)
Lemma publishedSlotsOf_spec (lc : string -> string -> Z) (insp : Inspection)
    (d : UvpaintData) (g : Group) :
  uvpaintData insp = Some d ->
  In g (processInspectionData lc insp) ->
  List.length (filter slotPublished (firstn 2 (m_renditionData (g_metadata g))))
    = List.length (publishedSlotsOf g) /\
  NoDup (publishedSlotsOf g) /\
  (forall x, In x (publishedSlotsOf g) -> fst x = m_groupKey (g_metadata g)) /\
  (forall x, In x (publishedSlotsOf g) ->
     exists t, In t (entriesOf d) /\ isPublishedUvpaint (snd t) = true /\
               slotOfEntry t = Some x).
Proof.
  intros Hd Hin.
  destruct (group_slots lc insp g Hin)
    as (d' & row & latestR & rest & Hd' & Hrow & E & Hrd & Hrend & _).
  assert (d' = d) by congruence. subst d'.
  pose proof (rowsWf_lookup _ _ _ (collectRows_wf d) Hrow) as Hwf.
  pose proof (renditionNumsOf_NoDup row Hwf) as Hnd. rewrite E in Hnd.
  assert (Horigin : forall r c,
             pickBestAt row r = Some c ->
             slotPublished (Some (datumOf c)) = true ->
             exists t, In t (entriesOf d) /\ isPublishedUvpaint (snd t) = true /\
                       slotOfEntry t =
                         Some (m_groupKey (g_metadata g), Some (RNum r))).
  { intros r c Hpick Hp.
    destruct (picked_origin d _ row r c Hrow Hpick)
      as (src & dflt & img & Hent & Hex).
    exists (src, dflt, img). split; [exact Hent|]. split.
    - exact (extracted_published _ _ _ _ _ _ Hex Hp).
    - unfold slotOfEntry. now rewrite Hex. }
  unfold publishedSlotsOf. rewrite Hrd, Hrend.
  cbn [firstn combine filter snd fst].
  destruct (hd_error rest) as [p|] eqn:Ep; cbn [bind option_map].
  - assert (Hne : p <> latestR).
    { destruct rest as [|p' rest']; [discriminate|]. injection Ep as ->.
      inversion Hnd as [|? ? Hnotin _]; subst. intros ->.
      apply Hnotin. now left. }
    destruct (pickBestAt row p) as [cp|] eqn:Epp;
      destruct (pickBestAt row latestR) as [cl|] eqn:Epl;
      cbn [option_map];
      try destruct (slotPublished (Some (datumOf cp))) eqn:Sp;
      try destruct (slotPublished (Some (datumOf cl))) eqn:Sl;
      cbn [slotPublished map fst List.length];
      (split; [reflexivity|]);
      (split; [repeat constructor; simpl; intuition congruence|]);
      (split; [intros x Hx; simpl in Hx; intuition (subst; reflexivity)|]);
      intros x Hx; simpl in Hx;
      repeat match goal with
             | H : _ \/ _ |- _ => destruct H as [H|H]
             | H : False |- _ => destruct H
             end; subst x; eauto.
  - destruct (pickBestAt row latestR) as [cl|] eqn:Epl;
      cbn [option_map];
      try destruct (slotPublished (Some (datumOf cl))) eqn:Sl;
      cbn [slotPublished map fst List.length];
      (split; [reflexivity|]);
      (split; [repeat constructor; simpl; intuition congruence|]);
      (split; [intros x Hx; simpl in Hx; intuition (subst; reflexivity)|]);
      intros x Hx; simpl in Hx;
      repeat match goal with
             | H : _ \/ _ |- _ => destruct H as [H|H]
             | H : False |- _ => destruct H
             end; subst x; eauto.
Qed.

Lemma countCards_bounded (lc : string -> string -> Z) (insp : Inspection)
    (d : UvpaintData) :
  uvpaintData insp = Some d ->
  fst (countCards (processInspectionData lc insp)) <=
  Z.of_nat (List.length (filter isPublishedUvpaint (images d))) +
  Z.of_nat (List.length (filter isPublishedUvpaint (uvpaintHistoryImages d))).
Proof.
  intros Hd. rewrite countCards_published. unfold cardSlots.
  rewrite (length_filter_flat_map slotPublished _ publishedSlotsOf)
    by (intros g Hg; apply (publishedSlotsOf_spec lc insp d g Hd Hg)).
  assert (Hlen :
    (List.length (filter isPublishedUvpaint (images d)) +
     List.length (filter isPublishedUvpaint (uvpaintHistoryImages d)))%nat =
    List.length
      (map slotOfEntry
         (filter (fun t : TaggedEntry => isPublishedUvpaint (snd t))
            (entriesOf d)))).
  { unfold entriesOf.
    now rewrite length_map, filter_app, length_app, !length_filter_tagged. }
  rewrite <- Nat2Z.inj_add, Hlen. apply inj_le.
  rewrite <- (length_map (fun x => Some x)).
  apply NoDup_incl_length.
  - apply NoDup_map_injective; [intros a b H; now injection H|].
    apply (NoDup_flat_map_keyed publishedSlotsOf
             (fun g => m_groupKey (g_metadata g)) fst).
    + apply processInspectionData_keys.
    + intros g Hg. apply (publishedSlotsOf_spec lc insp d g Hd Hg).
    + intros g x Hg. apply (publishedSlotsOf_spec lc insp d g Hd Hg).
  - intros o Ho. apply in_map_iff in Ho. destruct Ho as (x & <- & Hx).
    apply in_flat_map in Hx. destruct Hx as (g & Hg & Hx).
    destruct (publishedSlotsOf_spec lc insp d g Hd Hg) as (_ & _ & _ & Hor).
    destruct (Hor x Hx) as (t & Ht & Hp & Hs).
    rewrite <- Hs. apply in_map. apply filter_In. now split.
Qed.


(** ** The validator against the published images *)




(** With history the published cards no longer bound the difference: here
    the published image is shown in no slot, the published slot is the
    one of the history entry, which the metrics do not count, and the
    validator records no mismatch. *)
Lemma history_masks_unshown_image :
  exists img,
    images (sampleData sampleHistoryMasks) = [img] /\
    isPublishedUvpaint img = true /\
    ~ shownInPublishedSlot
        (processInspectionData codePointCompare sampleHistoryMasks)
        ("images", 3, img) /\
    map (fun b => (b_metricsPublished b, b_cardPublished b))
      (byInspection
         (validateMetricsAlignment
            [processOne codePointCompare "insp-13" sampleHistoryMasks])) =
      [(1, 1)] /\
    mismatches
      (validateMetricsAlignment
         [processOne codePointCompare "insp-13" sampleHistoryMasks]) = [].
Proof.
  eexists. split; [reflexivity|]. split; [reflexivity|].
  split; [|split; reflexivity].
  intros (g & x & _ & _ & H). discriminate H.
Qed.

Lemma countCards_nonneg (comparisons : list Group) :
  0 <= fst (countCards comparisons).
Proof. rewrite countCards_published. lia. Qed.

(** X9.  The validator never counts more published card slots for an
    inspection than the input has publishable entries, current and history
    together; so for an inspection without history the published cards are
    at most the published images of the metrics, and the difference it
    reports is the number of published images the cards leave out. *)
Theorem published_cards_bounded (localeCompare : string -> string -> Z)
    (requestedId : string) (insp : Inspection) (d : UvpaintData) :
  uvpaintData insp = Some d ->
  let processed := processOne localeCompare requestedId insp in
  let cardPublished := fst (countCards (pi_comparisons processed)) in
  let metricsCount := Z.of_nat (List.length (publishedUvpaintOf processed)) in
  0 <= cardPublished <=
    metricsCount +
    Z.of_nat (List.length (filter isPublishedUvpaint (uvpaintHistoryImages d))) /\
  (uvpaintHistoryImages d = [] ->
   cardPublished <= metricsCount /\
   forall idx,
     mm_difference (mismatchOf idx processed) = metricsCount - cardPublished).
Proof.
  intros Hd. cbv zeta.
  assert (Hbound :
    0 <= fst (countCards (pi_comparisons (processOne localeCompare requestedId insp)))
    <= Z.of_nat (List.length
                   (publishedUvpaintOf (processOne localeCompare requestedId insp))) +
       Z.of_nat (List.length
                   (filter isPublishedUvpaint (uvpaintHistoryImages d)))).
  { unfold processOne, publishedUvpaintOf, rawImages.
    cbn [pi_comparisons pi_rawInspection]. rewrite Hd.
    split; [apply countCards_nonneg|now apply countCards_bounded]. }
  split; [exact Hbound|].
  intros Hnil. rewrite Hnil in Hbound. cbn [filter List.length] in Hbound.
  split; [lia|]. intros idx. unfold mismatchOf. cbn [mm_difference]. lia.
Qed.

Lemma published_cards_bounded_witness :
  fst (countCards (pi_comparisons
                     (processOne codePointCompare "insp-8" sampleTwoSerials)))
  <= Z.of_nat (List.length
                 (publishedUvpaintOf
                    (processOne codePointCompare "insp-8" sampleTwoSerials))) /\
  mm_difference
    (mismatchOf 0 (processOne codePointCompare "insp-8" sampleTwoSerials)) = 1.
Proof.
  destruct (published_cards_bounded codePointCompare "insp-8" sampleTwoSerials
              _ eq_refl) as [_ H].
  destruct (H eq_refl) as [H1 H2]. split; [exact H1|].
  rewrite H2. vm_compute. reflexivity.
Defined.

(** ** Validator totals *)

Lemma countSlot_fold_both (l : list (option RenditionDatum)) (p g : Z) :
  fst (fold_left countSlot l (p, g)) + snd (fold_left countSlot l (p, g)) =
    p + g + Z.of_nat (List.length (filter slotFilled l)) /\
  g <= snd (fold_left countSlot l (p, g)).
Proof.
  revert p g. induction l as [|d l IH]; intros p g; cbn [fold_left];
    [simpl; lia|].
  destruct d as [d|]; cbn [countSlot filter slotFilled]; [|apply IH].
  destruct (truthyOpt (rd_activeImage d)), (rd_isActive d);
    cbn [negb andb List.length];
    match goal with
    | |- context [fold_left countSlot l (?a, ?b)] =>
        destruct (IH a b) as [H1 H2]
    end; lia.
Qed.

Lemma countCards_both (comparisons : list Group) :
  fst (countCards comparisons) + snd (countCards comparisons) =
    Z.of_nat (List.length (filter slotFilled (cardSlots comparisons))) /\
  0 <= snd (countCards comparisons).
Proof.
  unfold countCards, cardSlots.
  assert (H : forall l p g,
             let r := fold_left
                        (fun counts comp =>
                           fold_left countSlot
                             (firstn 2 (m_renditionData (g_metadata comp)))
                             counts) l (p, g) in
             fst r + snd r =
               p + g +
               Z.of_nat
                 (List.length
                    (filter slotFilled
                       (flat_map
                          (fun comp =>
                             firstn 2 (m_renditionData (g_metadata comp)))
                          l))) /\
             g <= snd r).
  { induction l as [|c l IH]; intros p g; cbn [fold_left flat_map];
      [simpl; lia|].
    cbv zeta.
    destruct (fold_left countSlot (firstn 2 (m_renditionData (g_metadata c)))
                (p, g)) as [p' g'] eqn:E.
    destruct (countSlot_fold_both
                (firstn 2 (m_renditionData (g_metadata c))) p g) as [H1 H2].
    rewrite E in H1, H2. cbn [fst snd] in H1, H2.
    destruct (IH p' g') as [H3 H4]. cbv zeta in H3, H4.
    rewrite filter_app, length_app, Nat2Z.inj_add. lia. }
  destruct (H comparisons 0 0) as [H1 H2]. cbv zeta in H1, H2.
  split; [rewrite H1; lia|exact H2].
Qed.

Lemma cardSlots_length (comparisons : list Group) :
  (List.length (cardSlots comparisons) <= 2 * List.length comparisons)%nat.
Proof.
  unfold cardSlots. induction comparisons as [|c l IH]; cbn [flat_map];
    [simpl; lia|].
  rewrite length_app. cbn [List.length].
  pose proof (firstn_le_length 2 (m_renditionData (g_metadata c))). lia.
Qed.

Lemma filter_length_le {A : Type} (p : A -> bool) (l : list A) :
  (List.length (filter p l) <= List.length l)%nat.
Proof.
  induction l as [|x l IH]; simpl; [lia|]. destruct (p x); simpl; lia.
Qed.

Lemma sumZ_cons (x : Z) (l : list Z) : sumZ (x :: l) = x + sumZ l.
Proof. reflexivity. Qed.

Lemma validateInspection_fields (v : Validation) (idx : nat)
    (insp : ProcessedInspection) :
  totalPublishedInMetrics (validateInspection v idx insp) =
    totalPublishedInMetrics v + b_metricsPublished (breakdownOf idx insp) /\
  totalPublishedInCards (validateInspection v idx insp) =
    totalPublishedInCards v + b_cardPublished (breakdownOf idx insp) /\
  totalGeneratedInCards (validateInspection v idx insp) =
    totalGeneratedInCards v + b_cardGenerated (breakdownOf idx insp) /\
  byInspection (validateInspection v idx insp) =
    (byInspection v ++ [breakdownOf idx insp])%list.
Proof.
  unfold validateInspection, breakdownOf.
  destruct (countCards (pi_comparisons insp)) as [p g].
  repeat split; reflexivity.
Qed.

Lemma validateFrom_fields (pis : list ProcessedInspection) (idx : nat)
    (v : Validation) :
  totalPublishedInMetrics (validateFrom idx pis v) =
    totalPublishedInMetrics v +
    sumZ (map (fun insp => Z.of_nat (List.length (publishedUvpaintOf insp))) pis) /\
  totalPublishedInCards (validateFrom idx pis v) =
    totalPublishedInCards v +
    sumZ (map (fun insp => fst (countCards (pi_comparisons insp))) pis) /\
  totalGeneratedInCards (validateFrom idx pis v) =
    totalGeneratedInCards v +
    sumZ (map (fun insp => snd (countCards (pi_comparisons insp))) pis) /\
  byInspection (validateFrom idx pis v) =
    (byInspection v ++ breakdownFrom idx pis)%list.
Proof.
  revert idx v. induction pis as [|insp pis IH]; intros idx v.
  - cbn. rewrite app_nil_r. repeat split; lia.
  - cbn [validateFrom map breakdownFrom]. rewrite !sumZ_cons.
    destruct (IH (S idx) (validateInspection v idx insp)) as (H1 & H2 & H3 & H4).
    destruct (validateInspection_fields v idx insp) as (F1 & F2 & F3 & F4).
    rewrite H1, H2, H3, H4, F1, F2, F3, F4.
    cbn [breakdownOf b_metricsPublished b_cardPublished b_cardGenerated].
    split; [lia|]. split; [lia|]. split; [lia|].
    now rewrite <- app_assoc.
Qed.

Lemma breakdownFrom_nth (pis : list ProcessedInspection) (idx i : nat) :
  nth_error (breakdownFrom idx pis) i =
  option_map (breakdownOf (idx + i)) (nth_error pis i).
Proof.
  revert idx i. induction pis as [|insp pis IH]; intros idx [|i];
    cbn [breakdownFrom nth_error option_map]; try reflexivity.
  - now rewrite Nat.add_0_r.
  - rewrite IH. do 2 f_equal. lia.
Qed.

Lemma breakdownFrom_map (f : BreakdownRow -> Z) (g : ProcessedInspection -> Z)
    (pis : list ProcessedInspection) (idx : nat) :
  (forall i insp, f (breakdownOf i insp) = g insp) ->
  map f (breakdownFrom idx pis) = map g pis.
Proof.
  intros H. revert idx. induction pis as [|insp pis IH]; intros idx;
    cbn [breakdownFrom map]; [reflexivity|].
  now rewrite H, IH.
Qed.

Lemma breakdownFrom_In (pis : list ProcessedInspection) (idx : nat)
    (b : BreakdownRow) :
  In b (breakdownFrom idx pis) ->
  exists i insp, In insp pis /\ b = breakdownOf i insp.
Proof.
  revert idx. induction pis as [|insp pis IH]; intros idx;
    cbn [breakdownFrom]; [intros []|].
  intros [<-|H].
  - exists idx, insp. split; [now left|reflexivity].
  - destruct (IH _ H) as (i & x & Hx & ->). exists i, x.
    split; [now right|reflexivity].
Qed.

Lemma sumZ_app (a b : list Z) : sumZ (a ++ b) = sumZ a + sumZ b.
Proof. unfold sumZ. induction a as [|x a IH]; simpl; lia. Qed.

Lemma sumZ_flat_length {A B : Type} (f : A -> list B) (l : list A) :
  sumZ (map (fun x => Z.of_nat (List.length (f x))) l) =
  Z.of_nat (List.length (flat_map f l)).
Proof.
  induction l as [|x l IH]; [reflexivity|].
  cbn [map flat_map]. rewrite sumZ_cons, length_app, IH. lia.
Qed.

Lemma validateMetricsAlignment_aligned
    (processedInspections : list ProcessedInspection) :
  mismatches (validateMetricsAlignment processedInspections) = [] <->
  forall insp, In insp processedInspections ->
    Z.of_nat (List.length (publishedUvpaintOf insp)) =
    fst (countCards (pi_comparisons insp)).
Proof.
  unfold validateMetricsAlignment. split.
  - intros Hnil insp Hin.
    destruct (Z.eq_dec (Z.of_nat (List.length (publishedUvpaintOf insp)))
                (fst (countCards (pi_comparisons insp)))) as [E|N];
      [exact E|exfalso].
    apply In_nth_error in Hin. destruct Hin as (i & Hi).
    assert (Hm : In (mismatchOf (0 + i) insp)
                   (mismatches (validateFrom 0 processedInspections
                                  (mkValidation 0 0 0 [] [])))).
    { apply validateFrom_mismatches. right. exists i, insp. now repeat split. }
    rewrite Hnil in Hm. destruct Hm.
  - intros Hall.
    destruct (mismatches (validateFrom 0 processedInspections
                            (mkValidation 0 0 0 [] []))) as [|m l] eqn:E;
      [reflexivity|exfalso].
    assert (Hm : In m (mismatches (validateFrom 0 processedInspections
                                     (mkValidation 0 0 0 [] []))))
      by (rewrite E; now left).
    apply validateFrom_mismatches in Hm.
    destruct Hm as [[]|(i & insp & Hi & Hne & _)].
    apply Hne, Hall. eapply nth_error_In. exact Hi.
Qed.

(** X10.  The validator gives one breakdown row per inspection, in input
    order and numbered from 1; its published count is the number of images
    the metrics count, its card counts are non-negative and together at
    most twice the number of comparisons.  The three totals are the sums of
    the breakdown columns, the metrics total is the number of published
    images of all inspections, and there is no mismatch exactly when every
    row has equal metrics and card counts, in which case the totals agree
    too. *)
Theorem validator_breakdown_totals (processedInspections : list ProcessedInspection) :
  let v := validateMetricsAlignment processedInspections in
  List.length (byInspection v) = List.length processedInspections /\
  (forall i insp, nth_error processedInspections i = Some insp ->
     exists b,
       nth_error (byInspection v) i = Some b /\
       b_inspectionId b = pi_inspectionId insp /\
       b_inspectionIndex b = (i + 1)%nat /\
       b_metricsPublished b = Z.of_nat (List.length (publishedUvpaintOf insp)) /\
       b_cardPublished b =
         Z.of_nat (List.length
                     (filter slotPublished (cardSlots (pi_comparisons insp)))) /\
       b_comparisons b = List.length (pi_comparisons insp) /\
       0 <= b_cardGenerated b /\
       b_cardPublished b + b_cardGenerated b <= 2 * Z.of_nat (b_comparisons b)) /\
  totalPublishedInMetrics v = sumZ (map b_metricsPublished (byInspection v)) /\
  totalPublishedInCards v = sumZ (map b_cardPublished (byInspection v)) /\
  totalGeneratedInCards v = sumZ (map b_cardGenerated (byInspection v)) /\
  totalPublishedInMetrics v =
    Z.of_nat (List.length (allPublished processedInspections)) /\
  (mismatches v = [] <->
   forall b, In b (byInspection v) -> b_metricsPublished b = b_cardPublished b) /\
  (mismatches v = [] -> totalPublishedInMetrics v = totalPublishedInCards v).
Proof.
  cbv zeta. unfold validateMetricsAlignment.
  destruct (validateFrom_fields processedInspections 0 (mkValidation 0 0 0 [] []))
    as (H1 & H2 & H3 & H4).
  cbn [totalPublishedInMetrics totalPublishedInCards totalGeneratedInCards
       byInspection app] in H1, H2, H3, H4.
  rewrite H1, H2, H3, H4.
  rewrite (breakdownFrom_map b_metricsPublished
             (fun insp => Z.of_nat (List.length (publishedUvpaintOf insp))))
    by reflexivity.
  rewrite (breakdownFrom_map b_cardPublished
             (fun insp => fst (countCards (pi_comparisons insp))))
    by reflexivity.
  rewrite (breakdownFrom_map b_cardGenerated
             (fun insp => snd (countCards (pi_comparisons insp))))
    by reflexivity.
  pose proof (validateMetricsAlignment_aligned processedInspections) as Hmis.
  unfold validateMetricsAlignment in Hmis.
  split.
  { clear. generalize 0%nat.
    induction processedInspections as [|x l IH]; intros n;
      cbn [breakdownFrom List.length]; [reflexivity|]. now rewrite IH. }
  split.
  { intros i insp Hi. exists (breakdownOf i insp).
    rewrite breakdownFrom_nth, Hi. cbn [option_map Nat.add].
    unfold breakdownOf.
    cbn [b_inspectionId b_inspectionIndex b_metricsPublished b_cardPublished
         b_cardGenerated b_comparisons].
    destruct (countCards_both (pi_comparisons insp)) as [B1 B2].
    pose proof (filter_length_le slotFilled (cardSlots (pi_comparisons insp))).
    pose proof (cardSlots_length (pi_comparisons insp)).
    repeat split; try reflexivity; try apply countCards_published; lia. }
  split; [reflexivity|]. split; [reflexivity|]. split; [reflexivity|].
  split.
  { unfold allPublished. now rewrite <- sumZ_flat_length. }
  split.
  { rewrite Hmis. split.
    - intros Hall b Hb. apply breakdownFrom_In in Hb.
      destruct Hb as (i & insp & Hin & ->). now apply Hall.
    - intros Hall insp Hin. apply In_nth_error in Hin. destruct Hin as (i & Hi).
      apply (Hall (breakdownOf (0 + i) insp)).
      eapply nth_error_In. rewrite breakdownFrom_nth, Hi. reflexivity. }
  intros Hnil. apply (f_equal sumZ). apply map_ext_in. intros insp Hin.
  now apply Hmis.
Qed.

Lemma sumZ_le_pointwise {A : Type} (f g : A -> Z) (l : list A) :
  (forall x, In x l -> f x <= g x) ->
  sumZ (map f l) <= sumZ (map g l) /\
  (sumZ (map f l) = sumZ (map g l) -> forall x, In x l -> f x = g x).
Proof.
  induction l as [|a l IH]; intros H; cbn [map]; [split; [lia|intros _ ? []]|].
  rewrite !sumZ_cons.
  destruct IH as [IH1 IH2]; [intros x Hx; apply H; now right|].
  pose proof (H a (or_introl eq_refl)) as Ha.
  split; [lia|]. intros E x [<-|Hx]; [lia|]. apply IH2; [lia|exact Hx].
Qed.

Lemma cards_le_metrics (lc : string -> string -> Z)
    (insp : ProcessedInspection) :
  pi_comparisons insp = processInspectionData lc (pi_rawInspection insp) ->
  (forall d, uvpaintData (pi_rawInspection insp) = Some d ->
             uvpaintHistoryImages d = []) ->
  fst (countCards (pi_comparisons insp)) <=
  Z.of_nat (List.length (publishedUvpaintOf insp)).
Proof.
  intros Hc Hh. rewrite Hc. unfold publishedUvpaintOf, rawImages.
  destruct (uvpaintData (pi_rawInspection insp)) as [d|] eqn:Hd.
  - pose proof (countCards_bounded lc _ d Hd) as Hb.
    rewrite (Hh d eq_refl) in Hb. cbn [filter List.length] in Hb. lia.
  - unfold processInspectionData. rewrite Hd. cbn. lia.
Qed.

(** X11.  For inspections processed by the pipeline from inputs without
    history, the validator's card total never exceeds its metrics total,
    every mismatch it records has fewer published cards than published
    images, and there is no mismatch exactly when the two totals are
    equal. *)
Theorem validator_totals_without_history (localeCompare : string -> string -> Z)
    (processedInspections : list ProcessedInspection) :
  processedWithoutHistory localeCompare processedInspections ->
  let v := validateMetricsAlignment processedInspections in
  totalPublishedInCards v <= totalPublishedInMetrics v /\
  (mismatches v = [] <-> totalPublishedInMetrics v = totalPublishedInCards v) /\
  (forall m, In m (mismatches v) ->
     mm_cardPublishedCount m < mm_metricsCount m /\
     mm_difference m = mm_metricsCount m - mm_cardPublishedCount m).
Proof.
  intros Hwf. cbv zeta.
  assert (Hle : forall insp, In insp processedInspections ->
            fst (countCards (pi_comparisons insp)) <=
            Z.of_nat (List.length (publishedUvpaintOf insp))).
  { intros insp Hin. destruct (Hwf insp Hin) as [Hc Hh].
    now apply (cards_le_metrics localeCompare). }
  destruct (sumZ_le_pointwise _ _ processedInspections Hle) as [Hsum Heq].
  pose proof (validateMetricsAlignment_aligned processedInspections) as Hmis.
  unfold validateMetricsAlignment in *.
  destruct (validateFrom_fields processedInspections 0 (mkValidation 0 0 0 [] []))
    as (H1 & H2 & _).
  cbn [totalPublishedInMetrics totalPublishedInCards] in H1, H2.
  rewrite H1, H2. split; [lia|]. split.
  - rewrite Hmis. split.
    + intros Hall. apply (f_equal (fun x => 0 + sumZ x)). apply map_ext_in.
      exact Hall.
    + intros E insp Hin. symmetry. apply Heq; [lia|exact Hin].
  - intros m Hm. apply validateFrom_mismatches in Hm.
    destruct Hm as [[]|(i & insp & Hi & Hne & ->)].
    apply nth_error_In in Hi. specialize (Hle insp Hi).
    unfold mismatchOf. cbn [mm_cardPublishedCount mm_metricsCount mm_difference].
    lia.
Qed.

Lemma validator_totals_without_history_witness :
  totalPublishedInCards
    (validateMetricsAlignment
       [processOne codePointCompare "insp-8" sampleTwoSerials]) <=
  totalPublishedInMetrics
    (validateMetricsAlignment
       [processOne codePointCompare "insp-8" sampleTwoSerials]).
Proof.
  apply (validator_totals_without_history codePointCompare
           [processOne codePointCompare "insp-8" sampleTwoSerials]).
  intros insp [<-|[]]. split; [reflexivity|].
  intros d Hd. injection Hd as <-. reflexivity.
Defined.

(** ** Trend and percent change *)









(** ** Table A and Table D against the published images *)

Lemma tableAFrom_nth (pis : list ProcessedInspection) (idx i : nat) :
  nth_error (tableAFrom idx pis) i =
  option_map (tableARow (idx + i)) (nth_error pis i).
Proof.
  revert idx i. induction pis as [|insp pis IH]; intros idx [|i];
    cbn [tableAFrom nth_error option_map]; try reflexivity.
  - now rewrite Nat.add_0_r.
  - rewrite IH. do 2 f_equal. lia.
Qed.

Lemma tableAFrom_length (pis : list ProcessedInspection) (idx : nat) :
  List.length (tableAFrom idx pis) = List.length pis.
Proof.
  revert idx. induction pis as [|x l IH]; intros idx;
    cbn [tableAFrom List.length]; [reflexivity|]. now rewrite IH.
Qed.

Lemma totalActions_fold (l : list RawImageEntry) (t : Z) :
  fold_left (fun t img => t + sumActionMap (actionsCounterMap img)) l t
  = t + sumZ (map actionsOf l).
Proof.
  revert t. induction l as [|x l IH]; intros t; cbn [fold_left map].
  - unfold sumZ. simpl. lia.
  - rewrite IH, sumZ_cons. unfold actionsOf. lia.
Qed.

Lemma imagesWithActions_fold (l : list RawImageEntry) (k : Z) :
  fold_left
    (fun k img =>
       if (0 <? sumActionMap (actionsCounterMap img)) then k + 1 else k) l k
  = k + Z.of_nat (List.length (filter hasActions l)).
Proof.
  revert k. induction l as [|x l IH]; intros k; cbn [fold_left filter].
  - simpl. lia.
  - rewrite IH. unfold hasActions at 2.
    destruct (0 <? sumActionMap (actionsCounterMap x));
      cbn [List.length]; lia.
Qed.

Lemma no_actions_total (l : list RawImageEntry) :
  List.length (filter hasActions l) = 0%nat ->
  sumZ (map actionsOf l) <= 0 /\
  ((forall img, In img l -> 0 <= actionsOf img) -> sumZ (map actionsOf l) = 0).
Proof.
  induction l as [|x l IH];
    [intros _; cbn [map]; change (sumZ []) with 0; split; [lia|reflexivity]|].
  cbn [filter map]. rewrite sumZ_cons. unfold hasActions at 1.
  fold (actionsOf x).
  destruct (Z.ltb_spec 0 (actionsOf x)) as [H|H]; [discriminate|].
  intros E. destruct (IH E) as [I1 I2]. split; [lia|].
  intros Hl. rewrite I2 by (intros img Hin; apply Hl; now right).
  specialize (Hl x (or_introl eq_refl)). lia.
Qed.

Lemma meanOrZero_nonpos (total count : Z) :
  total <= 0 -> (meanOrZero total count <= 0)%Q.
Proof.
  intros Ht. unfold meanOrZero. destruct (Z.ltb_spec 0 count) as [Hc|Hc];
    [|apply Qle_refl].
  apply Qle_shift_div_r.
  - change 0%Q with (inject_Z 0). rewrite <- Zlt_Qlt. exact Hc.
  - rewrite Qmult_0_l. change 0%Q with (inject_Z 0). now rewrite <- Zle_Qle.
Qed.

Lemma meanOrZero_zero (count : Z) : (meanOrZero 0 count == 0)%Q.
Proof.
  unfold meanOrZero. destruct (0 <? count); [|reflexivity].
  unfold Qdiv. change (inject_Z 0) with 0%Q. ring.
Qed.

(** X13.  Table A has one row per processed inspection, in input order and
    numbered from 1, next to the validator's breakdown row of the same
    inspection: both carry the same id, the same index and the same number
    of published images.  The images with actions are the published images
    with a positive action total, so they are at most the published
    images; when there is none the mean number of actions per image is
    at most 0, and it is 0 when no published image has a negative action
    total. *)
Theorem tableA_rows (processedInspections : list ProcessedInspection) :
  let tableA := fst (computeAggregatedMetrics processedInspections) in
  let v := validateMetricsAlignment processedInspections in
  List.length tableA = List.length processedInspections /\
  forall i insp, nth_error processedInspections i = Some insp ->
    exists row b,
      nth_error tableA i = Some row /\
      nth_error (byInspection v) i = Some b /\
      a_inspectionIndex row = (i + 1)%nat /\
      a_inspectionId row = pi_inspectionId insp /\
      b_inspectionIndex b = a_inspectionIndex row /\
      b_inspectionId b = a_inspectionId row /\
      b_metricsPublished b = a_publishedCount row /\
      a_publishedCount row =
        Z.of_nat (List.length (publishedUvpaintOf insp)) /\
      a_imagesWithActions row =
        Z.of_nat (List.length (filter hasActions (publishedUvpaintOf insp))) /\
      0 <= a_imagesWithActions row <= a_publishedCount row /\
      (a_imagesWithActions row = 0 -> (a_avgActionsPerImage row <= 0)%Q) /\
      ((forall img, In img (publishedUvpaintOf insp) -> 0 <= actionsOf img) ->
       a_imagesWithActions row = 0 -> (a_avgActionsPerImage row == 0)%Q).
Proof.
  cbv zeta. unfold computeAggregatedMetrics, validateMetricsAlignment.
  cbn [fst]. split; [apply tableAFrom_length|].
  intros i insp Hi.
  destruct (validateFrom_fields processedInspections 0 (mkValidation 0 0 0 [] []))
    as (_ & _ & _ & H4).
  cbn [byInspection app] in H4.
  exists (tableARow i insp), (breakdownOf i insp).
  rewrite tableAFrom_nth, H4, breakdownFrom_nth, Hi. cbn [option_map Nat.add].
  unfold tableARow, breakdownOf.
  cbn [a_inspectionIndex a_inspectionId a_publishedCount a_imagesWithActions
       a_avgActionsPerImage b_inspectionIndex b_inspectionId
       b_metricsPublished].
  rewrite imagesWithActions_fold, totalActions_fold.
  pose proof (filter_length_le hasActions (publishedUvpaintOf insp)) as Hle.
  split; [reflexivity|]. split; [reflexivity|]. split; [reflexivity|].
  split; [reflexivity|]. split; [reflexivity|]. split; [reflexivity|].
  split; [reflexivity|]. split; [reflexivity|]. split; [reflexivity|].
  split; [lia|]. split.
  - intros E. apply meanOrZero_nonpos.
    destruct (no_actions_total (publishedUvpaintOf insp)) as [H _]; lia.
  - intros Hn E.
    destruct (no_actions_total (publishedUvpaintOf insp)) as [_ H]; [lia|].
    rewrite (H Hn). apply meanOrZero_zero.
Qed.

Lemma sumZ_perm (a b : list Z) : Permutation a b -> sumZ a = sumZ b.
Proof.
  induction 1 as [|x a b _ IH|x y a|a b c _ IH1 _ IH2];
    rewrite ?sumZ_cons; lia.
Qed.

Lemma statsOf_cons (k : string) (img : RawImageEntry) (l : list RawImageEntry) :
  statsOf k (img :: l) =
  (fst (statsOf k l) + (if String.eqb (imageKey img) k then 1 else 0),
   snd (statsOf k l) + (if String.eqb (imageKey img) k then actionsOf img else 0)).
Proof.
  cbn [statsOf]. destruct (statsOf k l) as [n t].
  destruct (String.eqb (imageKey img) k); cbn [fst snd]; unfold actionsOf;
    f_equal; lia.
Qed.

Lemma sumZ_indicator (x : string) (c : Z) (keys : list string) :
  NoDup keys -> In x keys ->
  sumZ (map (fun k => if String.eqb x k then c else 0) keys) = c.
Proof.
  induction keys as [|k keys IH]; [intros _ []|].
  intros Hnd Hin. inversion Hnd as [|? ? Hnotin Hnd']; subst.
  cbn [map]. rewrite sumZ_cons.
  destruct (String.eqb_spec x k) as [->|Hne].
  - assert (Hz : sumZ (map (fun k' => if String.eqb k k' then c else 0) keys) = 0).
    { clear IH Hnd Hnd' Hin. induction keys as [|k' keys IH]; [reflexivity|].
      cbn [map]. rewrite sumZ_cons.
      destruct (String.eqb_spec k k') as [->|_].
      - exfalso. apply Hnotin. now left.
      - rewrite IH; [lia|]. intros H. apply Hnotin. now right. }
    rewrite Hz. lia.
  - destruct Hin as [->|Hin]; [congruence|]. rewrite (IH Hnd' Hin). lia.
Qed.

Lemma sumZ_map_add {A : Type} (f g : A -> Z) (l : list A) :
  sumZ (map (fun x => f x + g x) l) = sumZ (map f l) + sumZ (map g l).
Proof.
  induction l as [|x l IH]; [reflexivity|]. cbn [map].
  rewrite !sumZ_cons, IH. lia.
Qed.

(** Summed over pairwise distinct keys that cover the keys of the images,
    the per-key counts and action totals are those of the whole list. *)
Lemma statsOf_sum (keys : list string) (l : list RawImageEntry) :
  NoDup keys ->
  (forall img, In img l -> In (imageKey img) keys) ->
  sumZ (map (fun k => fst (statsOf k l)) keys) = Z.of_nat (List.length l) /\
  sumZ (map (fun k => snd (statsOf k l)) keys) = sumZ (map actionsOf l).
Proof.
  intros Hnd. induction l as [|img l IH]; intros Hcov.
  - cbn [statsOf fst snd List.length map]. split.
    + clear. induction keys as [|k keys IH]; [reflexivity|].
      cbn [map]. rewrite sumZ_cons, IH. reflexivity.
    + clear. induction keys as [|k keys IH]; [reflexivity|].
      cbn [map]. rewrite sumZ_cons, IH. reflexivity.
  - destruct IH as [IH1 IH2]; [intros x Hx; apply Hcov; now right|].
    pose proof (Hcov img (or_introl eq_refl)) as Hin.
    rewrite (map_ext _ (fun k => fst (statsOf k l) +
                                 (if String.eqb (imageKey img) k then 1 else 0)))
      by (intros k; now rewrite statsOf_cons).
    rewrite (map_ext (fun k => snd (statsOf k (img :: l)))
               (fun k => snd (statsOf k l) +
                         (if String.eqb (imageKey img) k
                          then actionsOf img else 0)))
      by (intros k; now rewrite statsOf_cons).
    rewrite !sumZ_map_add, IH1, IH2, !sumZ_indicator by assumption.
    cbn [map List.length]. rewrite sumZ_cons. lia.
Qed.

Lemma statsOf_pos (img : RawImageEntry) (l : list RawImageEntry) :
  In img l -> 0 < fst (statsOf (imageKey img) l).
Proof.
  assert (Hge : forall l', 0 <= fst (statsOf (imageKey img) l')).
  { induction l' as [|y l' IH']; [simpl; lia|]. rewrite statsOf_cons.
    cbn [fst]. destruct (String.eqb (imageKey y) (imageKey img)); lia. }
  induction l as [|x l IH]; [intros []|]. rewrite statsOf_cons. cbn [fst].
  specialize (Hge l). intros [->|Hin].
  - rewrite String.eqb_refl. lia.
  - specialize (IH Hin).
    destruct (String.eqb (imageKey x) (imageKey img)); lia.
Qed.

Lemma aggDOf_covers (pis : list ProcessedInspection) (img : RawImageEntry) :
  In img (allPublished pis) -> In (imageKey img) (map fst (aggDOf pis)).
Proof.
  intros Hin. pose proof (statsOf_pos img _ Hin) as Hpos.
  rewrite <- aggDOf_stats in Hpos. unfold statsAt in Hpos.
  destruct (lookup String.eqb (imageKey img) (aggDOf pis)) as [row|] eqn:E;
    [|simpl in Hpos; lia].
  apply (lookup_In String.eqb_spec) in E.
  now apply (in_map fst) in E.
Qed.

Lemma tableAFrom_published (pis : list ProcessedInspection) (idx : nat) :
  map a_publishedCount (tableAFrom idx pis) =
  map (fun insp => Z.of_nat (List.length (publishedUvpaintOf insp))) pis.
Proof.
  revert idx. induction pis as [|x l IH]; intros idx; cbn [tableAFrom map];
    [reflexivity|]. now rewrite IH.
Qed.

(** X14.  Table D counts every published image of the loaded inspections
    in exactly one row: its image counts add up to the number of published
    images, which is the sum of the published counts of Table A and the
    validator's metrics total, and its action totals add up to the actions
    of these images. *)
Theorem tableD_conserves_images
    (processedInspections : list ProcessedInspection) :
  let tableA := fst (computeAggregatedMetrics processedInspections) in
  let tableD := snd (computeAggregatedMetrics processedInspections) in
  sumZ (map (fun r => d_images (d_row r)) tableD) =
    Z.of_nat (List.length (allPublished processedInspections)) /\
  sumZ (map (fun r => d_images (d_row r)) tableD) =
    sumZ (map a_publishedCount tableA) /\
  sumZ (map (fun r => d_images (d_row r)) tableD) =
    totalPublishedInMetrics (validateMetricsAlignment processedInspections) /\
  sumZ (map (fun r => d_totalActions (d_row r)) tableD) =
    sumZ (map actionsOf (allPublished processedInspections)).
Proof.
  cbv zeta. unfold computeAggregatedMetrics. cbn [fst snd].
  destruct (aggDOf_keyed processedInspections) as [_ Hnd].
  destruct (statsOf_sum (map fst (aggDOf processedInspections))
              (allPublished processedInspections) Hnd
              (aggDOf_covers processedInspections)) as [S1 S2].
  assert (Hrow : forall (f : Z * Z -> Z) (g : AggRow -> Z),
             (forall r, g r = f (d_images r, d_totalActions r)) ->
             sumZ (map (fun r => g (d_row r))
                     (stableSort
                        (fun a b =>
                           Qpositive
                             (d_avgActionsPerImage b - d_avgActionsPerImage a))
                        (map tableDRow
                           (map snd (aggDOf processedInspections))))) =
             sumZ (map (fun k =>
                          f (statsOf k (allPublished processedInspections)))
                     (map fst (aggDOf processedInspections)))).
  { intros f g Hfg.
    rewrite (sumZ_perm _ _ (Permutation_map _ (stableSort_perm _ _))).
    rewrite !map_map. f_equal. apply map_ext_in. intros [k r] Hin.
    cbn [fst snd tableDRow d_row]. rewrite <- aggDOf_stats. unfold statsAt.
    rewrite (In_lookup String.eqb_spec Hnd Hin). apply Hfg. }
  assert (HA : sumZ (map a_publishedCount (tableAFrom 0 processedInspections)) =
               Z.of_nat (List.length (allPublished processedInspections))).
  { unfold allPublished.
    now rewrite <- sumZ_flat_length, tableAFrom_published. }
  assert (HV : totalPublishedInMetrics
                 (validateMetricsAlignment processedInspections) =
               Z.of_nat (List.length (allPublished processedInspections))).
  { unfold validateMetricsAlignment.
    destruct (validateFrom_fields processedInspections 0
                (mkValidation 0 0 0 [] [])) as (H1 & _).
    rewrite H1. cbn [totalPublishedInMetrics]. unfold allPublished.
    now rewrite <- sumZ_flat_length. }
  rewrite HA, HV.
  rewrite (Hrow fst d_images) by reflexivity.
  rewrite (Hrow snd d_totalActions) by reflexivity.
  rewrite map_map in S1, S2. rewrite !map_map.
  repeat split; assumption.
Qed.

(** ** Votes *)

Lemma percent_bounds (a t : Z) :
  0 <= a <= t ->
  (0 <= (if 0 <? t then inject_Z a / inject_Z t * 100 else 0) <= 100)%Q.
Proof.
  intros [Ha Hat]. destruct (Z.ltb_spec 0 t) as [Ht|Ht]; [|split; lra].
  assert (Ht' : (0 < inject_Z t)%Q)
    by (change 0%Q with (inject_Z 0); now rewrite <- Zlt_Qlt).
  assert (Ha' : (0 <= inject_Z a)%Q)
    by (change 0%Q with (inject_Z 0); now rewrite <- Zle_Qle).
  assert (Hat' : (inject_Z a <= inject_Z t)%Q) by now rewrite <- Zle_Qle.
  assert (H0 : (0 <= inject_Z a / inject_Z t)%Q)
    by (apply Qle_shift_div_l; [exact Ht'|lra]).
  assert (H1 : (inject_Z a / inject_Z t <= 1)%Q)
    by (apply Qle_shift_div_r; [exact Ht'|lra]).
  remember (inject_Z a / inject_Z t)%Q as x eqn:Ex. clear Ex. split; lra.
Qed.

Lemma votesFor_cons (k : string) (d : VoteDoc) (l : list VoteDoc) :
  votesFor k (d :: l) =
  if (truthy (v_comparisonId d) &&
      negb (objectPrototypeKey (orEmpty (v_comparisonId d))) &&
      String.eqb (orEmpty (v_comparisonId d)) k)%bool
  then d :: votesFor k l else votesFor k l.
Proof. reflexivity. Qed.

Lemma addVote_votesAt (k : string) (aggVotes : Votes) (d : VoteDoc) :
  votesAt k (addVote aggVotes d) =
  (let '(a, r, t) := votesAt k aggVotes in
   if (truthy (v_comparisonId d) &&
       negb (objectPrototypeKey (orEmpty (v_comparisonId d))) &&
       String.eqb (orEmpty (v_comparisonId d)) k)%bool
   then (a + countVotes "approve" [d], r + countVotes "reject" [d], t + 1)
   else (a, r, t)) /\
  (lookup String.eqb k (addVote aggVotes d) = None <->
   lookup String.eqb k aggVotes = None /\ votesFor k [d] = []) /\
  (NoDup (map fst aggVotes) -> NoDup (map fst (addVote aggVotes d))).
Proof.
  unfold addVote, votesAt, countVotes. rewrite votesFor_cons.
  destruct (truthy (v_comparisonId d)); cbn [negb andb];
    [|destruct (lookup String.eqb k aggVotes) as [v|]; tauto].
  destruct (objectPrototypeKey (orEmpty (v_comparisonId d))); cbn [negb andb];
    [destruct (lookup String.eqb k aggVotes) as [v|]; tauto|].
  destruct (String.eqb_spec (orEmpty (v_comparisonId d)) k) as [<-|Hne].
  - cbn [filter List.length].
    destruct (lookup String.eqb (orEmpty (v_comparisonId d)) aggVotes)
      as [v|] eqn:E.
    + rewrite E, (lookup_assign_eq String.eqb_spec).
      cbn [approvals rejections total].
      split; [|split; [split; [discriminate|intros [? _]; discriminate]|
                       apply (NoDup_assign String.eqb_spec)]].
      destruct (isVoteType (v_voteType d) "approve"),
               (isVoteType (v_voteType d) "reject");
        cbn [List.length]; repeat f_equal; lia.
    + rewrite !(lookup_assign_eq String.eqb_spec).
      cbn [approvals rejections total].
      split; [|split; [split; [discriminate|intros [_ ?]; discriminate]|
                       intros H; now do 2 apply (NoDup_assign String.eqb_spec)]].
      destruct (isVoteType (v_voteType d) "approve"),
               (isVoteType (v_voteType d) "reject");
        cbn [List.length]; repeat f_equal; lia.
  - destruct (lookup String.eqb (orEmpty (v_comparisonId d)) aggVotes)
      as [v|] eqn:E.
    + rewrite E, (lookup_assign_neq String.eqb_spec _ _ Hne).
      split; [destruct (lookup String.eqb k aggVotes); reflexivity|].
      split; [tauto|]. apply (NoDup_assign String.eqb_spec).
    + rewrite (lookup_assign_eq String.eqb_spec).
      rewrite !(lookup_assign_neq String.eqb_spec _ _ Hne).
      split; [destruct (lookup String.eqb k aggVotes); reflexivity|].
      split; [tauto|].
      intros Hnd. now do 2 apply (NoDup_assign String.eqb_spec).
Qed.

Lemma countVotes_cons (name : string) (d : VoteDoc) (l : list VoteDoc) :
  countVotes name (d :: l) = countVotes name [d] + countVotes name l.
Proof.
  unfold countVotes. cbn [filter].
  destruct (isVoteType (v_voteType d) name); cbn [List.length]; lia.
Qed.

Lemma countVotes_exclusive (l : list VoteDoc) :
  0 <= countVotes "approve" l /\ 0 <= countVotes "reject" l /\
  countVotes "approve" l + countVotes "reject" l <= Z.of_nat (List.length l).
Proof.
  induction l as [|d l IH]; [unfold countVotes; simpl; lia|].
  rewrite !(countVotes_cons _ d l). cbn [List.length].
  assert (H : countVotes "approve" [d] + countVotes "reject" [d] <= 1 /\
              0 <= countVotes "approve" [d] /\ 0 <= countVotes "reject" [d]).
  { unfold countVotes, isVoteType. cbn [filter].
    destruct (v_voteType d) as [| |s]; cbn [List.length]; try lia.
    destruct (String.eqb_spec s "approve") as [->|_]; cbn; [lia|].
    destruct (String.eqb s "reject"); cbn; lia. }
  lia.
Qed.

Lemma addVote_fold (l : list VoteDoc) (aggVotes : Votes) (k : string) :
  votesAt k (fold_left addVote l aggVotes) =
  (let '(a, r, t) := votesAt k aggVotes in
   (a + countVotes "approve" (votesFor k l),
    r + countVotes "reject" (votesFor k l),
    t + Z.of_nat (List.length (votesFor k l)))) /\
  (lookup String.eqb k (fold_left addVote l aggVotes) = None <->
   lookup String.eqb k aggVotes = None /\ votesFor k l = []) /\
  (NoDup (map fst aggVotes) ->
   NoDup (map fst (fold_left addVote l aggVotes))).
Proof.
  revert aggVotes. induction l as [|d l IH]; intros aggVotes.
  - cbn [fold_left]. unfold countVotes. cbn.
    destruct (votesAt k aggVotes) as [[a r] t].
    split; [repeat f_equal; lia|]. tauto.
  - cbn [fold_left].
    destruct (addVote_votesAt k aggVotes d) as (A1 & A2 & A3).
    destruct (IH (addVote aggVotes d)) as (I1 & I2 & I3).
    rewrite I1, A1, I2, A2. rewrite !votesFor_cons.
    destruct (votesAt k aggVotes) as [[a r] t].
    split; [|split; [|now intros H; apply I3, A3]].
    + destruct (truthy (v_comparisonId d) &&
                negb (objectPrototypeKey (orEmpty (v_comparisonId d))) &&
                String.eqb (orEmpty (v_comparisonId d)) k)%bool;
        [|reflexivity].
      rewrite !(countVotes_cons _ d (votesFor k l)). cbn [List.length].
      apply f_equal2; [apply f_equal2|]; lia.
    + destruct (truthy (v_comparisonId d) &&
                negb (objectPrototypeKey (orEmpty (v_comparisonId d))) &&
                String.eqb (orEmpty (v_comparisonId d)) k)%bool.
      * split; [intros [[_ H] _]; discriminate|intros [_ H]; discriminate].
      * tauto.
Qed.

Lemma lookup_map_values {V W : Type} (f : V -> W) (k : string)
    (d : list (string * V)) :
  lookup String.eqb k (map (fun e => (fst e, f (snd e))) d) =
  option_map f (lookup String.eqb k d).
Proof.
  induction d as [|[k' v] d IH]; [reflexivity|]. cbn [map lookup fst snd].
  destruct (String.eqb k k'); [reflexivity|exact IH].
Qed.

Lemma aggregateVotes_wf (snapshot : list VoteDoc) :
  votesWf (aggregateVotes snapshot).
Proof.
  intros k v' Hv. unfold aggregateVotes in Hv.
  rewrite lookup_map_values in Hv.
  destruct (addVote_fold snapshot [] k) as (H1 & H2 & _).
  unfold votesAt in H1. cbn [lookup] in H1, H2.
  destruct (lookup String.eqb k (fold_left addVote snapshot [])) as [v|] eqn:E;
    [|discriminate].
  injection Hv as <-. injection H1 as Ha Hr Ht.
  assert (Hne : votesFor k snapshot <> []).
  { intros Hnil. assert (Some v = None) by (apply H2; now split).
    discriminate. }
  destruct (countVotes_exclusive (votesFor k snapshot)) as (C1 & C2 & C3).
  assert (Hlen : 1 <= Z.of_nat (List.length (votesFor k snapshot))).
  { destruct (votesFor k snapshot); [congruence|cbn [List.length]; lia]. }
  unfold voteDataWf, setPercentage. cbn [approvals rejections total percentage].
  rewrite Ha, Hr, Ht. cbn [Z.add].
  split; [exact C1|]. split; [exact C2|]. split; [exact C3|].
  split; [exact Hlen|].
  split.
  - destruct (Z.ltb_spec 0 (Z.of_nat (List.length (votesFor k snapshot))));
      [reflexivity|lia].
  - apply percent_bounds. lia.
Qed.

(** X15.  The aggregated votes have one entry per comparison id that
    occurs in the snapshot, and none for other ids; a document without
    comparison id, or whose id is the name of a property inherited from
    [Object.prototype], adds no entry.  An entry counts the vote
    documents of its id: [total] is their number, [approvals] and
    [rejections] are the numbers of approve and of reject votes, so their
    sum is at most [total]; [total] is at least 1, and [percentage] is
    [approvals / total * 100], between 0 and 100. *)
Theorem aggregateVotes_counts (snapshot : list VoteDoc) (k : string) :
  NoDup (map fst (aggregateVotes snapshot)) /\
  match lookup String.eqb k (aggregateVotes snapshot) with
  | Some v =>
      total v = Z.of_nat (List.length (votesFor k snapshot)) /\
      approvals v = countVotes "approve" (votesFor k snapshot) /\
      rejections v = countVotes "reject" (votesFor k snapshot) /\
      voteDataWf v
  | None => votesFor k snapshot = []
  end.
Proof.
  pose proof (aggregateVotes_wf snapshot k) as Hwf.
  unfold aggregateVotes in *.
  destruct (addVote_fold snapshot [] k) as (H1 & H2 & H3).
  split.
  { rewrite map_map. cbn [fst]. apply H3. constructor. }
  rewrite lookup_map_values in *. unfold votesAt in H1. cbn [lookup] in H1, H2.
  destruct (lookup String.eqb k (fold_left addVote snapshot [])) as [v|] eqn:E;
    cbn [option_map] in *; [|now apply H2].
  injection H1 as Ha Hr Ht.
  unfold setPercentage at 1 2 3. cbn [approvals rejections total].
  rewrite Ha, Hr, Ht. cbn [Z.add].
  repeat split; try reflexivity; now apply Hwf.
Qed.

(** ** Vote metrics *)

Lemma sampleEndToEnd_plainIds :
  plainIds (pi_comparisons sampleEndToEndProcessed).
Proof.
  intros comp Hin. vm_compute in Hin. destruct Hin as [<-|[]]. reflexivity.
Qed.

Lemma sumOf_sumZ {A : Type} (f : A -> Z) (l : list A) :
  sumOf f l = sumZ (map f l).
Proof.
  unfold sumOf.
  assert (H : forall s, fold_left (fun sum m => sum + f m) l s =
                        s + sumZ (map f l)).
  { induction l as [|x l IH]; intros s; cbn [fold_left map].
    - unfold sumZ. simpl. lia.
    - rewrite IH, sumZ_cons. lia. }
  rewrite H. lia.
Qed.

Lemma sumZ_const {A : Type} (l : list A) :
  sumZ (map (fun _ => 1) l) = Z.of_nat (List.length l).
Proof.
  induction l as [|x l IH]; [reflexivity|]. cbn [map List.length].
  rewrite sumZ_cons, IH. lia.
Qed.

Lemma latestActionsNum_nonneg (comp : Group) :
  actionsNonneg comp -> 0 <= latestActionsNum comp.
Proof.
  intros Hc. unfold latestActionsNum. pose proof (Hc 1%nat) as H.
  destruct (nth_error (m_actions (g_metadata comp)) 1) as [[n|]|];
    [now apply H|lia|lia].
Qed.

Lemma voteMetrics_In (allComparisons : list Group) (votes : Votes)
    (m : VoteMetric) :
  In m (voteMetrics allComparisons (Some votes)) <->
  exists comp v,
    In comp allComparisons /\
    lookup String.eqb (g_id comp) votes = Some v /\ 0 < total v /\
    m = voteMetricOf (Some votes) comp.
Proof.
  unfold voteMetrics. rewrite stableSort_In, filter_In, in_map_iff. split.
  - intros [(comp & <- & Hin) Hpos]. apply Z.ltb_lt in Hpos.
    unfold voteMetricOf in Hpos. cbn [vm_total bind] in Hpos.
    destruct (lookup String.eqb (g_id comp) votes) as [v|] eqn:E;
      [|cbn in Hpos; lia].
    exists comp, v. repeat split; assumption.
  - intros (comp & v & Hin & Hv & Hpos & ->). split.
    + exists comp. split; [reflexivity|exact Hin].
    + apply Z.ltb_lt. unfold voteMetricOf. cbn [vm_total bind].
      now rewrite Hv.
Qed.

Lemma overallStats_fields (metrics : list VoteMetric) :
  overallStats metrics =
  {| os_totalComparisons := Z.of_nat (List.length metrics);
     os_totalVotes := sumZ (map vm_total metrics);
     os_overallApprovalRate :=
       if 0 <? sumZ (map vm_total metrics)
       then (inject_Z (sumZ (map vm_approvals metrics)) /
             inject_Z (sumZ (map vm_total metrics)) * 100)%Q
       else 0%Q;
     os_totalApprovals := sumZ (map vm_approvals metrics);
     os_totalRejections := sumZ (map vm_rejections metrics);
     os_totalActions := sumZ (map vm_actions metrics);
     os_averageActionsPerImage :=
       meanOrZero (sumZ (map vm_actions metrics))
         (Z.of_nat (List.length metrics)) |}.
Proof.
  destruct metrics as [|m metrics]; [reflexivity|].
  unfold overallStats. rewrite !sumOf_sumZ. reflexivity.
Qed.

(** X16.  With sound vote entries and comparison ids that are not names
    of inherited properties, the per-comparison vote metrics list
    exactly the comparisons that have votes, in descending order of the
    approval percentage, each with at least one vote, approvals plus
    rejections at most the total and a percentage between 0 and 100.  The
    overall statistics add them up: the comparisons counted are at most
    all comparisons and at most the votes, approvals plus rejections are
    at most the votes, and the overall approval rate is between 0 and
    100.  When no card carries a negative action count, neither the
    actions of a metric nor the average actions per image are
    negative. *)
Theorem vote_metrics_overall (allComparisons : list Group) (votes : Votes) :
  votesWf votes ->
  plainIds allComparisons ->
  let metrics := voteMetrics allComparisons (Some votes) in
  let stats := overallStats metrics in
  StronglySorted (fun a b => (vm_percentage b <= vm_percentage a)%Q) metrics /\
  (forall m, In m metrics <->
     exists comp v,
       In comp allComparisons /\
       lookup String.eqb (g_id comp) votes = Some v /\ 0 < total v /\
       m = voteMetricOf (Some votes) comp) /\
  (forall m, In m metrics ->
     1 <= vm_total m /\ 0 <= vm_approvals m /\ 0 <= vm_rejections m /\
     vm_approvals m + vm_rejections m <= vm_total m /\
     (0 <= vm_percentage m <= 100)%Q /\
     ((forall comp, In comp allComparisons -> actionsNonneg comp) ->
      0 <= vm_actions m)) /\
  os_totalComparisons stats = Z.of_nat (List.length metrics) /\
  os_totalComparisons stats <= Z.of_nat (List.length allComparisons) /\
  os_totalComparisons stats <= os_totalVotes stats /\
  0 <= os_totalApprovals stats /\ 0 <= os_totalRejections stats /\
  os_totalApprovals stats + os_totalRejections stats <= os_totalVotes stats /\
  (0 <= os_overallApprovalRate stats <= 100)%Q /\
  ((forall comp, In comp allComparisons -> actionsNonneg comp) ->
   (0 <= os_averageActionsPerImage stats)%Q).
Proof.
  intros Hwf _. cbv zeta.
  assert (Hm : forall m, In m (voteMetrics allComparisons (Some votes)) ->
            1 <= vm_total m /\ 0 <= vm_approvals m /\ 0 <= vm_rejections m /\
            vm_approvals m + vm_rejections m <= vm_total m /\
            (0 <= vm_percentage m <= 100)%Q /\
            ((forall comp, In comp allComparisons -> actionsNonneg comp) ->
             0 <= vm_actions m)).
  { intros m Hin. apply voteMetrics_In in Hin.
    destruct Hin as (comp & v & Hc & Hv & _ & ->).
    destruct (Hwf _ _ Hv) as (W1 & W2 & W3 & W4 & _ & W6).
    unfold voteMetricOf. cbn [bind]. rewrite Hv.
    cbn [vm_total vm_approvals vm_rejections vm_percentage vm_actions].
    pose proof (latestActionsNum_nonneg comp) as Hn.
    repeat (split; [tauto|]). intros Ha. apply Hn. now apply Ha. }
  assert (Hlen : (List.length (voteMetrics allComparisons (Some votes)) <=
                  List.length allComparisons)%nat).
  { unfold voteMetrics.
    rewrite (Permutation_length (stableSort_perm _ _)).
    etransitivity; [apply filter_length_le|]. now rewrite length_map. }
  split.
  { unfold voteMetrics. apply stableSort_sorted.
    - intros a b c H1 H2. now apply Qle_trans with (vm_percentage b).
    - intros a b H. apply Qpositive_false in H. lra.
    - intros a b H. apply Qpositive_true in H. lra. }
  split; [intros m; apply voteMetrics_In|]. split; [exact Hm|].
  revert Hm Hlen. generalize (voteMetrics allComparisons (Some votes)).
  intros metrics Hm Hlen.
  destruct (sumZ_le_pointwise (fun _ => 1) vm_total metrics) as [S1 _];
    [intros m Hin; now apply Hm|].
  destruct (sumZ_le_pointwise (fun _ => 0) vm_approvals metrics) as [S2 _];
    [intros m Hin; now apply Hm|].
  destruct (sumZ_le_pointwise (fun _ => 0) vm_rejections metrics) as [S3 _];
    [intros m Hin; now apply Hm|].
  destruct (sumZ_le_pointwise (fun m => vm_approvals m + vm_rejections m)
              vm_total metrics) as [S4 _];
    [intros m Hin; now apply Hm|].
  rewrite sumZ_map_add in S4. rewrite sumZ_const in S1.
  assert (Hz : forall l : list VoteMetric, sumZ (map (fun _ => 0) l) = 0).
  { induction l as [|x l IH]; [reflexivity|]. cbn [map].
    now rewrite sumZ_cons, IH. }
  rewrite Hz in S2, S3.
  rewrite overallStats_fields.
  cbn [os_totalComparisons os_totalVotes os_overallApprovalRate
       os_totalApprovals os_totalRejections os_totalActions
       os_averageActionsPerImage].
  split; [reflexivity|]. split; [lia|]. split; [lia|]. split; [lia|].
  split; [lia|]. split; [lia|]. split.
  - apply percent_bounds. lia.
  - intros Ha. apply meanOrZero_nonneg.
    destruct (sumZ_le_pointwise (fun _ => 0) vm_actions metrics) as [S5 _];
      [intros m Hin; now apply Hm|].
    rewrite Hz in S5. exact S5.
Qed.

Lemma vote_metrics_overall_witness :
  os_totalComparisons
    (overallStats
       (voteMetrics (pi_comparisons sampleEndToEndProcessed)
          (Some (aggregateVotes sampleSnapshot)))) = 1 /\
  os_totalVotes
    (overallStats
       (voteMetrics (pi_comparisons sampleEndToEndProcessed)
          (Some (aggregateVotes sampleSnapshot)))) = 3.
Proof.
  pose proof (vote_metrics_overall (pi_comparisons sampleEndToEndProcessed)
                (aggregateVotes sampleSnapshot)
                (aggregateVotes_wf sampleSnapshot)
                sampleEndToEnd_plainIds) as H.
  cbv zeta in H. destruct H as (_ & _ & _ & H & _).
  split; [rewrite H|]; vm_compute; reflexivity.
Defined.

(** ** Vote metrics by image type *)

Lemma assign_assign {V : Type} (k : string) (v1 v2 : V)
    (d : list (string * V)) :
  assign String.eqb k v2 (assign String.eqb k v1 d) = assign String.eqb k v2 d.
Proof.
  induction d as [|[k' v'] d IH]; cbn [assign].
  - now rewrite String.eqb_refl.
  - destruct (String.eqb k k') eqn:E; cbn [assign].
    + now rewrite String.eqb_refl.
    + now rewrite E, IH.
Qed.

Lemma sumZ_assign {V : Type} (f : V -> Z) (k : string) (v : V)
    (d : list (string * V)) :
  sumZ (map (fun e => f (snd e)) (assign String.eqb k v d)) =
  sumZ (map (fun e => f (snd e)) d) + f v -
  match lookup String.eqb k d with
  | Some old => f old
  | None => 0
  end.
Proof.
  induction d as [|[k' v'] d IH]; cbn [assign lookup map].
  - rewrite sumZ_cons. cbn [snd]. unfold sumZ. simpl. lia.
  - destruct (String.eqb k k'); cbn [map]; rewrite !sumZ_cons; cbn [snd];
      [lia|]. rewrite IH. lia.
Qed.

Lemma sumZ_filter {A : Type} (f : A -> Z) (p : A -> bool) (l : list A) :
  sumZ (map f (filter p l)) = sumZ (map (fun x => if p x then f x else 0) l).
Proof.
  induction l as [|x l IH]; [reflexivity|]. cbn [filter map].
  rewrite sumZ_cons. destruct (p x); cbn [map]; rewrite ?sumZ_cons, IH; lia.
Qed.

Lemma addVotedComparison_step (votes : Votes)
    (grouped : list (string * VoteGroup)) (comp : Group) :
  addVotedComparison votes grouped comp =
  match voted votes comp with
  | None => grouped
  | Some (p, v) =>
      assign String.eqb (compKey comp p)
        (addVotesTo
           (match lookup String.eqb (compKey comp p) grouped with
            | Some g => g
            | None => freshVoteGroup comp p
            end) v comp)
        grouped
  end.
Proof.
  unfold addVotedComparison, voted, compKey.
  destruct (lookup String.eqb (g_id comp) votes) as [v|]; [|reflexivity].
  destruct (total v =? 0); [reflexivity|].
  destruct (m_pov (g_metadata comp)) as [p|]; [|reflexivity].
  destruct (lookup String.eqb
              (joinKey (strOrNA (m_bucketType (g_metadata comp)))
                 (orNA (simulatedCamera p)) (orNA (simulatedCameraSide p))
                 (orNA (originalCameraId p))) grouped) as [g|] eqn:E.
  - rewrite E. reflexivity.
  - rewrite (lookup_assign_eq String.eqb_spec), assign_assign. reflexivity.
Qed.

Lemma voted_wf (votes : Votes) (comp : Group) (p : POV) (v : VoteData) :
  votesWf votes -> voted votes comp = Some (p, v) -> voteDataWf v.
Proof.
  intros Hwf. unfold voted.
  destruct (lookup String.eqb (g_id comp) votes) as [v'|] eqn:E; [|discriminate].
  destruct (total v' =? 0); [discriminate|].
  destruct (m_pov (g_metadata comp)); [|discriminate].
  intros [= _ <-]. exact (Hwf _ _ E).
Qed.

(** What the loop over the comparisons keeps true of the groups, and what
    it adds to their vote and comparison counts. *)
Lemma addVotedComparison_fold (votes : Votes) (comps : list Group)
    (grouped : list (string * VoteGroup)) :
  votesWf votes ->
  allEntries (fun k g => k = voteGroupKey g) grouped ->
  allValues voteGroupWf grouped ->
  allValues (fun g => 1 <= vg_totalVotes g) grouped ->
  NoDup (map fst grouped) ->
  let result := fold_left (addVotedComparison votes) comps grouped in
  allEntries (fun k g => k = voteGroupKey g) result /\
  allValues voteGroupWf result /\
  allValues (fun g => 1 <= vg_totalVotes g) result /\
  NoDup (map fst result) /\
  sumZ (map (fun e => vg_totalVotes (snd e)) result) =
    sumZ (map (fun e => vg_totalVotes (snd e)) grouped) +
    sumZ (map (votesOfComparison votes) comps) /\
  sumZ (map (fun e => vg_comparisonCount (snd e)) result) =
    sumZ (map (fun e => vg_comparisonCount (snd e)) grouped) +
    Z.of_nat (List.length
                (filter (fun comp => match voted votes comp with
                                     | Some _ => true
                                     | None => false
                                     end) comps)).
Proof.
  intros Hwf. revert grouped.
  induction comps as [|comp comps IH]; intros grouped Hk Hg Hpos Hnd.
  - cbn [fold_left map filter List.length]. cbv zeta.
    change (sumZ []) with 0.
    split; [exact Hk|]. split; [exact Hg|]. split; [exact Hpos|].
    split; [exact Hnd|]. split; lia.
  - cbn [fold_left map filter]. cbv zeta.
    rewrite sumZ_cons. unfold votesOfComparison at 1.
    rewrite addVotedComparison_step.
    destruct (voted votes comp) as [[p v]|] eqn:Ev.
    + destruct (voted_wf votes comp p v Hwf Ev) as (W1 & W2 & W3 & W4 & _).
      set (old := match lookup String.eqb (compKey comp p) grouped with
                  | Some g => g
                  | None => freshVoteGroup comp p
                  end).
      assert (Hold : voteGroupKey old = compKey comp p /\ voteGroupWf old /\
                     vg_totalVotes old =
                       match lookup String.eqb (compKey comp p) grouped with
                       | Some g => vg_totalVotes g
                       | None => 0
                       end /\
                     vg_comparisonCount old =
                       match lookup String.eqb (compKey comp p) grouped with
                       | Some g => vg_comparisonCount g
                       | None => 0
                       end).
      { unfold old.
        destruct (lookup String.eqb (compKey comp p) grouped) as [g|] eqn:E.
        - split; [symmetry; exact (allEntries_lookup _ _ _ _ Hk E)|].
          split; [exact (allValues_lookup _ _ _ _ Hg E)|]. tauto.
        - split; [reflexivity|]. split; [|tauto].
          unfold voteGroupWf, freshVoteGroup. cbn. lia. }
      destruct Hold as (Ho1 & Ho2 & Ho3 & Ho4).
      destruct Ho2 as (G1 & G2 & G3 & G4 & G5).
      destruct (IH (assign String.eqb (compKey comp p) (addVotesTo old v comp)
                      grouped)) as (I1 & I2 & I3 & I4 & I5 & I6).
      * apply allEntries_assign; [exact Hk|]. rewrite <- Ho1. reflexivity.
      * apply allValues_assign; [exact Hg|].
        unfold voteGroupWf, addVotesTo.
        cbn [vg_comparisonCount vg_totalVotes vg_totalApprovals
             vg_totalRejections]. lia.
      * apply allValues_assign; [exact Hpos|].
        unfold addVotesTo. cbn [vg_totalVotes]. lia.
      * now apply (NoDup_assign String.eqb_spec).
      * split; [exact I1|]. split; [exact I2|]. split; [exact I3|].
        split; [exact I4|].
        rewrite I5, I6, !sumZ_assign.
        unfold addVotesTo at 1 2. cbn [vg_totalVotes vg_comparisonCount].
        rewrite Ho3, Ho4. cbn [List.length].
        destruct (lookup String.eqb (compKey comp p) grouped); split; lia.
    + destruct (IH grouped Hk Hg Hpos Hnd) as (I1 & I2 & I3 & I4 & I5 & I6).
      split; [exact I1|]. split; [exact I2|]. split; [exact I3|].
      split; [exact I4|]. split; lia.
Qed.

(** Without negative action counts on the cards, the action totals of
    the groups are not negative. *)
Lemma addVotedComparison_actions (votes : Votes) (comps : list Group)
    (grouped : list (string * VoteGroup)) :
  (forall comp, In comp comps -> actionsNonneg comp) ->
  allValues (fun g => 0 <= vg_totalActions g) grouped ->
  allValues (fun g => 0 <= vg_totalActions g)
    (fold_left (addVotedComparison votes) comps grouped).
Proof.
  revert grouped. induction comps as [|c comps IH]; intros grouped Hc Hg;
    cbn [fold_left]; [exact Hg|].
  apply IH; [intros comp Hin; apply Hc; now right|].
  rewrite addVotedComparison_step.
  destruct (voted votes c) as [[p v]|]; [|exact Hg].
  apply allValues_assign; [exact Hg|].
  pose proof (latestActionsNum_nonneg c (Hc c (or_introl eq_refl))) as Hn.
  unfold addVotesTo. cbn [vg_totalActions].
  destruct (lookup String.eqb (compKey c p) grouped) as [g|] eqn:E.
  - pose proof (allValues_lookup _ _ _ _ Hg E) as H0. cbv beta in H0. lia.
  - cbn [freshVoteGroup vg_totalActions]. lia.
Qed.

(** X17.  With sound vote entries and comparison ids that are not names
    of inherited properties, the vote metrics by image type have
    one row per group key, in descending order of the approval percentage;
    every row covers at least one comparison and has at least as many
    votes as comparisons, approvals plus rejections at most the votes, and
    an approval percentage between 0 and 100.  The rows share out the
    votes of the comparisons that have votes and a POV; when every
    comparison has a POV, their votes and comparison counts add up to the
    totals of the overall statistics.  When no card carries a negative
    action count, the mean number of actions of a row is not negative. *)
Theorem vote_metrics_by_type (allComparisons : list Group) (votes : Votes) :
  votesWf votes ->
  plainIds allComparisons ->
  let rows := voteMetricsByType allComparisons (Some votes) in
  let stats := overallStats (voteMetrics allComparisons (Some votes)) in
  StronglySorted
    (fun a b => (vt_approvalPercentage b <= vt_approvalPercentage a)%Q) rows /\
  NoDup (map (fun r => voteGroupKey (vt_group r)) rows) /\
  (forall r, In r rows ->
     1 <= vg_comparisonCount (vt_group r) <= vg_totalVotes (vt_group r) /\
     0 <= vg_totalApprovals (vt_group r) /\
     0 <= vg_totalRejections (vt_group r) /\
     vg_totalApprovals (vt_group r) + vg_totalRejections (vt_group r) <=
       vg_totalVotes (vt_group r) /\
     (0 <= vt_approvalPercentage r <= 100)%Q /\
     ((forall comp, In comp allComparisons -> actionsNonneg comp) ->
      (0 <= vt_avgActions r)%Q)) /\
  sumZ (map (fun r => vg_totalVotes (vt_group r)) rows) =
    sumZ (map (votesOfComparison votes) allComparisons) /\
  ((forall comp, In comp allComparisons -> m_pov (g_metadata comp) <> None) ->
   sumZ (map (fun r => vg_totalVotes (vt_group r)) rows) = os_totalVotes stats /\
   sumZ (map (fun r => vg_comparisonCount (vt_group r)) rows) =
     os_totalComparisons stats).
Proof.
  intros Hwf _. cbv zeta. unfold voteMetricsByType.
  destruct (addVotedComparison_fold votes allComparisons [] Hwf)
    as (F1 & F2 & F3 & F4 & F5 & F6);
    try (intros ? ? []); [constructor|].
  cbv zeta in F1, F2, F3, F4, F5, F6.
  set (grouped := fold_left (addVotedComparison votes) allComparisons []) in *.
  set (after := fun a b : VoteTypeRow =>
                  Qpositive (vt_approvalPercentage b - vt_approvalPercentage a)).
  assert (Hfilter :
    filter (fun g => 0 <? vg_totalVotes (vt_group g))
      (map voteTypeRow (map snd grouped)) =
    map voteTypeRow (map snd grouped)).
  { apply forallb_filter_id, forallb_forall. intros r Hr.
    apply in_map_iff in Hr. destruct Hr as (g & <- & Hg).
    apply in_map_iff in Hg. destruct Hg as ([k g'] & <- & Hin).
    apply Z.ltb_lt. pose proof (F3 k g' Hin) as G. cbv beta in G.
    cbn [snd voteTypeRow vt_group]. lia. }
  rewrite Hfilter.
  assert (Hrows : forall r,
             In r (stableSort after (map voteTypeRow (map snd grouped))) ->
             exists k g, In (k, g) grouped /\ r = voteTypeRow g).
  { intros r Hin. apply stableSort_In in Hin. apply in_map_iff in Hin.
    destruct Hin as (g & <- & Hin). apply in_map_iff in Hin.
    destruct Hin as ([k g'] & <- & Hin). exists k, g'. tauto. }
  assert (Hsum : forall f : VoteGroup -> Z,
             sumZ (map (fun r => f (vt_group r))
                     (stableSort after (map voteTypeRow (map snd grouped)))) =
             sumZ (map (fun e => f (snd e)) grouped)).
  { intros f.
    rewrite (sumZ_perm _ _ (Permutation_map _ (stableSort_perm _ _))).
    now rewrite !map_map. }
  split.
  { apply stableSort_sorted.
    - intros a b c H1 H2. now apply Qle_trans with (vt_approvalPercentage b).
    - intros a b H. apply Qpositive_false in H. lra.
    - intros a b H. apply Qpositive_true in H. lra. }
  split.
  { eapply Permutation_NoDup.
    - apply Permutation_map. symmetry. apply stableSort_perm.
    - rewrite !map_map.
      rewrite (map_ext_in _ fst); [exact F4|].
      intros [k g] Hin. cbn [snd fst voteTypeRow vt_group]. symmetry.
      now apply F1. }
  split.
  { intros r Hin. destruct (Hrows r Hin) as (k & g & Hg & ->).
    destruct (F2 k g Hg) as (G1 & G2 & G3 & G4 & G5).
    pose proof (F3 k g Hg) as G7. cbv beta in G7.
    assert (G8 : 1 <= vg_comparisonCount g).
    { assert (Hc : allValues (fun g => 1 <= vg_comparisonCount g) grouped).
      { unfold grouped. clear.
        assert (H : forall comps acc,
                   allValues (fun g => 1 <= vg_comparisonCount g) acc ->
                   allValues (fun g => 0 <= vg_comparisonCount g) acc ->
                   allValues (fun g => 1 <= vg_comparisonCount g)
                     (fold_left (addVotedComparison votes) comps acc)).
        { induction comps as [|c comps IH]; intros acc H1 H0; cbn [fold_left];
            [exact H1|].
          rewrite addVotedComparison_step.
          destruct (voted votes c) as [[p v]|]; [|now apply IH].
          assert (Hold : 0 <= vg_comparisonCount
                                match lookup String.eqb (compKey c p) acc with
                                | Some g => g
                                | None => freshVoteGroup c p
                                end).
          { destruct (lookup String.eqb (compKey c p) acc) as [g|] eqn:E.
            - exact (allValues_lookup _ _ _ _ H0 E).
            - cbn. lia. }
          apply IH; apply allValues_assign; try assumption;
            unfold addVotesTo; cbn [vg_comparisonCount]; lia. }
        apply H; intros ? ? []. }
      exact (Hc k g Hg). }
    cbn [voteTypeRow vt_group vt_approvalPercentage vt_avgActions].
    split; [lia|]. split; [exact G3|]. split; [exact G4|]. split; [exact G5|].
    split; [apply percent_bounds; lia|].
    intros Ha. apply meanOrZero_nonneg.
    refine (addVotedComparison_actions votes allComparisons [] Ha _ k g Hg).
    intros ? ? []. }
  rewrite !Hsum, F5, F6. change (sumZ (map _ [])) with 0.
  split; [lia|].
  intros Hpov. rewrite overallStats_fields.
  cbn [os_totalVotes os_totalComparisons].
  assert (Hvoted : forall comp, In comp allComparisons ->
            voted votes comp =
            match lookup String.eqb (g_id comp) votes with
            | Some v =>
                match m_pov (g_metadata comp) with
                | Some p => Some (p, v)
                | None => None
                end
            | None => None
            end /\
            (0 <? vm_total (voteMetricOf (Some votes) comp)) =
            match voted votes comp with Some _ => true | None => false end /\
            vm_total (voteMetricOf (Some votes) comp) =
            votesOfComparison votes comp).
  { intros comp Hin. unfold votesOfComparison, voted, voteMetricOf.
    cbn [bind vm_total].
    destruct (lookup String.eqb (g_id comp) votes) as [v|] eqn:E;
      [|repeat split; reflexivity].
    destruct (Hwf _ _ E) as (_ & _ & _ & W4 & _).
    destruct (Z.eqb_spec (total v) 0) as [E0|_]; [lia|].
    destruct (m_pov (g_metadata comp)) as [p|] eqn:Ep;
      [|exfalso; now apply (Hpov comp Hin)].
    repeat split; try reflexivity. apply Z.ltb_lt. lia. }
  unfold voteMetrics.
  rewrite (Permutation_length (stableSort_perm _ _)).
  rewrite (sumZ_perm _ _ (Permutation_map _ (stableSort_perm _ _))).
  rewrite sumZ_filter, map_map. split.
  - cbn [Z.add]. apply (f_equal sumZ). apply map_ext_in. intros comp Hin.
    destruct (Hvoted comp Hin) as (_ & H2 & H3). rewrite H2, <- H3.
    unfold votesOfComparison in H3.
    destruct (voted votes comp) as [[p v]|]; [reflexivity|exact H3].
  - cbn [Z.add]. f_equal.
    clear - Hvoted. induction allComparisons as [|c l IH]; [reflexivity|].
    cbn [map filter]. destruct (Hvoted c (or_introl eq_refl)) as (_ & H2 & _).
    rewrite H2.
    destruct (voted votes c); cbn [List.length]; rewrite IH;
      try reflexivity; intros comp Hin; apply Hvoted; now right.
Qed.

Lemma vote_metrics_by_type_witness :
  sumZ (map (fun r => vg_totalVotes (vt_group r))
          (voteMetricsByType (pi_comparisons sampleEndToEndProcessed)
             (Some (aggregateVotes sampleSnapshot)))) = 3.
Proof.
  pose proof (vote_metrics_by_type (pi_comparisons sampleEndToEndProcessed)
                (aggregateVotes sampleSnapshot)
                (aggregateVotes_wf sampleSnapshot)
                sampleEndToEnd_plainIds) as H.
  cbv zeta in H. destruct H as (_ & _ & _ & H & _).
  rewrite H. vm_compute. reflexivity.
Defined.

(** ** Scores per inspection *)

Lemma fold_Qplus_bounds (l : list Q) (acc : Q) :
  (forall s, In s l -> (0 <= s <= 100)%Q) ->
  (acc <= fold_left Qplus l acc <=
   acc + 100 * inject_Z (Z.of_nat (List.length l)))%Q.
Proof.
  revert acc. induction l as [|s l IH]; intros acc H; cbn [fold_left List.length].
  - change (inject_Z (Z.of_nat 0)) with 0%Q. split; lra.
  - destruct (IH (acc + s)%Q) as [I1 I2]; [intros x Hx; apply H; now right|].
    destruct (H s (or_introl eq_refl)) as [S1 S2].
    rewrite Nat2Z.inj_succ, <- Z.add_1_r, inject_Z_plus.
    change (inject_Z 1) with 1%Q. split; lra.
Qed.

Lemma mean_bounds (total : Q) (n : Z) :
  0 < n -> (0 <= total <= 100 * inject_Z n)%Q ->
  (0 <= total / inject_Z n <= 100)%Q.
Proof.
  intros Hn [H0 H1].
  assert (Hn' : (0 < inject_Z n)%Q)
    by (change 0%Q with (inject_Z 0); now rewrite <- Zlt_Qlt).
  split.
  - apply Qle_shift_div_l; [exact Hn'|lra].
  - apply Qle_shift_div_r; [exact Hn'|lra].
Qed.

Lemma scoresOf_facts (votes : Votes) (comps : list Group) :
  votesWf votes ->
  let totalVotes :=
    sumZ (map (fun comp =>
                 match lookup String.eqb (g_id comp) votes with
                 | Some voteData => total voteData
                 | None => 0
                 end) comps) in
  (List.length (scoresOf votes comps) <= List.length comps)%nat /\
  Z.of_nat (List.length (scoresOf votes comps)) <= totalVotes /\
  (0 < totalVotes -> (0 < List.length (scoresOf votes comps))%nat) /\
  (forall s, In s (scoresOf votes comps) -> (0 <= s <= 100)%Q).
Proof.
  intros Hwf. cbv zeta. unfold scoresOf.
  induction comps as [|c comps IH]; cbn [flat_map map List.length].
  - change (sumZ []) with 0.
    split; [lia|]. split; [lia|]. split; [lia|]. intros ? [].
  - destruct IH as (I1 & I2 & I3 & I4). rewrite sumZ_cons, length_app.
    destruct (lookup String.eqb (g_id c) votes) as [v|] eqn:E.
    + destruct (Hwf _ _ E) as (_ & _ & _ & W4 & _ & W6).
      destruct (Z.eqb_spec (total v) 0) as [E0|_]; [lia|].
      cbn [List.length app]. split; [lia|]. split; [lia|]. split; [lia|].
      intros s [<-|Hs]; [exact W6|now apply I4].
    + cbn [List.length app]. split; [lia|]. split; [lia|].
      split; [intros H; apply I3; lia|exact I4].
Qed.

(** The votes of a list of comparisons are positive exactly when one of
    them has a vote entry. *)
Lemma totalVotes_pos (votes : Votes) (comps : list Group) :
  votesWf votes ->
  (0 < sumZ (map (fun comp =>
                    match lookup String.eqb (g_id comp) votes with
                    | Some voteData => total voteData
                    | None => 0
                    end) comps) <->
   exists comp v,
     In comp comps /\ lookup String.eqb (g_id comp) votes = Some v) /\
  0 <= sumZ (map (fun comp =>
                    match lookup String.eqb (g_id comp) votes with
                    | Some voteData => total voteData
                    | None => 0
                    end) comps).
Proof.
  intros Hwf. induction comps as [|c comps [IH1 IH2]]; cbn [map].
  - change (sumZ []) with 0. split; [|lia]. split; [lia|].
    intros (comp & v & [] & _).
  - rewrite sumZ_cons.
    destruct (lookup String.eqb (g_id c) votes) as [v|] eqn:E.
    + destruct (Hwf _ _ E) as (_ & _ & _ & W4 & _).
      split; [|lia]. split; [intros _|lia]. exists c, v. split; [now left|exact E].
    + split; [|lia]. split.
      * intros H. destruct (proj1 IH1) as (comp & v & Hin & Hv); [lia|].
        exists comp, v. split; [now right|exact Hv].
      * intros (comp & v & [<-|Hin] & Hv); [congruence|].
        assert (H : 0 < sumZ (map (fun comp =>
                    match lookup String.eqb (g_id comp) votes with
                    | Some voteData => total voteData
                    | None => 0
                    end) comps)) by (apply IH1; eauto).
        lia.
Qed.

(** X18.  With sound vote entries and comparison ids that are not names
    of inherited properties, the scores per inspection are listed
    in descending order of the average score: a row is listed exactly
    when it is the row of a loaded inspection one of whose comparisons has
    a vote entry, and the rows are at most the loaded inspections.  In a
    row the images with votes are at least 1, at most the images of the
    inspection and at most its votes, and the average score and the
    coverage are between 0 and 100. *)
Theorem inspection_scores (inspections : list ProcessedInspection)
    (allComparisons : list Group) (votes : Votes) :
  votesWf votes ->
  plainIds allComparisons ->
  let rows := inspectionScores inspections allComparisons (Some votes) in
  StronglySorted (fun a b => (is_averageScore b <= is_averageScore a)%Q) rows /\
  (forall r, In r rows <->
     exists insp,
       In insp inspections /\
       r = inspectionScoreOf allComparisons votes insp /\
       exists comp v,
         In comp allComparisons /\
         m_inspectionId (g_metadata comp) = pi_inspectionId insp /\
         lookup String.eqb (g_id comp) votes = Some v) /\
  (List.length rows <= List.length inspections)%nat /\
  forall r, In r rows ->
    (exists insp,
       In insp inspections /\
       r = inspectionScoreOf allComparisons votes insp /\
       is_inspectionId r = pi_inspectionId insp) /\
    1 <= is_imagesWithVotes r <= is_totalImages r /\
    is_totalImages r <= Z.of_nat (List.length allComparisons) /\
    is_imagesWithVotes r <= is_totalVotes r /\
    (0 <= is_averageScore r <= 100)%Q /\
    (0 <= is_coverage r <= 100)%Q.
Proof.
  intros Hwf _. cbv zeta. unfold inspectionScores. split.
  { apply stableSort_sorted.
    - intros a b c H1 H2. now apply Qle_trans with (is_averageScore b).
    - intros a b H. apply Qpositive_false in H. lra.
    - intros a b H. apply Qpositive_true in H. lra. }
  split.
  { intros r. rewrite stableSort_In, filter_In, in_map_iff, Z.ltb_lt.
    assert (Hpos : forall insp,
              0 < is_totalVotes (inspectionScoreOf allComparisons votes insp) <->
              exists comp v,
                In comp allComparisons /\
                m_inspectionId (g_metadata comp) = pi_inspectionId insp /\
                lookup String.eqb (g_id comp) votes = Some v).
    { intros insp. unfold inspectionScoreOf. cbn [is_totalVotes].
      rewrite sumOf_sumZ.
      rewrite (proj1 (totalVotes_pos votes _ Hwf)). split.
      - intros (comp & v & Hin & Hv). apply filter_In in Hin.
        destruct Hin as [Hin He]. apply String.eqb_eq in He.
        exists comp, v. tauto.
      - intros (comp & v & Hin & He & Hv). exists comp, v.
        split; [|exact Hv]. apply filter_In. split; [exact Hin|].
        now apply String.eqb_eq. }
    split.
    - intros [(insp & <- & Hin) Hp]. exists insp.
      split; [exact Hin|]. split; [reflexivity|]. now apply Hpos.
    - intros (insp & Hin & -> & Hv). split; [now exists insp|].
      now apply Hpos. }
  split.
  { rewrite (Permutation_length (stableSort_perm _ _)).
    etransitivity; [apply filter_length_le|]. now rewrite length_map. }
  intros r Hin. apply stableSort_In in Hin. apply filter_In in Hin.
  destruct Hin as [Hin Hpos]. apply in_map_iff in Hin.
  destruct Hin as (insp & <- & Hin). apply Z.ltb_lt in Hpos.
  split; [exists insp; repeat split; assumption|].
  revert Hpos. unfold inspectionScoreOf.
  cbn [is_totalVotes is_imagesWithVotes is_totalImages is_averageScore
       is_coverage].
  set (comps := filter _ allComparisons).
  rewrite sumOf_sumZ. intros Hpos.
  destruct (scoresOf_facts votes comps Hwf) as (S1 & S2 & S3 & S4).
  cbv zeta in S2, S3. specialize (S3 Hpos).
  pose proof (filter_length_le
                (fun comp =>
                   String.eqb (m_inspectionId (g_metadata comp))
                     (pi_inspectionId insp)) allComparisons) as Hle.
  fold comps in Hle.
  split; [lia|]. split; [lia|]. split; [lia|]. split.
  - destruct (Z.ltb_spec 0 (Z.of_nat (List.length (scoresOf votes comps))));
      [|lia].
    apply mean_bounds; [lia|].
    destruct (fold_Qplus_bounds (scoresOf votes comps) 0 S4) as [B1 B2].
    split; lra.
  - apply percent_bounds. lia.
Qed.

Lemma inspection_scores_witness :
  exists r,
    In r (inspectionScores [sampleEndToEndProcessed]
            (pi_comparisons sampleEndToEndProcessed)
            (Some (aggregateVotes sampleSnapshot))) /\
    1 <= is_imagesWithVotes r <= is_totalImages r.
Proof.
  assert (Hr : exists r,
             inspectionScores [sampleEndToEndProcessed]
               (pi_comparisons sampleEndToEndProcessed)
               (Some (aggregateVotes sampleSnapshot)) = [r])
    by (eexists; vm_compute; reflexivity).
  destruct Hr as (r & Hr).
  assert (Hin : In r (inspectionScores [sampleEndToEndProcessed]
                        (pi_comparisons sampleEndToEndProcessed)
                        (Some (aggregateVotes sampleSnapshot))))
    by (rewrite Hr; now left).
  destruct (inspection_scores [sampleEndToEndProcessed]
              (pi_comparisons sampleEndToEndProcessed)
              (aggregateVotes sampleSnapshot)
              (aggregateVotes_wf sampleSnapshot)
              sampleEndToEnd_plainIds) as (_ & _ & _ & H).
  destruct (H r Hin) as (_ & H1 & _).
  exists r. split; [exact Hin|exact H1].
Defined.

(** ** Grid views *)

Lemma setAt_length {A : Type} (p : nat) (x : A) (g : list A) :
  List.length (setAt p x g) = List.length g.
Proof.
  revert p. induction g as [|y g IH]; intros [|p]; cbn [setAt List.length];
    try reflexivity. now rewrite IH.
Qed.

Lemma nth_error_setAt {A : Type} (p i : nat) (x : A) (g : list A) :
  (p < List.length g)%nat ->
  nth_error (setAt p x g) i = if Nat.eqb p i then Some x else nth_error g i.
Proof.
  revert p i. induction g as [|y g IH]; intros p i Hp; cbn [List.length] in Hp;
    [lia|].
  destruct p as [|p], i as [|i]; cbn [setAt nth_error Nat.eqb]; try reflexivity.
  apply IH. lia.
Qed.

Lemma placeInGrid_view (viewMap : string -> option (string * nat))
    (grids : Grids) (c : Group) :
  placeInGrid viewMap grids c =
  match viewIn viewMap c with
  | Some (label, position) =>
      (setAt position (Some (cellOf label 1 c)) (fst grids),
       setAt position (Some (cellOf label 0 c)) (snd grids))
  | None => grids
  end.
Proof.
  unfold placeInGrid, viewIn. destruct (m_pov (g_metadata c)); reflexivity.
Qed.

Lemma placeInGrid_fold (viewMap : string -> option (string * nat))
    (l : list Group) (grids : Grids) (i n : nat) :
  List.length (fst grids) = n -> List.length (snd grids) = n ->
  (forall key label pos, viewMap key = Some (label, pos) -> (pos < n)%nat) ->
  let r := fold_left (placeInGrid viewMap) l grids in
  List.length (fst r) = n /\ List.length (snd r) = n /\
  nth_error (fst r) i =
    match lastBy (viewIn viewMap) i l with
    | Some x => Some (cellAt 1 (Some x))
    | None => nth_error (fst grids) i
    end /\
  nth_error (snd r) i =
    match lastBy (viewIn viewMap) i l with
    | Some x => Some (cellAt 0 (Some x))
    | None => nth_error (snd grids) i
    end.
Proof.
  intros H1 H2 Hvm. cbv zeta. revert grids H1 H2.
  induction l as [|c l IH]; intros grids H1 H2; cbn [fold_left lastBy].
  - repeat split; assumption.
  - rewrite placeInGrid_view. unfold hit.
    destruct (viewIn viewMap c) as [[label pos]|] eqn:E.
    + assert (Hpos : (pos < n)%nat).
      { unfold viewIn in E. destruct (m_pov (g_metadata c)); [|discriminate].
        exact (Hvm _ _ _ E). }
      destruct (IH (setAt pos (Some (cellOf label 1 c)) (fst grids),
                    setAt pos (Some (cellOf label 0 c)) (snd grids)))
        as (I1 & I2 & I3 & I4);
        [cbn [fst]; now rewrite setAt_length
        |cbn [snd]; now rewrite setAt_length|].
      split; [exact I1|]. split; [exact I2|].
      rewrite I3, I4. cbn [fst snd].
      rewrite !nth_error_setAt by lia.
      destruct (lastBy (viewIn viewMap) i l); [split; reflexivity|].
      destruct (Nat.eqb pos i); split; reflexivity.
    + destruct (IH grids H1 H2) as (I1 & I2 & I3 & I4).
      rewrite I3, I4.
      destruct (lastBy (viewIn viewMap) i l); repeat split; assumption.
Qed.

Lemma splitByCamera_filter (slimComparisons : list Group) :
  splitByCamera slimComparisons =
  (filter centerComp slimComparisons, filter regularComp slimComparisons).
Proof.
  unfold splitByCamera.
  assert (H : forall l acc,
             fold_left
               (fun acc comp =>
                  match m_pov (g_metadata comp) with
                  | None => acc
                  | Some p =>
                      if isCenterCamera p
                      then ((fst acc ++ [comp])%list, snd acc)
                      else (fst acc, (snd acc ++ [comp])%list)
                  end) l acc =
             ((fst acc ++ filter centerComp l)%list,
              (snd acc ++ filter regularComp l)%list)).
  { induction l as [|c l IH]; intros [a b]; cbn [fold_left filter fst snd].
    - now rewrite !app_nil_r.
    - rewrite IH. unfold centerComp at 2, regularComp at 2.
      destruct (m_pov (g_metadata c)) as [p|]; [|reflexivity].
      destruct (isCenterCamera p); cbn [negb fst snd];
        now rewrite <- app_assoc. }
  now rewrite H.
Qed.

Lemma lastBy_filter (f : Group -> option (string * nat)) (q : Group -> bool)
    (i : nat) (l : list Group) :
  lastBy f i (filter q l) = lastBy (fun c => if q c then f c else None) i l.
Proof.
  induction l as [|c l IH]; [reflexivity|]. cbn [filter lastBy].
  unfold hit. destruct (q c) eqn:E; cbn [lastBy]; rewrite IH.
  - reflexivity.
  - destruct (lastBy _ i l); reflexivity.
Qed.

Lemma lastBy_ext (f g : Group -> option (string * nat)) (i : nat)
    (l : list Group) :
  (forall c, hit f i c = hit g i c) -> lastBy f i l = lastBy g i l.
Proof.
  intros H. induction l as [|c l IH]; [reflexivity|]. cbn [lastBy].
  now rewrite IH, H.
Qed.

Lemma lastBy_none (f : Group -> option (string * nat)) (i : nat)
    (l : list Group) :
  (forall c, hit f i c = None) -> lastBy f i l = None.
Proof.
  intros H. induction l as [|c l IH]; [reflexivity|]. cbn [lastBy].
  now rewrite IH, H.
Qed.

Lemma lastBy_app (f : Group -> option (string * nat)) (i : nat)
    (l1 l2 : list Group) :
  lastBy f i (l1 ++ l2) =
  match lastBy f i l2 with
  | Some x => Some x
  | None => lastBy f i l1
  end.
Proof.
  induction l1 as [|c l1 IH]; cbn [app lastBy].
  - destruct (lastBy f i l2); reflexivity.
  - rewrite IH. destruct (lastBy f i l2); reflexivity.
Qed.

Lemma lastBy_Some (f : Group -> option (string * nat)) (i : nat)
    (l : list Group) (label : string) (comp : Group) :
  lastBy f i l = Some (label, comp) -> In comp l /\ f comp = Some (label, i).
Proof.
  induction l as [|c l IH]; [discriminate|]. cbn [lastBy].
  destruct (lastBy f i l) as [x|].
  - intros [= ->]. destruct (IH eq_refl) as [H1 H2]. split; [now right|exact H2].
  - unfold hit. destruct (f c) as [[lab pos]|] eqn:E; [|discriminate].
    destruct (Nat.eqb_spec pos i) as [->|]; [|discriminate].
    intros [= <- <-]. split; [now left|exact E].
Qed.

Lemma lastBy_None (f : Group -> option (string * nat)) (i : nat)
    (l : list Group) :
  lastBy f i l = None ->
  forall comp label, In comp l -> f comp <> Some (label, i).
Proof.
  induction l as [|c l IH]; [intros _ ? ? []|]. cbn [lastBy].
  destruct (lastBy f i l) as [x|]; [discriminate|].
  intros Hhit comp label [<-|Hin]; [|now apply IH].
  unfold hit in Hhit. intros E. rewrite E, Nat.eqb_refl in Hhit. discriminate.
Qed.

Lemma centerViewMap_range (key label : string) (pos : nat) :
  centerViewMap key = Some (label, pos) -> (pos < 8)%nat /\ Nat.even pos = true.
Proof.
  unfold centerViewMap.
  repeat match goal with
         | |- context [if String.eqb ?a ?b then _ else _] =>
             destruct (String.eqb a b)
         end; intros [= <- <-] || discriminate; split; (lia || reflexivity).
Qed.

Lemma slimViewMap_range (key label : string) (pos : nat) :
  slimViewMap key = Some (label, pos) -> (pos < 8)%nat /\ Nat.even pos = false.
Proof.
  unfold slimViewMap.
  repeat match goal with
         | |- context [if String.eqb ?a ?b then _ else _] =>
             destruct (String.eqb a b)
         end; intros [= <- <-] || discriminate; split; (lia || reflexivity).
Qed.

Lemma hit_parity (f : Group -> option (string * nat)) (i : nat) (c : Group)
    (b : bool) :
  (forall label pos, f c = Some (label, pos) -> Nat.even pos = b) ->
  Nat.even i = negb b -> hit f i c = None.
Proof.
  intros Hf Hi. unfold hit. destruct (f c) as [[label pos]|] eqn:E;
    [|reflexivity].
  destruct (Nat.eqb_spec pos i) as [->|]; [|reflexivity].
  rewrite (Hf _ _ eq_refl) in Hi. destruct b; discriminate.
Qed.

Lemma slimViewOf_cases (c : Group) :
  let viaCenter :=
    if String.eqb (m_bucketType (g_metadata c)) "SlimOverview"
    then (if centerComp c then viewIn centerViewMap c else None)
    else None in
  let viaOther :=
    if String.eqb (m_bucketType (g_metadata c)) "SlimOverview"
    then (if regularComp c then viewIn slimViewMap c else None)
    else None in
  (forall label pos, viaCenter = Some (label, pos) ->
     (pos < 8)%nat /\ Nat.even pos = true /\
     slimViewOf c = Some (label, pos)) /\
  (forall label pos, viaOther = Some (label, pos) ->
     (pos < 8)%nat /\ Nat.even pos = false /\
     slimViewOf c = Some (label, pos)) /\
  (forall label pos, slimViewOf c = Some (label, pos) ->
     (pos < 8)%nat /\
     m_bucketType (g_metadata c) = "SlimOverview" /\
     exists p, m_pov (g_metadata c) = Some p /\
               isCenterCamera p = Nat.even pos /\
               (if Nat.even pos then viaCenter else viaOther) =
                 Some (label, pos)).
Proof.
  cbv zeta. unfold slimViewOf, centerComp, regularComp, viewIn.
  destruct (String.eqb_spec (m_bucketType (g_metadata c)) "SlimOverview")
    as [Eb|_]; [|repeat split; discriminate].
  destruct (m_pov (g_metadata c)) as [p|]; [|repeat split; discriminate].
  destruct (isCenterCamera p) eqn:Ec; cbn [negb].
  - split; [|split; [discriminate|]]; intros label pos E;
      destruct (centerViewMap_range _ _ _ E) as [H1 H2].
    + repeat split; assumption.
    + split; [exact H1|]. split; [exact Eb|]. exists p.
      rewrite H2. repeat split; try reflexivity; assumption.
  - split; [discriminate|split]; intros label pos E;
      destruct (slimViewMap_range _ _ _ E) as [H1 H2].
    + repeat split; assumption.
    + split; [exact H1|]. split; [exact Eb|]. exists p.
      rewrite H2. repeat split; try reflexivity; assumption.
Qed.

Lemma hit_eq (f g : Group -> option (string * nat)) (i : nat) (c : Group) :
  (forall label, f c = Some (label, i) <-> g c = Some (label, i)) ->
  hit f i c = hit g i c.
Proof.
  intros H. unfold hit.
  destruct (f c) as [[lf pf]|] eqn:Ef; destruct (g c) as [[lg pg]|] eqn:Eg.
  - destruct (Nat.eqb_spec pf i) as [->|Hf].
    + pose proof (proj1 (H lf) eq_refl) as Hg.
      injection Hg as -> ->. now rewrite Nat.eqb_refl.
    + destruct (Nat.eqb_spec pg i) as [->|Hg]; [|reflexivity].
      pose proof (proj2 (H lg) eq_refl) as Hf'. congruence.
  - destruct (Nat.eqb_spec pf i) as [->|Hf]; [|reflexivity].
    pose proof (proj1 (H lf) eq_refl). congruence.
  - destruct (Nat.eqb_spec pg i) as [->|Hg]; [|reflexivity].
    pose proof (proj2 (H lg) eq_refl). congruence.
  - reflexivity.
Qed.

(** The cell of position [i] in both SlimOverview grids. *)
Lemma slimGrid_cells (comparisons : list Group) (i : nat) :
  (i < 8)%nat ->
  let grids := getSlimOverviewGridData comparisons in
  List.length (fst grids) = 8%nat /\ List.length (snd grids) = 8%nat /\
  nth_error (fst grids) i = Some (cellAt 1 (lastView i comparisons)) /\
  nth_error (snd grids) i = Some (cellAt 0 (lastView i comparisons)).
Proof.
  intros Hi. cbv zeta. unfold getSlimOverviewGridData.
  rewrite splitByCamera_filter.
  set (slim := filter _ comparisons).
  set (init := (repeat None 8, repeat None 8) : Grids).
  destruct (placeInGrid_fold centerViewMap (filter centerComp slim) init i 8
              eq_refl eq_refl) as (C1 & C2 & C3 & C4);
    [intros key label pos E; now apply (centerViewMap_range key label)|].
  cbv zeta in C1, C2, C3, C4.
  destruct (placeInGrid_fold slimViewMap (filter regularComp slim)
              (fold_left (placeInGrid centerViewMap) (filter centerComp slim)
                 init) i 8 C1 C2) as (R1 & R2 & R3 & R4);
    [intros key label pos E; now apply (slimViewMap_range key label)|].
  cbv zeta in R1, R2, R3, R4.
  split; [exact R1|]. split; [exact R2|].
  rewrite R3, R4, C3, C4. unfold slim. rewrite !lastBy_filter.
  assert (Hinit : nth_error (fst init) i = Some None /\
                  nth_error (snd init) i = Some None).
  { unfold init. cbn [fst snd].
    do 8 (destruct i as [|i]; [split; reflexivity|]). lia. }
  destruct Hinit as [-> ->]. unfold lastView.
  destruct (Nat.even i) eqn:Ev.
  - rewrite (lastBy_none _ i comparisons);
      [|intros c; apply (hit_parity _ i c false);
        [intros label pos E;
         now apply (proj1 (proj2 (slimViewOf_cases c)) label pos)
        |exact Ev]].
    rewrite (lastBy_ext _ slimViewOf i comparisons).
    + destruct (lastBy slimViewOf i comparisons); split; reflexivity.
    + intros c. apply hit_eq. intros label.
      destruct (slimViewOf_cases c) as (H1 & _ & H3). cbv zeta in H1, H3.
      split; intros E.
      * now apply (H1 label i).
      * destruct (H3 label i E) as (_ & _ & p & _ & _ & H).
        rewrite Ev in H. exact H.
  - rewrite (lastBy_none
               (fun c =>
                  if String.eqb (m_bucketType (g_metadata c)) "SlimOverview"
                  then if centerComp c then viewIn centerViewMap c else None
                  else None) i comparisons);
      [|intros c; apply (hit_parity _ i c true);
        [intros label pos E;
         now apply (proj1 (slimViewOf_cases c) label pos)
        |exact Ev]].
    rewrite (lastBy_ext _ slimViewOf i comparisons).
    + destruct (lastBy slimViewOf i comparisons); split; reflexivity.
    + intros c. apply hit_eq. intros label.
      destruct (slimViewOf_cases c) as (_ & H2 & H3). cbv zeta in H2, H3.
      split; intros E.
      * now apply (H2 label i).
      * destruct (H3 label i E) as (_ & _ & p & _ & _ & H).
        rewrite Ev in H. exact H.
Qed.

(** X19.  Both SlimOverview grids have 8 positions.  Position [i] of the
    Latest and of the Previous grid shows the same comparison, with the
    same label: the last SlimOverview comparison of the input that has a
    POV and whose camera and side are mapped to position [i]; both are
    empty when there is none.  Center-camera views go to the even
    positions, the other views to the odd ones. *)
Theorem slim_grid_positions (comparisons : list Group) (i : nat) :
  (i < 8)%nat ->
  let grids := getSlimOverviewGridData comparisons in
  List.length (fst grids) = 8%nat /\ List.length (snd grids) = 8%nat /\
  nth_error (fst grids) i = Some (cellAt 1 (lastView i comparisons)) /\
  nth_error (snd grids) i = Some (cellAt 0 (lastView i comparisons)) /\
  (forall l1 l2, comparisons = (l1 ++ l2)%list ->
     lastView i comparisons =
     match lastView i l2 with
     | Some x => Some x
     | None => lastView i l1
     end) /\
  match lastView i comparisons with
  | Some (label, comp) =>
      In comp comparisons /\
      slimViewOf comp = Some (label, i) /\
      m_bucketType (g_metadata comp) = "SlimOverview" /\
      exists p, m_pov (g_metadata comp) = Some p /\
                isCenterCamera p = Nat.even i
  | None =>
      forall comp label, In comp comparisons ->
                         slimViewOf comp <> Some (label, i)
  end.
Proof.
  intros Hi. cbv zeta.
  destruct (slimGrid_cells comparisons i Hi) as (H1 & H2 & H3 & H4).
  split; [exact H1|]. split; [exact H2|]. split; [exact H3|].
  split; [exact H4|]. split.
  - intros l1 l2 ->. apply lastBy_app.
  - unfold lastView.
    destruct (lastBy slimViewOf i comparisons) as [[label comp]|] eqn:E.
    + destruct (lastBy_Some _ _ _ _ _ E) as [Hin Hv].
      split; [exact Hin|]. split; [exact Hv|].
      destruct (slimViewOf_cases comp) as (_ & _ & H).
      destruct (H label i Hv) as (_ & Hb & p & Hp & Hc & _).
      split; [exact Hb|]. exists p. split; assumption.
    + now apply lastBy_None.
Qed.

Lemma slim_grid_positions_witness :
  exists cell,
    nth_error
      (fst (getSlimOverviewGridData (pi_comparisons sampleEndToEndProcessed)))
      1 = Some (Some cell) /\
    gc_label cell = "Front Left".
Proof.
  destruct (slim_grid_positions (pi_comparisons sampleEndToEndProcessed) 1
              ltac:(lia)) as (_ & _ & H & _).
  rewrite H. eexists. split; vm_compute; reflexivity.
Defined.

Lemma placeZoomers_nth (comps : list Group) (idx i n : nat) (grids : Grids) :
  List.length (fst grids) = n -> List.length (snd grids) = n ->
  (idx + List.length comps <= n)%nat ->
  let r := placeZoomers idx comps grids in
  List.length (fst r) = n /\ List.length (snd r) = n /\
  nth_error (fst r) i =
    (if Nat.leb idx i
     then match nth_error comps (i - idx) with
          | Some comp => Some (Some (cellOf (zoomerLabel comp) 1 comp))
          | None => nth_error (fst grids) i
          end
     else nth_error (fst grids) i) /\
  nth_error (snd r) i =
    (if Nat.leb idx i
     then match nth_error comps (i - idx) with
          | Some comp => Some (Some (cellOf (zoomerLabel comp) 0 comp))
          | None => nth_error (snd grids) i
          end
     else nth_error (snd grids) i).
Proof.
  cbv zeta. revert idx grids.
  induction comps as [|c comps IH]; intros idx grids H1 H2 Hn;
    cbn [placeZoomers List.length] in *.
  - split; [exact H1|]. split; [exact H2|].
    destruct (Nat.leb idx i); [|split; reflexivity].
    destruct (i - idx)%nat; split; reflexivity.
  - fold (zoomerLabel c).
    destruct (IH (S idx)
                (setAt idx (Some (cellOf (zoomerLabel c) 1 c)) (fst grids),
                 setAt idx (Some (cellOf (zoomerLabel c) 0 c)) (snd grids)))
      as (I1 & I2 & I3 & I4);
      [cbn [fst]; now rewrite setAt_length
      |cbn [snd]; now rewrite setAt_length|lia|].
    split; [exact I1|]. split; [exact I2|].
    rewrite I3, I4. cbn [fst snd]. rewrite !nth_error_setAt by lia.
    destruct (Nat.leb_spec idx i) as [Hle|Hlt].
    + destruct (Nat.eqb_spec idx i) as [->|Hne].
      * rewrite Nat.sub_diag. cbn [nth_error].
        destruct (Nat.leb_spec (S i) i); [lia|]. split; reflexivity.
      * destruct (Nat.leb_spec (S idx) i); [|lia].
        replace (i - idx)%nat with (S (i - S idx)) by lia. cbn [nth_error].
        split; reflexivity.
    + destruct (Nat.leb_spec (S idx) i); [lia|].
      destruct (Nat.eqb_spec idx i); [lia|]. split; reflexivity.
Qed.

(** X20.  Both Zoomer grids have 4 positions.  Position [i] of the Latest
    and of the Previous grid shows the [i]-th Zoomer comparison of the
    input, labelled with its name, or ["Unknown"] when the name is empty;
    the position is empty when there are at most [i] Zoomer comparisons,
    and a fifth or later Zoomer comparison is not shown. *)
Theorem zoomer_grid_positions (comparisons : list Group) (i : nat) :
  (i < 4)%nat ->
  let grids := getZoomerGridData comparisons in
  let cell slot comp := cellOf (zoomerLabel comp) slot comp in
  List.length (fst grids) = 4%nat /\ List.length (snd grids) = 4%nat /\
  nth_error (fst grids) i =
    Some (option_map (cell 1%nat) (nth_error (zoomersOf comparisons) i)) /\
  nth_error (snd grids) i =
    Some (option_map (cell 0%nat) (nth_error (zoomersOf comparisons) i)) /\
  (forall comp, In comp comparisons ->
     (exists j c, nth_error (fst grids) j = Some (Some c) /\
                  gc_comparison c = comp) ->
     exists j, (j < 4)%nat /\ nth_error (zoomersOf comparisons) j = Some comp).
Proof.
  intros Hi. cbv zeta. unfold getZoomerGridData. fold (zoomersOf comparisons).
  assert (Hcells : forall j,
    List.length
      (fst (placeZoomers 0 (firstn 4 (zoomersOf comparisons))
              (repeat None 4, repeat None 4))) = 4%nat /\
    List.length
      (snd (placeZoomers 0 (firstn 4 (zoomersOf comparisons))
              (repeat None 4, repeat None 4))) = 4%nat /\
    ((j < 4)%nat ->
     nth_error
       (fst (placeZoomers 0 (firstn 4 (zoomersOf comparisons))
               (repeat None 4, repeat None 4))) j =
       Some (option_map (fun comp => cellOf (zoomerLabel comp) 1 comp)
               (nth_error (zoomersOf comparisons) j)) /\
     nth_error
       (snd (placeZoomers 0 (firstn 4 (zoomersOf comparisons))
               (repeat None 4, repeat None 4))) j =
       Some (option_map (fun comp => cellOf (zoomerLabel comp) 0 comp)
               (nth_error (zoomersOf comparisons) j)))).
  { intros j.
    destruct (placeZoomers_nth (firstn 4 (zoomersOf comparisons)) 0 j 4
                (repeat None 4, repeat None 4) eq_refl eq_refl)
      as (P1 & P2 & P3 & P4);
      [cbn [Nat.add]; apply firstn_le_length|].
    cbv zeta in P1, P2, P3, P4.
    split; [exact P1|]. split; [exact P2|]. intros Hj.
    rewrite P3, P4. cbn [Nat.leb fst snd]. rewrite Nat.sub_0_r.
    rewrite nth_error_firstn.
    destruct (Nat.ltb_spec j 4) as [_|]; [|lia].
    assert (Hinit : nth_error (repeat (@None GridCell) 4) j = Some None).
    { do 4 (destruct j as [|j]; [reflexivity|]). lia. }
    rewrite Hinit.
    destruct (nth_error (zoomersOf comparisons) j); split; reflexivity. }
  destruct (Hcells i) as (H1 & H2 & H3).
  destruct (H3 Hi) as [H4 H5].
  split; [exact H1|]. split; [exact H2|]. split; [exact H4|].
  split; [exact H5|].
  intros comp Hin (j & c & Hj & Hc).
  assert (Hj4 : (j < 4)%nat).
  { rewrite <- H1. apply nth_error_Some. congruence. }
  exists j. split; [exact Hj4|].
  destruct (Hcells j) as (_ & _ & H6). destruct (H6 Hj4) as [H7 _].
  rewrite H7 in Hj.
  destruct (nth_error (zoomersOf comparisons) j) as [comp'|];
    [|discriminate].
  cbn [option_map] in Hj. injection Hj as <-. cbn [cellOf gc_comparison] in Hc.
  now subst.
Qed.

Lemma zoomer_grid_positions_witness :
  exists cell,
    nth_error
      (fst (getZoomerGridData
              (processInspectionData codePointCompare sampleZoomer)))
      0 = Some (Some cell) /\
    gc_isPublished cell = false.
Proof.
  destruct (zoomer_grid_positions
              (processInspectionData codePointCompare sampleZoomer) 0
              ltac:(lia)) as (_ & _ & H & _).
  rewrite H. eexists. split; vm_compute; reflexivity.
Defined.

(** ** Inspection ids of an uploaded file *)

Lemma hasChar_trimStart (c : ascii) (s : string) :
  hasChar c (trimStart s) = true -> hasChar c s = true.
Proof.
  induction s as [|x s IH]; cbn [trimStart hasChar]; [discriminate|].
  destruct (is_space x); [|exact (fun H => H)].
  intros H. rewrite (IH H). apply orb_true_r.
Qed.

Lemma hasChar_trimEnd (c : ascii) (s : string) :
  hasChar c (trimEnd s) = true -> hasChar c s = true.
Proof.
  induction s as [|x s IH]; cbn [trimEnd hasChar]; [discriminate|].
  destruct (is_space x && negb (nonEmpty (trimEnd s)))%bool;
    cbn [hasChar]; [discriminate|].
  intros H. apply orb_true_iff in H. apply orb_true_iff.
  destruct H as [H|H]; [now left|right; now apply IH].
Qed.

Lemma hasChar_trim (c : ascii) (s : string) :
  hasChar c s = false -> hasChar c (trim s) = false.
Proof.
  intros H. destruct (hasChar c (trim s)) eqn:E; [|reflexivity].
  unfold trim in E. apply hasChar_trimEnd, hasChar_trimStart in E. congruence.
Qed.

Lemma splitOn_cons (sep : ascii) (s : string) :
  exists piece pieces, splitOn sep s = piece :: pieces.
Proof.
  destruct s as [|c s]; cbn [splitOn]; [now eexists; eexists|].
  destruct (Ascii.eqb c sep); [now eexists; eexists|].
  destruct (splitOn sep s); now eexists; eexists.
Qed.

Lemma splitOn_pieces (sep : ascii) (s piece : string) :
  In piece (splitOn sep s) -> hasChar sep piece = false.
Proof.
  revert piece. induction s as [|c s IH]; intros piece; cbn [splitOn].
  - intros [<-|[]]. reflexivity.
  - destruct (Ascii.eqb c sep) eqn:E.
    + intros [<-|H]; [reflexivity|now apply IH].
    + destruct (splitOn sep s) as [|p ps].
      * intros [<-|[]]. cbn [hasChar]. now rewrite E.
      * intros [<-|H]; [|apply IH; now right].
        cbn [hasChar]. rewrite E. apply IH. now left.
Qed.

Lemma splitOn_hd_sub (c sep : ascii) (s : string) :
  hasChar c s = false -> hasChar c (hd EmptyString (splitOn sep s)) = false.
Proof.
  induction s as [|x s IH]; cbn [splitOn hasChar]; [reflexivity|].
  intros H. apply orb_false_iff in H. destruct H as [H1 H2].
  destruct (Ascii.eqb x sep); [reflexivity|].
  specialize (IH H2).
  destruct (splitOn sep s) as [|p ps]; cbn [hd hasChar] in *;
    rewrite H1; [reflexivity|exact IH].
Qed.

Lemma splitOn_nosep (sep : ascii) (s : string) :
  hasChar sep s = false -> splitOn sep s = [s].
Proof.
  induction s as [|x s IH]; cbn [splitOn hasChar]; [reflexivity|].
  intros H. apply orb_false_iff in H. destruct H as [H1 H2].
  now rewrite H1, (IH H2).
Qed.

Lemma splitOn_app (sep : ascii) (a b : string) :
  hasChar sep a = false ->
  splitOn sep (a ++ String sep b) = a :: splitOn sep b.
Proof.
  induction a as [|x a IH]; cbn [splitOn hasChar append].
  - intros _. now rewrite Ascii.eqb_refl.
  - intros H. apply orb_false_iff in H. destruct H as [H1 H2].
    now rewrite H1, (IH H2).
Qed.

Lemma splitOn_joinLines (ids : list string) :
  ids <> [] ->
  (forall id, In id ids -> hasChar newline id = false) ->
  splitOn newline (joinLines ids) = ids.
Proof.
  induction ids as [|id ids IH]; [congruence|]. intros _ H.
  destruct ids as [|id' ids].
  - cbn [joinLines]. apply splitOn_nosep. apply H. now left.
  - change (joinLines (id :: id' :: ids))
      with (id ++ String newline (joinLines (id' :: ids))).
    rewrite splitOn_app by (apply H; now left).
    rewrite IH; [reflexivity|discriminate|].
    intros x Hx. apply H. now right.
Qed.

Lemma cleanId_line (ids : list string) :
  (forall id, In id ids -> cleanId id) ->
  filter (fun line => nonEmpty (trim line)) ids = ids /\
  filter nonEmpty
    (map (fun line => trim (hd EmptyString (splitOn comma line))) ids) = ids.
Proof.
  induction ids as [|id ids IH]; [split; reflexivity|]. intros H.
  destruct (H id (or_introl eq_refl)) as (H1 & H2 & H3 & H4).
  destruct IH as [I1 I2]; [intros x Hx; apply H; now right|].
  cbn [filter map]. rewrite (splitOn_nosep comma id H3). cbn [hd].
  rewrite H2, H1, I1, I2. split; reflexivity.
Qed.

Lemma skipn_In {A : Type} (n : nat) (l : list A) (x : A) :
  In x (skipn n l) -> In x l.
Proof.
  revert l. induction n as [|n IH]; intros [|y l]; cbn [skipn]; try tauto.
  intros H. right. now apply IH.
Qed.

(** X21.  The inspection ids read from an uploaded file are never an
    empty list, and every id is non-empty, trimmed and free of commas and
    line breaks. *)
Theorem parseInspectionIds_clean (text : string) (ids : list string) :
  parseInspectionIds text = Some ids ->
  ids <> [] /\ forall id, In id ids -> cleanId id.
Proof.
  unfold parseInspectionIds.
  set (lines := filter _ (splitOn newline text)).
  set (startIndex := match lines with
                     | [] => 0%nat
                     | line0 :: _ => _
                     end).
  intros H.
  assert (Hids : ids =
                 filter nonEmpty
                   (map (fun line => trim (hd EmptyString (splitOn comma line)))
                      (skipn startIndex lines)) /\ ids <> []).
  { destruct (filter nonEmpty _) as [|x l]; [discriminate|].
    injection H as <-. split; [reflexivity|discriminate]. }
  clear H. destruct Hids as [-> Hne]. split; [exact Hne|].
  intros id Hin. apply filter_In in Hin. destruct Hin as [Hin Hnon].
  apply in_map_iff in Hin. destruct Hin as (line & <- & Hline).
  assert (Hl : hasChar newline line = false).
  { apply skipn_In in Hline. unfold lines in Hline.
    apply filter_In in Hline. now apply (splitOn_pieces newline text). }
  split; [exact Hnon|]. split; [apply trim_idem|]. split.
  - apply hasChar_trim.
    destruct (splitOn_cons comma line) as (p & ps & E).
    apply (splitOn_pieces comma line). rewrite E. now left.
  - apply hasChar_trim. now apply splitOn_hd_sub.
Qed.

Lemma parseInspectionIds_clean_witness :
  parseInspectionIds sampleCsv = Some ["abc-1"; "abc-2"] /\
  forall id, In id ["abc-1"; "abc-2"] -> cleanId id.
Proof.
  assert (E : parseInspectionIds sampleCsv = Some ["abc-1"; "abc-2"])
    by (vm_compute; reflexivity).
  split; [exact E|].
  exact (proj2 (parseInspectionIds_clean sampleCsv ["abc-1"; "abc-2"] E)).
Defined.

(** X22.  Reading back a file made of clean inspection ids, one per line,
    gives these ids in order: without header when the first id does not
    contain the word inspection in any letter case, and behind any
    one-line header that does. *)
Theorem parseInspectionIds_round_trip (ids : list string) :
  ids <> [] ->
  (forall id, In id ids -> cleanId id) ->
  (includes (toLowerCase (hd EmptyString ids)) "inspection" = false ->
   parseInspectionIds (joinLines ids) = Some ids) /\
  (forall header,
     hasChar newline header = false ->
     nonEmpty (trim header) = true ->
     includes (toLowerCase header) "inspection" = true ->
     parseInspectionIds (header ++ String newline (joinLines ids)) = Some ids).
Proof.
  intros Hne Hclean.
  assert (Hnl : forall id, In id ids -> hasChar newline id = false)
    by (intros id Hin; now apply Hclean).
  destruct (cleanId_line ids Hclean) as [C1 C2].
  split.
  - intros Hfirst. unfold parseInspectionIds.
    rewrite (splitOn_joinLines ids Hne Hnl), C1.
    destruct ids as [|id0 ids']; [congruence|].
    cbn [hd] in Hfirst. rewrite Hfirst. cbn [skipn]. rewrite C2. reflexivity.
  - intros header H1 H2 H3. unfold parseInspectionIds.
    rewrite (splitOn_app newline header _ H1),
      (splitOn_joinLines ids Hne Hnl).
    cbn [filter]. rewrite H2, C1, H3. cbn [skipn]. rewrite C2.
    destruct ids; [congruence|reflexivity].
Qed.

Lemma parseInspectionIds_round_trip_witness :
  parseInspectionIds (joinLines ["abc-1"; "abc-2"]) = Some ["abc-1"; "abc-2"] /\
  parseInspectionIds ("inspectionId" ++ String newline (joinLines ["abc-1"; "abc-2"]))
    = Some ["abc-1"; "abc-2"].
Proof.
  destruct (parseInspectionIds_round_trip ["abc-1"; "abc-2"]) as [H1 H2].
  - discriminate.
  - intros id [<-|[<-|[]]]; repeat split; reflexivity.
  - split; [apply H1; reflexivity|apply H2; reflexivity].
Defined.

(** ** Navigation *)

Lemma at_Some {A : Type} (l : list A) (i : Z) :
  (exists x, at_ l i = Some x) <-> 0 <= i < Z.of_nat (List.length l).
Proof.
  unfold at_. destruct (Z.ltb_spec i 0) as [Hneg|Hpos].
  - split; [intros (x & H); discriminate|lia].
  - split.
    + intros (x & H).
      assert (Hlt : (Z.to_nat i < List.length l)%nat)
        by (apply nth_error_Some; congruence).
      lia.
    + intros [_ H].
      destruct (nth_error l (Z.to_nat i)) as [x|] eqn:E; [now exists x|].
      apply nth_error_None in E. lia.
Qed.

Lemma navInRange_bounds (s : NavState) :
  navInRange s <->
  0 <= currentInspectionIndex s < Z.of_nat (List.length (inspections s)) /\
  forall insp,
    at_ (inspections s) (currentInspectionIndex s) = Some insp ->
    pi_comparisons insp <> [] ->
    0 <= currentComparisonIndex s <
      Z.of_nat (List.length (pi_comparisons insp)).
Proof.
  unfold navInRange. split.
  - intros (insp & Hi & Hc). split.
    + apply at_Some. now exists insp.
    + intros insp' Hi' Hne. assert (insp' = insp) by congruence. subst insp'.
      apply at_Some. now apply Hc.
  - intros [Hi Hc]. apply at_Some in Hi. destruct Hi as (insp & Hi).
    exists insp. split; [exact Hi|]. intros Hne. apply at_Some.
    now apply Hc.
Qed.

Lemma onKeyDown_inRange (s : NavState) (key : Key) :
  navInRange s ->
  navInRange (onKeyDown s key) /\
  inspections (onKeyDown s key) = inspections s /\
  zoom (onKeyDown s key) = zoom s.
Proof.
  intros H. split; [|destruct key; cbn [onKeyDown]; try (split; reflexivity);
                     unfold goToNextComparison;
                     destruct (at_ (inspections s) (currentInspectionIndex s));
                     split; reflexivity].
  apply navInRange_bounds in H. destruct H as [Hi Hc].
  apply navInRange_bounds.
  assert (Hlen : forall insp : ProcessedInspection,
             pi_comparisons insp <> [] ->
             0 < Z.of_nat (List.length (pi_comparisons insp))).
  { intros insp Hne. destruct (pi_comparisons insp); [congruence|].
    cbn [List.length]. lia. }
  destruct key; cbn [onKeyDown].
  - unfold goToPreviousComparison.
    cbn [inspections currentInspectionIndex currentComparisonIndex].
    split; [exact Hi|]. intros insp Hin Hne. specialize (Hc insp Hin Hne). lia.
  - unfold goToNextComparison.
    destruct (at_ (inspections s) (currentInspectionIndex s)) as [cur|] eqn:E.
    + cbn [inspections currentInspectionIndex currentComparisonIndex].
      split; [exact Hi|]. intros insp Hin Hne.
      assert (insp = cur) by congruence. subst insp.
      specialize (Hc cur eq_refl Hne). specialize (Hlen cur Hne). lia.
    + split; [exact Hi|]. intros insp Hin. congruence.
  - unfold goToPrevInspection.
    cbn [inspections currentInspectionIndex currentComparisonIndex].
    split; [lia|]. intros insp Hin Hne.
    destruct (Z.eqb_spec (Z.max 0 (currentInspectionIndex s - 1))
                (currentInspectionIndex s)) as [E|N]; cbn [negb].
    + rewrite E in Hin. exact (Hc insp Hin Hne).
    + specialize (Hlen insp Hne). lia.
  - unfold goToNextInspection.
    cbn [inspections currentInspectionIndex currentComparisonIndex].
    split; [lia|]. intros insp Hin Hne.
    destruct (Z.eqb_spec
                (Z.min (Z.of_nat (List.length (inspections s)) - 1)
                   (currentInspectionIndex s + 1))
                (currentInspectionIndex s)) as [E|N]; cbn [negb].
    + rewrite E in Hin. exact (Hc insp Hin Hne).
    + specialize (Hlen insp Hne). lia.
  - split; assumption.
Qed.

(** X23.  Keyboard navigation never leaves the loaded data: from a state
    whose current inspection exists, and whose current comparison exists
    when that inspection has comparisons, every sequence of keys leads to
    such a state, with the same inspections and the same zoom.  Moving to
    another inspection selects its first comparison, and the zoom stays
    between 50 and 200 whatever the adjustment. *)
Theorem navigation_in_range (s : NavState) (keys : list Key) :
  navInRange s ->
  let s' := fold_left onKeyDown keys s in
  navInRange s' /\ inspections s' = inspections s /\ zoom s' = zoom s /\
  (forall key,
     currentInspectionIndex (onKeyDown s key) <> currentInspectionIndex s ->
     currentComparisonIndex (onKeyDown s key) = 0) /\
  (forall delta,
     50 <= zoom (adjustZoom delta s) <= 200 /\
     (50 <= zoom s + delta <= 200 ->
      zoom (adjustZoom delta s) = zoom s + delta) /\
     navInRange (adjustZoom delta s)).
Proof.
  intros H. cbv zeta.
  assert (Hfold : navInRange (fold_left onKeyDown keys s) /\
                  inspections (fold_left onKeyDown keys s) = inspections s /\
                  zoom (fold_left onKeyDown keys s) = zoom s).
  { revert s H. induction keys as [|key keys IH]; intros s H; cbn [fold_left];
      [repeat split; assumption|].
    destruct (onKeyDown_inRange s key H) as (K1 & K2 & K3).
    destruct (IH _ K1) as (I1 & I2 & I3).
    split; [exact I1|]. split; congruence. }
  destruct Hfold as (F1 & F2 & F3).
  split; [exact F1|]. split; [exact F2|]. split; [exact F3|]. split.
  - intros key. destruct key; cbn [onKeyDown].
    + unfold goToPreviousComparison. cbn [currentInspectionIndex]. congruence.
    + unfold goToNextComparison.
      destruct (at_ (inspections s) (currentInspectionIndex s));
        cbn [currentInspectionIndex]; congruence.
    + unfold goToPrevInspection.
      cbn [currentInspectionIndex currentComparisonIndex]. intros Hne.
      destruct (Z.eqb_spec (Z.max 0 (currentInspectionIndex s - 1))
                  (currentInspectionIndex s)); [congruence|reflexivity].
    + unfold goToNextInspection.
      cbn [currentInspectionIndex currentComparisonIndex]. intros Hne.
      destruct (Z.eqb_spec
                  (Z.min (Z.of_nat (List.length (inspections s)) - 1)
                     (currentInspectionIndex s + 1))
                  (currentInspectionIndex s)); [congruence|reflexivity].
    + congruence.
  - intros delta. unfold adjustZoom. cbn [zoom].
    split; [lia|]. split; [lia|]. exact H.
Qed.

Lemma navigation_in_range_witness :
  currentInspectionIndex
    (fold_left onKeyDown [ArrowDown; ArrowRight; ArrowRight; ArrowUp]
       (mkNav [sampleEndToEndProcessed] 0 0 100)) = 0 /\
  navInRange
    (fold_left onKeyDown [ArrowDown; ArrowRight; ArrowRight; ArrowUp]
       (mkNav [sampleEndToEndProcessed] 0 0 100)).
Proof.
  split; [vm_compute; reflexivity|].
  apply (navigation_in_range (mkNav [sampleEndToEndProcessed] 0 0 100)
           [ArrowDown; ArrowRight; ArrowRight; ArrowUp]).
  exists sampleEndToEndProcessed. split; [reflexivity|].
  intros _. eexists. vm_compute. reflexivity.
Defined.

(** ** Slot labels *)

Lemma getSlotPublishLabel_slot (md : Metadata) (idx : nat) :
  idx <> 2%nat ->
  getSlotPublishLabel md idx =
  if slotPublished match nth_error (m_renditionData md) idx with
                   | Some d => d
                   | None => None
                   end
  then "Published" else "Generated".
Proof.
  intros Hne. unfold getSlotPublishLabel.
  destruct (Nat.eqb_spec idx 2) as [E|_]; [contradiction|].
  destruct (nth_error (m_renditionData md) idx) as [[d|]|]; reflexivity.
Qed.

Lemma publishedLabels_slots (md : Metadata) :
  publishedLabels md =
  List.length (filter slotPublished (firstn 2 (m_renditionData md))) /\
  (isRowPublished md = true <-> (0 < publishedLabels md)%nat).
Proof.
  unfold publishedLabels, isRowPublished. cbn [filter].
  rewrite !getSlotPublishLabel_slot by discriminate.
  fold slotPublished.
  change (fun d : option RenditionDatum =>
            match d with
            | Some d0 => (rd_isActive d0 && truthyOpt (rd_activeImage d0))%bool
            | None => false
            end) with slotPublished.
  destruct (m_renditionData md) as [|a [|b rd]]; cbn [nth_error firstn filter existsb].
  - cbn. split; [reflexivity|]. split; [discriminate|lia].
  - destruct (slotPublished a); cbn; (split; [reflexivity|]);
      split; try discriminate; try lia; reflexivity.
  - destruct (slotPublished a), (slotPublished b); cbn;
      (split; [reflexivity|]); split; try discriminate; try lia; reflexivity.
Qed.

(** X24.  The slot label, the published flag, the grid cells and the
    validator agree.  A slot is labelled ["Original"] exactly at index 2
    and otherwise ["Published"] or ["Generated"], ["Published"] exactly
    when its rendition data is active with an image.  A card is flagged
    published exactly when one of its first two slots is labelled
    ["Published"], which is also what a grid cell of that slot reports, and
    the validator's published card count is the number of such labels. *)
Theorem slot_labels_agree (comparisons : list Group) :
  (forall md idx,
     (getSlotPublishLabel md idx = "Original" <-> idx = 2%nat) /\
     (getSlotPublishLabel md idx = "Published" <->
      idx <> 2%nat /\
      exists d, nth_error (m_renditionData md) idx = Some (Some d) /\
                rd_isActive d = true /\ truthyOpt (rd_activeImage d) = true) /\
     (getSlotPublishLabel md idx = "Original" \/
      getSlotPublishLabel md idx = "Published" \/
      getSlotPublishLabel md idx = "Generated")) /\
  (forall md,
     isRowPublished md = true <->
     getSlotPublishLabel md 0 = "Published" \/
     getSlotPublishLabel md 1 = "Published") /\
  (forall label slot comp,
     (slot < 2)%nat ->
     (gc_isPublished (cellOf label slot comp) = true <->
      getSlotPublishLabel (g_metadata comp) slot = "Published")) /\
  fst (countCards comparisons) =
    sumZ (map (fun comp => Z.of_nat (publishedLabels (g_metadata comp)))
            comparisons).
Proof.
  assert (Hlabel : forall md idx,
            idx <> 2%nat ->
            (getSlotPublishLabel md idx = "Published" <->
             slotPublished match nth_error (m_renditionData md) idx with
                           | Some d => d
                           | None => None
                           end = true)).
  { intros md idx Hne. rewrite getSlotPublishLabel_slot by exact Hne.
    destruct (slotPublished _); split; congruence || discriminate. }
  split; [|split; [|split]].
  - intros md idx. destruct (Nat.eq_dec idx 2) as [->|Hne].
    + unfold getSlotPublishLabel. cbn [Nat.eqb].
      split; [tauto|]. split; [|tauto].
      split; [discriminate|intros [H _]; congruence].
    + split; [|split].
      * rewrite getSlotPublishLabel_slot by exact Hne.
        destruct (slotPublished _); split; (discriminate || contradiction).
      * rewrite (Hlabel md idx Hne). split.
        -- intros H. split; [exact Hne|].
           destruct (nth_error (m_renditionData md) idx) as [[d|]|];
             try discriminate.
           exists d. cbn [slotPublished] in H. apply andb_true_iff in H.
           repeat split; tauto.
        -- intros (_ & d & -> & H1 & H2). cbn [slotPublished].
           now rewrite H1, H2.
      * rewrite getSlotPublishLabel_slot by exact Hne.
        destruct (slotPublished _); tauto.
  - intros md. destruct (publishedLabels_slots md) as [_ ->].
    unfold publishedLabels. cbn [filter].
    destruct (String.eqb_spec (getSlotPublishLabel md 0) "Published") as [E0|N0];
      destruct (String.eqb_spec (getSlotPublishLabel md 1) "Published")
        as [E1|N1]; cbn [List.length]; split; try tauto; lia.
  - intros label slot comp Hslot. rewrite Hlabel by lia.
    unfold cellOf. cbn [gc_isPublished]. tauto.
  - rewrite countCards_published. unfold cardSlots.
    induction comparisons as [|c l IH]; [reflexivity|].
    cbn [flat_map map]. rewrite filter_app, length_app, Nat2Z.inj_add.
    rewrite sumZ_cons, <- IH.
    now rewrite (proj1 (publishedLabels_slots (g_metadata c))).
Qed.

(** ** Means of Table A over the cards of the pipeline *)

Lemma group_actions (lc : string -> string -> Z) (insp : Inspection)
    (g : Group) :
  In g (processInspectionData lc insp) ->
  (exists n, nth_error (m_actions (g_metadata g)) 1 = Some (Some n)) /\
  (if hasPrevious g
   then exists n0, nth_error (m_actions (g_metadata g)) 0 = Some (Some n0)
   else nth_error (m_actions (g_metadata g)) 0 = Some None).
Proof.
  intros Hin. unfold hasPrevious. apply processInspectionData_In in Hin.
  destruct Hin as (d & [key row] & Hd & Hin & Hb).
  destruct (collectRows_wf d) as [Hnd Hall].
  pose proof (Hall key row Hin) as Hwf.
  destruct (renditionNumsOf row) as [|latestR rest] eqn:E;
    [unfold buildGroup in Hb; rewrite E in Hb; discriminate|].
  destruct (renditionNumsOf_top row latestR rest Hwf E) as (Ht1 & _ & Ht3).
  destruct (pickBestAt_Some row latestR Hwf Ht1) as (cl & Hcl).
  unfold buildGroup in Hb. rewrite E in Hb. injection Hb as <-.
  open_group. cbn [List.length]. rewrite Hcl. cbn [option_map].
  split; [now exists (c_actions cl)|].
  destruct rest as [|p rest']; cbn [hd_error option_map bind List.length Nat.leb].
  - reflexivity.
  - cbn [hd_error] in Ht3. destruct Ht3 as (Hp & _).
    destruct (pickBestAt_Some row p Hwf Hp) as (cp & Hcp).
    rewrite Hcp. now exists (c_actions cp).
Qed.

Lemma addSlots_fold_pipeline (comps : list Group) (s : SlotSums) :
  (forall g, In g comps ->
     (exists n, nth_error (m_actions (g_metadata g)) 1 = Some (Some n)) /\
     (if hasPrevious g
      then exists n0, nth_error (m_actions (g_metadata g)) 0 = Some (Some n0)
      else nth_error (m_actions (g_metadata g)) 0 = Some None)) ->
  fold_left (fun s comp => addSlots (m_actions (g_metadata comp)) s) comps s =
  mkSums (previousTotalActions s + sumZ (map previousActionsNum comps))
    (previousCount s + Z.of_nat (List.length (filter hasPrevious comps)))
    (latestTotalActions s + sumZ (map latestActionsNum comps))
    (latestCount s + Z.of_nat (List.length comps)).
Proof.
  revert s. induction comps as [|g comps IH]; intros s H;
    cbn [fold_left map filter List.length].
  - change (sumZ []) with 0. destruct s. cbn. f_equal; lia.
  - rewrite IH by (intros g' Hg'; apply H; now right).
    destruct (H g (or_introl eq_refl)) as [(n & H1) H0].
    rewrite !sumZ_cons. unfold addSlots, previousActionsNum at 2,
      latestActionsNum at 2. rewrite H1.
    destruct (hasPrevious g).
    + destruct H0 as (n0 & H0). rewrite H0.
      cbn [previousTotalActions previousCount latestTotalActions latestCount
           List.length]. f_equal; lia.
    + rewrite H0.
      cbn [previousTotalActions previousCount latestTotalActions latestCount
           List.length]. f_equal; lia.
Qed.

(** X25.  For an inspection processed by the pipeline, the latest mean of
    its Table A row is the sum of the Latest action totals over all its
    cards divided by the number of cards, since every card has a Latest
    slot; the previous mean divides the sum of the Previous action totals
    by the number of cards whose POV has at least two renditions. *)
Theorem tableA_means_of_pipeline (localeCompare : string -> string -> Z)
    (idx : nat) (insp : ProcessedInspection) :
  pi_comparisons insp =
    processInspectionData localeCompare (pi_rawInspection insp) ->
  let row := tableARow idx insp in
  let comps := pi_comparisons insp in
  a_avgLatestActions row =
    meanOrZero (sumZ (map latestActionsNum comps))
      (Z.of_nat (List.length comps)) /\
  a_avgPreviousActions row =
    meanOrZero (sumZ (map previousActionsNum comps))
      (Z.of_nat (List.length (filter hasPrevious comps))) /\
  (forall comp, In comp comps -> hasPrevious comp = false ->
     previousActionsNum comp = 0) /\
  (List.length (filter hasPrevious comps) <= List.length comps)%nat.
Proof.
  intros Hp. cbv zeta.
  assert (Hshape : forall g, In g (pi_comparisons insp) ->
            (exists n, nth_error (m_actions (g_metadata g)) 1 = Some (Some n)) /\
            (if hasPrevious g
             then exists n0,
                 nth_error (m_actions (g_metadata g)) 0 = Some (Some n0)
             else nth_error (m_actions (g_metadata g)) 0 = Some None)).
  { intros g Hg. rewrite Hp in Hg.
    exact (group_actions localeCompare _ g Hg). }
  unfold tableARow. cbn [a_avgLatestActions a_avgPreviousActions].
  rewrite (addSlots_fold_pipeline _ _ Hshape).
  cbn [previousTotalActions previousCount latestTotalActions latestCount
       Z.add].
  split; [reflexivity|]. split; [reflexivity|]. split.
  - intros comp Hin Hno. destruct (Hshape comp Hin) as [_ H0].
    rewrite Hno in H0. unfold previousActionsNum. now rewrite H0.
  - apply filter_length_le.
Qed.

Lemma tableA_means_of_pipeline_witness :
  (a_avgLatestActions (tableARow 0 sampleEndToEndProcessed) == 2)%Q /\
  (a_avgPreviousActions (tableARow 0 sampleEndToEndProcessed) == 1)%Q.
Proof.
  destruct (tableA_means_of_pipeline codePointCompare 0
              sampleEndToEndProcessed eq_refl) as (H1 & H2 & _).
  rewrite H1, H2. split; vm_compute; reflexivity.
Defined.

(** ** Cards counted by Table D *)

Lemma addComparison_step (agg : list (string * CompRow)) (comp : Group) :
  addComparison agg comp =
  match m_pov (g_metadata comp) with
  | None => agg
  | Some p =>
      assign String.eqb (compKey comp p)
        (withSlots
           (match lookup String.eqb (compKey comp p) agg with
            | Some row => row
            | None => freshCompRow comp p
            end) comp)
        agg
  end.
Proof.
  unfold addComparison, compKey.
  destruct (m_pov (g_metadata comp)) as [p|]; [|reflexivity].
  destruct (lookup String.eqb
              (joinKey (strOrNA (m_bucketType (g_metadata comp)))
                 (orNA (simulatedCamera p)) (orNA (simulatedCameraSide p))
                 (orNA (originalCameraId p))) agg) as [row|] eqn:E.
  - rewrite E. reflexivity.
  - rewrite (lookup_assign_eq String.eqb_spec), assign_assign. reflexivity.
Qed.

Lemma addSlots_counts (actions : list (option Z)) (s : SlotSums) :
  previousCount (addSlots actions s) =
    previousCount s +
    match nth_error actions 0 with Some (Some _) => 1 | _ => 0 end /\
  latestCount (addSlots actions s) =
    latestCount s +
    match nth_error actions 1 with Some (Some _) => 1 | _ => 0 end.
Proof.
  unfold addSlots.
  destruct (nth_error actions 0) as [[n0|]|];
    destruct (nth_error actions 1) as [[n1|]|];
    cbn [previousCount latestCount]; lia.
Qed.

Lemma countedSlot_pov (slot : nat) (comp : Group) :
  countedSlot slot comp =
  match m_pov (g_metadata comp) with
  | Some _ =>
      match nth_error (m_actions (g_metadata comp)) slot with
      | Some (Some _) => true
      | _ => false
      end
  | None => false
  end.
Proof.
  unfold countedSlot. destruct (m_pov (g_metadata comp)); reflexivity.
Qed.

Lemma addComparison_fold_counts (comps : list Group)
    (agg : list (string * CompRow)) :
  NoDup (map fst agg) ->
  let result := fold_left addComparison comps agg in
  NoDup (map fst result) /\
  sumZ (map (fun e => previousCount (cr_sums (snd e))) result) =
    sumZ (map (fun e => previousCount (cr_sums (snd e))) agg) +
    Z.of_nat (List.length (filter (countedSlot 0) comps)) /\
  sumZ (map (fun e => latestCount (cr_sums (snd e))) result) =
    sumZ (map (fun e => latestCount (cr_sums (snd e))) agg) +
    Z.of_nat (List.length (filter (countedSlot 1) comps)).
Proof.
  cbv zeta. revert agg.
  induction comps as [|comp comps IH]; intros agg Hnd;
    cbn [fold_left filter List.length].
  - split; [exact Hnd|]. split; lia.
  - rewrite addComparison_step, !(countedSlot_pov _ comp).
    destruct (m_pov (g_metadata comp)) as [p|].
    + destruct (IH (assign String.eqb (compKey comp p)
                      (withSlots
                         match lookup String.eqb (compKey comp p) agg with
                         | Some row => row
                         | None => freshCompRow comp p
                         end comp) agg)) as (I1 & I2 & I3);
        [now apply (NoDup_assign String.eqb_spec)|].
      split; [exact I1|]. rewrite I2, I3.
      rewrite (sumZ_assign (fun r => previousCount (cr_sums r))),
        (sumZ_assign (fun r => latestCount (cr_sums r))).
      unfold withSlots. cbn [cr_sums].
      destruct (addSlots_counts (m_actions (g_metadata comp))
                  (cr_sums match lookup String.eqb (compKey comp p) agg with
                           | Some row => row
                           | None => freshCompRow comp p
                           end)) as [A0 A1].
      rewrite A0, A1.
      destruct (lookup String.eqb (compKey comp p) agg) as [row|];
        cbn [freshCompRow cr_sums previousCount latestCount];
        destruct (nth_error (m_actions (g_metadata comp)) 0) as [[n0|]|];
        destruct (nth_error (m_actions (g_metadata comp)) 1) as [[n1|]|];
        cbn [List.length]; split; lia.
    + exact (IH agg Hnd).
Qed.

Lemma aggDComparisonsOf_flat (pis : list ProcessedInspection) :
  aggDComparisonsOf pis = fold_left addComparison (allComparisonsOf pis) [].
Proof.
  unfold aggDComparisonsOf, allComparisonsOf. generalize (@nil (string * CompRow)).
  induction pis as [|insp pis IH]; intros agg; cbn [fold_left flat_map];
    [reflexivity|].
  now rewrite fold_left_app, IH.
Qed.

Lemma addImage_zero_counts (aggD : list (string * AggRow))
    (img : RawImageEntry) :
  allValues (fun r => d_previousCount r = 0 /\ d_latestCount r = 0) aggD ->
  allValues (fun r => d_previousCount r = 0 /\ d_latestCount r = 0)
    (addImage aggD img).
Proof.
  intros H. unfold addImage, addToTableD.
  set (key := joinKey _ _ _ _).
  set (aggD1 := match lookup String.eqb key aggD with
                | Some _ => aggD
                | None => _
                end).
  assert (H1 : allValues (fun r => d_previousCount r = 0 /\ d_latestCount r = 0)
                 aggD1).
  { unfold aggD1. destruct (lookup String.eqb key aggD); [exact H|].
    apply allValues_assign; [exact H|]. split; reflexivity. }
  destruct (lookup String.eqb key aggD1) as [row|] eqn:E; [|exact H1].
  apply allValues_assign; [exact H1|].
  apply (allValues_lookup _ _ _ _ H1) in E. exact E.
Qed.

Lemma mergeComparison_assign (aggD : list (string * AggRow)) (key : string)
    (compRow : CompRow) :
  exists row,
    mergeComparison aggD (key, compRow) = assign String.eqb key row aggD /\
    d_previousCount row = previousCount (cr_sums compRow) /\
    d_latestCount row = latestCount (cr_sums compRow).
Proof.
  unfold mergeComparison.
  destruct (lookup String.eqb key aggD) as [row|];
    eexists; (split; [reflexivity|split; reflexivity]).
Qed.

Lemma mergeComparison_fold_counts (l : list (string * CompRow))
    (aggD : list (string * AggRow)) :
  NoDup (map fst l) ->
  (forall k c r, In (k, c) l -> lookup String.eqb k aggD = Some r ->
     d_previousCount r = 0 /\ d_latestCount r = 0) ->
  sumZ (map (fun e => d_previousCount (snd e)) (fold_left mergeComparison l aggD)) =
    sumZ (map (fun e => d_previousCount (snd e)) aggD) +
    sumZ (map (fun e => previousCount (cr_sums (snd e))) l) /\
  sumZ (map (fun e => d_latestCount (snd e)) (fold_left mergeComparison l aggD)) =
    sumZ (map (fun e => d_latestCount (snd e)) aggD) +
    sumZ (map (fun e => latestCount (cr_sums (snd e))) l).
Proof.
  revert aggD. induction l as [|[k c] l IH]; intros aggD Hnd Hz;
    cbn [fold_left map].
  - change (sumZ []) with 0. split; lia.
  - inversion Hnd as [|? ? Hnotin Hnd']; subst.
    destruct (mergeComparison_assign aggD k c) as (row & -> & R0 & R1).
    destruct (IH (assign String.eqb k row aggD) Hnd') as [I0 I1].
    + intros k' c' r Hin Hl.
      assert (Hne : k <> k').
      { intros ->. apply Hnotin. now apply (in_map fst) in Hin. }
      rewrite (lookup_assign_neq String.eqb_spec _ _ Hne) in Hl.
      apply (Hz k' c' r); [now right|exact Hl].
    + rewrite I0, I1, !sumZ_cons. cbn [snd].
      rewrite (sumZ_assign d_previousCount), (sumZ_assign d_latestCount).
      rewrite R0, R1.
      destruct (lookup String.eqb k aggD) as [r|] eqn:E.
      * destruct (Hz k c r (or_introl eq_refl) E) as [Z0 Z1].
        rewrite Z0, Z1. split; lia.
      * split; lia.
Qed.

Lemma group_pov (lc : string -> string -> Z) (insp : Inspection) (g : Group) :
  In g (processInspectionData lc insp) -> m_pov (g_metadata g) <> None.
Proof.
  intros Hin. apply processInspectionData_In in Hin.
  destruct Hin as (d & [key row] & _ & _ & Hb).
  unfold buildGroup in Hb.
  destruct (renditionNumsOf row); [discriminate|].
  injection Hb as <-. open_group. discriminate.
Qed.

(** X26.  Table D counts every card in exactly one row.  Over its rows
    the latest counts add up to the number of cards, of all loaded
    inspections, that have a POV and a Latest action total, and the
    previous counts to the number of cards with a POV and a Previous
    action total.  For cards made by the pipeline these are all cards and
    the cards whose POV has at least two renditions. *)
Theorem tableD_counts_cards (processedInspections : list ProcessedInspection) :
  let tableD := snd (computeAggregatedMetrics processedInspections) in
  let cards := allComparisonsOf processedInspections in
  sumZ (map (fun r => d_latestCount (d_row r)) tableD) =
    Z.of_nat (List.length (filter (countedSlot 1) cards)) /\
  sumZ (map (fun r => d_previousCount (d_row r)) tableD) =
    Z.of_nat (List.length (filter (countedSlot 0) cards)) /\
  (forall localeCompare,
     processedByPipeline localeCompare processedInspections ->
     sumZ (map (fun r => d_latestCount (d_row r)) tableD) =
       Z.of_nat (List.length cards) /\
     sumZ (map (fun r => d_previousCount (d_row r)) tableD) =
       Z.of_nat (List.length (filter hasPrevious cards)) /\
     sumZ (map (fun r => d_previousCount (d_row r)) tableD) <=
       sumZ (map (fun r => d_latestCount (d_row r)) tableD)).
Proof.
  cbv zeta. unfold computeAggregatedMetrics. cbn [snd].
  assert (Hsum : forall f : AggRow -> Z,
             sumZ (map (fun r => f (d_row r))
                     (stableSort
                        (fun a b =>
                           Qpositive
                             (d_avgActionsPerImage b - d_avgActionsPerImage a))
                        (map tableDRow
                           (map snd (aggDOf processedInspections))))) =
             sumZ (map (fun e => f (snd e)) (aggDOf processedInspections))).
  { intros f.
    rewrite (sumZ_perm _ _ (Permutation_map _ (stableSort_perm _ _))).
    now rewrite !map_map. }
  rewrite !Hsum. unfold aggDOf.
  destruct (addComparison_fold_counts
              (allComparisonsOf processedInspections) [])
    as (C1 & C2 & C3); [constructor|].
  cbv zeta in C1, C2, C3. rewrite <- aggDComparisonsOf_flat in C1, C2, C3.
  assert (Hzero : allValues
                    (fun r => d_previousCount r = 0 /\ d_latestCount r = 0)
                    (fold_left addPublished processedInspections [])).
  { rewrite addPublished_images.
    assert (H : forall l aggD,
               allValues
                 (fun r => d_previousCount r = 0 /\ d_latestCount r = 0) aggD ->
               allValues
                 (fun r => d_previousCount r = 0 /\ d_latestCount r = 0)
                 (fold_left addImage l aggD)).
    { induction l as [|img l IH]; intros aggD H; cbn [fold_left];
        [exact H|]. apply IH. now apply addImage_zero_counts. }
    apply H. intros ? ? []. }
  destruct (mergeComparison_fold_counts
              (aggDComparisonsOf processedInspections)
              (fold_left addPublished processedInspections []) C1)
    as [M0 M1].
  { intros k c r _ Hl. exact (allValues_lookup _ _ _ _ Hzero Hl). }
  assert (Hz : forall f : AggRow -> Z,
             (forall r, (d_previousCount r = 0 /\ d_latestCount r = 0) ->
                        f r = 0) ->
             sumZ (map (fun e => f (snd e))
                     (fold_left addPublished processedInspections [])) = 0).
  { intros f Hf. revert Hzero.
    generalize (fold_left addPublished processedInspections []).
    induction l as [|[k r] l IH]; intros Hl; [reflexivity|].
    cbn [map snd]. rewrite sumZ_cons, IH.
    - rewrite (Hf r); [lia|]. apply (Hl k). now left.
    - intros k' r' Hin. apply (Hl k'). now right. }
  rewrite M0, M1, C2, C3.
  rewrite (Hz d_previousCount) by tauto. rewrite (Hz d_latestCount) by tauto.
  change (sumZ (map _ [])) with 0.
  split; [lia|]. split; [lia|].
  intros lc Hp.
  assert (Hcards : forall g, In g (allComparisonsOf processedInspections) ->
            countedSlot 1 g = true /\ countedSlot 0 g = hasPrevious g).
  { intros g Hg. unfold allComparisonsOf in Hg. apply in_flat_map in Hg.
    destruct Hg as (insp & Hinsp & Hg). rewrite (Hp insp Hinsp) in Hg.
    destruct (group_actions lc _ g Hg) as [(n & H1) H0].
    pose proof (group_pov lc _ g Hg) as Hpov.
    rewrite !countedSlot_pov.
    destruct (m_pov (g_metadata g)); [|congruence]. rewrite H1.
    destruct (hasPrevious g); [destruct H0 as (n0 & ->)|rewrite H0];
      split; reflexivity. }
  rewrite (filter_ext_in (countedSlot 1) (fun _ => true))
    by (intros g Hg; now apply Hcards).
  rewrite (filter_ext_in (countedSlot 0) hasPrevious)
    by (intros g Hg; now apply Hcards).
  assert (Htrue : forall l : list Group, filter (fun _ => true) l = l).
  { induction l as [|x l IH]; [reflexivity|]. cbn [filter]. now rewrite IH. }
  rewrite Htrue.
  pose proof (filter_length_le hasPrevious
                (allComparisonsOf processedInspections)).
  split; [lia|]. split; lia.
Qed.

(** ** Published images on the cards *)

Lemma scoreCandidate_max (c : Candidate) :
  scoreCandidate c <= 170 /\
  (170 <= scoreCandidate c ->
   candidatePublished c = true /\ c_source c = "images").
Proof.
  rewrite scoreCandidate_formula. unfold candidatePublished.
  destruct (truthyOpt (c_activeImage c)), (c_isActive c);
    destruct (String.eqb_spec (c_source c) "images") as [E|_];
    try destruct (String.eqb (c_source c) "uvpaintHistoryImages");
    cbn [andb]; split; try lia; intros; try lia; split; congruence.
Qed.

Lemma buildGroup_total (id : string) (originals : OriginalsByCamSide)
    (key : string) (row : Row) :
  renditionNumsOf row <> [] ->
  exists g, buildGroup id originals (key, row) = Some g.
Proof.
  intros Hne. unfold buildGroup.
  destruct (renditionNumsOf row); [congruence|]. eexists. reflexivity.
Qed.

(** X27.  A published image of the current pipeline with a finite
    rendition number and a non-blank active image belongs to a card, and
    when its rendition number is the Latest or the Previous one of that
    card, the slot is published: its rendition data is active with an
    image that comes from the current pipeline, its label is
    ["Published"], and the card is flagged published. *)
Theorem published_image_surfaces (localeCompare : string -> string -> Z)
    (insp : Inspection) (d : UvpaintData) (img : RawImageEntry) (r : Z)
    (u : string) :
  uvpaintData insp = Some d ->
  In img (images d) ->
  isPublishedUvpaint img = true ->
  finiteNumber (renditionOr (rendition img) 3) = Some r ->
  safeUrl (activeImage img) = Some u ->
  exists g,
    In g (processInspectionData localeCompare insp) /\
    (exists bucketType p,
       bucketTypeOf (imageType img) = Some bucketType /\
       pov img = Some p /\
       m_groupKey (g_metadata g) = createPOVKey bucketType p) /\
    forall i, (i < 2)%nat ->
      nth_error (m_renditions (g_metadata g)) i = Some (Some (RNum r)) ->
      (exists datum,
         nth_error (m_renditionData (g_metadata g)) i = Some (Some datum) /\
         slotPublished (Some datum) = true) /\
      nth_error (m_sources (g_metadata g)) i = Some "images" /\
      getSlotPublishLabel (g_metadata g) i = "Published" /\
      m_published (g_metadata g) = true.
Proof.
  intros Hd Hin Hpub Hr Hu.
  unfold isPublishedUvpaint in Hpub.
  apply andb_true_iff in Hpub. destruct Hpub as [Hpub Hallowed].
  apply andb_true_iff in Hpub. destruct Hpub as [Hpub Hart].
  apply andb_true_iff in Hpub. destruct Hpub as [Hpub Hpov].
  apply andb_true_iff in Hpub. destruct Hpub as [Hact _].
  apply negb_true_iff in Hart.
  destruct (pov img) as [p|] eqn:Ep; [|discriminate].
  destruct (bucketTypeOf (imageType img)) as [bt|] eqn:Eb;
    [|now apply bucketTypeOf_allowed in Hallowed].
  assert (Hex : exists c,
             extracted ("images", 3, img) = Some (createPOVKey bt p, r, c)).
  { unfold extracted. rewrite Hart, Ep, Eb, Hr. eexists. reflexivity. }
  destruct Hex as (c & Hex).
  pose proof (extracted_fields _ _ _ _ _ _ Hex)
    as (_ & _ & _ & _ & _ & Ha & _ & Hi & _ & _ & Hs).
  cbn in Hs. rewrite Hu in Ha. rewrite Hact in Hi.
  assert (Hent : In ("images", 3, img) (entriesOf d))
    by (apply entriesOf_In; left; tauto).
  destruct (collectRows_extracted d _ _ _ _ Hent Hex) as (row & Hrow & Hc).
  pose proof (rowsWf_lookup _ _ _ (collectRows_wf d) Hrow) as Hwf.
  pose proof (renditionsAt_key row r c Hc) as Hkey.
  assert (Hnums : renditionNumsOf row <> []).
  { intros E. apply renditionNumsOf_In in Hkey. rewrite E in Hkey.
    destruct Hkey. }
  destruct (buildGroup_total (inspectionId insp) (buildOriginals d)
              (createPOVKey bt p) row Hnums) as (g & Hb).
  destruct (proj2 (group_of_row localeCompare insp d _ row g Hd Hrow) Hb)
    as [Hg Hk].
  exists g. split; [exact Hg|]. split; [exists bt, p; tauto|].
  assert (Hscore : scoreCandidate c = 170).
  { rewrite scoreCandidate_formula, Ha, Hi, Hs.
    destruct (safeUrl_fixed _ _ Hu) as [Hne _]. cbn [truthyOpt].
    rewrite Hne. reflexivity. }
  assert (Hbest : exists best,
             pickBestAt row r = Some best /\
             candidatePublished best = true /\ c_source best = "images").
  { destruct (pickBestAt_first_best row r) as (best & pre & post & Hp & Hl & Hpre & Hpost);
      [intros E; rewrite E in Hc; destruct Hc|].
    exists best. split; [exact Hp|].
    apply scoreCandidate_max. rewrite Hl in Hc. apply in_app_iff in Hc.
    destruct Hc as [Hc|[<-|Hc]].
    - specialize (Hpre c Hc). lia.
    - lia.
    - specialize (Hpost c Hc). lia. }
  destruct Hbest as (best & Hpick & Hbp & Hbs).
  destruct (renditionNumsOf row) as [|latestR rest] eqn:E; [congruence|].
  destruct (buildGroup_published _ _ _ _ _ _ _ E Hb) as [Hrd Hflag].
  assert (Hrend : m_renditions (g_metadata g) =
                  [ option_map RNum (hd_error rest); Some (RNum latestR);
                    match nth_error (m_renditions (g_metadata g)) 2 with
                    | Some og => og
                    | None => None
                    end ] /\
                  firstn 2 (m_sources (g_metadata g)) =
                  [ orElse (option_map c_source
                              (bind (hd_error rest) (pickBestAt row)))
                      (match hd_error rest with
                       | Some _ => "N/A"
                       | None => "Empty"
                       end);
                    orElse (option_map c_source (pickBestAt row latestR))
                      "N/A" ]).
  { clear - E Hb. unfold buildGroup in Hb. rewrite E in Hb.
    injection Hb as <-. open_group. cbn [firstn]. split; reflexivity. }
  destruct Hrend as [Hrend Hsrc].
  assert (Hsrc' : forall i, (i < 2)%nat ->
            nth_error (m_sources (g_metadata g)) i =
            nth_error (firstn 2 (m_sources (g_metadata g))) i).
  { intros i Hi2. rewrite nth_error_firstn.
    destruct (Nat.ltb_spec i 2); [reflexivity|lia]. }
  assert (Hpubd : slotPublished (Some (datumOf best)) = true) by exact Hbp.
  assert (Hslot : forall i, (i < 2)%nat ->
            nth_error (m_renditions (g_metadata g)) i = Some (Some (RNum r)) ->
            nth_error (m_renditionData (g_metadata g)) i =
              Some (Some (datumOf best)) /\
            nth_error (m_sources (g_metadata g)) i = Some "images" /\
            (bind (hd_error rest) (pickBestAt row) = Some best \/
             pickBestAt row latestR = Some best)).
  { intros i Hi2 Hri. rewrite (Hsrc' i Hi2), Hsrc, Hrd. rewrite Hrend in Hri.
    destruct i as [|[|i]]; [| |lia]; cbn [nth_error] in *.
    - destruct (hd_error rest) as [p0|]; [|discriminate].
      injection Hri as ->. cbn [bind option_map]. rewrite Hpick.
      cbn [option_map orElse]. rewrite Hbs. repeat split; tauto.
    - injection Hri as ->. rewrite Hpick. cbn [option_map orElse].
      rewrite Hbs. repeat split; tauto. }
  intros i Hi2 Hri. destruct (Hslot i Hi2 Hri) as (S1 & S2 & S3).
  split; [exists (datumOf best); split; [exact S1|exact Hpubd]|].
  split; [exact S2|]. split.
  - rewrite getSlotPublishLabel_slot by lia. rewrite S1.
    now rewrite Hpubd.
  - apply Hflag. exists best. split; [exact S3|].
    unfold candidatePublished in Hbp. apply andb_true_iff in Hbp. exact Hbp.
Qed.

Lemma published_image_surfaces_witness :
  exists g,
    In g (processInspectionData codePointCompare sampleEndToEnd) /\
    m_published (g_metadata g) = true.
Proof.
  destruct (published_image_surfaces codePointCompare sampleEndToEnd
              {| images :=
                   [ sampleEntry "SlimOverview" frontLeft (NumFinite 3)
                       (JStr "u1") true JUndefined (Some [("a", ANum 2)]) ];
                 uvpaintHistoryImages :=
                   [ sampleEntry "SlimOverview" frontLeft (NumFinite 1)
                       (JStr "u0") false JUndefined (Some [("a", ANum 1)]) ] |}
              (sampleEntry "SlimOverview" frontLeft (NumFinite 3)
                 (JStr "u1") true JUndefined (Some [("a", ANum 2)]))
              3 "u1" eq_refl (or_introl eq_refl) eq_refl eq_refl eq_refl)
    as (g & Hg & _ & Hslot).
  exists g. split; [exact Hg|].
  assert (Hg' : exists g', processInspectionData codePointCompare sampleEndToEnd
                           = [g']) by (eexists; reflexivity).
  destruct Hg' as (g' & Hg').
  assert (g = g') by (rewrite Hg' in Hg; destruct Hg as [<-|[]]; reflexivity).
  subst g'.
  apply (Hslot 1%nat); [lia|].
  vm_compute in Hg'. injection Hg' as <-. reflexivity.
Defined.

(** ** Cards and the entries they come from *)

(** X28.  No viewpoint is lost and none is invented.  Every entry of the
    input that yields a candidate gets a card with its group key, whose
    Latest rendition number is at least the rendition number of the
    entry; every card goes back to an entry of the input filed under its
    group key and its Latest rendition number, which provides the image,
    the source and the action total of the Latest slot; and the pipeline
    returns no card exactly when no entry yields a candidate. *)
Theorem every_pov_gets_a_card (localeCompare : string -> string -> Z)
    (insp : Inspection) (d : UvpaintData) :
  uvpaintData insp = Some d ->
  let cards := processInspectionData localeCompare insp in
  (forall t k r c,
     In t (entriesOf d) -> extracted t = Some (k, r, c) ->
     exists g latestR,
       In g cards /\ m_groupKey (g_metadata g) = k /\
       nth_error (m_renditions (g_metadata g)) 1 = Some (Some (RNum latestR)) /\
       r <= latestR) /\
  (forall g, In g cards ->
     exists src dflt img latestR c,
       In (src, dflt, img) (entriesOf d) /\
       extracted (src, dflt, img) =
         Some (m_groupKey (g_metadata g), latestR, c) /\
       nth_error (m_renditions (g_metadata g)) 1 = Some (Some (RNum latestR)) /\
       nth_error (g_images g) 1 = Some (safeUrl (activeImage img)) /\
       nth_error (m_sources (g_metadata g)) 1 = Some src /\
       nth_error (m_actions (g_metadata g)) 1 =
         Some (Some (sumActionMap (actionsCounterMap img)))) /\
  (cards = [] <-> forall t, In t (entriesOf d) -> extracted t = None).
Proof.
  intros Hd. cbv zeta.
  assert (H1 : forall t k r c,
             In t (entriesOf d) -> extracted t = Some (k, r, c) ->
             exists g latestR,
               In g (processInspectionData localeCompare insp) /\
               m_groupKey (g_metadata g) = k /\
               nth_error (m_renditions (g_metadata g)) 1 =
                 Some (Some (RNum latestR)) /\
               r <= latestR).
  { intros t k r c Hin Hex.
    destruct (collectRows_extracted d _ _ _ _ Hin Hex) as (row & Hrow & Hc).
    pose proof (rowsWf_lookup _ _ _ (collectRows_wf d) Hrow) as Hwf.
    pose proof (renditionsAt_key row r c Hc) as Hkey.
    destruct (renditionNumsOf row) as [|latestR rest] eqn:E.
    { apply renditionNumsOf_In in Hkey. rewrite E in Hkey. destruct Hkey. }
    destruct (renditionNumsOf_top row latestR rest Hwf E) as (_ & Htop & _).
    destruct (buildGroup_total (inspectionId insp) (buildOriginals d) k row)
      as (g & Hb); [congruence|].
    destruct (proj2 (group_of_row localeCompare insp d _ row g Hd Hrow) Hb)
      as [Hg Hk].
    exists g, latestR. split; [exact Hg|]. split; [exact Hk|].
    split; [|now apply Htop].
    unfold buildGroup in Hb. rewrite E in Hb. injection Hb as <-.
    open_group. reflexivity. }
  assert (H2 : forall g, In g (processInspectionData localeCompare insp) ->
             exists src dflt img latestR c,
               In (src, dflt, img) (entriesOf d) /\
               extracted (src, dflt, img) =
                 Some (m_groupKey (g_metadata g), latestR, c) /\
               nth_error (m_renditions (g_metadata g)) 1 =
                 Some (Some (RNum latestR)) /\
               nth_error (g_images g) 1 = Some (safeUrl (activeImage img)) /\
               nth_error (m_sources (g_metadata g)) 1 = Some src /\
               nth_error (m_actions (g_metadata g)) 1 =
                 Some (Some (sumActionMap (actionsCounterMap img)))).
  { intros g Hg. apply processInspectionData_In in Hg.
    destruct Hg as (d' & [key row] & Hd' & Hin & Hb).
    assert (d' = d) by congruence. subst d'.
    destruct (collectRows_wf d) as [Hnd Hall].
    pose proof (Hall key row Hin) as Hwf.
    pose proof (In_lookup String.eqb_spec Hnd Hin) as Hrow.
    rewrite (buildGroup_key _ _ _ _ _ Hb).
    destruct (renditionNumsOf row) as [|latestR rest] eqn:E;
      [unfold buildGroup in Hb; rewrite E in Hb; discriminate|].
    destruct (renditionNumsOf_top row latestR rest Hwf E) as (Ht1 & _).
    destruct (pickBestAt_Some row latestR Hwf Ht1) as (cl & Hcl).
    destruct (picked_origin d key row latestR cl Hrow Hcl)
      as (src & dflt & img & Hent & Hex).
    pose proof (picked_image d key row latestR cl Hrow Hcl) as Himg.
    pose proof (extracted_fields _ _ _ _ _ _ Hex)
      as (_ & _ & _ & _ & _ & Ha & _ & _ & Hact & _ & Hs).
    assert (Hsrc : c_source cl = src /\ nonEmpty src = true).
    { apply entriesOf_In in Hent.
      destruct Hent as [(-> & _)|(-> & _)]; rewrite Hs; split; reflexivity. }
    destruct Hsrc as [Hsrc Hne].
    exists src, dflt, img, latestR, cl.
    split; [exact Hent|]. split; [exact Hex|].
    unfold buildGroup in Hb. rewrite E in Hb. injection Hb as <-.
    open_group. rewrite Hcl. cbn [bind option_map orElse].
    rewrite Himg, Ha, Hact, Hsrc, Hne. repeat split; reflexivity. }
  split; [exact H1|]. split; [exact H2|]. split.
  - intros Hnil t Hin.
    destruct (extracted t) as [[[k r] c]|] eqn:E; [|reflexivity].
    destruct (H1 t k r c Hin E) as (g & _ & Hg & _).
    rewrite Hnil in Hg. destruct Hg.
  - intros Hnone.
    destruct (processInspectionData localeCompare insp) as [|g l] eqn:E;
      [reflexivity|exfalso].
    destruct (H2 g (or_introl eq_refl)) as (src & dflt & img & r & c & Hin & Hex & _).
    rewrite (Hnone _ Hin) in Hex. discriminate.
Qed.

Lemma every_pov_gets_a_card_witness :
  exists g,
    In g (processInspectionData codePointCompare sampleThreeRenditions) /\
    nth_error (m_renditions (g_metadata g)) 1 = Some (Some (RNum 5)).
Proof.
  destruct (every_pov_gets_a_card codePointCompare sampleThreeRenditions _
              eq_refl) as (H1 & _).
  destruct (H1 ("images", 3, samplePairEntry) _ _ _
              ltac:(vm_compute; tauto) eq_refl)
    as (g & latestR & Hg & _ & Hr & _).
  assert (Hg' : exists g', processInspectionData codePointCompare
                             sampleThreeRenditions = [g'])
    by (eexists; reflexivity).
  destruct Hg' as (g' & Hg').
  assert (g = g') by (rewrite Hg' in Hg; destruct Hg as [<-|[]]; reflexivity).
  subst g'. exists g. split; [exact Hg|].
  vm_compute in Hg'. injection Hg' as <-. reflexivity.
Defined.
